(** * A shallow embedding of [mm.c]: boundary tags, a LIFO free list,
      best-fit placement and an in-place [realloc].

    The arena is an array of 4-byte words ([word_t] is [int32_t]); every
    C function of [mm.c] is a computation in a state-and-failure monad over
    the arena and the three global pointers. *)

From stdpp Require Import base numbers option list gmap.

Local Open Scope Z_scope.

(** ** Machine integers *)

(** [(word_t) z]: conversion to [int32_t], two's complement. *)
Definition to_word (z : Z) : Z := (z + 2 ^ 31) mod 2 ^ 32 - 2 ^ 31.

(** [(size_t) z]: conversion to the unsigned 64-bit [size_t]. *)
Definition to_size (z : Z) : Z := z mod 2 ^ 64.

(** [typedef enum { FREE = 0, USED = 1 } bt_flags;] *)
Definition FREE : Z := 0.
Definition USED : Z := 1.

Definition NULL : Z := 0.

(** Modelled from the spec: [mm.h] is not part of the sources; it defines
    the alignment unit [ALIGNMENT], 16 bytes, which is also the minimum
    block size ([mm_init] formats its two list anchors as blocks of
    [ALIGNMENT] bytes whose header and footer are three words apart). *)
Definition ALIGNMENT : Z := 16.

(** C truth value of an [int]. *)
Definition truth (z : Z) : bool := negb (z =? 0).

(** ** The arena and the globals *)

Record heap : Type := mkHeap {
  mem : gmap Z Z;        (* contents of the arena, one entry per word *)
  mem_lo : Z;            (* first byte of the arena *)
  mem_brk : Z;           (* first byte past the arena *)
  mem_max : Z;           (* last address the arena can grow to *)
  heap_start : Z;        (* static word_t *heap_start *)
  bt_heap_last : Z;      (* static word_t *bt_heap_last *)
  bt_heap_start : Z      (* static word_t *bt_heap_start *)
}.

Definition set_mem (m : gmap Z Z) (h : heap) : heap :=
  mkHeap m (mem_lo h) (mem_brk h) (mem_max h)
         (heap_start h) (bt_heap_last h) (bt_heap_start h).
Definition set_brk (b : Z) (h : heap) : heap :=
  mkHeap (mem h) (mem_lo h) b (mem_max h)
         (heap_start h) (bt_heap_last h) (bt_heap_start h).
Definition set_heap_start (p : Z) (h : heap) : heap :=
  mkHeap (mem h) (mem_lo h) (mem_brk h) (mem_max h)
         p (bt_heap_last h) (bt_heap_start h).
Definition set_bt_heap_last (p : Z) (h : heap) : heap :=
  mkHeap (mem h) (mem_lo h) (mem_brk h) (mem_max h)
         (heap_start h) p (bt_heap_start h).
Definition set_bt_heap_start (p : Z) (h : heap) : heap :=
  mkHeap (mem h) (mem_lo h) (mem_brk h) (mem_max h)
         (heap_start h) (bt_heap_last h) p.

(** A word access is defined when the address is 4-byte aligned and the
    word lies inside the arena. *)
Definition valid_word (h : heap) (a : Z) : bool :=
  (mem_lo h <=? a) && (a + 4 <=? mem_brk h) && (a mod 4 =? 0).

(** The word at [a]; a word never written reads as 0. *)
Definition peek (h : heap) (a : Z) : Z := default 0 (mem h !! a).

(** ** The monad: state passing with failure

    [None] is a fault (an access outside the arena, or a loop that ran out
    of fuel). *)

Definition M (A : Type) : Type := heap -> option (A * heap).

Definition ret {A} (a : A) : M A := fun h => Some (a, h).
Definition bind {A B} (m : M A) (f : A -> M B) : M B :=
  fun h => match m h with
           | Some (a, h') => f a h'
           | None => None
           end.
Definition fault {A} : M A := fun _ => None.
Definition get : M heap := fun h => Some (h, h).
Definition modify (f : heap -> heap) : M unit := fun h => Some (tt, f h).

Notation "x <- m ;; k" := (bind m (fun x => k))
  (at level 100, m at next level, right associativity).
Notation "m ;; k" := (bind m (fun _ => k))
  (at level 100, right associativity).

(** [*a] *)
Definition load (a : Z) : M Z :=
  fun h => if valid_word h a then Some (peek h a, h) else None.

(** The arena with the word at [a] overwritten by [v]. *)
Definition poke (a v : Z) (h : heap) : heap :=
  set_mem (<[a := v]> (mem h)) h.

(** [*a = v] *)
Definition store (a v : Z) : M unit :=
  fun h => if valid_word h a then Some (tt, poke a v h) else None.

(** Modelled from the spec: [memlib.c] is not part of the sources. The
    growth primitive extends the arena contiguously by [incr] bytes and
    returns the old break, or returns [(void * )-1] and changes nothing
    when the arena cannot grow that far. *)
Definition SBRK_FAIL : Z := 2 ^ 64 - 1.
Definition mem_sbrk (incr : Z) : M Z :=
  fun h => if (0 <=? incr) && (mem_brk h + incr <=? mem_max h)
           then Some (mem_brk h, set_brk (mem_brk h + incr) h)
           else Some (SBRK_FAIL, h).

(** ** Boundary tag handling *)

Definition bt_size (bt : Z) : M Z :=
  v <- load bt ;; ret (Z.land v (Z.lnot USED)).

Definition bt_used (bt : Z) : M Z :=
  v <- load bt ;; ret (Z.land v USED).

Definition bt_free (bt : Z) : M Z :=
  v <- load bt ;; ret (if truth (Z.land v USED) then 0 else 1).

Definition bt_footer (bt : Z) : M Z :=
  sz <- bt_size bt ;; ret (bt + sz - 4).

Definition bt_fromptr (ptr : Z) : Z := ptr - 4.

Definition bt_make (bt size flags : Z) : M unit :=
  store bt (Z.lor (to_word size) flags).

Definition bt_payload (bt : Z) : Z := bt + 4.

Definition bt_next (bt : Z) : M Z :=
  sz <- bt_size bt ;;
  if sz =? 0 then ret NULL
  else sz' <- bt_size bt ;; ret (bt + 4 * (sz' ÷ 4)).

Definition bt_prev (bt : Z) : M Z :=
  h <- get ;;
  if bt_payload bt =? bt_fromptr (heap_start h) then ret NULL
  else sz <- bt_size (bt - 4) ;; ret (bt - 4 * (sz ÷ 4)).

(** ** LIFO handling *)

Definition lifo_get_next (bt : Z) : M Z := load (bt + 4).
Definition lifo_get_prev (bt : Z) : M Z := load (bt + 8).
Definition lifo_put_next (bt p : Z) : M unit := store (bt + 4) p.
Definition lifo_put_prev (bt p : Z) : M unit := store (bt + 8) p.

(** The distance is counted in words. *)
Definition lifo_create_next (current_bt next_bt : Z) : M unit :=
  lifo_put_next current_bt (to_word ((next_bt - current_bt) ÷ 4)).

Definition lifo_create_prev (current_bt prev_bt : Z) : M unit :=
  lifo_put_prev current_bt (to_word ((prev_bt - current_bt) ÷ 4)).

Definition lifo_next (bt : Z) : M Z :=
  distance <- lifo_get_next bt ;;
  if distance =? 0 then ret NULL else ret (bt + 4 * distance).

Definition lifo_prev (bt : Z) : M Z :=
  distance <- lifo_get_prev bt ;;
  if distance =? 0 then ret NULL else ret (bt + 4 * distance).

Definition lifo_connect (current_bt next_bt : Z) : M unit :=
  lifo_create_next current_bt next_bt ;;
  lifo_create_prev next_bt current_bt.

Definition lifo_add (current_bt : Z) : M unit :=
  h <- get ;;
  next_bt <- lifo_next (bt_heap_start h) ;;
  lifo_create_next current_bt next_bt ;;
  lifo_create_prev current_bt (bt_heap_start h) ;;
  lifo_create_next (bt_heap_start h) current_bt ;;
  lifo_create_prev next_bt current_bt.

(** ** Coalescing

    The conditions of the four cases are C short-circuit expressions: the
    successor's tag is read only when the block is not the topmost one. *)

Definition coalesce (ptr : Z) : M Z :=
  let current_bt := bt_fromptr ptr in
  prev_bt <- bt_prev current_bt ;;
  next_bt <- bt_next current_bt ;;
  sz <- bt_size current_bt ;;
  let size := to_size sz in
  h <- get ;;
  pu <- bt_used prev_bt ;;
  c1 <- (if truth pu
         then if bt_heap_last h =? current_bt then ret true
              else nu <- bt_used next_bt ;; ret (truth nu)
         else ret false) ;;
  if c1 : bool then
    (* Case 1 *)
    lifo_add current_bt ;;
    ret ptr
  else
    pu <- bt_used prev_bt ;;
    c2 <- (if truth pu
           then if negb (bt_heap_last h =? current_bt)
                then nf <- bt_free next_bt ;; ret (truth nf)
                else ret false
           else ret false) ;;
    if c2 : bool then
      (* Case 2 *)
      nsz <- bt_size next_bt ;;
      let size := to_size (size + nsz) in
      lp <- lifo_prev next_bt ;;
      ln <- lifo_next next_bt ;;
      lifo_connect lp ln ;;
      bt_make current_bt size FREE ;;
      ft <- bt_footer current_bt ;;
      bt_make ft size FREE ;;
      lifo_add current_bt ;;
      h <- get ;;
      (if bt_heap_last h =? next_bt
       then modify (set_bt_heap_last current_bt)
       else ret tt) ;;
      ret ptr
    else
      pf <- bt_free prev_bt ;;
      c3 <- (if truth pf
             then if bt_heap_last h =? current_bt then ret true
                  else nu <- bt_used next_bt ;; ret (truth nu)
             else ret false) ;;
      if c3 : bool then
        (* Case 3 *)
        psz <- bt_size prev_bt ;;
        let size := to_size (size + psz) in
        lp <- lifo_prev prev_bt ;;
        ln <- lifo_next prev_bt ;;
        lifo_connect lp ln ;;
        ft <- bt_footer current_bt ;;
        bt_make ft size FREE ;;
        bt_make prev_bt size FREE ;;
        lifo_add prev_bt ;;
        let ptr := bt_payload prev_bt in
        h <- get ;;
        (if bt_heap_last h =? current_bt
         then modify (set_bt_heap_last prev_bt)
         else ret tt) ;;
        ret ptr
      else
        (* Case 4 *)
        psz <- bt_size prev_bt ;;
        nsz <- bt_size next_bt ;;
        let size := to_size (size + to_word (psz + nsz)) in
        lp <- lifo_prev prev_bt ;;
        ln <- lifo_next prev_bt ;;
        lifo_connect lp ln ;;
        lp <- lifo_prev next_bt ;;
        ln <- lifo_next next_bt ;;
        lifo_connect lp ln ;;
        bt_make prev_bt size FREE ;;
        ft <- bt_footer next_bt ;;
        bt_make ft size FREE ;;
        lifo_add prev_bt ;;
        let ptr := bt_payload prev_bt in
        h <- get ;;
        (if bt_heap_last h =? next_bt
         then modify (set_bt_heap_last prev_bt)
         else ret tt) ;;
        ret ptr.

(** ** Initialisation *)

Definition mm_init : M Z :=
  p <- mem_sbrk (12 * 4) ;;
  modify (set_heap_start p) ;;
  if p =? SBRK_FAIL then ret (-1)
  else
    (* First block of LIFO *)
    bt_make (p + 4 * 3) ALIGNMENT USED ;;
    bt_make (p + 4 * 6) ALIGNMENT USED ;;
    lifo_create_next (p + 4 * 3) (p + 4 * 7) ;;
    store (p + 4 * 5) 0 ;;
    (* Last block of LIFO *)
    bt_make (p + 4 * 7) ALIGNMENT USED ;;
    bt_make (p + 4 * 10) ALIGNMENT USED ;;
    store (p + 4 * 8) 0 ;;
    lifo_create_prev (p + 4 * 7) (p + 4 * 3) ;;
    modify (set_heap_start (p + 4 * 4)) ;;
    modify (set_bt_heap_start (bt_fromptr (p + 4 * 4))) ;;
    modify (set_bt_heap_last (bt_fromptr (p + 4 * 4) + 4 * 4)) ;;
    ret 0.

(** ** Best fit

    The [while] loop of [find_fit]; [fuel] bounds the number of times the
    loop condition is evaluated. *)

Fixpoint find_fit_loop (fuel : nat) (reqsz current_block result result_size : Z)
  : M Z :=
  match fuel with
  | O => fault
  | S fuel' =>
    if current_block =? NULL then ret result
    else
      fr <- bt_free current_block ;;
      fits <- (if truth fr
               then sz <- bt_size current_block ;; ret (reqsz <=? to_size sz)
               else ret false) ;;
      upd <- (if fits : bool then
                if result =? NULL then
                  sz <- bt_size current_block ;;
                  ret (current_block, to_size sz)
                else
                  sz <- bt_size current_block ;;
                  if to_size sz <? result_size then
                    sz' <- bt_size current_block ;;
                    ret (current_block, to_size sz')
                  else ret (result, result_size)
              else ret (result, result_size)) ;;
      nxt <- lifo_next current_block ;;
      find_fit_loop fuel' reqsz nxt (fst upd) (snd upd)
  end.

Definition find_fit (fuel : nat) (reqsz : Z) : M Z :=
  h <- get ;;
  current_block <- lifo_next (bt_heap_start h) ;;
  find_fit_loop fuel reqsz current_block NULL 0.

(** ** Placement *)

Definition place (bt asize : Z) : M unit :=
  sz <- bt_size bt ;;
  let csize := to_size sz in
  if 16 <=? to_size (csize - asize) then
    bt_make bt asize USED ;;
    ft <- bt_footer bt ;;
    bt_make ft asize USED ;;
    bt_new <- bt_next bt ;;
    lp <- lifo_prev bt ;;
    lifo_connect lp bt_new ;;
    ln <- lifo_next bt ;;
    lifo_connect bt_new ln ;;
    bt_make bt_new (to_size (csize - asize)) FREE ;;
    ft' <- bt_footer bt_new ;;
    bt_make ft' (to_size (csize - asize)) FREE ;;
    h <- get ;;
    if bt =? bt_heap_last h
    then modify (set_bt_heap_last bt_new)
    else ret tt
  else
    lp <- lifo_prev bt ;;
    ln <- lifo_next bt ;;
    lifo_connect lp ln ;;
    bt_make bt csize USED ;;
    ft <- bt_footer bt ;;
    bt_make ft csize USED.

(** ** Heap growth *)

Definition extend_heap (size : Z) : M Z :=
  let round_size :=
    Z.land (to_size (size + ALIGNMENT - 1)) (to_size (- ALIGNMENT)) in
  ptr <- mem_sbrk round_size ;;
  if ptr =? SBRK_FAIL then ret NULL
  else
    let bt := bt_fromptr ptr in
    bt_make bt round_size FREE ;;
    ft <- bt_footer bt ;;
    bt_make ft round_size FREE ;;
    modify (set_bt_heap_last bt) ;;
    coalesce ptr.

(** ** malloc *)

(** [asize] as computed in [malloc] (lines 358-362). *)
Definition malloc_asize (size : Z) : Z :=
  if size <=? 8 then 16
  else to_size (ALIGNMENT * (to_size (size + 8 + ALIGNMENT - 1) / ALIGNMENT)).

Definition malloc (fuel : nat) (size : Z) : M Z :=
  if size =? 0 then ret NULL
  else
    let asize := malloc_asize size in
    bt <- find_fit fuel asize ;;
    if negb (bt =? NULL) then
      place bt asize ;;
      ret (bt_payload bt)
    else
      let extendsize := asize in
      ptr <- extend_heap extendsize ;;
      if ptr =? NULL then ret NULL
      else
        let bt := bt_fromptr ptr in
        place bt asize ;;
        ret (bt_payload bt).

(** ** free *)

Definition free (ptr : Z) : M unit :=
  if ptr =? NULL then ret tt
  else
    let bt := bt_fromptr ptr in
    sz <- bt_size bt ;;
    let size := to_size sz in
    bt_make bt size FREE ;;
    ft <- bt_footer bt ;;
    bt_make ft size FREE ;;
    coalesce ptr ;;
    ret tt.

(** ** Bytes of the arena, [memcpy] and [memset]

    The arena is byte addressable; byte [k] of a word is its bits
    [8k .. 8k+7] (little endian). [memcpy] and [memset] are the C library's:
    they move bytes one at a time, in increasing address order. *)

Definition get_byte (w k : Z) : Z := Z.land (Z.shiftr w (8 * k)) 255.

Definition set_byte (w k b : Z) : Z :=
  to_word (Z.lor (Z.land w (Z.lnot (Z.shiftl 255 (8 * k))))
                 (Z.shiftl (Z.land b 255) (8 * k))).

Definition load_byte (a : Z) : M Z :=
  w <- load (a - a mod 4) ;; ret (get_byte w (a mod 4)).

Definition store_byte (a b : Z) : M unit :=
  w <- load (a - a mod 4) ;; store (a - a mod 4) (set_byte w (a mod 4) b).

Fixpoint memcpy_loop (n : nat) (dst src : Z) : M unit :=
  match n with
  | O => ret tt
  | S n' =>
    b <- load_byte src ;;
    store_byte dst b ;;
    memcpy_loop n' (dst + 1) (src + 1)
  end.

Definition memcpy (dst src n : Z) : M unit := memcpy_loop (Z.to_nat n) dst src.

Fixpoint memset_loop (n : nat) (dst c : Z) : M unit :=
  match n with
  | O => ret tt
  | S n' => store_byte dst c ;; memset_loop n' (dst + 1) c
  end.

Definition memset (dst c n : Z) : M unit := memset_loop (Z.to_nat n) dst c.

(** ** realloc *)

(** [asize] as computed in [realloc] (lines 406-410). *)
Definition realloc_asize (size : Z) : Z :=
  if size <=? 8 then 16
  else to_size (ALIGNMENT * (to_size (size + 8 + ALIGNMENT - 1) / ALIGNMENT)).

(** The look at the successor (lines 412-422): [next_bt] and [new_size],
    which stay [NULL] and 0 unless the block has a successor that is
    free. *)
Definition realloc_probe (current_bt old_size : Z) : M (Z * Z) :=
  h <- get ;;
  if negb (current_bt =? bt_heap_last h) then
    next_bt <- bt_next current_bt ;;
    nf <- bt_free next_bt ;;
    if truth nf then
      nsz <- bt_size next_bt ;;
      ret (next_bt, to_size (old_size + nsz))
    else ret (NULL, 0)
  else ret (NULL, 0).

Definition realloc (fuel : nat) (old_ptr size : Z) : M Z :=
  if size =? 0 then
    free old_ptr ;;
    ret NULL
  else if old_ptr =? NULL then malloc fuel size
  else
    let asize := realloc_asize size in
    let current_bt := bt_fromptr old_ptr in
    sz <- bt_size current_bt ;;
    let old_size := to_size sz in
    nb <- realloc_probe current_bt old_size ;;
    let next_bt := fst nb in
    let new_size := snd nb in
    if asize =? old_size then ret old_ptr
    else if asize <? old_size then
      sz <- bt_size current_bt ;;
      let csize := to_size sz in
      (if 16 <=? to_size (csize - asize) then
         bt_make current_bt asize USED ;;
         ft <- bt_footer current_bt ;;
         bt_make ft asize USED ;;
         bt_new <- bt_next current_bt ;;
         bt_make bt_new (to_size (csize - asize)) FREE ;;
         ft' <- bt_footer bt_new ;;
         bt_make ft' (to_size (csize - asize)) FREE ;;
         h <- get ;;
         (if current_bt =? bt_heap_last h
          then modify (set_bt_heap_last bt_new)
          else ret tt) ;;
         lifo_add bt_new
       else ret tt) ;;
      ret old_ptr
    else if negb (next_bt =? NULL) && (asize <=? new_size) then
      (if 16 <=? to_size (new_size - asize) then
         bt_make current_bt asize USED ;;
         bt_new <- bt_next current_bt ;;
         lp <- lifo_prev next_bt ;;
         lifo_connect lp bt_new ;;
         ln <- lifo_next next_bt ;;
         lifo_connect bt_new ln ;;
         ft <- bt_footer current_bt ;;
         bt_make ft asize USED ;;
         bt_make bt_new (to_size (new_size - asize)) FREE ;;
         ft' <- bt_footer bt_new ;;
         bt_make ft' (to_size (new_size - asize)) FREE ;;
         h <- get ;;
         (if next_bt =? bt_heap_last h
          then modify (set_bt_heap_last bt_new)
          else ret tt)
       else
         lp <- lifo_prev next_bt ;;
         ln <- lifo_next next_bt ;;
         lifo_connect lp ln ;;
         bt_make current_bt new_size USED ;;
         ft <- bt_footer current_bt ;;
         bt_make ft new_size USED ;;
         h <- get ;;
         (if next_bt =? bt_heap_last h
          then modify (set_bt_heap_last current_bt)
          else ret tt)) ;;
      ret old_ptr
    else
      new_ptr <- malloc fuel size ;;
      if new_ptr =? NULL then ret NULL
      else
        memcpy new_ptr old_ptr (to_size (old_size - 8)) ;;
        free old_ptr ;;
        ret new_ptr.

(** ** calloc *)

Definition calloc (fuel : nat) (nmemb size : Z) : M Z :=
  let bytes := to_size (nmemb * size) in
  new_ptr <- malloc fuel bytes ;;
  (if negb (new_ptr =? NULL) then memset new_ptr 0 bytes else ret tt) ;;
  ret new_ptr.

(** * Specification vocabulary *)

(** ** Reading the arena *)

(** The in-use bit and the size stored in the tag at [a]; the size is
    what a comparison against a [size_t] sees. *)
Definition blk_free (h : heap) (a : Z) : bool := Z.land (peek h a) USED =? 0.
Definition blk_size (h : heap) (a : Z) : Z :=
  to_size (Z.land (peek h a) (Z.lnot USED)).

(** The byte at address [a]. *)
Definition byte_at (h : heap) (a : Z) : Z :=
  get_byte (peek h (a - a mod 4)) (a mod 4).

(** A byte address lies inside the arena. *)
Definition valid_byte (h : heap) (a : Z) : Prop :=
  mem_lo h <= a - a mod 4 /\ a - a mod 4 + 4 <= mem_brk h.

(** ** Relations between states *)

(** Two states that differ at most in the contents of the arena. *)
Definition same_globals (h h' : heap) : Prop :=
  mem_lo h' = mem_lo h /\ mem_brk h' = mem_brk h /\ mem_max h' = mem_max h /\
  heap_start h' = heap_start h /\ bt_heap_last h' = bt_heap_last h /\
  bt_heap_start h' = bt_heap_start h.

(** Two states with the same arena bounds and the same anchors; the
    topmost-block pointer and the contents may differ. *)
Definition same_arena (h h' : heap) : Prop :=
  mem_lo h' = mem_lo h /\ mem_brk h' = mem_brk h /\ mem_max h' = mem_max h /\
  heap_start h' = heap_start h /\ bt_heap_start h' = bt_heap_start h.

(** Every word outside the span [lo, hi) that is not a link word of a
    node of [l] is the same in both states. *)
Definition kept_outside (h h' : heap) (lo hi : Z) (l : list Z) : Prop :=
  forall a, a < lo \/ hi <= a ->
            (forall x, x ∈ l -> a <> x + 4 /\ a <> x + 8) ->
            peek h' a = peek h a.

(** ** Well-formed arenas

    The arena does not contain address 0, ends below [(void * )-1] and is
    less than [2^31] bytes long, so that block sizes and word distances fit
    a [word_t]. *)
Definition arena_ok (h : heap) : Prop :=
  0 < mem_lo h /\ mem_lo h <= mem_brk h /\ mem_brk h < SBRK_FAIL /\
  mem_brk h - mem_lo h < 2 ^ 31.

(** ** The size rule *)

(** Rounding up to a multiple of [k], in unbounded arithmetic. *)
Definition round_up (x k : Z) : Z := k * ((x + k - 1) / k).

(** The size rule as the specification words it: the minimum block size
    for a request of at most 8 bytes, otherwise the request plus the 8
    bytes of overhead, rounded up to the alignment unit. *)
Definition asize_rule (size : Z) : Z :=
  if size <=? 8 then 16 else round_up (size + 8) ALIGNMENT.

(** ** The free list as a traversal

    [lifo_walk h p l]: following [lifo_next] from [p] visits the nodes [l],
    in this order, and then reaches [NULL]. *)
Fixpoint lifo_walk (h : heap) (p : Z) (l : list Z) : Prop :=
  match l with
  | [] => p = NULL
  | a :: l' =>
    p = a /\ a <> NULL /\ valid_word h a = true /\
    exists nxt, lifo_next a h = Some (nxt, h) /\ lifo_walk h nxt l'
  end.

(** A node is a candidate for a request when it is free and large enough. *)
Definition fits (h : heap) (reqsz a : Z) : Prop :=
  blk_free h a = true /\ reqsz <= blk_size h a.

(** [r] is the best fit among the nodes [l]: either no node fits and [r]
    is [NULL], or [r] is a node that fits, every fitting node before it in
    the list is strictly larger, and every fitting node after it is at
    least as large. *)
Definition best_fit (h : heap) (reqsz : Z) (l : list Z) (r : Z) : Prop :=
  (r = NULL /\ forall a, a ∈ l -> ~ fits h reqsz a) \/
  (exists l1 l2, l = l1 ++ r :: l2 /\ fits h reqsz r /\
     (forall a, a ∈ l1 -> fits h reqsz a -> blk_size h r < blk_size h a) /\
     (forall a, a ∈ l2 -> fits h reqsz a -> blk_size h r <= blk_size h a)).

(** ** Blocks and the free list

    Headers sit at addresses congruent to [bt_heap_start] modulo 16; the
    two link words of a free block follow its header and its footer is
    the last word of the block. *)

(** The block at [a] has size [s] and flag [f]: header and footer carry
    the same tag and the block lies inside the arena. *)
Definition block_at (h : heap) (a s f : Z) : Prop :=
  (a - bt_heap_start h) mod 16 = 0 /\ 16 <= s /\ s mod 16 = 0 /\
  mem_lo h <= a /\ a + s <= mem_brk h /\
  peek h a = Z.lor s f /\ peek h (a + s - 4) = Z.lor s f.

(** A list node: a header address whose two link words are in the arena. *)
Definition node_ok (h : heap) (a : Z) : Prop :=
  (a - bt_heap_start h) mod 16 = 0 /\ mem_lo h <= a /\ a + 12 <= mem_brk h.

(** [node_ok] is decidable, so that it can be checked by evaluation. *)
#[local] Instance node_ok_dec h a : Decision (node_ok h a).
Proof. unfold node_ok. apply _. Defined.

(** [b] is the list successor of [a] and [a] the list predecessor of [b],
    as the code's own accessors resolve the stored distances. *)
Definition linked (h : heap) (a b : Z) : Prop :=
  lifo_next a h = Some (b, h) /\ lifo_prev b h = Some (a, h).

(** Every node of [l] is linked to the one that follows it. *)
Fixpoint chain (h : heap) (l : list Z) : Prop :=
  match l with
  | a :: t => match t with
              | b :: _ => linked h a b /\ chain h t
              | [] => True
              end
  | [] => True
  end.

(** A doubly linked segment: distinct nodes, each linked to the next. *)
Definition dll (h : heap) (l : list Z) : Prop :=
  NoDup l /\ Forall (node_ok h) l /\ chain h l.

(** The free list: from the anchor [bt_heap_start] the nodes [mid] are
    linked in this order, in both directions, up to the end anchor [tl];
    the anchor has no predecessor and the end anchor no successor. *)
Definition free_list (h : heap) (mid : list Z) (tl : Z) : Prop :=
  bt_heap_start h mod 4 = 0 /\
  dll h (bt_heap_start h :: mid ++ [tl]) /\
  lifo_prev (bt_heap_start h) h = Some (NULL, h) /\
  lifo_next tl h = Some (NULL, h).

(** The pointer a stored distance stands for. *)
Definition link_ptr (a d : Z) : Z := if d =? 0 then NULL else a + 4 * d.

(** The arena after [lifo_connect a b]. *)
Definition connect_state (a b : Z) (h : heap) : heap :=
  poke (b + 8) (to_word ((a - b) ÷ 4)) (poke (a + 4) (to_word ((b - a) ÷ 4)) h).

(** The arena after [lifo_add y] when the anchor's successor is [n]. *)
Definition add_state (y n : Z) (h : heap) : heap :=
  poke (n + 8) (to_word ((y - n) ÷ 4))
    (poke (bt_heap_start h + 4) (to_word ((y - bt_heap_start h) ÷ 4))
       (poke (y + 8) (to_word ((bt_heap_start h - y) ÷ 4))
          (poke (y + 4) (to_word ((n - y) ÷ 4)) h))).

(** ** Walking the arena by address

    [adjacent_free fuel] visits the blocks from the first one up to the
    topmost one with [bt_next] and tells whether some block and its
    successor are both free. *)
Fixpoint adjacent_free_from (fuel : nat) (bt : Z) : M bool :=
  match fuel with
  | O => fault
  | S fuel' =>
    h <- get ;;
    if bt =? bt_heap_last h then ret false
    else
      nxt <- bt_next bt ;;
      f1 <- bt_free bt ;;
      f2 <- bt_free nxt ;;
      if truth f1 && truth f2 then ret true
      else adjacent_free_from fuel' nxt
  end.

Definition adjacent_free (fuel : nat) : M bool :=
  h <- get ;; adjacent_free_from fuel (bt_heap_start h).

(** ** Concrete arenas

    Small arenas built by running the allocator itself; the theorems are
    instantiated at them. *)

(** The state a computation leaves behind (the initial one on a fault). *)
Definition exec {A} (m : M A) (h : heap) : heap :=
  match m h with
  | Some (_, h') => h'
  | None => h
  end.

(** An empty arena at address 4096 that can grow by 64 KiB, initialised. *)
Definition fresh_arena : heap := mkHeap ∅ 4096 4096 (4096 + 65536) 0 0 0.
Definition init_heap : heap := exec mm_init fresh_arena.

(** Three blocks of 32, 64 and 48 bytes kept apart by small in-use blocks
    and released in this order. *)
Definition three_free_heap : heap :=
  exec (a <- malloc 16 24 ;; _ <- malloc 16 8 ;;
        b <- malloc 16 56 ;; _ <- malloc 16 8 ;;
        c <- malloc 16 40 ;; _ <- malloc 16 8 ;;
        free a ;; free b ;; free c) init_heap.

(** A 32-byte block whose successor is in use. *)
Definition boxed_heap : heap :=
  exec (_ <- malloc 5 24 ;; malloc 5 8) init_heap.

(** A 64-byte block in use followed by a free 16-byte block, the topmost
    one: [p = malloc(56); q = malloc(8); free(q)]. *)
Definition shrink_heap : heap :=
  exec (_ <- malloc 5 56 ;; q <- malloc 5 8 ;; free q) init_heap.

(** Blocks of 32, 64 and 16 bytes, the middle one released: the first
    block can grow into its successor. *)
Definition grow_heap : heap :=
  exec (_ <- malloc 5 24 ;; q <- malloc 5 56 ;; _ <- malloc 5 8 ;; free q)
       init_heap.

(** Three blocks of 32 bytes and a small one; the first and the third are
    released, and the middle one has just been given free tags, as [free]
    does before it calls [coalesce]. *)
Definition merge_heap : heap :=
  exec (a <- malloc 5 24 ;; b <- malloc 5 24 ;; c <- malloc 5 24 ;;
        _ <- malloc 5 8 ;; free a ;; free c ;;
        bt_make (bt_fromptr b) 32 FREE ;;
        ft <- bt_footer (bt_fromptr b) ;;
        bt_make ft 32 FREE) init_heap.

(** ** Well-formed heaps *)

(** Blocks of sizes and flags [bs] laid end to end from address [a]. *)
Fixpoint tiled (h : heap) (a : Z) (bs : list (Z * Z)) : Prop :=
  match bs with
  | [] => True
  | (s, f) :: t =>
    block_at h a s f /\ (f = FREE \/ f = USED) /\ tiled h (a + s) t
  end.

(** The bytes the blocks [bs] take. *)
Fixpoint span (bs : list (Z * Z)) : Z :=
  match bs with
  | [] => 0
  | (s, _) :: t => s + span t
  end.

(** The headers of the free blocks among [bs], by increasing address. *)
Fixpoint frees (a : Z) (bs : list (Z * Z)) : list Z :=
  match bs with
  | [] => []
  | (s, f) :: t => if f =? FREE then a :: frees (a + s) t else frees (a + s) t
  end.

(** The in-use blocks among [bs], header and size. *)
Fixpoint useds (a : Z) (bs : list (Z * Z)) : list (Z * Z) :=
  match bs with
  | [] => []
  | (s, f) :: t => if f =? FREE then useds (a + s) t else (a, s) :: useds (a + s) t
  end.

(** The header of the last block of [bs], or [d] when there is none. *)
Fixpoint last_block (d a : Z) (bs : list (Z * Z)) : Z :=
  match bs with
  | [] => d
  | (s, _) :: t => last_block a (a + s) t
  end.

(** No free block is followed by a free block. *)
Fixpoint coalesced (bs : list (Z * Z)) : Prop :=
  match bs with
  | (_, f) :: t =>
    match t with
    | (_, f') :: _ => (f = FREE -> f' <> FREE) /\ coalesced t
    | [] => True
    end
  | [] => True
  end.

(** The shape of a well-formed arena: three words of padding, the two
    anchors of the free list (in-use blocks of 16 bytes), the blocks [bs]
    and one spare word; [bt_heap_last] is the last block (the end anchor
    when there is none). The arena keeps below [2^31] bytes. *)
Definition arena_shape (h : heap) (bs : list (Z * Z)) : Prop :=
  0 < mem_lo h /\ mem_brk h <= mem_max h /\ mem_max h < SBRK_FAIL /\
  mem_max h - mem_lo h < 2 ^ 31 /\
  heap_start h = bt_heap_start h + 4 /\
  tiled h (bt_heap_start h) ((16, USED) :: (16, USED) :: bs) /\
  bt_heap_start h + 32 + span bs + 4 = mem_brk h /\
  bt_heap_last h =
    last_block (bt_heap_start h + 16) (bt_heap_start h + 32) bs.

(** The well-formed heap: the arena has the blocks [bs], and the free
    list links the anchors through the nodes [mid], which are the free
    blocks in some order. *)
Definition heap_inv (h : heap) (bs : list (Z * Z)) (mid : list Z) : Prop :=
  arena_shape h bs /\
  free_list h mid (bt_heap_start h + 16) /\
  mid ≡ₚ frees (bt_heap_start h + 32) bs.

(** What [coalesce] makes of a block of size [s] between the blocks [b1]
    and [b2]: a free neighbour is absorbed. *)
Definition absorb_prev (b1 : list (Z * Z)) : list (Z * Z) * Z :=
  match last b1 with
  | Some (ps, f) => if f =? FREE then (removelast b1, ps) else (b1, 0)
  | None => (b1, 0)
  end.

Definition absorb_next (b2 : list (Z * Z)) : Z * list (Z * Z) :=
  match b2 with
  | (ns, f) :: t => if f =? FREE then (ns, t) else (0, b2)
  | [] => (0, [])
  end.

Definition release (b1 : list (Z * Z)) (s : Z) (b2 : list (Z * Z))
  : list (Z * Z) :=
  (absorb_prev b1).1 ++
  ((absorb_prev b1).2 + s + (absorb_next b2).1, FREE) :: (absorb_next b2).2.

(** The free list after the block at [cur] was released: the merged
    block at the front, the absorbed neighbours gone. *)
Definition released_list (cur s ps : Z) (mid : list Z) : list Z :=
  (cur - ps) :: filter (fun x => x <> cur - ps /\ x <> cur + s) mid.

(** What [place] makes of a free block of size [c]. *)
Definition carve (b1 : list (Z * Z)) (c asize : Z) (b2 : list (Z * Z))
  : list (Z * Z) :=
  b1 ++ (if 16 <=? c - asize then [(asize, USED); (c - asize, FREE)]
         else [(c, USED)]) ++ b2.

(** The payload words of the blocks [l] are the same in both states. *)
Definition payloads_kept (h h' : heap) (l : list (Z * Z)) : Prop :=
  forall a s w, (a, s) ∈ l -> a + 4 <= w < a + s - 4 -> peek h' w = peek h w.

(** [l'] is [l] with [x] put in somewhere. *)
Definition inserted {A} (x : A) (l l' : list A) : Prop :=
  exists l1 l2, l = l1 ++ l2 /\ l' = l1 ++ x :: l2.

(** ** Clients

    A client holds the pointers it was given and has not released. A call
    that is not a legal use of the interface (releasing or resizing a
    pointer it does not hold, a byte count above [2^64 - 24], for [calloc]
    the product of its arguments as a [size_t]) is not made. *)
Inductive call : Type :=
| Malloc (size : Z)
| Calloc (nmemb size : Z)
| Free (p : Z)
| Realloc (p size : Z).

(** Fuel for a search of the free list: more than there can be blocks. *)
Definition fuel_for (h : heap) : nat :=
  (Z.to_nat ((mem_brk h - mem_lo h) / 16) + 2)%nat.

Definition in_range (size : Z) : bool :=
  (0 <=? size) && (size <=? 2 ^ 64 - 24).

Definition drop_ptr (p : Z) (live : list Z) : list Z :=
  filter (fun x => x <> p) live.

(** One call, and the pointers the client holds afterwards. *)
Definition serve (c : call) (live : list Z) : M (list Z) :=
  match c with
  | Malloc size =>
    if in_range size then
      h <- get ;;
      p <- malloc (fuel_for h) size ;;
      ret (if p =? NULL then live else p :: live)
    else ret live
  | Calloc nmemb size =>
    if in_range (to_size (nmemb * size)) then
      h <- get ;;
      p <- calloc (fuel_for h) nmemb size ;;
      ret (if p =? NULL then live else p :: live)
    else ret live
  | Free p =>
    if bool_decide (p ∈ live) then
      free p ;;
      ret (drop_ptr p live)
    else ret live
  | Realloc p size =>
    if bool_decide (p ∈ live) && in_range size then
      h <- get ;;
      q <- realloc (fuel_for h) p size ;;
      ret (if size =? 0 then drop_ptr p live
           else if q =? NULL then live
           else q :: drop_ptr p live)
    else ret live
  end.

Fixpoint serve_all (cs : list call) (live : list Z) : M (list Z) :=
  match cs with
  | [] => ret live
  | c :: t => live' <- serve c live ;; serve_all t live'
  end.

Definition is_realloc (c : call) : bool :=
  match c with Realloc _ _ => true | _ => false end.

(** The payloads of the in-use blocks. *)
Definition payloads_of (a : Z) (bs : list (Z * Z)) : list Z :=
  (fun b => bt_payload b.1) <$> useds a bs.

(** The heap is well formed and the client holds the payloads of its
    in-use blocks. *)
Definition client_inv (h : heap) (live : list Z) (bs : list (Z * Z))
    (mid : list Z) : Prop :=
  heap_inv h bs mid /\ live ≡ₚ payloads_of (bt_heap_start h + 32) bs.

(** * Proofs *)

(** ** Machine integers *)

Lemma to_word_small z : - 2 ^ 31 <= z < 2 ^ 31 -> to_word z = z.
Proof. unfold to_word. intros H. rewrite Z.mod_small; lia. Qed.

Lemma to_size_small z : 0 <= z < 2 ^ 64 -> to_size z = z.
Proof. unfold to_size. intros H. apply Z.mod_small; lia. Qed.

Lemma to_size_range z : 0 <= to_size z < 2 ^ 64.
Proof. unfold to_size. apply Z.mod_pos_bound. lia. Qed.

Lemma land_1 x : Z.land x 1 = x mod 2.
Proof. change 1 with (Z.ones 1). rewrite Z.land_ones by lia. reflexivity. Qed.

Lemma land_not1 x : Z.land x (Z.lnot 1) = x - x mod 2.
Proof.
  rewrite <- Z.ldiff_land. change 1 with (Z.ones 1).
  rewrite Z.ldiff_ones_r by lia.
  rewrite Z.shiftr_div_pow2, Z.shiftl_mul_pow2 by lia.
  change (2 ^ 1) with 2. pose proof (Z.div_mod x 2). lia.
Qed.

Lemma lor_flag s f : s mod 2 = 0 -> 0 <= f <= 1 -> Z.lor s f = s + f.
Proof.
  intros Hs Hf.
  assert (Hl : Z.land s f = 0).
  { assert (f = 0 \/ f = 1) as [-> | ->] by lia.
    - apply Z.land_0_r.
    - rewrite land_1. exact Hs. }
  pose proof (Z.add_lor_land s f). lia.
Qed.

Ltac zlia := Z.to_euclidean_division_equations; lia.

(** ** The size rule (C5) *)

Lemma round_up_spec x k :
  0 < k -> x <= round_up x k < x + k /\ round_up x k mod k = 0.
Proof.
  intros Hk. unfold round_up. split.
  - pose proof (Z.div_mod (x + k - 1) k ltac:(lia)).
    pose proof (Z.mod_pos_bound (x + k - 1) k Hk). lia.
  - rewrite Z.mul_comm. apply Z.mod_mul. lia.
Qed.

Lemma malloc_asize_wrap size :
  0 <= size < 2 ^ 64 ->
  malloc_asize size = if size <=? 8 then 16 else asize_rule size mod 2 ^ 64.
Proof.
  intros H. unfold malloc_asize, asize_rule, round_up, to_size, ALIGNMENT.
  destruct (size <=? 8) eqn:E; [reflexivity|].
  apply Z.leb_gt in E. zlia.
Qed.

Lemma malloc_asize_aligned size :
  0 <= size < 2 ^ 64 -> malloc_asize size mod 16 = 0.
Proof.
  intros H. unfold malloc_asize, to_size, ALIGNMENT.
  destruct (size <=? 8); [reflexivity|]. zlia.
Qed.

(** C5, as the code has it: [malloc] and [realloc] compute the needed
    block size by the same rule, 16 for a request of at most 8 bytes and
    otherwise the request plus 8 rounded up to a multiple of 16, the
    result taken modulo [2^64]. As long as the request is at most
    [2^64 - 24] nothing wraps: the result is the rounded sum itself, a
    multiple of the alignment unit, and for a request of more than 8
    bytes the least one that holds the request and the overhead. *)
Theorem asize_same_rule (size : Z) :
  0 < size < 2 ^ 64 ->
  malloc_asize size = realloc_asize size /\
  malloc_asize size = asize_rule size mod 2 ^ 64 /\
  (size <= 2 ^ 64 - 24 ->
   malloc_asize size = asize_rule size /\
   malloc_asize size mod ALIGNMENT = 0 /\
   (8 < size -> size + 8 <= malloc_asize size < size + 8 + ALIGNMENT)).
Proof.
  intros H. split; [reflexivity|].
  rewrite malloc_asize_wrap by lia.
  unfold asize_rule.
  destruct (size <=? 8) eqn:E.
  - split; [reflexivity|]. intros _.
    split; [reflexivity|]. split; [reflexivity|]. apply Z.leb_le in E. lia.
  - apply Z.leb_gt in E. split; [reflexivity|]. intros Hs.
    pose proof (round_up_spec (size + 8) ALIGNMENT ltac:(unfold ALIGNMENT; lia))
      as [Hr Hm].
    rewrite Z.mod_small by (unfold ALIGNMENT in *; lia).
    split; [reflexivity|]. split; [exact Hm|]. intros _. exact Hr.
Qed.

Lemma asize_same_rule_witness :
  malloc_asize 100 = realloc_asize 100 /\
  malloc_asize 100 = asize_rule 100 mod 2 ^ 64 /\
  malloc_asize 100 = asize_rule 100 /\
  108 <= malloc_asize 100 < 124.
Proof.
  destruct (asize_same_rule 100 ltac:(lia)) as (Hsame & Hwrap & Hexact).
  destruct (Hexact ltac:(lia)) as (Hrule & _ & Hleast).
  split; [exact Hsame | split; [exact Hwrap | split; [exact Hrule|]]].
  apply Hleast. lia.
Defined.

(** C5 as stated fails for requests close to [SIZE_MAX]: for
    [size = 2^64 - 23] the sum [size + 8 + 15] wraps to 0 and the needed
    block size comes out as 0, not as the request plus overhead rounded
    up. *)
Lemma asize_rule_overflow :
  0 < 2 ^ 64 - 23 < 2 ^ 64 /\
  malloc_asize (2 ^ 64 - 23) = 0 /\
  realloc_asize (2 ^ 64 - 23) = 0 /\
  asize_rule (2 ^ 64 - 23) = 2 ^ 64 /\
  malloc_asize (2 ^ 64 - 23) <> asize_rule (2 ^ 64 - 23).
Proof. vm_compute. repeat split; congruence. Qed.

(** ** Zero sizes and null pointers (C4, C10) *)

(** C4: [malloc(0)] returns [NULL] and leaves the state as it is;
    [free(NULL)] does nothing; [realloc(ptr, 0)] is [free(ptr)] followed by
    returning [NULL], for every [ptr]. *)
Theorem zero_size_semantics (fuel : nat) (ptr : Z) (h : heap) :
  malloc fuel 0 h = Some (NULL, h) /\
  free NULL h = Some (tt, h) /\
  realloc fuel ptr 0 h =
    match free ptr h with
    | Some (_, h') => Some (NULL, h')
    | None => None
    end.
Proof.
  split; [reflexivity | split; [reflexivity|]].
  unfold realloc, bind, ret. cbn. destruct (free ptr h) as [[[] h']|]; reflexivity.
Qed.

(** C10: when the product [nmemb * size] is zero as a [size_t] (in
    particular when either argument is zero), [calloc] returns [NULL] and
    the state is unchanged: nothing is allocated and nothing is filled. *)
Theorem calloc_zero (fuel : nat) (nmemb size : Z) (h : heap) :
  (to_size (nmemb * size) = 0 -> calloc fuel nmemb size h = Some (NULL, h)) /\
  calloc fuel 0 size h = Some (NULL, h) /\
  calloc fuel nmemb 0 h = Some (NULL, h).
Proof.
  assert (Hz : forall n s, to_size (n * s) = 0 ->
                           calloc fuel n s h = Some (NULL, h)).
  { intros n s E. unfold calloc. rewrite E. reflexivity. }
  split; [|split].
  - apply Hz.
  - apply Hz. reflexivity.
  - apply Hz. rewrite Z.mul_0_r. reflexivity.
Qed.

Lemma calloc_zero_witness :
  to_size (2 ^ 32 * 2 ^ 32) = 0 /\
  calloc 7 (2 ^ 32) (2 ^ 32) (mkHeap ∅ 4096 4096 8192 0 0 0)
  = Some (NULL, mkHeap ∅ 4096 4096 8192 0 0 0).
Proof.
  split; [reflexivity|].
  exact (proj1 (calloc_zero 7 (2 ^ 32) (2 ^ 32) _) eq_refl).
Defined.

(** ** Running monadic code *)

Lemma bind_run {A B} (m : M A) (f : A -> M B) h a h' :
  m h = Some (a, h') -> bind m f h = f a h'.
Proof. unfold bind. intros ->. reflexivity. Qed.

Lemma bind_fault {A B} (m : M A) (f : A -> M B) h :
  m h = None -> bind m f h = None.
Proof. unfold bind. intros ->. reflexivity. Qed.

Lemma bind_assoc {A B C} (m : M A) (f : A -> M B) (g : B -> M C) h :
  bind (bind m f) g h = bind m (fun x => bind (f x) g) h.
Proof. unfold bind. destruct (m h) as [[a h']|]; reflexivity. Qed.

Lemma load_run h a : valid_word h a = true -> load a h = Some (peek h a, h).
Proof. unfold load. intros ->. reflexivity. Qed.

Lemma store_run h a v :
  valid_word h a = true -> store a v h = Some (tt, poke a v h).
Proof. unfold store. intros ->. reflexivity. Qed.

Lemma bt_size_run h a :
  valid_word h a = true ->
  bt_size a h = Some (Z.land (peek h a) (Z.lnot USED), h).
Proof. intros H. unfold bt_size. rewrite (bind_run _ _ _ _ _ (load_run _ _ H)). reflexivity. Qed.

Lemma bt_used_run h a :
  valid_word h a = true -> bt_used a h = Some (Z.land (peek h a) USED, h).
Proof. intros H. unfold bt_used. rewrite (bind_run _ _ _ _ _ (load_run _ _ H)). reflexivity. Qed.

Lemma bt_free_run h a :
  valid_word h a = true ->
  bt_free a h = Some (if blk_free h a then 1 else 0, h).
Proof.
  intros H. unfold bt_free. rewrite (bind_run _ _ _ _ _ (load_run _ _ H)).
  unfold ret, truth, blk_free. destruct (Z.land (peek h a) USED =? 0); reflexivity.
Qed.

Create HintDb run discriminated.
#[local] Hint Resolve load_run store_run bt_size_run bt_used_run bt_free_run : run.

(** One step of symbolic execution: run the first computation of a bind. *)
Ltac mstep := erewrite bind_run by (eauto with run).

(** ** Best fit (C1) *)

Lemma find_fit_loop_spec (h : heap) (reqsz : Z) (l : list Z) :
  forall (fuel : nat) (cur result rsz : Z) (seen : list Z),
    lifo_walk h cur l ->
    (length l < fuel)%nat ->
    ((result = NULL /\ forall a, a ∈ seen -> ~ fits h reqsz a) \/
     (result <> NULL /\ rsz = blk_size h result /\
      exists l1 l2, seen = l1 ++ result :: l2 /\ fits h reqsz result /\
        (forall a, a ∈ l1 -> fits h reqsz a -> blk_size h result < blk_size h a) /\
        (forall a, a ∈ l2 -> fits h reqsz a -> blk_size h result <= blk_size h a))) ->
    exists r, find_fit_loop fuel reqsz cur result rsz h = Some (r, h) /\
              best_fit h reqsz (seen ++ l) r.
Proof.
  induction l as [|a l IH]; intros fuel cur result rsz seen Hw Hf Hinv.
  - (* the traversal is over *)
    cbn in Hw. subst cur.
    destruct fuel as [|fuel]; [cbn in Hf; lia|].
    exists result. split; [reflexivity|].
    rewrite app_nil_r.
    destruct Hinv as [[-> Hno] | (Hnn & _ & l1 & l2 & -> & Hfit & Hb & Ha)].
    + left. auto.
    + right. exists l1, l2. auto.
  - (* one more node *)
    cbn in Hw. destruct Hw as (-> & Hnn & Hv & nxt & Hnxt & Hw).
    destruct fuel as [|fuel]; [cbn in Hf; lia|].
    cbn in Hf. cbn [find_fit_loop].
    assert (Ha : (a =? NULL) = false) by (apply Z.eqb_neq; exact Hnn).
    rewrite Ha.
    mstep.
    replace (seen ++ a :: l) with ((seen ++ [a]) ++ l)
      by (rewrite <- app_assoc; reflexivity).
    destruct (blk_free h a) eqn:Efree; cbn [truth Z.eqb negb].
    + (* the node is free: its size is compared with the request *)
      rewrite bind_assoc. mstep. rewrite (bind_run _ _ _ _ _ eq_refl).
      fold (blk_size h a).
      destruct (reqsz <=? blk_size h a) eqn:Ereq.
      * (* it fits *)
        apply Z.leb_le in Ereq.
        assert (Hfa : fits h reqsz a) by (split; assumption).
        destruct Hinv as [[-> Hno] | (Hrn & -> & l1 & l2 & -> & Hfit & Hb & Hafter)].
        -- (* first candidate *)
           cbn [Z.eqb NULL]. rewrite bind_assoc. mstep.
           rewrite (bind_run _ _ _ _ _ eq_refl).
           rewrite (bind_run _ _ _ _ _ Hnxt). cbn [fst snd].
           apply IH; [exact Hw | lia |].
           right. split; [exact Hnn|]. split; [reflexivity|].
           exists seen, []. repeat split; try apply Hfa.
           ++ intros b Hb Hfb. exfalso. exact (Hno b Hb Hfb).
           ++ intros b Hb. inversion Hb.
        -- (* compared with the best so far *)
           assert (Hr : (result =? NULL) = false) by (apply Z.eqb_neq; exact Hrn).
           rewrite Hr. rewrite bind_assoc. mstep. fold (blk_size h a).
           destruct (blk_size h a <? blk_size h result) eqn:Ecmp.
           ++ apply Z.ltb_lt in Ecmp.
              rewrite bind_assoc. mstep.
              rewrite (bind_run _ _ _ _ _ eq_refl).
              rewrite (bind_run _ _ _ _ _ Hnxt). cbn [fst snd].
              apply IH; [exact Hw | lia |].
              right. split; [exact Hnn|]. split; [reflexivity|].
              exists (l1 ++ result :: l2), []. repeat split; try apply Hfa.
              ** intros b Hb' Hfb. apply elem_of_app in Hb' as [Hb' | Hb'].
                 { specialize (Hb b Hb' Hfb). lia. }
                 apply elem_of_cons in Hb' as [-> | Hb']; [lia|].
                 specialize (Hafter b Hb' Hfb). lia.
              ** intros b Hb'. inversion Hb'.
           ++ apply Z.ltb_ge in Ecmp.
              rewrite (bind_run _ _ _ _ _ eq_refl).
              rewrite (bind_run _ _ _ _ _ Hnxt). cbn [fst snd].
              apply IH; [exact Hw | lia |].
              right. split; [exact Hrn|]. split; [reflexivity|].
              exists l1, (l2 ++ [a]). rewrite <- app_assoc. cbn [app].
              repeat split; try apply Hfit; try exact Hb.
              intros b Hb' Hfb. apply elem_of_app in Hb' as [Hb' | Hb'].
              { exact (Hafter b Hb' Hfb). }
              apply list_elem_of_singleton in Hb'. subst b. exact Ecmp.
      * (* too small *)
        apply Z.leb_gt in Ereq.
        rewrite (bind_run _ _ _ _ _ eq_refl).
        rewrite (bind_run _ _ _ _ _ Hnxt). cbn [fst snd].
        apply IH; [exact Hw | lia |].
        destruct Hinv as [[-> Hno] | (Hrn & -> & l1 & l2 & -> & Hfit & Hb & Hafter)].
        -- left. split; [reflexivity|]. intros b Hb' Hfb.
           apply elem_of_app in Hb' as [Hb' | Hb'].
           { exact (Hno b Hb' Hfb). }
           apply list_elem_of_singleton in Hb'. subst b.
           destruct Hfb as [_ Hfb]. lia.
        -- right. split; [exact Hrn|]. split; [reflexivity|].
           exists l1, (l2 ++ [a]). rewrite <- app_assoc. cbn [app].
           repeat split; try apply Hfit; try exact Hb.
           intros b Hb' Hfb. apply elem_of_app in Hb' as [Hb' | Hb'].
           { exact (Hafter b Hb' Hfb). }
           apply list_elem_of_singleton in Hb'. subst b.
           destruct Hfb as [_ Hfb]. lia.
    + (* the node is in use: skipped *)
      rewrite (bind_run _ _ _ _ _ eq_refl).
      rewrite (bind_run _ _ _ _ _ eq_refl).
      rewrite (bind_run _ _ _ _ _ Hnxt). cbn [fst snd].
      apply IH; [exact Hw | lia |].
      destruct Hinv as [[-> Hno] | (Hrn & -> & l1 & l2 & -> & Hfit & Hb & Hafter)].
      * left. split; [reflexivity|]. intros b Hb' Hfb.
        apply elem_of_app in Hb' as [Hb' | Hb'].
        { exact (Hno b Hb' Hfb). }
        apply list_elem_of_singleton in Hb'. subst b.
        destruct Hfb as [Hfb _]. congruence.
      * right. split; [exact Hrn|]. split; [reflexivity|].
        exists l1, (l2 ++ [a]). rewrite <- app_assoc. cbn [app].
        repeat split; try apply Hfit; try exact Hb.
        intros b Hb' Hfb. apply elem_of_app in Hb' as [Hb' | Hb'].
        { exact (Hafter b Hb' Hfb). }
        apply list_elem_of_singleton in Hb'. subst b.
        destruct Hfb as [Hfb _]. congruence.
Qed.

(** C1: on a free list that [lifo_next] traverses from the sentinel's
    first successor through the nodes [l] to [NULL], [find_fit] terminates
    (given fuel for the traversal), changes nothing, and returns the best
    fit: [NULL] when no node is free and large enough, otherwise the
    smallest free node that is large enough, the earliest one among equal
    sizes. *)
Theorem find_fit_best_fit (fuel : nat) (reqsz : Z) (h : heap)
    (first : Z) (l : list Z) :
  lifo_next (bt_heap_start h) h = Some (first, h) ->
  lifo_walk h first l ->
  (length l < fuel)%nat ->
  exists r, find_fit fuel reqsz h = Some (r, h) /\ best_fit h reqsz l r.
Proof.
  intros Hfirst Hw Hfuel. unfold find_fit.
  rewrite (bind_run _ _ _ _ _ eq_refl).
  rewrite (bind_run _ _ _ _ _ Hfirst).
  apply (find_fit_loop_spec h reqsz l fuel first NULL 0 []); [exact Hw | exact Hfuel |].
  left. split; [reflexivity|]. intros a Ha. inversion Ha.
Qed.

Lemma find_fit_best_fit_witness :
  exists r, find_fit 5 48 three_free_heap = Some (r, three_free_heap) /\
            best_fit three_free_heap 48 [4268; 4188; 4140; 4124] r.
Proof.
  apply (find_fit_best_fit 5 48 three_free_heap 4268).
  - vm_compute. reflexivity.
  - cbn [lifo_walk].
    repeat (split; [reflexivity|]; split; [discriminate|];
            split; [vm_compute; reflexivity|];
            eexists; split; [vm_compute; reflexivity|]).
    reflexivity.
  - cbn. lia.
Defined.

(** The example of the specification: with free blocks of 32, 64 and 48
    bytes, a request that needs 48 bytes gets the 48-byte block. *)
Example find_fit_three_free :
  find_fit 5 48 three_free_heap = Some (4268, three_free_heap) /\
  blk_size three_free_heap 4268 = 48 /\
  malloc 5 40 three_free_heap <> None /\
  option_map fst (malloc 5 40 three_free_heap) = Some (bt_payload 4268).
Proof. vm_compute. repeat split; congruence. Qed.

(** ** Words and bytes *)

Lemma peek_poke_same h a v : peek (poke a v h) a = v.
Proof. unfold peek, poke. cbn. rewrite lookup_insert_eq. reflexivity. Qed.

Lemma peek_poke_other h a v b : a <> b -> peek (poke a v h) b = peek h b.
Proof. intros H. unfold peek, poke. cbn. rewrite lookup_insert_ne by exact H. reflexivity. Qed.

Lemma same_globals_refl h : same_globals h h.
Proof. repeat split. Qed.

Lemma to_word_testbit z i : 0 <= i < 32 -> Z.testbit (to_word z) i = Z.testbit z i.
Proof.
  intros Hi.
  rewrite <- (Z.mod_pow2_bits_low (to_word z) 32 i) by lia.
  rewrite <- (Z.mod_pow2_bits_low z 32 i) by lia.
  f_equal. unfold to_word. zlia.
Qed.

Lemma get_byte_testbit w k j :
  0 <= k -> 0 <= j ->
  Z.testbit (get_byte w k) j = (j <? 8) && Z.testbit w (j + 8 * k).
Proof.
  intros Hk Hj. unfold get_byte.
  rewrite Z.land_spec, Z.shiftr_spec by lia.
  change 255 with (Z.ones 8). rewrite Z.testbit_ones_nonneg by lia.
  apply andb_comm.
Qed.

Lemma set_byte_testbit w k b i :
  0 <= k -> 0 <= i < 32 ->
  Z.testbit (set_byte w k b) i =
    if (8 * k <=? i) && (i <? 8 * k + 8) then Z.testbit b (i - 8 * k)
    else Z.testbit w i.
Proof.
  intros Hk Hi. unfold set_byte.
  rewrite to_word_testbit by lia.
  rewrite Z.lor_spec, Z.land_spec, Z.lnot_spec by lia.
  destruct (8 * k <=? i) eqn:E1; cbn [andb].
  - apply Z.leb_le in E1.
    rewrite !Z.shiftl_spec by lia.
    rewrite Z.land_spec.
    change 255 with (Z.ones 8). rewrite Z.testbit_ones_nonneg by lia.
    destruct (i <? 8 * k + 8) eqn:E2.
    + apply Z.ltb_lt in E2.
      replace (i - 8 * k <? 8) with true by (symmetry; apply Z.ltb_lt; lia).
      cbn. rewrite andb_false_r, andb_true_r. reflexivity.
    + apply Z.ltb_ge in E2.
      replace (i - 8 * k <? 8) with false by (symmetry; apply Z.ltb_ge; lia).
      cbn. rewrite andb_true_r, andb_false_r, orb_false_r. reflexivity.
  - apply Z.leb_gt in E1.
    rewrite !Z.shiftl_spec by lia.
    rewrite !(Z.testbit_neg_r _ (i - 8 * k)) by lia.
    cbn. rewrite andb_true_r, orb_false_r. reflexivity.
Qed.

Lemma get_set_byte_same w k b :
  0 <= k <= 3 -> get_byte (set_byte w k b) k = Z.land b 255.
Proof.
  intros Hk. apply Z.bits_inj'. intros j Hj.
  rewrite get_byte_testbit by lia.
  rewrite Z.land_spec. change 255 with (Z.ones 8).
  rewrite Z.testbit_ones_nonneg by lia.
  destruct (j <? 8) eqn:E; cbn [andb]; [|rewrite andb_false_r; reflexivity].
  apply Z.ltb_lt in E.
  rewrite set_byte_testbit by lia.
  replace ((8 * k <=? j + 8 * k) && (j + 8 * k <? 8 * k + 8)) with true
    by (symmetry; apply andb_true_iff; split; [apply Z.leb_le | apply Z.ltb_lt]; lia).
  rewrite andb_true_r. f_equal. lia.
Qed.

Lemma get_set_byte_other w k k' b :
  0 <= k <= 3 -> 0 <= k' <= 3 -> k <> k' ->
  get_byte (set_byte w k b) k' = get_byte w k'.
Proof.
  intros Hk Hk' Hne. apply Z.bits_inj'. intros j Hj.
  rewrite !get_byte_testbit by lia.
  destruct (j <? 8) eqn:E; cbn [andb]; [|reflexivity].
  apply Z.ltb_lt in E.
  rewrite set_byte_testbit by lia.
  replace ((8 * k <=? j + 8 * k') && (j + 8 * k' <? 8 * k + 8)) with false;
    [reflexivity|].
  symmetry. apply andb_false_iff.
  destruct (Z.lt_ge_cases k' k); [left; apply Z.leb_gt | right; apply Z.ltb_ge]; lia.
Qed.

Lemma get_byte_land w k : Z.land (get_byte w k) 255 = get_byte w k.
Proof. unfold get_byte. rewrite <- Z.land_assoc, Z.land_diag. reflexivity. Qed.

Lemma valid_byte_word h a :
  valid_byte h a -> valid_word h (a - a mod 4) = true.
Proof.
  intros [H1 H2]. unfold valid_word.
  rewrite !andb_true_iff. repeat split.
  - apply Z.leb_le. exact H1.
  - apply Z.leb_le. exact H2.
  - apply Z.eqb_eq. zlia.
Qed.

Lemma load_byte_run h a :
  valid_byte h a -> load_byte a h = Some (byte_at h a, h).
Proof.
  intros H. unfold load_byte.
  rewrite (bind_run _ _ _ _ _ (load_run _ _ (valid_byte_word _ _ H))).
  reflexivity.
Qed.

Lemma store_byte_run h a b :
  valid_byte h a ->
  store_byte a b h =
    Some (tt, poke (a - a mod 4) (set_byte (peek h (a - a mod 4)) (a mod 4) b) h).
Proof.
  intros H. unfold store_byte.
  rewrite (bind_run _ _ _ _ _ (load_run _ _ (valid_byte_word _ _ H))).
  apply store_run, valid_byte_word, H.
Qed.

Lemma byte_at_poke_same h a b :
  byte_at (poke (a - a mod 4) (set_byte (peek h (a - a mod 4)) (a mod 4) b) h) a
  = Z.land b 255.
Proof.
  unfold byte_at. rewrite peek_poke_same. apply get_set_byte_same. zlia.
Qed.

Lemma byte_at_poke_other h a b a' :
  a' <> a ->
  byte_at (poke (a - a mod 4) (set_byte (peek h (a - a mod 4)) (a mod 4) b) h) a'
  = byte_at h a'.
Proof.
  intros Hne. unfold byte_at.
  destruct (decide (a - a mod 4 = a' - a' mod 4)) as [E | E].
  - rewrite <- E, peek_poke_same. apply get_set_byte_other; zlia.
  - rewrite peek_poke_other by exact E. reflexivity.
Qed.

(** ** [memset] and [memcpy] *)

Lemma memset_loop_spec (c : Z) (n : nat) :
  forall (dst : Z) (h : heap),
    (forall i, 0 <= i < Z.of_nat n -> valid_byte h (dst + i)) ->
    exists h',
      memset_loop n dst c h = Some (tt, h') /\
      (forall i, 0 <= i < Z.of_nat n -> byte_at h' (dst + i) = Z.land c 255) /\
      (forall a, ~ (dst <= a < dst + Z.of_nat n) -> byte_at h' a = byte_at h a) /\
      same_globals h h'.
Proof.
  induction n as [|n IH]; intros dst h Hv.
  - exists h. split; [reflexivity|]. split; [intros i Hi; lia|].
    split; [reflexivity | apply same_globals_refl].
  - cbn [memset_loop].
    assert (Hd : valid_byte h dst).
    { replace dst with (dst + 0) by lia. apply Hv. lia. }
    rewrite (bind_run _ _ _ _ _ (store_byte_run _ _ c Hd)).
    set (h1 := poke _ _ h).
    destruct (IH (dst + 1) h1) as (h' & Hrun & Hfill & Hframe & Hg).
    { intros i Hi. replace (dst + 1 + i) with (dst + (i + 1)) by lia.
      apply (Hv (i + 1)). lia. }
    exists h'. split; [exact Hrun|]. split; [|split].
    + intros i Hi. destruct (decide (i = 0)) as [-> | Hne].
      * rewrite Z.add_0_r, Hframe by lia. apply byte_at_poke_same.
      * replace (dst + i) with (dst + 1 + (i - 1)) by lia. apply Hfill. lia.
    + intros a Ha. rewrite Hframe by lia. apply byte_at_poke_other. lia.
    + exact Hg.
Qed.

Lemma memcpy_loop_spec (n : nat) :
  forall (dst src : Z) (h : heap),
    (forall i, 0 <= i < Z.of_nat n -> valid_byte h (dst + i)) ->
    (forall i, 0 <= i < Z.of_nat n -> valid_byte h (src + i)) ->
    dst + Z.of_nat n <= src \/ src + Z.of_nat n <= dst ->
    exists h',
      memcpy_loop n dst src h = Some (tt, h') /\
      (forall i, 0 <= i < Z.of_nat n -> byte_at h' (dst + i) = byte_at h (src + i)) /\
      (forall a, ~ (dst <= a < dst + Z.of_nat n) -> byte_at h' a = byte_at h a) /\
      same_globals h h'.
Proof.
  induction n as [|n IH]; intros dst src h Hvd Hvs Hdisj.
  - exists h. split; [reflexivity|]. split; [intros i Hi; lia|].
    split; [reflexivity | apply same_globals_refl].
  - cbn [memcpy_loop].
    assert (Hd : valid_byte h dst).
    { replace dst with (dst + 0) by lia. apply Hvd. lia. }
    assert (Hs : valid_byte h src).
    { replace src with (src + 0) by lia. apply Hvs. lia. }
    rewrite (bind_run _ _ _ _ _ (load_byte_run _ _ Hs)).
    rewrite (bind_run _ _ _ _ _ (store_byte_run _ _ (byte_at h src) Hd)).
    set (h1 := poke _ _ h).
    destruct (IH (dst + 1) (src + 1) h1) as (h' & Hrun & Hcopy & Hframe & Hg).
    { intros i Hi. replace (dst + 1 + i) with (dst + (i + 1)) by lia.
      apply (Hvd (i + 1)). lia. }
    { intros i Hi. replace (src + 1 + i) with (src + (i + 1)) by lia.
      apply (Hvs (i + 1)). lia. }
    { lia. }
    exists h'. split; [exact Hrun|]. split; [|split].
    + intros i Hi. destruct (decide (i = 0)) as [-> | Hne].
      * rewrite !Z.add_0_r, Hframe by lia. unfold h1.
        rewrite byte_at_poke_same. apply get_byte_land.
      * replace (dst + i) with (dst + 1 + (i - 1)) by lia.
        rewrite Hcopy by lia. unfold h1.
        rewrite byte_at_poke_other by lia. f_equal. lia.
    + intros a Ha. rewrite Hframe by lia. apply byte_at_poke_other. lia.
    + exact Hg.
Qed.

(** ** calloc step by step *)

(** [calloc] multiplies its arguments as [size_t] values, so the byte
    count is the product modulo [2^64]; it passes this count to [malloc];
    a fault or a [NULL] of [malloc] is passed on with [malloc]'s state; and
    when [malloc] returns a payload that lies inside the arena, every byte
    of it is zero afterwards, no byte outside it is changed and the result
    is [malloc]'s pointer. *)
Lemma calloc_delegates (fuel : nat) (nmemb size : Z) (h : heap) :
  let bytes := (nmemb * size) mod 2 ^ 64 in
  (malloc fuel bytes h = None -> calloc fuel nmemb size h = None) /\
  (forall h1, malloc fuel bytes h = Some (NULL, h1) ->
              calloc fuel nmemb size h = Some (NULL, h1)) /\
  (forall p h1,
      malloc fuel bytes h = Some (p, h1) ->
      p <> NULL ->
      (forall i, 0 <= i < bytes -> valid_byte h1 (p + i)) ->
      exists h2,
        calloc fuel nmemb size h = Some (p, h2) /\
        (forall i, 0 <= i < bytes -> byte_at h2 (p + i) = 0) /\
        (forall a, ~ (p <= a < p + bytes) -> byte_at h2 a = byte_at h1 a) /\
        same_globals h1 h2).
Proof.
  intros bytes. unfold calloc. fold (to_size (nmemb * size)).
  change (to_size (nmemb * size)) with bytes.
  split; [|split].
  - intros E. apply bind_fault. exact E.
  - intros h1 E. rewrite (bind_run _ _ _ _ _ E). reflexivity.
  - intros p h1 E Hp Hv. rewrite (bind_run _ _ _ _ _ E).
    assert (Hpn : (p =? NULL) = false) by (apply Z.eqb_neq; exact Hp).
    rewrite Hpn. cbn [negb]. unfold memset.
    assert (Hb : 0 <= bytes) by (apply Z.mod_pos_bound; lia).
    destruct (memset_loop_spec 0 (Z.to_nat bytes) p h1)
      as (h2 & Hrun & Hfill & Hframe & Hg).
    { intros i Hi. apply Hv. lia. }
    exists h2. rewrite (bind_run _ _ _ _ _ Hrun).
    split; [reflexivity|]. split; [|split].
    + intros i Hi. apply Hfill. lia.
    + intros a Ha. apply Hframe. lia.
    + exact Hg.
Qed.

(** ** Inverting monadic code *)

Lemma bind_inv {A B} (m : M A) (f : A -> M B) h b h' :
  bind m f h = Some (b, h') ->
  exists a h1, m h = Some (a, h1) /\ f a h1 = Some (b, h').
Proof.
  unfold bind. destruct (m h) as [[a h1]|]; [|discriminate].
  intros H. exists a, h1. split; [reflexivity | exact H].
Qed.

Lemma load_inv a h v h' :
  load a h = Some (v, h') -> h' = h /\ v = peek h a /\ valid_word h a = true.
Proof.
  unfold load. destruct (valid_word h a); [|discriminate].
  intros H. injection H as <- <-. auto.
Qed.

Lemma bt_size_inv a h v h' :
  bt_size a h = Some (v, h') ->
  h' = h /\ v = Z.land (peek h a) (Z.lnot USED) /\ valid_word h a = true.
Proof.
  unfold bt_size. intros H. apply bind_inv in H as (w & h1 & Hl & Hr).
  apply load_inv in Hl as (-> & -> & Hv). injection Hr as <- <-. auto.
Qed.

Lemma bt_used_inv a h v h' :
  bt_used a h = Some (v, h') ->
  h' = h /\ v = Z.land (peek h a) USED /\ valid_word h a = true.
Proof.
  unfold bt_used. intros H. apply bind_inv in H as (w & h1 & Hl & Hr).
  apply load_inv in Hl as (-> & -> & Hv). injection Hr as <- <-. auto.
Qed.

Lemma bt_free_inv a h v h' :
  bt_free a h = Some (v, h') ->
  h' = h /\ v = (if blk_free h a then 1 else 0) /\ valid_word h a = true.
Proof.
  intros H. assert (Hv : valid_word h a = true).
  { unfold bt_free in H. apply bind_inv in H as (w & h1 & Hl & _).
    apply load_inv in Hl. tauto. }
  rewrite (bt_free_run _ _ Hv) in H. injection H as <- <-. auto.
Qed.

Lemma lifo_next_inv a h v h' :
  lifo_next a h = Some (v, h') -> h' = h /\ valid_word h (a + 4) = true.
Proof.
  unfold lifo_next, lifo_get_next. intros H.
  apply bind_inv in H as (w & h1 & Hl & Hr).
  apply load_inv in Hl as (-> & -> & Hv).
  destruct (peek h (a + 4) =? 0); injection Hr as <- <-; auto.
Qed.

Lemma bt_next_inv a h v h' :
  bt_next a h = Some (v, h') -> h' = h /\ valid_word h a = true.
Proof.
  unfold bt_next. intros H. apply bind_inv in H as (w & h1 & Hl & Hr).
  apply bt_size_inv in Hl as (-> & -> & Hv).
  destruct (_ =? 0).
  - injection Hr as <- <-. auto.
  - apply bind_inv in Hr as (w & h1 & Hl & Hr).
    apply bt_size_inv in Hl as (-> & -> & _). injection Hr as <- <-. auto.
Qed.

Lemma bt_prev_inv a h v h' : bt_prev a h = Some (v, h') -> h' = h.
Proof.
  unfold bt_prev. intros H. apply bind_inv in H as (w & h1 & Hl & Hr).
  injection Hl as <- <-. destruct (_ =? _).
  - injection Hr as <- <-. reflexivity.
  - apply bind_inv in Hr as (w' & h1 & Hl & Hr).
    apply bt_size_inv in Hl as (-> & -> & _). injection Hr as <- <-. reflexivity.
Qed.

(** [find_fit] only reads. *)
Lemma find_fit_loop_state (reqsz : Z) (fuel : nat) :
  forall cur result rsz h r h',
    find_fit_loop fuel reqsz cur result rsz h = Some (r, h') ->
    h' = h /\ (r = result \/ valid_word h r = true).
Proof.
  induction fuel as [|fuel IH]; intros cur result rsz h r h' H; [discriminate|].
  cbn [find_fit_loop] in H.
  destruct (cur =? NULL).
  { injection H as <- <-. auto. }
  apply bind_inv in H as (fr & h1 & Hfr & H).
  apply bt_free_inv in Hfr as (-> & -> & Hv).
  apply bind_inv in H as (fits & h1 & Hfits & H).
  assert (h1 = h) as ->.
  { destruct (truth _); [|injection Hfits as <- <-; reflexivity].
    apply bind_inv in Hfits as (w & h2 & Hl & Hr).
    apply bt_size_inv in Hl as (-> & _). injection Hr as <- <-. reflexivity. }
  apply bind_inv in H as (upd & h1 & Hupd & H).
  assert (h1 = h /\ (fst upd = result \/ fst upd = cur)) as [-> Hu].
  { destruct fits; [|injection Hupd as <- <-; auto].
    destruct (result =? NULL).
    - apply bind_inv in Hupd as (w & h2 & Hl & Hr).
      apply bt_size_inv in Hl as (-> & _). injection Hr as <- <-. auto.
    - apply bind_inv in Hupd as (w & h2 & Hl & Hr).
      apply bt_size_inv in Hl as (-> & _).
      destruct (_ <? _); [|injection Hr as <- <-; auto].
      apply bind_inv in Hr as (w' & h3 & Hl & Hr).
      apply bt_size_inv in Hl as (-> & _). injection Hr as <- <-. auto. }
  apply bind_inv in H as (nxt & h1 & Hn & H).
  apply lifo_next_inv in Hn as (-> & _).
  apply IH in H as (-> & Hr). split; [reflexivity|].
  destruct Hr as [-> | Hr]; [|auto].
  destruct Hu as [-> | ->]; auto.
Qed.

Lemma find_fit_state fuel reqsz h r h' :
  find_fit fuel reqsz h = Some (r, h') ->
  h' = h /\ (r = NULL \/ valid_word h r = true).
Proof.
  unfold find_fit. intros H.
  apply bind_inv in H as (h0 & h1 & Hg & H). injection Hg as <- <-.
  apply bind_inv in H as (c & h1 & Hn & H).
  apply lifo_next_inv in Hn as (-> & _).
  apply find_fit_loop_state in H. exact H.
Qed.

Lemma valid_word_lo h a : valid_word h a = true -> mem_lo h <= a.
Proof.
  unfold valid_word. rewrite !andb_true_iff, !Z.leb_le. tauto.
Qed.

(** ** Failure of [malloc] changes nothing *)

Ltac minv H :=
  repeat lazymatch type of H with
  | bind _ _ _ = Some _ =>
    let a := fresh "a" in let h1 := fresh "h" in let E := fresh "E" in
    apply bind_inv in H; destruct H as (a & h1 & E & H)
  | (if ?c then _ else _) _ = Some _ => destruct c eqn:?
  | ret _ _ = Some _ => injection H as <- <-
  | modify _ _ = Some _ => injection H as <- <-
  | (let x := _ in _) _ = Some _ => cbv zeta in H
  end.

Lemma coalesce_result ptr h r h' :
  coalesce ptr h = Some (r, h') ->
  r = ptr \/ exists prev, r = bt_payload prev /\ valid_word h prev = true.
Proof.
  unfold coalesce. intros H.
  apply bind_inv in H as (prev_bt & h1 & Hp & H). apply bt_prev_inv in Hp as ->.
  apply bind_inv in H as (next_bt & h1 & Hn & H). apply bt_next_inv in Hn as (-> & _).
  apply bind_inv in H as (sz & h1 & Hs & H). apply bt_size_inv in Hs as (-> & _).
  apply bind_inv in H as (h0 & h1 & Hg & H). injection Hg as <- <-.
  apply bind_inv in H as (pu & h1 & Hu & H). apply bt_used_inv in Hu as (-> & _ & Hv).
  assert (Hgoal : forall x, x = ptr \/ x = bt_payload prev_bt ->
             x = ptr \/ exists prev, x = bt_payload prev /\ valid_word h prev = true).
  { intros x [-> | ->]; [left; reflexivity | right; eauto]. }
  apply Hgoal. clear Hgoal Hv.
  apply bind_inv in H as (c1 & h1 & _ & H).
  destruct c1.
  { minv H. auto. }
  apply bind_inv in H as (pu' & h2 & _ & H).
  apply bind_inv in H as (c2 & h3 & _ & H).
  destruct c2.
  { minv H; auto. }
  apply bind_inv in H as (pf & h4 & _ & H).
  apply bind_inv in H as (c3 & h5 & _ & H).
  destruct c3.
  { minv H; auto. }
  minv H; auto.
Qed.

Lemma store_inv a v h u h' :
  store a v h = Some (u, h') -> h' = poke a v h /\ valid_word h a = true.
Proof.
  unfold store. destruct (valid_word h a); [|discriminate].
  intros H. injection H as <- <-. auto.
Qed.

Lemma bt_make_inv a s f h u h' :
  bt_make a s f h = Some (u, h') ->
  h' = poke a (Z.lor (to_word s) f) h /\ valid_word h a = true.
Proof. apply store_inv. Qed.

Lemma bt_footer_inv a h v h' :
  bt_footer a h = Some (v, h') -> h' = h /\ valid_word h a = true.
Proof.
  unfold bt_footer. intros H. apply bind_inv in H as (w & h1 & Hl & Hr).
  apply bt_size_inv in Hl as (-> & -> & Hv). injection Hr as <- <-. auto.
Qed.

Lemma extend_heap_null size h h' :
  arena_ok h -> extend_heap size h = Some (NULL, h') -> h' = h.
Proof.
  intros (Hlo & Hle & Hbrk & _) H. unfold extend_heap in H. cbv zeta in H.
  apply bind_inv in H as (ptr & h1 & Hs & H).
  unfold mem_sbrk in Hs.
  destruct (_ && _).
  - injection Hs as <- <-.
    replace (mem_brk h =? SBRK_FAIL) with false in H
      by (symmetry; apply Z.eqb_neq; lia).
    apply bind_inv in H as ([] & h2 & Hm1 & H). apply bt_make_inv in Hm1 as (-> & _).
    apply bind_inv in H as (ft & h2 & Hf & H). apply bt_footer_inv in Hf as (-> & _).
    apply bind_inv in H as ([] & h2 & Hm2 & H). apply bt_make_inv in Hm2 as (-> & _).
    apply bind_inv in H as ([] & h2 & Hm & H). injection Hm as <-.
    apply coalesce_result in H as [H | (prev & H & Hv)].
    + unfold NULL in H. lia.
    + apply valid_word_lo in Hv. cbn in Hv. unfold bt_payload, NULL in H. lia.
  - injection Hs as <- <-. change (SBRK_FAIL =? SBRK_FAIL) with true in H.
    injection H as <-. reflexivity.
Qed.

Lemma malloc_null_unchanged fuel size h h' :
  arena_ok h -> malloc fuel size h = Some (NULL, h') -> h' = h.
Proof.
  intros Hok H. unfold malloc in H.
  destruct (size =? 0); [injection H as <-; reflexivity|].
  cbv zeta in H.
  apply bind_inv in H as (bt & h1 & Hf & H).
  apply find_fit_state in Hf as (-> & Hbt).
  destruct (bt =? NULL) eqn:Ebt; cbn [negb] in H.
  - apply bind_inv in H as (ptr & h1 & He & H).
    destruct (ptr =? NULL) eqn:Eptr.
    + injection H as <-. apply Z.eqb_eq in Eptr. subst ptr.
      exact (extend_heap_null _ _ _ Hok He).
    + apply Z.eqb_neq in Eptr.
      apply bind_inv in H as ([] & h2 & _ & H). injection H as H _.
      unfold bt_payload, bt_fromptr in H. lia.
  - apply Z.eqb_neq in Ebt. destruct Hbt as [-> | Hv]; [congruence|].
    apply bind_inv in H as ([] & h2 & _ & H). injection H as H _.
    apply valid_word_lo in Hv. destruct Hok as (Hlo & _).
    unfold bt_payload, NULL in H. lia.
Qed.

(** ** Relocation in [realloc] step by step *)

Lemma relocate_copy_length (size old_size : Z) :
  0 < size < 2 ^ 64 -> 16 <= old_size -> old_size mod 16 = 0 ->
  old_size < 2 ^ 64 ->
  old_size < realloc_asize size ->
  to_size (old_size - 8) = Z.min (old_size - 8) size.
Proof.
  intros Hs Ho Hm Hlt Hgt. rewrite to_size_small by lia.
  unfold realloc_asize, to_size, ALIGNMENT in Hgt.
  destruct (size <=? 8) eqn:E; [lia|]. apply Z.leb_gt in E.
  assert (old_size - 8 <= size) by zlia. lia.
Qed.

(** When [realloc] is called with a non-null pointer and a non-zero
    size, the block is a well-formed one (its size a multiple of 16, at
    least 16), the needed size exceeds the block's size and the successor
    cannot make up the difference, [realloc] calls [malloc(size)]. If
    that faults so does [realloc]; if it returns [NULL], [realloc] returns
    [NULL] and the state is the initial one; otherwise [realloc] copies
    [min (old_size - 8) size] bytes from the old payload to the new one,
    frees the old block and returns the new pointer. *)
Lemma realloc_relocate_steps (fuel : nat) (old_ptr size : Z) (h : heap)
    (sz next_bt new_size : Z) :
  arena_ok h ->
  old_ptr <> NULL -> 0 < size < 2 ^ 64 ->
  bt_size (bt_fromptr old_ptr) h = Some (sz, h) ->
  16 <= to_size sz -> to_size sz mod 16 = 0 ->
  realloc_probe (bt_fromptr old_ptr) (to_size sz) h = Some ((next_bt, new_size), h) ->
  to_size sz < realloc_asize size ->
  next_bt = NULL \/ new_size < realloc_asize size ->
  let n := Z.min (to_size sz - 8) size in
  (malloc fuel size h = None -> realloc fuel old_ptr size h = None) /\
  (forall h1, malloc fuel size h = Some (NULL, h1) ->
     h1 = h /\ realloc fuel old_ptr size h = Some (NULL, h)) /\
  (forall q h1, malloc fuel size h = Some (q, h1) -> q <> NULL ->
     realloc fuel old_ptr size h
     = (memcpy q old_ptr n ;; free old_ptr ;; ret q) h1) /\
  (forall q h1, malloc fuel size h = Some (q, h1) -> q <> NULL ->
     (forall i, 0 <= i < n -> valid_byte h1 (q + i)) ->
     (forall i, 0 <= i < n -> valid_byte h1 (old_ptr + i)) ->
     q + n <= old_ptr \/ old_ptr + n <= q ->
     exists h2,
       memcpy q old_ptr n h1 = Some (tt, h2) /\
       (forall i, 0 <= i < n -> byte_at h2 (q + i) = byte_at h1 (old_ptr + i)) /\
       (forall a, ~ (q <= a < q + n) -> byte_at h2 a = byte_at h1 a) /\
       same_globals h1 h2 /\
       realloc fuel old_ptr size h = (free old_ptr ;; ret q) h2).
Proof.
  intros Hok Hptr Hsize Hsz Hmin Hmod Hprobe Hgt Hnogrow n.
  assert (Hlen : to_size (to_size sz - 8) = n).
  { apply relocate_copy_length; try assumption. apply to_size_range. }
  assert (Hrun : realloc fuel old_ptr size h =
                 (new_ptr <- malloc fuel size ;;
                  if new_ptr =? NULL then ret NULL
                  else memcpy new_ptr old_ptr n ;; free old_ptr ;; ret new_ptr) h).
  { unfold realloc.
    replace (size =? 0) with false by (symmetry; apply Z.eqb_neq; lia).
    replace (old_ptr =? NULL) with false by (symmetry; apply Z.eqb_neq; exact Hptr).
    cbv zeta.
    rewrite (bind_run _ _ _ _ _ Hsz), (bind_run _ _ _ _ _ Hprobe).
    cbn [fst snd].
    replace (realloc_asize size =? to_size sz) with false
      by (symmetry; apply Z.eqb_neq; lia).
    replace (realloc_asize size <? to_size sz) with false
      by (symmetry; apply Z.ltb_ge; lia).
    replace (negb (next_bt =? NULL) && (realloc_asize size <=? new_size)) with false.
    - rewrite Hlen. reflexivity.
    - symmetry. apply andb_false_iff. destruct Hnogrow as [-> | Hn].
      + left. reflexivity.
      + right. apply Z.leb_gt. exact Hn. }
  rewrite Hrun. split; [|split; [|split]].
  - intros E. apply bind_fault. exact E.
  - intros h1 E. pose proof (malloc_null_unchanged _ _ _ _ Hok E) as ->.
    split; [reflexivity|]. rewrite (bind_run _ _ _ _ _ E). reflexivity.
  - intros q h1 E Hq. rewrite (bind_run _ _ _ _ _ E).
    replace (q =? NULL) with false by (symmetry; apply Z.eqb_neq; exact Hq).
    reflexivity.
  - intros q h1 E Hq Hvd Hvs Hdisj. rewrite (bind_run _ _ _ _ _ E).
    replace (q =? NULL) with false by (symmetry; apply Z.eqb_neq; exact Hq).
    assert (Hn : 0 <= n).
    { unfold n. pose proof (to_size_range sz). lia. }
    destruct (memcpy_loop_spec (Z.to_nat n) q old_ptr h1)
      as (h2 & Hcp & Hcopy & Hframe & Hg).
    { intros i Hi. apply Hvd. lia. }
    { intros i Hi. apply Hvs. lia. }
    { lia. }
    exists h2. split; [exact Hcp|]. split; [|split; [|split]].
    + intros i Hi. apply Hcopy. lia.
    + intros a Ha. apply Hframe. lia.
    + exact Hg.
    + unfold memcpy. rewrite (bind_run _ _ _ _ _ Hcp). reflexivity.
Qed.

(** ** Shrinking in place next to a free block (C2) *)

(** C2 fails on the code: after [p = malloc(56); q = malloc(8); free(q)]
    no two neighbours are free, and [realloc(p, 8)] shrinks [p]'s block
    from 64 to 16 bytes in place; the 48-byte remainder is put on the free
    list without being merged with its successor, the free block that was
    [q]'s, so the call returns with two adjacent free blocks. [free(p)]
    in the same state does merge with that successor. *)
Theorem realloc_shrink_adjacent_free :
  adjacent_free 8 shrink_heap = Some (false, shrink_heap) /\
  (exists h',
     realloc 5 4144 8 shrink_heap = Some (4144, h') /\
     adjacent_free 8 h' = Some (true, h') /\
     blk_free h' 4156 = true /\ blk_size h' 4156 = 48 /\
     bt_next 4156 h' = Some (4204, h') /\
     blk_free h' 4204 = true /\ blk_size h' 4204 = 16 /\
     bt_heap_last h' = 4204) /\
  (exists h',
     free 4144 shrink_heap = Some (tt, h') /\
     adjacent_free 8 h' = Some (false, h') /\
     blk_free h' 4140 = true /\ blk_size h' 4140 = 80 /\
     bt_heap_last h' = 4140).
Proof.
  split; [vm_compute; reflexivity|]. split.
  - eexists. split; [vm_compute; reflexivity|].
    vm_compute. repeat split; reflexivity.
  - eexists. split; [vm_compute; reflexivity|].
    vm_compute. repeat split; reflexivity.
Qed.

(** ** Tags *)

Lemma tag_size s f :
  0 <= s < 2 ^ 31 -> s mod 2 = 0 -> 0 <= f <= 1 ->
  Z.land (Z.lor s f) (Z.lnot USED) = s.
Proof.
  intros Hs Hm Hf. rewrite lor_flag by assumption.
  unfold USED. rewrite land_not1. zlia.
Qed.

Lemma tag_flag s f :
  s mod 2 = 0 -> 0 <= f <= 1 -> Z.land (Z.lor s f) USED = f.
Proof.
  intros Hm Hf. rewrite lor_flag by assumption.
  unfold USED. rewrite land_1. zlia.
Qed.

Lemma valid_word_iff h a :
  valid_word h a = true <-> mem_lo h <= a /\ a + 4 <= mem_brk h /\ a mod 4 = 0.
Proof.
  unfold valid_word. rewrite !andb_true_iff, !Z.leb_le, Z.eqb_eq. tauto.
Qed.

Lemma peek_poke h a v b :
  peek (poke a v h) b = if decide (a = b) then v else peek h b.
Proof.
  destruct (decide (a = b)) as [-> | Hne].
  - apply peek_poke_same.
  - apply peek_poke_other. exact Hne.
Qed.

(** ** Running the accessors *)

Lemma bt_make_run h a s f :
  valid_word h a = true ->
  bt_make a s f h = Some (tt, poke a (Z.lor (to_word s) f) h).
Proof. apply store_run. Qed.

Lemma bt_footer_run h a :
  valid_word h a = true ->
  bt_footer a h = Some (a + Z.land (peek h a) (Z.lnot USED) - 4, h).
Proof.
  intros H. unfold bt_footer. rewrite (bind_run _ _ _ _ _ (bt_size_run _ _ H)).
  reflexivity.
Qed.

Lemma bt_next_run h a :
  valid_word h a = true ->
  Z.land (peek h a) (Z.lnot USED) <> 0 ->
  bt_next a h = Some (a + 4 * (Z.land (peek h a) (Z.lnot USED) ÷ 4), h).
Proof.
  intros H Hnz. unfold bt_next.
  rewrite (bind_run _ _ _ _ _ (bt_size_run _ _ H)).
  replace (_ =? 0) with false by (symmetry; apply Z.eqb_neq; exact Hnz).
  rewrite (bind_run _ _ _ _ _ (bt_size_run _ _ H)). reflexivity.
Qed.

Lemma lifo_next_run h a :
  valid_word h (a + 4) = true ->
  lifo_next a h = Some (link_ptr a (peek h (a + 4)), h).
Proof.
  intros H. unfold lifo_next, lifo_get_next.
  rewrite (bind_run _ _ _ _ _ (load_run _ _ H)).
  unfold link_ptr. destruct (_ =? 0); reflexivity.
Qed.

Lemma lifo_prev_run h a :
  valid_word h (a + 8) = true ->
  lifo_prev a h = Some (link_ptr a (peek h (a + 8)), h).
Proof.
  intros H. unfold lifo_prev, lifo_get_prev.
  rewrite (bind_run _ _ _ _ _ (load_run _ _ H)).
  unfold link_ptr. destruct (_ =? 0); reflexivity.
Qed.

Lemma lifo_next_iff h a b :
  lifo_next a h = Some (b, h) <->
  valid_word h (a + 4) = true /\ link_ptr a (peek h (a + 4)) = b.
Proof.
  split.
  - intros H. pose proof (lifo_next_inv _ _ _ _ H) as [_ Hv].
    rewrite (lifo_next_run _ _ Hv) in H. injection H as H. auto.
  - intros [Hv <-]. apply lifo_next_run, Hv.
Qed.

Lemma lifo_prev_iff h a b :
  lifo_prev a h = Some (b, h) <->
  valid_word h (a + 8) = true /\ link_ptr a (peek h (a + 8)) = b.
Proof.
  split.
  - intros H. assert (Hv : valid_word h (a + 8) = true).
    { unfold lifo_prev, lifo_get_prev in H.
      apply bind_inv in H as (w & h1 & Hl & _). apply load_inv in Hl. tauto. }
    rewrite (lifo_prev_run _ _ Hv) in H. injection H as H. auto.
  - intros [Hv <-]. apply lifo_prev_run, Hv.
Qed.

Lemma lifo_connect_run h a b :
  valid_word h (a + 4) = true -> valid_word h (b + 8) = true ->
  lifo_connect a b h = Some (tt, connect_state a b h).
Proof.
  intros Ha Hb. unfold lifo_connect, lifo_create_next, lifo_create_prev,
    lifo_put_next, lifo_put_prev.
  rewrite (bind_run _ _ _ _ _ (store_run _ _ _ Ha)).
  apply store_run. exact Hb.
Qed.

Lemma link_ptr_word a b :
  (b - a) mod 4 = 0 -> a <> b -> - 2 ^ 31 < b - a < 2 ^ 31 ->
  link_ptr a (to_word ((b - a) ÷ 4)) = b.
Proof.
  intros Hm Hne Hr. rewrite to_word_small by zlia.
  unfold link_ptr.
  replace ((b - a) ÷ 4 =? 0) with false by (symmetry; apply Z.eqb_neq; zlia).
  zlia.
Qed.
(** ** Links between nodes *)

Lemma node_valid h a :
  bt_heap_start h mod 4 = 0 -> node_ok h a ->
  valid_word h a = true /\ valid_word h (a + 4) = true /\
  valid_word h (a + 8) = true.
Proof.
  intros Hs (Hm & Hlo & Hhi). rewrite !valid_word_iff. zlia.
Qed.

Lemma valid_word_same h h' a :
  mem_lo h' = mem_lo h -> mem_brk h' = mem_brk h ->
  valid_word h' a = valid_word h a.
Proof. intros Hlo Hbrk. unfold valid_word. rewrite Hlo, Hbrk. reflexivity. Qed.

Lemma node_ok_same h h' a :
  same_arena h h' -> node_ok h a -> node_ok h' a.
Proof.
  intros (Hlo & Hbrk & _ & _ & Hs). unfold node_ok. rewrite Hlo, Hbrk, Hs. tauto.
Qed.

Lemma lifo_next_frame h h' a b :
  same_arena h h' -> peek h' (a + 4) = peek h (a + 4) ->
  lifo_next a h = Some (b, h) -> lifo_next a h' = Some (b, h').
Proof.
  intros (Hlo & Hbrk & _) Hp. rewrite !lifo_next_iff.
  rewrite (valid_word_same h h') by assumption. rewrite Hp. tauto.
Qed.

Lemma lifo_prev_frame h h' a b :
  same_arena h h' -> peek h' (a + 8) = peek h (a + 8) ->
  lifo_prev a h = Some (b, h) -> lifo_prev a h' = Some (b, h').
Proof.
  intros (Hlo & Hbrk & _) Hp. rewrite !lifo_prev_iff.
  rewrite (valid_word_same h h') by assumption. rewrite Hp. tauto.
Qed.

Lemma linked_frame h h' a b :
  same_arena h h' ->
  peek h' (a + 4) = peek h (a + 4) -> peek h' (b + 8) = peek h (b + 8) ->
  linked h a b -> linked h' a b.
Proof.
  intros Hs Ha Hb [Hn Hp]. split.
  - exact (lifo_next_frame _ _ _ _ Hs Ha Hn).
  - exact (lifo_prev_frame _ _ _ _ Hs Hb Hp).
Qed.

Lemma chain_app h l1 a l2 :
  chain h (l1 ++ a :: l2) <-> chain h (l1 ++ [a]) /\ chain h (a :: l2).
Proof.
  induction l1 as [|x l1 IH].
  - cbn. tauto.
  - destruct l1 as [|y l1].
    + cbn. tauto.
    + change (chain h ((x :: y :: l1) ++ a :: l2))
        with (linked h x y /\ chain h ((y :: l1) ++ a :: l2)).
      change (chain h ((x :: y :: l1) ++ [a]))
        with (linked h x y /\ chain h ((y :: l1) ++ [a])).
      tauto.
Qed.

Lemma chain_frame h h' l :
  same_arena h h' ->
  (forall a, a ∈ removelast l -> peek h' (a + 4) = peek h (a + 4)) ->
  (forall b, b ∈ tail l -> peek h' (b + 8) = peek h (b + 8)) ->
  chain h l -> chain h' l.
Proof.
  intros Hs. induction l as [|a l IH]; intros Hn Hp Hc; [exact I|].
  destruct l as [|b l]; [exact I|].
  destruct Hc as [Hl Hc]. split.
  - apply (linked_frame h h'); [exact Hs | | | exact Hl].
    + apply Hn. cbn. left.
    + apply Hp. cbn. left.
  - apply IH; [| | exact Hc].
    + intros x Hx. apply Hn.
      change (removelast (a :: b :: l)) with (a :: removelast (b :: l)).
      right. exact Hx.
    + intros x Hx. apply Hp. cbn. right. exact Hx.
Qed.

Lemma elem_of_removelast (l : list Z) x : x ∈ removelast l -> x ∈ l.
Proof.
  induction l as [|a l IH]; [intros H; exact H|].
  destruct l as [|b l]; [intros H; inversion H|].
  change (removelast (a :: b :: l)) with (a :: removelast (b :: l)).
  rewrite !elem_of_cons. intros [-> | H]; [left; reflexivity | right].
  apply elem_of_cons. apply IH. exact H.
Qed.

Lemma removelast_snoc (l : list Z) x : removelast (l ++ [x]) = l.
Proof. apply List.removelast_last. Qed.

(** A state that keeps all link words of the nodes keeps the list. *)
Lemma dll_frame h h' l :
  same_arena h h' ->
  (forall a, a ∈ l -> peek h' (a + 4) = peek h (a + 4) /\
                      peek h' (a + 8) = peek h (a + 8)) ->
  dll h l -> dll h' l.
Proof.
  intros Hs Hk (Hnd & Hok & Hc). split; [exact Hnd|]. split.
  - eapply Forall_impl; [exact Hok|]. intros a. apply node_ok_same, Hs.
  - apply (chain_frame h h'); [exact Hs | | | exact Hc].
    + intros a Ha. apply Hk, elem_of_removelast, Ha.
    + intros b Hb. apply Hk. destruct l; [inversion Hb | right; exact Hb].
Qed.

Lemma free_list_frame h h' mid tl :
  same_arena h h' ->
  (forall a, a ∈ bt_heap_start h :: mid ++ [tl] ->
             peek h' (a + 4) = peek h (a + 4) /\
             peek h' (a + 8) = peek h (a + 8)) ->
  free_list h mid tl -> free_list h' mid tl.
Proof.
  intros Hs Hk (Ha & Hd & Hp & Hn).
  pose proof Hs as (_ & _ & _ & _ & Hhs).
  unfold free_list. rewrite Hhs. split; [exact Ha|]. split; [|split].
  - apply (dll_frame h h'); assumption.
  - apply (lifo_prev_frame h h'); [exact Hs | | exact Hp].
    apply Hk. left.
  - apply (lifo_next_frame h h'); [exact Hs | | exact Hn].
    apply Hk. right. apply elem_of_app. right. left.
Qed.
(** ** Rewiring the list *)

Ltac peeks :=
  repeat (rewrite peek_poke;
          first [ rewrite decide_False by zlia | rewrite decide_True by zlia ]).

Lemma same_arena_poke h a v : same_arena h (poke a v h).
Proof. repeat split. Qed.

Lemma same_arena_connect h a b : same_arena h (connect_state a b h).
Proof. repeat split. Qed.

Lemma same_arena_last h x : same_arena h (set_bt_heap_last x h).
Proof. repeat split. Qed.

Lemma poke_comm h a v b w :
  a <> b -> poke a v (poke b w h) = poke b w (poke a v h).
Proof.
  intros Hne. unfold poke, set_mem. cbn. f_equal.
  apply insert_insert_ne. congruence.
Qed.

Lemma peek_connect_next h p n a :
  (a - p) mod 16 = 0 -> (a - n) mod 16 = 0 -> a <> p ->
  peek (connect_state p n h) (a + 4) = peek h (a + 4).
Proof. intros H1 H2 H3. unfold connect_state. peeks. reflexivity. Qed.

Lemma peek_connect_prev h p n a :
  (a - p) mod 16 = 0 -> (a - n) mod 16 = 0 -> a <> n ->
  peek (connect_state p n h) (a + 8) = peek h (a + 8).
Proof. intros H1 H2 H3. unfold connect_state. peeks. reflexivity. Qed.

Lemma linked_connect h p n :
  arena_ok h -> bt_heap_start h mod 4 = 0 ->
  node_ok h p -> node_ok h n -> p <> n ->
  linked (connect_state p n h) p n.
Proof.
  intros (_ & _ & _ & Hsmall) Hs Hp Hn Hne.
  destruct (node_valid _ _ Hs Hp) as (_ & Hvp & _).
  destruct (node_valid _ _ Hs Hn) as (_ & _ & Hvn).
  destruct Hp as (Hpm & Hplo & Hphi), Hn as (Hnm & Hnlo & Hnhi).
  split.
  - apply lifo_next_iff. split; [exact Hvp|].
    unfold connect_state. peeks. apply link_ptr_word; zlia.
  - apply lifo_prev_iff. split; [exact Hvn|].
    unfold connect_state. peeks. apply link_ptr_word; zlia.
Qed.

Lemma node_ok_cong h a b : node_ok h a -> node_ok h b -> (a - b) mod 16 = 0.
Proof. intros (Ha & _) (Hb & _). zlia. Qed.

Lemma chain_connect_other h p n l :
  node_ok h p -> node_ok h n -> Forall (node_ok h) l ->
  p ∉ removelast l -> n ∉ tail l ->
  chain h l -> chain (connect_state p n h) l.
Proof.
  intros Hp Hn Hok Hpl Hnl. rewrite Forall_forall in Hok.
  apply chain_frame; [apply same_arena_connect | |].
  - intros a Ha. pose proof (Hok a (elem_of_removelast _ _ Ha)) as Hna.
    apply peek_connect_next; [eapply node_ok_cong; eassumption.. |].
    intros ->. exact (Hpl Ha).
  - intros b Hb.
    assert (Hnb : node_ok h b).
    { apply Hok. destruct l; [inversion Hb | right; exact Hb]. }
    apply peek_connect_prev; [eapply node_ok_cong; eassumption.. |].
    intros ->. exact (Hnl Hb).
Qed.

Lemma NoDup_drop_mid (l1 l2 : list Z) x :
  NoDup (l1 ++ x :: l2) -> NoDup (l1 ++ l2) /\ (x ∉ l1) /\ (x ∉ l2).
Proof.
  rewrite !NoDup_app, NoDup_cons. intros (A & B & C & D).
  repeat split; auto.
  - intros y Hy Hy2. apply (B y Hy). right. exact Hy2.
  - intros Hx. apply (B x Hx). left.
Qed.

(** Joining a segment that ends in [p] with a segment that starts at [n]. *)
Lemma chain_join h pre p n post :
  arena_ok h -> bt_heap_start h mod 4 = 0 ->
  NoDup (pre ++ p :: n :: post) ->
  Forall (node_ok h) (pre ++ p :: n :: post) ->
  chain h (pre ++ [p]) -> chain h (n :: post) ->
  chain (connect_state p n h) (pre ++ p :: n :: post).
Proof.
  intros Hok Hs Hnd Hno Hc1 Hc2.
  pose proof Hno as Hno'. rewrite Forall_app, !Forall_cons in Hno'.
  destruct Hno' as (Hpre & Hp & Hn & Hpost).
  pose proof Hnd as Hnd'. rewrite NoDup_app, !NoDup_cons in Hnd'.
  destruct Hnd' as (_ & Hdisj & Hp1 & Hn1 & _).
  apply chain_app. split; [|split].
  - apply chain_connect_other; try assumption.
    + apply Forall_app. split; [exact Hpre | constructor; [exact Hp | constructor]].
    + rewrite removelast_snoc. intros Hin. apply (Hdisj p Hin). left.
    + intros Hin. assert (Hin' : n ∈ pre ++ [p]).
      { destruct pre; [inversion Hin | right; exact Hin]. }
      apply elem_of_app in Hin' as [Hin' | Hin'].
      * apply (Hdisj n Hin'). right. left.
      * apply list_elem_of_singleton in Hin'. subst n. apply Hp1. left.
  - apply linked_connect; try assumption. intros ->. apply Hp1. left.
  - apply chain_connect_other; try assumption.
    + apply Forall_cons. split; assumption.
    + intros Hin. apply elem_of_removelast in Hin. exact (Hp1 Hin).
Qed.
Lemma arena_ok_same h h' : same_arena h h' -> arena_ok h -> arena_ok h'.
Proof.
  intros (Hlo & Hbrk & _). unfold arena_ok. rewrite Hlo, Hbrk. tauto.
Qed.

Lemma Forall_node_ok_same h h' l :
  same_arena h h' -> Forall (node_ok h) l -> Forall (node_ok h') l.
Proof.
  intros Hs H. eapply Forall_impl; [exact H|]. intros a. apply node_ok_same, Hs.
Qed.

(** Putting [y] between the end [p] of one segment and the start [n] of
    another. *)
Lemma chain_insert h pre p y n post :
  arena_ok h -> bt_heap_start h mod 4 = 0 ->
  NoDup (pre ++ p :: y :: n :: post) ->
  Forall (node_ok h) (pre ++ p :: y :: n :: post) ->
  chain h (pre ++ [p]) -> chain h (n :: post) ->
  chain (connect_state y n (connect_state p y h)) (pre ++ p :: y :: n :: post).
Proof.
  intros Hok Hs Hnd Hno Hc1 Hc2.
  set (h1 := connect_state p y h).
  assert (Hsame : same_arena h h1) by apply same_arena_connect.
  pose proof Hno as Hno'. rewrite Forall_app, !Forall_cons in Hno'.
  destruct Hno' as (Hpre & Hp & Hy & Hn & Hpost).
  pose proof Hnd as Hnd'. rewrite NoDup_app, !NoDup_cons in Hnd'.
  destruct Hnd' as (Hndpre & Hdisj & Hp1 & Hy1 & Hn1 & Hndpost).
  assert (H1 : chain h1 (pre ++ p :: y :: [])).
  { apply chain_join; try assumption; [| |exact I].
    - rewrite NoDup_app, !NoDup_cons. split; [exact Hndpre|]. split; [|split; [|split]].
      + intros z Hz Hz'. apply (Hdisj z Hz).
        rewrite !elem_of_cons in Hz'. rewrite !elem_of_cons.
        destruct Hz' as [-> | [-> | Hz']]; [tauto | tauto | inversion Hz'].
      + intros Hin. apply Hp1. rewrite !elem_of_cons in Hin. rewrite !elem_of_cons.
        destruct Hin as [-> | Hin]; [tauto | inversion Hin].
      + apply not_elem_of_nil.
      + apply NoDup_nil. exact I.
    - rewrite Forall_app, !Forall_cons.
      split; [exact Hpre|]. split; [exact Hp|]. split; [exact Hy | constructor]. }
  assert (H2 : chain h1 (n :: post)).
  { apply chain_connect_other; try assumption.
    - apply Forall_cons. split; assumption.
    - intros Hin. apply elem_of_removelast in Hin. apply Hp1. right. exact Hin.
    - intros Hin. apply Hy1. right. exact Hin. }
  replace (pre ++ p :: y :: n :: post) with ((pre ++ [p]) ++ y :: n :: post)
    by (rewrite <- app_assoc; reflexivity).
  apply chain_join.
  - exact (arena_ok_same _ _ Hsame Hok).
  - exact Hs.
  - rewrite <- app_assoc. exact Hnd.
  - rewrite <- app_assoc. exact (Forall_node_ok_same _ _ _ Hsame Hno).
  - rewrite <- app_assoc. exact H1.
  - exact H2.
Qed.

Lemma full_split (hs : Z) (m1 m2 : list Z) (tl : Z) :
  exists pre p n post,
    hs :: m1 = pre ++ [p] /\ m2 ++ [tl] = n :: post /\
    (forall z, hs :: (m1 ++ z :: m2) ++ [tl] = pre ++ p :: z :: n :: post) /\
    hs :: (m1 ++ m2) ++ [tl] = pre ++ p :: n :: post.
Proof.
  destruct (exists_last (l := hs :: m1)) as (pre & p & Epre); [discriminate|].
  assert (exists n post, m2 ++ [tl] = n :: post) as (n & post & Epost).
  { destruct m2; cbn; eauto. }
  exists pre, p, n, post. split; [exact Epre|]. split; [exact Epost|]. split.
  - intros z. rewrite <- app_assoc. cbn [app]. rewrite Epost.
    rewrite app_comm_cons, Epre, <- app_assoc. reflexivity.
  - rewrite <- app_assoc, Epost, app_comm_cons, Epre, <- app_assoc. reflexivity.
Qed.

Lemma lifo_next_connect h p n a b :
  (a - p) mod 16 = 0 -> (a - n) mod 16 = 0 -> a <> p ->
  lifo_next a h = Some (b, h) ->
  lifo_next a (connect_state p n h) = Some (b, connect_state p n h).
Proof.
  intros. apply (lifo_next_frame h); [apply same_arena_connect | | assumption].
  apply peek_connect_next; assumption.
Qed.

Lemma lifo_prev_connect h p n a b :
  (a - p) mod 16 = 0 -> (a - n) mod 16 = 0 -> a <> n ->
  lifo_prev a h = Some (b, h) ->
  lifo_prev a (connect_state p n h) = Some (b, connect_state p n h).
Proof.
  intros. apply (lifo_prev_frame h); [apply same_arena_connect | | assumption].
  apply peek_connect_prev; assumption.
Qed.

(** Detaching the node [x]: its list neighbours are connected. *)
Lemma free_list_unlink h m1 x m2 tl :
  arena_ok h -> free_list h (m1 ++ x :: m2) tl ->
  exists p n,
    lifo_prev x h = Some (p, h) /\ lifo_next x h = Some (n, h) /\
    node_ok h p /\ node_ok h n /\
    p ∈ bt_heap_start h :: m1 /\ n ∈ m2 ++ [tl] /\
    free_list (connect_state p n h) (m1 ++ m2) tl.
Proof.
  intros Hok (Hs & (Hnd & Hno & Hc) & Hprev & Hnext).
  destruct (full_split (bt_heap_start h) m1 m2 tl)
    as (pre & p & n & post & Epre & Epost & Efull & Efull').
  rewrite (Efull x) in Hnd, Hno, Hc.
  apply chain_app in Hc as (Hc1 & (Hpx & Hxn & Hc2)).
  pose proof Hno as Hno'. rewrite Forall_app, !Forall_cons in Hno'.
  destruct Hno' as (Hpre & Hp & Hx & Hn & Hpost).
  replace (pre ++ p :: x :: n :: post) with ((pre ++ [p]) ++ x :: n :: post)
    in Hnd, Hno by (rewrite <- app_assoc; reflexivity).
  apply NoDup_drop_mid in Hnd as (Hnd & _ & _).
  rewrite <- app_assoc in Hnd. cbn [app] in Hnd.
  assert (Hno2 : Forall (node_ok h) (pre ++ p :: n :: post)).
  { rewrite Forall_app, !Forall_cons. tauto. }
  assert (Hhs : bt_heap_start h ∈ pre ++ [p]) by (rewrite <- Epre; left).
  assert (Htl : tl ∈ n :: post).
  { rewrite <- Epost. apply elem_of_app. right. left. }
  pose proof Hnd as Hnd'. rewrite NoDup_app, !NoDup_cons in Hnd'.
  destruct Hnd' as (_ & Hdisj & Hp1 & Hn1 & _).
  exists p, n. split; [apply Hpx|]. split; [apply Hxn|].
  split; [exact Hp|]. split; [exact Hn|]. split; [|split].
  - rewrite Epre. apply elem_of_app. right. left.
  - rewrite Epost. left.
  - unfold free_list. change (bt_heap_start (connect_state p n h)) with (bt_heap_start h).
    split; [exact Hs|]. split; [|split].
    + rewrite Efull'. split; [exact Hnd|]. split.
      * exact (Forall_node_ok_same _ _ _ (same_arena_connect h p n) Hno2).
      * apply chain_join; assumption.
    + rewrite Forall_forall in Hno2.
      apply lifo_prev_connect; [eapply node_ok_cong; [|eassumption].. | | exact Hprev].
      * apply Hno2. apply elem_of_app in Hhs as [H|H]; [apply elem_of_app; left; exact H|].
        apply list_elem_of_singleton in H. rewrite H. apply elem_of_app. right. left.
      * apply Hno2. apply elem_of_app in Hhs as [H|H]; [apply elem_of_app; left; exact H|].
        apply list_elem_of_singleton in H. rewrite H. apply elem_of_app. right. left.
      * intros E. apply elem_of_app in Hhs as [H|H].
        -- apply (Hdisj _ H). rewrite E. right. left.
        -- apply list_elem_of_singleton in H. apply Hp1. rewrite <- H, E. left.
    + rewrite Forall_forall in Hno2.
      assert (Htl' : node_ok h tl).
      { apply Hno2. apply elem_of_app. right. right. exact Htl. }
      apply lifo_next_connect; [eapply node_ok_cong; eassumption.. | | exact Hnext].
      intros E. apply Hp1. rewrite <- E. exact Htl.
Qed.
Lemma free_list_insert_raw h pre p y n post mid tl :
  arena_ok h -> bt_heap_start h mod 4 = 0 ->
  bt_heap_start h :: mid ++ [tl] = pre ++ p :: y :: n :: post ->
  bt_heap_start h ∈ pre ++ [p] -> tl ∈ n :: post ->
  NoDup (pre ++ p :: y :: n :: post) ->
  Forall (node_ok h) (pre ++ p :: y :: n :: post) ->
  chain h (pre ++ [p]) -> chain h (n :: post) ->
  lifo_prev (bt_heap_start h) h = Some (NULL, h) ->
  lifo_next tl h = Some (NULL, h) ->
  free_list (connect_state y n (connect_state p y h)) mid tl.
Proof.
  intros Hok Hs Efull Hhs Htl Hnd Hno Hc1 Hc2 Hprev Hnext.
  set (h1 := connect_state p y h).
  assert (Hsame : same_arena h h1) by apply same_arena_connect.
  assert (Hsame2 : same_arena h (connect_state y n h1)) by (repeat split).
  pose proof Hno as Hno'. rewrite Forall_app, !Forall_cons in Hno'.
  destruct Hno' as (Hpre & Hp & Hy & Hn & Hpost).
  pose proof Hnd as Hnd'. rewrite NoDup_app, !NoDup_cons in Hnd'.
  destruct Hnd' as (_ & Hdisj & Hp1 & Hy1 & Hn1 & _).
  rewrite Forall_forall in Hno.
  assert (Hhsok : node_ok h (bt_heap_start h)).
  { apply Hno. apply elem_of_app in Hhs as [H|H]; [apply elem_of_app; left; exact H|].
    apply list_elem_of_singleton in H. rewrite H. apply elem_of_app. right. left. }
  assert (Hhsy : bt_heap_start h <> y).
  { intros E. apply elem_of_app in Hhs as [H|H].
    - apply (Hdisj _ H). rewrite E. right. left.
    - apply list_elem_of_singleton in H. apply Hp1. rewrite <- H, E. left. }
  assert (Hhsn : bt_heap_start h <> n).
  { intros E. apply elem_of_app in Hhs as [H|H].
    - apply (Hdisj _ H). rewrite E. right. right. left.
    - apply list_elem_of_singleton in H. apply Hp1. rewrite <- H, E. right. left. }
  assert (Htlok : node_ok h tl).
  { apply Hno. apply elem_of_app. right. right. right. exact Htl. }
  assert (Htlp : tl <> p).
  { intros E. apply Hp1. rewrite <- E. right. exact Htl. }
  assert (Htly : tl <> y).
  { intros E. apply Hy1. rewrite <- E. exact Htl. }
  unfold free_list.
  change (bt_heap_start (connect_state y n h1)) with (bt_heap_start h).
  split; [exact Hs|]. split; [|split].
  - rewrite Efull. split; [exact Hnd|]. split.
    + apply (Forall_node_ok_same h); [exact Hsame2|]. apply Forall_forall. exact Hno.
    + apply chain_insert; try assumption. apply Forall_forall. exact Hno.
  - apply lifo_prev_connect; [eapply node_ok_cong; eassumption.. | exact Hhsn |].
    apply lifo_prev_connect; [eapply node_ok_cong; eassumption.. | exact Hhsy |].
    exact Hprev.
  - apply lifo_next_connect; [eapply node_ok_cong; eassumption.. | exact Htly |].
    apply lifo_next_connect; [eapply node_ok_cong; eassumption.. | exact Htlp |].
    exact Hnext.
Qed.

(** Putting the new node [y] in the place of [x]. *)
Lemma free_list_replace h m1 x y m2 tl :
  arena_ok h -> free_list h (m1 ++ x :: m2) tl ->
  node_ok h y -> y ∉ bt_heap_start h :: (m1 ++ m2) ++ [tl] ->
  exists p n,
    lifo_prev x h = Some (p, h) /\ lifo_next x h = Some (n, h) /\
    node_ok h p /\ node_ok h n /\ node_ok h x /\ p <> x /\
    p ∈ bt_heap_start h :: m1 /\ n ∈ m2 ++ [tl] /\
    free_list (connect_state y n (connect_state p y h)) (m1 ++ y :: m2) tl.
Proof.
  intros Hok (Hs & (Hnd & Hno & Hc) & Hprev & Hnext) Hy Hfresh.
  destruct (full_split (bt_heap_start h) m1 m2 tl)
    as (pre & p & n & post & Epre & Epost & Efull & Efull').
  rewrite (Efull x) in Hnd, Hno, Hc. rewrite Efull' in Hfresh.
  apply chain_app in Hc as (Hc1 & (Hpx & Hxn & Hc2)).
  pose proof Hno as Hno'. rewrite Forall_app, !Forall_cons in Hno'.
  destruct Hno' as (Hpre & Hp & Hx & Hn & Hpost).
  assert (Hpx' : p <> x).
  { rewrite NoDup_app, !NoDup_cons in Hnd. intros E.
    destruct Hnd as (_ & _ & Hp1 & _). apply Hp1. rewrite E. left. }
  replace (pre ++ p :: x :: n :: post) with ((pre ++ [p]) ++ x :: n :: post)
    in Hnd by (rewrite <- app_assoc; reflexivity).
  apply NoDup_drop_mid in Hnd as (Hnd & _ & _).
  rewrite <- app_assoc in Hnd. cbn [app] in Hnd.
  assert (Hnd2 : NoDup (pre ++ p :: y :: n :: post)).
  { replace (pre ++ p :: y :: n :: post) with ((pre ++ [p]) ++ y :: n :: post)
      by (rewrite <- app_assoc; reflexivity).
    rewrite NoDup_app in Hnd. destruct Hnd as (A & B & C).
    rewrite !NoDup_cons in C. destruct C as (C1 & C2 & C3).
    rewrite !not_elem_of_app, !not_elem_of_cons in Hfresh.
    rewrite NoDup_app, !NoDup_cons. split; [|split; [|split; [|split]]].
    - apply NoDup_app. split; [exact A|]. split.
      + intros z Hz Hz'. apply (B z Hz). apply list_elem_of_singleton in Hz'.
        rewrite Hz'. left.
      + apply NoDup_singleton.
    - intros z Hz Hz'. apply elem_of_app in Hz as [Hz | Hz].
      + apply elem_of_cons in Hz' as [-> | Hz'].
        * tauto.
        * apply (B z Hz). right. exact Hz'.
      + apply list_elem_of_singleton in Hz. subst z.
        apply elem_of_cons in Hz' as [-> | Hz'].
        * tauto.
        * exact (C1 Hz').
    - rewrite not_elem_of_cons. tauto.
    - exact C2.
    - exact C3. }
  exists p, n. split; [apply Hpx|]. split; [apply Hxn|].
  split; [exact Hp|]. split; [exact Hn|]. split; [exact Hx|]. split; [exact Hpx'|].
  split; [|split].
  - rewrite Epre. apply elem_of_app. right. left.
  - rewrite Epost. left.
  - apply (free_list_insert_raw h pre p y n post); try assumption.
    + apply Efull.
    + rewrite <- Epre. left.
    + rewrite <- Epost. apply elem_of_app. right. left.
    + rewrite Forall_app, !Forall_cons. tauto.
Qed.

Lemma add_state_connect h y n :
  (y - bt_heap_start h) mod 16 = 0 ->
  y <> bt_heap_start h ->
  add_state y n h
  = connect_state y n (connect_state (bt_heap_start h) y h).
Proof.
  intros Hm Hne. unfold add_state, connect_state.
  change (bt_heap_start (poke _ _ (poke _ _ h))) with (bt_heap_start h).
  f_equal.
  rewrite (poke_comm _ (bt_heap_start h + 4)) by zlia.
  rewrite (poke_comm _ (bt_heap_start h + 4)) by zlia.
  rewrite (poke_comm _ (y + 8) _ (y + 4)) by lia.
  reflexivity.
Qed.

(** Putting the new node [y] at the front, right after the anchor. *)
Lemma free_list_add h mid tl y :
  arena_ok h -> free_list h mid tl ->
  node_ok h y -> y ∉ bt_heap_start h :: mid ++ [tl] ->
  exists n,
    lifo_next (bt_heap_start h) h = Some (n, h) /\ node_ok h n /\
    n ∈ mid ++ [tl] /\
    lifo_add y h = Some (tt, add_state y n h) /\
    free_list (add_state y n h) (y :: mid) tl.
Proof.
  intros Hok (Hs & (Hnd & Hno & Hc) & Hprev & Hnext) Hy Hfresh.
  assert (exists n post, mid ++ [tl] = n :: post) as (n & post & Epost).
  { destruct mid; cbn; eauto. }
  rewrite Epost in Hnd, Hno, Hc, Hfresh.
  destruct Hc as (Hl & Hc2).
  pose proof Hno as Hno'. rewrite !Forall_cons in Hno'.
  destruct Hno' as (Hhs & Hn & Hpost).
  rewrite !not_elem_of_cons in Hfresh. destruct Hfresh as (Hy1 & Hy2 & Hy3).
  destruct (node_valid _ _ Hs Hhs) as (_ & Hv1 & _).
  destruct (node_valid _ _ Hs Hn) as (_ & _ & Hv2).
  destruct (node_valid _ _ Hs Hy) as (_ & Hv3 & Hv4).
  exists n. split; [apply Hl|]. split; [exact Hn|].
  split; [rewrite Epost; left|]. split.
  - unfold lifo_add. rewrite (bind_run _ _ _ _ _ eq_refl).
    rewrite (bind_run _ _ _ _ _ (proj1 Hl)).
    unfold lifo_create_next, lifo_create_prev, lifo_put_next, lifo_put_prev.
    erewrite bind_run by (apply store_run; exact Hv3).
    erewrite bind_run by (apply store_run; exact Hv4).
    erewrite bind_run by (apply store_run; exact Hv1).
    apply store_run. exact Hv2.
  - rewrite add_state_connect by (try exact Hy1; apply Hy).
    apply (free_list_insert_raw h [] (bt_heap_start h) y n post); try assumption.
    + cbn [app]. rewrite Epost. reflexivity.
    + left.
    + rewrite <- Epost. apply elem_of_app. right. left.
    + cbn [app]. rewrite !NoDup_cons in Hnd. destruct Hnd as (A & B & C).
      rewrite !NoDup_cons, !not_elem_of_cons.
      rewrite not_elem_of_cons in A. repeat split; try tauto; congruence.
    + cbn [app]. rewrite !Forall_cons. tauto.
    + exact I.
Qed.

(** ** Blocks *)

Lemma block_at_read h a s f :
  arena_ok h -> bt_heap_start h mod 4 = 0 -> 0 <= f <= 1 ->
  block_at h a s f ->
  valid_word h a = true /\ valid_word h (a + s - 4) = true /\
  Z.land (peek h a) (Z.lnot USED) = s /\ Z.land (peek h a) USED = f /\
  Z.land (peek h (a + s - 4)) (Z.lnot USED) = s /\
  0 <= s < 2 ^ 31.
Proof.
  intros (_ & _ & _ & Hsmall) Hs Hf (Hm & Hmin & Hs16 & Hlo & Hhi & Hhd & Hft).
  assert (Hr : 0 <= s < 2 ^ 31) by lia.
  rewrite !valid_word_iff, Hhd, Hft.
  rewrite tag_size, tag_flag by zlia.
  repeat split; zlia.
Qed.

Lemma block_at_frame h h' a s f :
  same_arena h h' ->
  peek h' a = peek h a -> peek h' (a + s - 4) = peek h (a + s - 4) ->
  block_at h a s f -> block_at h' a s f.
Proof.
  intros (Hlo & Hbrk & _ & _ & Hs) H1 H2. unfold block_at.
  rewrite Hlo, Hbrk, Hs, H1, H2. tauto.
Qed.

Lemma block_at_intro h a s f :
  (a - bt_heap_start h) mod 16 = 0 -> 16 <= s -> s mod 16 = 0 ->
  mem_lo h <= a -> a + s <= mem_brk h ->
  peek h a = Z.lor s f -> peek h (a + s - 4) = Z.lor s f ->
  block_at h a s f.
Proof. unfold block_at. tauto. Qed.

(** Writing a tag (a word at a header or footer position) keeps the list. *)
Lemma free_list_poke_tag h mid tl a v :
  (a - bt_heap_start h) mod 16 = 0 \/ (a - bt_heap_start h) mod 16 = 12 ->
  free_list h mid tl -> free_list (poke a v h) mid tl.
Proof.
  intros Ha Hfl. apply (free_list_frame h); [apply same_arena_poke | | exact Hfl].
  destruct Hfl as (_ & (_ & Hno & _) & _). rewrite Forall_forall in Hno.
  intros x Hx. destruct (Hno x Hx) as (Hm & _).
  split; apply peek_poke_other; zlia.
Qed.

Lemma free_list_set_last h mid tl x :
  free_list h mid tl -> free_list (set_bt_heap_last x h) mid tl.
Proof.
  apply free_list_frame; [apply same_arena_last|]. intros a _. split; reflexivity.
Qed.

(** ** Placement (C6) *)

Lemma bt_next_tag h a s f :
  valid_word h a = true -> peek h a = Z.lor s f ->
  16 <= s < 2 ^ 31 -> s mod 16 = 0 -> 0 <= f <= 1 ->
  bt_next a h = Some (a + s, h).
Proof.
  intros Hv Hp Hr Hm Hf.
  rewrite (bt_next_run _ _ Hv); rewrite Hp, tag_size by zlia; [|lia].
  do 2 f_equal. zlia.
Qed.

Lemma bt_footer_tag h a s f :
  valid_word h a = true -> peek h a = Z.lor s f ->
  0 <= s < 2 ^ 31 -> s mod 16 = 0 -> 0 <= f <= 1 ->
  bt_footer a h = Some (a + s - 4, h).
Proof.
  intros Hv Hp Hr Hm Hf.
  rewrite (bt_footer_run _ _ Hv). rewrite Hp, tag_size by zlia. reflexivity.
Qed.

Lemma bt_make_tag h a s f :
  valid_word h a = true -> - 2 ^ 31 <= s < 2 ^ 31 ->
  bt_make a s f h = Some (tt, poke a (Z.lor s f) h).
Proof.
  intros Hv Hr. rewrite (bt_make_run _ _ _ _ Hv), to_word_small by exact Hr.
  reflexivity.
Qed.

(** C6: [place] on a free block of size [csize >= asize] that is the node
    after [m1] in the free list. When [csize - asize >= 16] the block is
    cut: the front becomes an in-use block of size [asize], the rest a
    free block of size [csize - asize] that takes the place of the
    original in the free list, and the topmost-block pointer moves to the
    rest when the block was the topmost one. Otherwise the block is
    taken off the list and marked in use at its full size. Headers and
    footers agree, and nothing outside the block changes except the link
    words of list nodes. *)
Theorem place_spec (h : heap) (bt asize csize : Z) (m1 m2 : list Z) (tl : Z) :
  arena_ok h ->
  free_list h (m1 ++ bt :: m2) tl ->
  block_at h bt csize FREE ->
  16 <= asize <= csize -> asize mod 16 = 0 ->
  Forall (fun a => a <= bt \/ bt + csize <= a)
         (bt_heap_start h :: (m1 ++ m2) ++ [tl]) ->
  exists h',
    place bt asize h = Some (tt, h') /\ same_arena h h' /\
    kept_outside h h' bt (bt + csize) (bt_heap_start h :: (m1 ++ m2) ++ [tl]) /\
    if 16 <=? csize - asize then
      block_at h' bt asize USED /\
      block_at h' (bt + asize) (csize - asize) FREE /\
      free_list h' (m1 ++ (bt + asize) :: m2) tl /\
      bt_heap_last h' = (if bt =? bt_heap_last h then bt + asize
                         else bt_heap_last h)
    else
      block_at h' bt csize USED /\
      free_list h' (m1 ++ m2) tl /\
      bt_heap_last h' = bt_heap_last h.
Proof.
  intros Hok Hfl Hblk Hasize Ham Hout.
  pose proof Hfl as (Hs & _).
  destruct (block_at_read h bt csize FREE Hok Hs ltac:(unfold FREE; lia) Hblk)
    as (Hvbt & Hvft & Hsz & _ & _ & Hrange).
  pose proof Hblk as (Hbm & Hcmin & Hcm & Hlo & Hhi & Hhd & Hft).
  pose proof Hok as (Hlo0 & _ & _ & Hsmall).
  unfold place.
  rewrite (bind_run _ _ _ _ _ (bt_size_run _ _ Hvbt)).
  cbv zeta. rewrite Hsz. rewrite (to_size_small csize) by lia.
  rewrite (to_size_small (csize - asize)) by lia.
  destruct (16 <=? csize - asize) eqn:Esplit.
  - (* the block is cut *)
    apply Z.leb_le in Esplit.
    set (h1 := poke bt (Z.lor asize USED) h).
    set (h2 := poke (bt + asize - 4) (Z.lor asize USED) h1).
    assert (Hfl2 : free_list h2 (m1 ++ bt :: m2) tl).
    { apply free_list_poke_tag; [right; cbn; zlia|].
      apply free_list_poke_tag; [left; exact Hbm | exact Hfl]. }
    assert (Hok2 : arena_ok h2) by exact Hok.
    assert (Hnew : node_ok h2 (bt + asize)).
    { unfold node_ok. cbn. zlia. }
    assert (Hfresh : bt + asize ∉ bt_heap_start h2 :: (m1 ++ m2) ++ [tl]).
    { intros Hin. rewrite Forall_forall in Hout.
      specialize (Hout _ Hin). cbn beta in Hout. lia. }
    destruct (free_list_replace h2 m1 bt (bt + asize) m2 tl Hok2 Hfl2 Hnew Hfresh)
      as (p & n & Hprev & Hnext & Hp & Hn & Hx & Hpx & Hpin & Hnin & Hfl4).
    destruct (node_valid _ _ Hs Hp) as (_ & Hvp & _).
    destruct (node_valid _ _ Hs Hn) as (_ & _ & Hvn).
    destruct (node_valid _ _ Hs Hnew) as (Hvnew & Hvnew4 & Hvnew8).
    pose proof Hp as (Hpm & _). pose proof Hn as (Hnm & _).
    cbn in Hpm, Hnm.
    erewrite bind_run by (apply bt_make_tag; [exact Hvbt | lia]).
    fold h1.
    erewrite bind_run
      by (apply (bt_footer_tag h1 bt asize USED);
          [exact Hvbt | apply peek_poke_same | lia | exact Ham | unfold USED; lia]).
    erewrite bind_run by (apply bt_make_tag; [rewrite valid_word_iff; cbn; zlia | lia]).
    fold h2.
    erewrite bind_run
      by (apply (bt_next_tag h2 bt asize USED);
          [exact Hvbt | unfold h2, h1; peeks; reflexivity
           | lia | exact Ham | unfold USED; lia]).
    rewrite (bind_run _ _ _ _ _ Hprev).
    erewrite bind_run by (apply lifo_connect_run; [exact Hvp | exact Hvnew8]).
    set (h3 := connect_state p (bt + asize) h2).
    erewrite bind_run
      by (apply (lifo_next_connect h2); [zlia | zlia | congruence | exact Hnext]).
    erewrite bind_run by (apply lifo_connect_run; [exact Hvnew4 | exact Hvn]).
    set (h4 := connect_state (bt + asize) n h3).
    erewrite bind_run by (apply bt_make_tag; [exact Hvnew | lia]).
    set (h5 := poke (bt + asize) (Z.lor (csize - asize) FREE) h4).
    erewrite bind_run
      by (apply (bt_footer_tag h5 (bt + asize) (csize - asize) FREE);
          [exact Hvnew | apply peek_poke_same | lia | zlia | unfold FREE; lia]).
    replace (bt + asize + (csize - asize) - 4) with (bt + csize - 4) by lia.
    erewrite bind_run by (apply bt_make_tag; [exact Hvft | lia]).
    set (h6 := poke (bt + csize - 4) (Z.lor (csize - asize) FREE) h5).
    rewrite (bind_run _ _ _ _ _ eq_refl).
    change (bt_heap_last h6) with (bt_heap_last h).
    assert (Hfl6 : free_list h6 (m1 ++ (bt + asize) :: m2) tl).
    { apply free_list_poke_tag; [right; cbn; zlia|].
      apply free_list_poke_tag; [left; cbn; zlia | exact Hfl4]. }
    assert (Hb1 : block_at h6 bt asize USED).
    { apply block_at_intro; cbn; try zlia;
        unfold h6, h5, h4, h3, h2, h1, connect_state; peeks; reflexivity. }
    assert (Hb2 : block_at h6 (bt + asize) (csize - asize) FREE).
    { apply block_at_intro; cbn; try zlia;
        [|replace (bt + asize + (csize - asize) - 4) with (bt + csize - 4) by lia];
        unfold h6, h5, h4, h3, h2, h1, connect_state; peeks; reflexivity. }
    assert (Hkept : kept_outside h h6 bt (bt + csize)
                      (bt_heap_start h :: (m1 ++ m2) ++ [tl])).
    { intros a Ha Hlinks.
      assert (Hap : a <> p + 4).
      { apply Hlinks. apply elem_of_cons in Hpin as [-> | Hpin]; [left|right].
        rewrite <- app_assoc. apply elem_of_app. left. exact Hpin. }
      assert (Han : a <> n + 8).
      { apply Hlinks. right. rewrite <- app_assoc. apply elem_of_app. right. exact Hnin. }
      unfold h6, h5, h4, h3, h2, h1, connect_state. peeks. reflexivity. }
    destruct (bt =? bt_heap_last h) eqn:Elast.
    + eexists. split; [reflexivity|].
      split; [repeat split|]. split; [exact Hkept|].
      split; [exact Hb1|]. split; [exact Hb2|].
      split; [apply free_list_set_last; exact Hfl6 | reflexivity].
    + exists h6. split; [reflexivity|].
      split; [repeat split|]. split; [exact Hkept|].
      split; [exact Hb1|]. split; [exact Hb2|].
      split; [exact Hfl6 | reflexivity].
  - (* the whole block is used *)
    apply Z.leb_gt in Esplit.
    destruct (free_list_unlink h m1 bt m2 tl Hok Hfl)
      as (p & n & Hprev & Hnext & Hp & Hn & Hpin & Hnin & Hfl1).
    destruct (node_valid _ _ Hs Hp) as (_ & Hvp & _).
    destruct (node_valid _ _ Hs Hn) as (_ & _ & Hvn).
    pose proof Hp as (Hpm & _). pose proof Hn as (Hnm & _).
    rewrite (bind_run _ _ _ _ _ Hprev), (bind_run _ _ _ _ _ Hnext).
    erewrite bind_run by (apply lifo_connect_run; [exact Hvp | exact Hvn]).
    set (h1 := connect_state p n h).
    erewrite bind_run by (apply bt_make_tag; [exact Hvbt | lia]).
    set (h2 := poke bt (Z.lor csize USED) h1).
    erewrite bind_run
      by (apply (bt_footer_tag h2 bt csize USED);
          [exact Hvbt | apply peek_poke_same | lia | exact Hcm | unfold USED; lia]).
    rewrite bt_make_tag by (try exact Hvft; lia).
    set (h3 := poke (bt + csize - 4) (Z.lor csize USED) h2).
    exists h3. split; [reflexivity|]. split; [repeat split|]. split; [|split; [|split]].
    + intros a Ha Hlinks.
      assert (Hap : a <> p + 4).
      { apply Hlinks. apply elem_of_cons in Hpin as [-> | Hpin]; [left|right].
        rewrite <- app_assoc. apply elem_of_app. left. exact Hpin. }
      assert (Han : a <> n + 8).
      { apply Hlinks. right. rewrite <- app_assoc. apply elem_of_app. right. exact Hnin. }
      unfold h3, h2, h1, connect_state. peeks. reflexivity.
    + apply block_at_intro; cbn; try zlia;
        unfold h3, h2, h1, connect_state; peeks; reflexivity.
    + apply free_list_poke_tag; [right; cbn; zlia|].
      apply free_list_poke_tag; [left; exact Hbm | exact Hfl1].
    + reflexivity.
Qed.

(** ** Growing in place (C7) *)

Lemma realloc_asize_aligned size :
  0 <= size < 2 ^ 64 -> realloc_asize size mod 16 = 0.
Proof. apply malloc_asize_aligned. Qed.

(** Without fuel [malloc] cannot return for a non-zero size: its search
    of the free list gives up at once. *)
Lemma malloc_needs_fuel (size : Z) (h : heap) :
  size <> 0 -> malloc 0 size h = None.
Proof.
  intros Hs. unfold malloc.
  replace (size =? 0) with false by (symmetry; apply Z.eqb_neq; exact Hs).
  cbv zeta. apply bind_fault. unfold find_fit.
  rewrite (bind_run _ _ _ _ _ eq_refl).
  destruct (lifo_next (bt_heap_start h) h) as [[c h1]|] eqn:E.
  - rewrite (bind_run _ _ _ _ _ E). reflexivity.
  - apply bind_fault. exact E.
Qed.

Section Grow.

Variables (h : heap) (old_ptr size old_size nsz : Z).
Variables (m1 m2 : list Z) (tl : Z).

Let cur := bt_fromptr old_ptr.
Let next := cur + old_size.
Let asize := realloc_asize size.
Let new_size := old_size + nsz.

Hypothesis Hok : arena_ok h.
Hypothesis Hfl : free_list h (m1 ++ next :: m2) tl.
Hypothesis Hsize : 0 < size < 2 ^ 64.
Hypothesis Hcur : block_at h cur old_size USED.
Hypothesis Hnext : block_at h next nsz FREE.
Hypothesis Hnl : cur <> bt_heap_last h.
Hypothesis Hgrow : old_size < asize <= new_size.
Hypothesis Hout :
  Forall (fun a => a <= next \/ next + nsz <= a)
         (bt_heap_start h :: (m1 ++ m2) ++ [tl]).

(** The branch is chosen before any call of [malloc]: the fuel plays no
    part. *)
Lemma realloc_grow_fuel (fuel fuel' : nat) :
  realloc fuel old_ptr size h = realloc fuel' old_ptr size h.
Proof.
  pose proof Hfl as (Hs & _).
  destruct (block_at_read h cur old_size USED Hok Hs ltac:(unfold USED; lia) Hcur)
    as (Hvcur & Hvcft & Hcsz & _ & _ & Hcrange).
  destruct (block_at_read h next nsz FREE Hok Hs ltac:(unfold FREE; lia) Hnext)
    as (Hvnx & Hvnft & Hnsz & Hnfl & _ & Hnrange).
  pose proof Hcur as (Hcm & Hcmin & Hcm16 & Hclo & Hchi & Hchd & Hcft).
  pose proof Hnext as (Hnm & Hnmin & Hnm16 & Hnlo & Hnhi & Hnhd & Hnft).
  pose proof Hok as (Hlo0 & _ & _ & Hsmall).
  assert (Hptr : old_ptr = cur + 4) by (unfold cur, bt_fromptr; lia).
  unfold realloc.
  replace (size =? 0) with false by (symmetry; apply Z.eqb_neq; lia).
  replace (old_ptr =? NULL) with false
    by (symmetry; apply Z.eqb_neq; unfold NULL; lia).
  cbv zeta. fold cur. fold asize.
  rewrite !(bind_run _ _ _ _ _ (bt_size_run _ _ Hvcur)).
  rewrite Hcsz, (to_size_small old_size) by lia.
  assert (Hprobe : realloc_probe cur old_size h = Some ((next, new_size), h)).
  { unfold realloc_probe. rewrite (bind_run _ _ _ _ _ eq_refl).
    replace (cur =? bt_heap_last h) with false
      by (symmetry; apply Z.eqb_neq; exact Hnl).
    cbn [negb].
    erewrite bind_run
      by (apply (bt_next_tag h cur old_size USED);
          [exact Hvcur | exact Hchd | lia | exact Hcm16 | unfold USED; lia]).
    fold next. rewrite (bind_run _ _ _ _ _ (bt_free_run _ _ Hvnx)).
    unfold blk_free. rewrite Hnfl. cbn [FREE Z.eqb truth negb].
    rewrite (bind_run _ _ _ _ _ (bt_size_run _ _ Hvnx)).
    rewrite Hnsz, to_size_small by lia. reflexivity. }
  rewrite !(bind_run _ _ _ _ _ Hprobe). cbn [fst snd].
  replace (asize =? old_size) with false by (symmetry; apply Z.eqb_neq; lia).
  replace (asize <? old_size) with false by (symmetry; apply Z.ltb_ge; lia).
  replace (negb (next =? NULL) && (asize <=? new_size)) with true.
  2:{ symmetry. apply andb_true_iff. split.
      - apply negb_true_iff, Z.eqb_neq. unfold NULL. lia.
      - apply Z.leb_le. lia. }
  reflexivity.
Qed.

Lemma realloc_grow_run (fuel : nat) :
  exists h',
    realloc fuel old_ptr size h = Some (old_ptr, h') /\ same_arena h h' /\
    kept_outside h h' cur (cur + new_size)
                 (bt_heap_start h :: (m1 ++ m2) ++ [tl]) /\
    if 16 <=? new_size - asize then
      block_at h' cur asize USED /\
      block_at h' (cur + asize) (new_size - asize) FREE /\
      free_list h' (m1 ++ (cur + asize) :: m2) tl /\
      bt_heap_last h' = (if next =? bt_heap_last h then cur + asize
                         else bt_heap_last h)
    else
      block_at h' cur new_size USED /\
      free_list h' (m1 ++ m2) tl /\
      bt_heap_last h' = (if next =? bt_heap_last h then cur
                         else bt_heap_last h).
Proof.
  pose proof Hfl as (Hs & _).
  destruct (block_at_read h cur old_size USED Hok Hs ltac:(unfold USED; lia) Hcur)
    as (Hvcur & Hvcft & Hcsz & _ & _ & Hcrange).
  destruct (block_at_read h next nsz FREE Hok Hs ltac:(unfold FREE; lia) Hnext)
    as (Hvnx & Hvnft & Hnsz & Hnfl & _ & Hnrange).
  pose proof Hcur as (Hcm & Hcmin & Hcm16 & Hclo & Hchi & Hchd & Hcft).
  pose proof Hnext as (Hnm & Hnmin & Hnm16 & Hnlo & Hnhi & Hnhd & Hnft).
  pose proof Hok as (Hlo0 & _ & _ & Hsmall).
  assert (Ham : asize mod 16 = 0) by (apply realloc_asize_aligned; lia).
  assert (Hptr : old_ptr = cur + 4) by (unfold cur, bt_fromptr; lia).
  assert (Hnn : node_ok h next) by (unfold node_ok; zlia).
  unfold realloc.
  replace (size =? 0) with false by (symmetry; apply Z.eqb_neq; lia).
  replace (old_ptr =? NULL) with false
    by (symmetry; apply Z.eqb_neq; unfold NULL; lia).
  cbv zeta. fold cur. fold asize.
  rewrite (bind_run _ _ _ _ _ (bt_size_run _ _ Hvcur)).
  rewrite Hcsz, (to_size_small old_size) by lia.
  assert (Hprobe : realloc_probe cur old_size h = Some ((next, new_size), h)).
  { unfold realloc_probe. rewrite (bind_run _ _ _ _ _ eq_refl).
    replace (cur =? bt_heap_last h) with false
      by (symmetry; apply Z.eqb_neq; exact Hnl).
    cbn [negb].
    erewrite bind_run
      by (apply (bt_next_tag h cur old_size USED);
          [exact Hvcur | exact Hchd | lia | exact Hcm16 | unfold USED; lia]).
    fold next. rewrite (bind_run _ _ _ _ _ (bt_free_run _ _ Hvnx)).
    unfold blk_free. rewrite Hnfl. cbn [FREE Z.eqb truth negb].
    rewrite (bind_run _ _ _ _ _ (bt_size_run _ _ Hvnx)).
    rewrite Hnsz, to_size_small by lia. reflexivity. }
  rewrite (bind_run _ _ _ _ _ Hprobe). cbn [fst snd].
  replace (asize =? old_size) with false by (symmetry; apply Z.eqb_neq; lia).
  replace (asize <? old_size) with false by (symmetry; apply Z.ltb_ge; lia).
  replace (negb (next =? NULL) && (asize <=? new_size)) with true.
  2:{ symmetry. apply andb_true_iff. split.
      - apply negb_true_iff, Z.eqb_neq. unfold NULL. lia.
      - apply Z.leb_le. lia. }
  rewrite (to_size_small (new_size - asize)) by lia.
  replace (bt_fromptr old_ptr + (old_size + nsz)) with (cur + new_size)
    by reflexivity.
  destruct (16 <=? new_size - asize) eqn:Esplit.
  - (* the combined span is cut *)
    apply Z.leb_le in Esplit.
    set (h1 := poke cur (Z.lor asize USED) h).
    assert (Hfl1 : free_list h1 (m1 ++ next :: m2) tl).
    { apply free_list_poke_tag; [left; exact Hcm | exact Hfl]. }
    assert (Hok1 : arena_ok h1) by exact Hok.
    assert (Hnew : node_ok h1 (cur + asize)).
    { unfold node_ok. cbn. unfold new_size, next in *. zlia. }
    assert (Hfresh : cur + asize ∉ bt_heap_start h1 :: (m1 ++ m2) ++ [tl]).
    { intros Hin. rewrite Forall_forall in Hout.
      specialize (Hout _ Hin). cbn beta in Hout. unfold new_size, next in *. lia. }
    destruct (free_list_replace h1 m1 next (cur + asize) m2 tl Hok1 Hfl1 Hnew Hfresh)
      as (p & n & Hprev & Hlnext & Hp & Hn & Hx & Hpx & Hpin & Hnin & Hfl3).
    destruct (node_valid _ _ Hs Hp) as (_ & Hvp & _).
    destruct (node_valid _ _ Hs Hn) as (_ & _ & Hvn).
    destruct (node_valid _ _ Hs Hnew) as (Hvnew & Hvnew4 & Hvnew8).
    pose proof Hp as (Hpm & _). pose proof Hn as (Hnm' & _).
    cbn in Hpm, Hnm'.
    rewrite ?bind_assoc; erewrite bind_run by (apply bt_make_tag; [exact Hvcur | unfold new_size in *; lia]).
    fold h1.
    rewrite ?bind_assoc; erewrite bind_run
      by (apply (bt_next_tag h1 cur asize USED);
          [exact Hvcur | apply peek_poke_same | unfold new_size in *; lia
           | exact Ham | unfold USED; lia]).
    rewrite ?bind_assoc, (bind_run _ _ _ _ _ Hprev).
    rewrite ?bind_assoc; erewrite bind_run by (apply lifo_connect_run; [exact Hvp | exact Hvnew8]).
    set (h2 := connect_state p (cur + asize) h1).
    rewrite ?bind_assoc; erewrite bind_run
      by (apply (lifo_next_connect h1);
          [unfold next; zlia | unfold next; zlia | congruence | exact Hlnext]).
    rewrite ?bind_assoc; erewrite bind_run by (apply lifo_connect_run; [exact Hvnew4 | exact Hvn]).
    set (h3 := connect_state (cur + asize) n h2).
    rewrite ?bind_assoc; erewrite bind_run
      by (apply (bt_footer_tag h3 cur asize USED);
          [exact Hvcur | unfold h3, h2, h1, connect_state; peeks; reflexivity
           | unfold new_size in *; lia | exact Ham | unfold USED; lia]).
    rewrite ?bind_assoc; erewrite bind_run
      by (apply bt_make_tag;
          [rewrite valid_word_iff; cbn; unfold new_size, next in *; zlia
          | unfold new_size in *; lia]).
    set (h4 := poke (cur + asize - 4) (Z.lor asize USED) h3).
    rewrite ?bind_assoc; erewrite bind_run by (apply bt_make_tag; [exact Hvnew | unfold new_size in *; lia]).
    set (h5 := poke (cur + asize) (Z.lor (new_size - asize) FREE) h4).
    rewrite ?bind_assoc; erewrite bind_run
      by (apply (bt_footer_tag h5 (cur + asize) (new_size - asize) FREE);
          [exact Hvnew | apply peek_poke_same | unfold new_size in *; lia
           | unfold new_size in *; zlia | unfold FREE; lia]).
    replace (cur + asize + (new_size - asize) - 4) with (next + nsz - 4)
      by (unfold new_size, next; lia).
    rewrite ?bind_assoc; erewrite bind_run by (apply bt_make_tag; [exact Hvnft | unfold new_size in *; lia]).
    set (h6 := poke (next + nsz - 4) (Z.lor (new_size - asize) FREE) h5).
    rewrite ?bind_assoc, (bind_run _ _ _ _ _ eq_refl).
    change (bt_heap_last h6) with (bt_heap_last h).
    assert (Hfl6 : free_list h6 (m1 ++ (cur + asize) :: m2) tl).
    { apply free_list_poke_tag; [right; cbn; unfold next; zlia|].
      apply free_list_poke_tag; [left; cbn; zlia|].
      apply free_list_poke_tag; [right; cbn; zlia | exact Hfl3]. }
    assert (Hb1 : block_at h6 cur asize USED).
    { apply block_at_intro; cbn; unfold new_size, next in *; try zlia;
        unfold h6, h5, h4, h3, h2, h1, connect_state; peeks; reflexivity. }
    assert (Hb2 : block_at h6 (cur + asize) (new_size - asize) FREE).
    { apply block_at_intro; cbn; unfold new_size, next in *; try zlia;
        [|replace (cur + asize + (old_size + nsz - asize) - 4)
            with (cur + old_size + nsz - 4) by lia];
        unfold h6, h5, h4, h3, h2, h1, connect_state; peeks; reflexivity. }
    assert (Hkept : kept_outside h h6 cur (cur + new_size)
                      (bt_heap_start h :: (m1 ++ m2) ++ [tl])).
    { intros a Ha Hlinks.
      assert (Hap : a <> p + 4).
      { apply Hlinks. apply elem_of_cons in Hpin as [-> | Hpin]; [left|right].
        rewrite <- app_assoc. apply elem_of_app. left. exact Hpin. }
      assert (Han : a <> n + 8).
      { apply Hlinks. right. rewrite <- app_assoc. apply elem_of_app. right. exact Hnin. }
      unfold h6, h5, h4, h3, h2, h1, connect_state, new_size, next in *.
      peeks. reflexivity. }
    destruct (next =? bt_heap_last h) eqn:Elast.
    + eexists. split; [reflexivity|].
      split; [repeat split|]. split; [exact Hkept|].
      split; [exact Hb1|]. split; [exact Hb2|].
      split; [apply free_list_set_last; exact Hfl6 | reflexivity].
    + exists h6. split; [reflexivity|].
      split; [repeat split|]. split; [exact Hkept|].
      split; [exact Hb1|]. split; [exact Hb2|].
      split; [exact Hfl6 | reflexivity].
  - (* the whole successor is absorbed *)
    apply Z.leb_gt in Esplit.
    destruct (free_list_unlink h m1 next m2 tl Hok Hfl)
      as (p & n & Hprev & Hlnext & Hp & Hn & Hpin & Hnin & Hfl1).
    destruct (node_valid _ _ Hs Hp) as (_ & Hvp & _).
    destruct (node_valid _ _ Hs Hn) as (_ & _ & Hvn).
    pose proof Hp as (Hpm & _). pose proof Hn as (Hnm' & _).
    rewrite ?bind_assoc, (bind_run _ _ _ _ _ Hprev).
    rewrite ?bind_assoc, (bind_run _ _ _ _ _ Hlnext).
    rewrite ?bind_assoc; erewrite bind_run by (apply lifo_connect_run; [exact Hvp | exact Hvn]).
    set (h1 := connect_state p n h).
    rewrite ?bind_assoc; erewrite bind_run by (apply bt_make_tag; [exact Hvcur | unfold new_size in *; lia]).
    set (h2 := poke cur (Z.lor new_size USED) h1).
    rewrite ?bind_assoc; erewrite bind_run
      by (apply (bt_footer_tag h2 cur new_size USED);
          [exact Hvcur | apply peek_poke_same | unfold new_size in *; lia
           | unfold new_size in *; zlia | unfold USED; lia]).
    replace (cur + new_size - 4) with (next + nsz - 4) by (unfold new_size, next; lia).
    rewrite ?bind_assoc; erewrite bind_run by (apply bt_make_tag; [exact Hvnft | unfold new_size in *; lia]).
    set (h3 := poke (next + nsz - 4) (Z.lor new_size USED) h2).
    rewrite ?bind_assoc, (bind_run _ _ _ _ _ eq_refl).
    change (bt_heap_last h3) with (bt_heap_last h).
    assert (Hfl3 : free_list h3 (m1 ++ m2) tl).
    { apply free_list_poke_tag; [right; cbn; unfold next; zlia|].
      apply free_list_poke_tag; [left; exact Hcm | exact Hfl1]. }
    assert (Hb1 : block_at h3 cur new_size USED).
    { apply block_at_intro; cbn; unfold new_size, next in *; try zlia;
        [|replace (cur + (old_size + nsz) - 4) with (cur + old_size + nsz - 4) by lia];
        unfold h3, h2, h1, connect_state; peeks; reflexivity. }
    assert (Hkept : kept_outside h h3 cur (cur + new_size)
                      (bt_heap_start h :: (m1 ++ m2) ++ [tl])).
    { intros a Ha Hlinks.
      assert (Hap : a <> p + 4).
      { apply Hlinks. apply elem_of_cons in Hpin as [-> | Hpin]; [left|right].
        rewrite <- app_assoc. apply elem_of_app. left. exact Hpin. }
      assert (Han : a <> n + 8).
      { apply Hlinks. right. rewrite <- app_assoc. apply elem_of_app. right. exact Hnin. }
      unfold h3, h2, h1, connect_state, new_size, next in *.
      peeks. reflexivity. }
    destruct (next =? bt_heap_last h) eqn:Elast.
    + eexists. split; [reflexivity|].
      split; [repeat split|]. split; [exact Hkept|].
      split; [exact Hb1|].
      split; [apply free_list_set_last; exact Hfl3 | reflexivity].
    + exists h3. split; [reflexivity|].
      split; [repeat split|]. split; [exact Hkept|].
      split; [exact Hb1|].
      split; [exact Hfl3 | reflexivity].
Qed.

End Grow.

(** C7: [realloc] on an in-use block whose successor by address is a free
    block, a node of the free list, when the needed size exceeds the
    block's size and the two blocks together are large enough. The call
    succeeds with the same result whatever the fuel, also without any, so
    [malloc] is not called ([malloc_needs_fuel]); the arena does not grow
    and the result is the old pointer. When at least 16 bytes are left
    over they become a free block that takes the successor's place in the
    free list; otherwise the successor is taken off the list and the
    block takes the whole span. The topmost-block pointer follows when
    the successor was the topmost block. *)
Theorem realloc_grow_spec (h : heap) (old_ptr size : Z)
    (old_size nsz : Z) (m1 m2 : list Z) (tl : Z) :
  let cur := bt_fromptr old_ptr in
  let next := cur + old_size in
  let asize := realloc_asize size in
  let new_size := old_size + nsz in
  arena_ok h ->
  free_list h (m1 ++ next :: m2) tl ->
  0 < size < 2 ^ 64 ->
  block_at h cur old_size USED ->
  block_at h next nsz FREE ->
  cur <> bt_heap_last h ->
  old_size < asize <= new_size ->
  Forall (fun a => a <= next \/ next + nsz <= a)
         (bt_heap_start h :: (m1 ++ m2) ++ [tl]) ->
  exists h',
    (forall fuel, realloc fuel old_ptr size h = Some (old_ptr, h')) /\
    same_arena h h' /\
    kept_outside h h' cur (cur + new_size)
                 (bt_heap_start h :: (m1 ++ m2) ++ [tl]) /\
    if 16 <=? new_size - asize then
      block_at h' cur asize USED /\
      block_at h' (cur + asize) (new_size - asize) FREE /\
      free_list h' (m1 ++ (cur + asize) :: m2) tl /\
      bt_heap_last h' = (if next =? bt_heap_last h then cur + asize
                         else bt_heap_last h)
    else
      block_at h' cur new_size USED /\
      free_list h' (m1 ++ m2) tl /\
      bt_heap_last h' = (if next =? bt_heap_last h then cur
                         else bt_heap_last h).
Proof.
  intros cur next asize new_size Hok Hfl Hsize Hcur Hnext Hnl Hgrow Hout.
  destruct (realloc_grow_run h old_ptr size old_size nsz m1 m2 tl
              Hok Hfl Hsize Hcur Hnext Hnl Hgrow Hout 0)
    as (h' & Hrun & Hrest).
  exists h'. split; [|exact Hrest].
  intros fuel.
  rewrite (realloc_grow_fuel h old_ptr size old_size nsz m1 m2 tl
             Hok Hfl Hsize Hcur Hnext Hnl Hgrow fuel 0).
  exact Hrun.
Qed.

(** ** Coalescing (C3) *)

Lemma block_at_add_state h a s f y n :
  (y - bt_heap_start h) mod 16 = 0 -> (n - bt_heap_start h) mod 16 = 0 ->
  block_at h a s f -> block_at (add_state y n h) a s f.
Proof.
  intros Hy Hn Hb. pose proof Hb as (Ha & _ & Hs & _).
  apply (block_at_frame h); [repeat split | | | exact Hb];
    unfold add_state; peeks; reflexivity.
Qed.

Lemma kept_outside_add_state h lo hi y n l :
  lo <= y -> y + 12 <= hi -> bt_heap_start h ∈ l -> n ∈ l ->
  kept_outside h (add_state y n h) lo hi l.
Proof.
  intros Hlo Hhi Hhs Hn a Ha Hlinks.
  pose proof (Hlinks _ Hhs) as [? ?]. pose proof (Hlinks _ Hn) as [? ?].
  unfold add_state. peeks. reflexivity.
Qed.

Lemma kept_outside_trans h1 h2 h3 lo hi l :
  kept_outside h1 h2 lo hi l -> kept_outside h2 h3 lo hi l ->
  kept_outside h1 h3 lo hi l.
Proof.
  intros H12 H23 a Ha Hl. rewrite H23, H12 by assumption. reflexivity.
Qed.

Lemma kept_outside_poke h lo hi l a v :
  lo <= a < hi -> kept_outside h (poke a v h) lo hi l.
Proof. intros Ha b Hb _. apply peek_poke_other. lia. Qed.

Lemma kept_outside_connect h lo hi l p n :
  p ∈ l -> n ∈ l -> kept_outside h (connect_state p n h) lo hi l.
Proof.
  intros Hp Hn a _ Hl. pose proof (Hl _ Hp) as [? ?]. pose proof (Hl _ Hn) as [? ?].
  unfold connect_state. peeks. reflexivity.
Qed.

Lemma in_full_l (hs : Z) m1 x m2 (tl p : Z) :
  p ∈ hs :: m1 -> p ∈ hs :: (m1 ++ x :: m2) ++ [tl].
Proof.
  rewrite <- app_assoc. cbn [app].
  rewrite !elem_of_cons, !elem_of_app, !elem_of_cons. tauto.
Qed.

Lemma in_full_r (hs : Z) m1 x m2 (tl n : Z) :
  n ∈ m2 ++ [tl] -> n ∈ hs :: (m1 ++ x :: m2) ++ [tl].
Proof.
  intros H. rewrite <- app_assoc. cbn [app].
  right. apply elem_of_app. right. right. exact H.
Qed.

Lemma in_full_drop (hs : Z) m1 x m2 (tl a : Z) :
  a ∈ hs :: (m1 ++ m2) ++ [tl] -> a ∈ hs :: (m1 ++ x :: m2) ++ [tl].
Proof.
  rewrite <- !app_assoc. cbn [app].
  intros H. apply elem_of_cons in H as [-> | H]; [left|right].
  apply elem_of_app in H as [H | H]; apply elem_of_app; [left; exact H|].
  right. right. exact H.
Qed.

Lemma NoDup_full_mid (hs : Z) m1 x m2 (tl : Z) :
  NoDup (hs :: (m1 ++ x :: m2) ++ [tl]) -> x ∉ hs :: (m1 ++ m2) ++ [tl].
Proof.
  rewrite <- !app_assoc. cbn [app]. rewrite app_comm_cons.
  intros H. apply NoDup_drop_mid in H as (_ & H1 & H2).
  rewrite app_comm_cons. apply not_elem_of_app. split; assumption.
Qed.

Section Coalesce.

Variables (h : heap) (ptr size psz pf : Z) (mid : list Z) (tl : Z).

Let cur := bt_fromptr ptr.
Let prev := cur - psz.
Let next := cur + size.

Hypothesis Hok : arena_ok h.
Hypothesis Hstart : heap_start h = bt_heap_start h + 4.
Hypothesis Hfl : free_list h mid tl.
Hypothesis Hcur : block_at h cur size FREE.
Hypothesis Hprev : block_at h prev psz pf.
Hypothesis Hpf : pf = FREE \/ pf = USED.
Hypothesis Hfresh : cur ∉ bt_heap_start h :: mid ++ [tl].

Lemma coalesce_prelude :
  bt_heap_start h mod 4 = 0 /\
  valid_word h cur = true /\ valid_word h prev = true /\
  bt_prev cur h = Some (prev, h) /\ bt_next cur h = Some (next, h) /\
  bt_size cur h = Some (size, h) /\ bt_used prev h = Some (pf, h) /\
  blk_free h prev = (pf =? FREE) /\
  bt_size prev h = Some (psz, h) /\
  bt_footer cur h = Some (cur + size - 4, h) /\
  0 <= size < 2 ^ 31 /\ 0 <= psz < 2 ^ 31 /\ node_ok h cur.
Proof.
  pose proof Hfl as (Hs & _).
  assert (Hf : 0 <= pf <= 1) by (unfold FREE, USED in Hpf; lia).
  destruct (block_at_read h cur size FREE Hok Hs ltac:(unfold FREE; lia) Hcur)
    as (Hvcur & Hvcft & Hcsz & _ & _ & Hcrange).
  destruct (block_at_read h prev psz pf Hok Hs Hf Hprev)
    as (Hvp & Hvpft & Hpsz & Hpfl & Hpfsz & Hprange).
  pose proof Hcur as (Hcm & Hcmin & Hcm16 & Hclo & Hchi & Hchd & Hcft).
  pose proof Hprev as (Hpm & Hpmin & Hpm16 & Hplo & Hphi & Hphd & Hpft).
  replace (prev + psz - 4) with (cur - 4) in * by (unfold prev; lia).
  split; [exact Hs|]. split; [exact Hvcur|]. split; [exact Hvp|].
  split; [|split; [|split; [|split; [|split; [|split; [|split]]]]]].
  - unfold bt_prev. rewrite (bind_run _ _ _ _ _ eq_refl).
    replace (bt_payload cur =? bt_fromptr (heap_start h)) with false
      by (symmetry; apply Z.eqb_neq; unfold bt_payload, bt_fromptr; zlia).
    rewrite (bind_run _ _ _ _ _ (bt_size_run _ _ Hvpft)).
    rewrite Hpfsz. unfold ret. do 2 f_equal. unfold prev. zlia.
  - apply (bt_next_tag h cur size FREE); try assumption; [lia | unfold FREE; lia].
  - rewrite (bt_size_run _ _ Hvcur), Hcsz. reflexivity.
  - rewrite (bt_used_run _ _ Hvp), Hpfl. reflexivity.
  - unfold blk_free. rewrite Hpfl. reflexivity.
  - rewrite (bt_size_run _ _ Hvp), Hpsz. reflexivity.
  - apply (bt_footer_tag h cur size FREE); try assumption; unfold FREE; lia.
  - split; [exact Hcrange|]. split; [exact Hprange|]. unfold node_ok. zlia.
Qed.

(** Case 1: both neighbours in use, or the block is the topmost one. *)
Lemma coalesce_case1 :
  pf = USED ->
  (cur = bt_heap_last h \/ exists nsz, block_at h next nsz USED) ->
  exists h',
    coalesce ptr h = Some (ptr, h') /\ same_arena h h' /\
    kept_outside h h' cur (cur + size) (bt_heap_start h :: mid ++ [tl]) /\
    block_at h' cur size FREE /\
    free_list h' (cur :: mid) tl /\
    bt_heap_last h' = bt_heap_last h.
Proof.
  intros Hused Hnext.
  destruct coalesce_prelude
    as (Hs & Hvcur & Hvp & Rprev & Rnext & Rsize & Rused & _ & _ & _ & Hr & _ & Hnode).
  destruct (free_list_add h mid tl cur Hok Hfl Hnode Hfresh)
    as (n & Hn & Hnok & Hnin & Radd & Hfl').
  unfold coalesce. fold cur.
  rewrite (bind_run _ _ _ _ _ Rprev), (bind_run _ _ _ _ _ Rnext).
  rewrite (bind_run _ _ _ _ _ Rsize), (bind_run _ _ _ _ _ eq_refl).
  rewrite (bind_run _ _ _ _ _ Rused). subst pf. cbn [truth USED Z.eqb negb].
  assert (Hc1 : (if bt_heap_last h =? cur then ret true
                 else nu <- bt_used next ;; ret (truth nu)) h = Some (true, h)).
  { destruct (bt_heap_last h =? cur) eqn:E; [reflexivity|].
    apply Z.eqb_neq in E. destruct Hnext as [Hl | (nsz & Hnb)]; [congruence|].
    destruct (block_at_read h next nsz USED Hok Hs ltac:(unfold USED; lia) Hnb)
      as (Hvn & _ & _ & Hnfl & _).
    rewrite (bind_run _ _ _ _ _ (bt_used_run _ _ Hvn)), Hnfl. reflexivity. }
  rewrite (bind_run _ _ _ _ _ Hc1).
  rewrite (bind_run _ _ _ _ _ Radd).
  exists (add_state cur n h). split; [reflexivity|].
  split; [repeat split|]. split; [|split; [|split]].
  - pose proof Hcur as (_ & Hmin & _).
    apply kept_outside_add_state; [lia | lia | left | right; exact Hnin].
  - apply block_at_add_state; [apply Hnode | apply Hnok | exact Hcur].
  - exact Hfl'.
  - reflexivity.
Qed.

(** Case 2: only the successor is free. *)
Lemma coalesce_case2 (nsz : Z) (m1 m2 : list Z) :
  pf = USED -> cur <> bt_heap_last h ->
  block_at h next nsz FREE -> mid = m1 ++ next :: m2 ->
  exists h',
    coalesce ptr h = Some (ptr, h') /\ same_arena h h' /\
    kept_outside h h' cur (cur + (size + nsz)) (bt_heap_start h :: mid ++ [tl]) /\
    block_at h' cur (size + nsz) FREE /\
    free_list h' (cur :: m1 ++ m2) tl /\
    bt_heap_last h' = (if bt_heap_last h =? next then cur else bt_heap_last h).
Proof.
  intros Hused Hnl Hnext Emid.
  destruct coalesce_prelude
    as (Hs & Hvcur & Hvp & Rprev & Rnext & Rsize & Rused & _ & _ & _ & Hr & _ & Hnode).
  destruct (block_at_read h next nsz FREE Hok Hs ltac:(unfold FREE; lia) Hnext)
    as (Hvn & Hvnft & Hnsz & Hnfl & _ & Hnrange).
  pose proof Hcur as (Hcm & Hcmin & Hcm16 & Hclo & Hchi & Hchd & Hcft).
  pose proof Hnext as (Hnm & Hnmin & Hnm16 & Hnlo & Hnhi & Hnhd & Hnft).
  pose proof Hok as (Hlo0 & _ & _ & Hsmall).
  pose proof Hfl as Hfl0. rewrite Emid in Hfl0.
  destruct (free_list_unlink h m1 next m2 tl Hok Hfl0)
    as (p & n & Rlp & Rln & Hp & Hn & Hpin & Hnin & Hfl1).
  destruct (node_valid _ _ Hs Hp) as (_ & Hvp4 & _).
  destruct (node_valid _ _ Hs Hn) as (_ & _ & Hvn8).
  pose proof Hp as (Hpm & _). pose proof Hn as (Hnm' & _).
  unfold coalesce. fold cur.
  rewrite (bind_run _ _ _ _ _ Rprev), (bind_run _ _ _ _ _ Rnext).
  rewrite (bind_run _ _ _ _ _ Rsize), (bind_run _ _ _ _ _ eq_refl).
  rewrite (bind_run _ _ _ _ _ Rused). subst pf. cbn [truth USED Z.eqb negb].
  replace (bt_heap_last h =? cur) with false
    by (symmetry; apply Z.eqb_neq; congruence).
  cbn [negb].
  rewrite bind_assoc, (bind_run _ _ _ _ _ (bt_used_run _ _ Hvn)), Hnfl.
  rewrite (bind_run _ _ _ _ _ eq_refl). cbn [truth FREE Z.eqb negb].
  rewrite (bind_run _ _ _ _ _ Rused). cbn [truth USED Z.eqb negb].
  rewrite bind_assoc, (bind_run _ _ _ _ _ (bt_free_run _ _ Hvn)).
  unfold blk_free. rewrite Hnfl. cbn [FREE Z.eqb].
  rewrite (bind_run _ _ _ _ _ eq_refl). cbn [truth Z.eqb negb].
  rewrite (bind_run _ _ _ _ _ (bt_size_run _ _ Hvn)), Hnsz.
  cbv zeta. rewrite (to_size_small size), (to_size_small (size + nsz)) by lia.
  rewrite (bind_run _ _ _ _ _ Rlp), (bind_run _ _ _ _ _ Rln).
  erewrite bind_run by (apply lifo_connect_run; [exact Hvp4 | exact Hvn8]).
  set (h1 := connect_state p n h).
  erewrite bind_run by (apply bt_make_tag; [exact Hvcur | lia]).
  set (h2 := poke cur (Z.lor (size + nsz) FREE) h1).
  erewrite bind_run
    by (apply (bt_footer_tag h2 cur (size + nsz) FREE);
        [exact Hvcur | apply peek_poke_same | lia | zlia | unfold FREE; lia]).
  replace (cur + (size + nsz) - 4) with (next + nsz - 4) by (unfold next; lia).
  erewrite bind_run by (apply bt_make_tag; [exact Hvnft | lia]).
  set (h3 := poke (next + nsz - 4) (Z.lor (size + nsz) FREE) h2).
  assert (Hfl3 : free_list h3 (m1 ++ m2) tl).
  { apply free_list_poke_tag; [right; cbn; zlia|].
    apply free_list_poke_tag; [left; exact Hcm | exact Hfl1]. }
  assert (Hfresh3 : cur ∉ bt_heap_start h3 :: (m1 ++ m2) ++ [tl]).
  { intros Hin. apply Hfresh. rewrite Emid. apply in_full_drop. exact Hin. }
  destruct (free_list_add h3 (m1 ++ m2) tl cur Hok Hfl3 Hnode Hfresh3)
    as (n' & Hn' & Hnok' & Hnin' & Radd & Hfl4).
  rewrite (bind_run _ _ _ _ _ Radd).
  set (h4 := add_state cur n' h3).
  rewrite (bind_run _ _ _ _ _ eq_refl).
  change (bt_heap_last h4) with (bt_heap_last h).
  assert (Hb : block_at h4 cur (size + nsz) FREE).
  { apply block_at_add_state; [exact Hcm | apply Hnok'|].
    apply block_at_intro; cbn; try zlia;
      [|replace (cur + (size + nsz) - 4) with (next + nsz - 4) by (unfold next; lia)];
      unfold h3, h2, h1, connect_state; peeks; reflexivity. }
  assert (Hkept : kept_outside h h4 cur (cur + (size + nsz))
                    (bt_heap_start h :: mid ++ [tl])).
  { rewrite Emid.
    apply (kept_outside_trans h h3).
    - apply (kept_outside_trans h h2).
      + apply (kept_outside_trans h h1).
        * apply kept_outside_connect; [apply in_full_l | apply in_full_r]; assumption.
        * apply kept_outside_poke. lia.
      + apply kept_outside_poke. unfold next. lia.
    - apply kept_outside_add_state;
        [lia | lia | left | apply in_full_drop; right; exact Hnin']. }
  destruct (bt_heap_last h =? next) eqn:Elast.
  - eexists. split; [reflexivity|]. split; [repeat split|].
    split; [exact Hkept|]. split; [exact Hb|].
    split; [apply free_list_set_last; exact Hfl4 | reflexivity].
  - exists h4. split; [reflexivity|]. split; [repeat split|].
    split; [exact Hkept|]. split; [exact Hb|].
    split; [exact Hfl4 | reflexivity].
Qed.

(** Case 3: only the predecessor is free. *)
Lemma coalesce_case3 (m1 m2 : list Z) :
  pf = FREE ->
  (cur = bt_heap_last h \/ exists nsz, block_at h next nsz USED) ->
  mid = m1 ++ prev :: m2 ->
  exists h',
    coalesce ptr h = Some (bt_payload prev, h') /\ same_arena h h' /\
    kept_outside h h' prev (prev + (psz + size)) (bt_heap_start h :: mid ++ [tl]) /\
    block_at h' prev (psz + size) FREE /\
    free_list h' (prev :: m1 ++ m2) tl /\
    bt_heap_last h' = (if bt_heap_last h =? cur then prev else bt_heap_last h).
Proof.
  intros Hfree Hnext Emid.
  destruct coalesce_prelude
    as (Hs & Hvcur & Hvp & Rprev & Rnext & Rsize & Rused & Rfree & Rpsz & Rft
        & Hr & Hpr & Hnode).
  pose proof Hcur as (Hcm & Hcmin & Hcm16 & Hclo & Hchi & Hchd & Hcft).
  pose proof Hprev as (Hpm & Hpmin & Hpm16 & Hplo & Hphi & Hphd & Hpft).
  pose proof Hok as (Hlo0 & _ & _ & Hsmall).
  destruct (block_at_read h cur size FREE Hok Hs ltac:(unfold FREE; lia) Hcur)
    as (_ & Hvcft & _).
  pose proof Hfl as Hfl0. rewrite Emid in Hfl0.
  assert (Hpfresh : prev ∉ bt_heap_start h :: (m1 ++ m2) ++ [tl]).
  { apply NoDup_full_mid. apply Hfl0. }
  destruct (free_list_unlink h m1 prev m2 tl Hok Hfl0)
    as (p & n & Rlp & Rln & Hp & Hn & Hpin & Hnin & Hfl1).
  destruct (node_valid _ _ Hs Hp) as (_ & Hvp4 & _).
  destruct (node_valid _ _ Hs Hn) as (_ & _ & Hvn8).
  pose proof Hp as (Hpm' & _). pose proof Hn as (Hnm' & _).
  assert (Hpnode : node_ok h prev) by (unfold node_ok; zlia).
  unfold coalesce. fold cur.
  rewrite (bind_run _ _ _ _ _ Rprev), (bind_run _ _ _ _ _ Rnext).
  rewrite (bind_run _ _ _ _ _ Rsize), (bind_run _ _ _ _ _ eq_refl).
  rewrite (bind_run _ _ _ _ _ Rused). subst pf. cbn [truth FREE Z.eqb negb].
  rewrite (bind_run _ _ _ _ _ eq_refl).
  rewrite (bind_run _ _ _ _ _ Rused). cbn [truth FREE Z.eqb negb].
  rewrite (bind_run _ _ _ _ _ eq_refl).
  rewrite (bind_run _ _ _ _ _ (bt_free_run _ _ Hvp)), Rfree.
  cbn [FREE Z.eqb truth negb].
  assert (Hc3 : (if bt_heap_last h =? cur then ret true
                 else nu <- bt_used next ;; ret (truth nu)) h = Some (true, h)).
  { destruct (bt_heap_last h =? cur) eqn:E; [reflexivity|].
    apply Z.eqb_neq in E. destruct Hnext as [Hl | (nsz & Hnb)]; [congruence|].
    destruct (block_at_read h next nsz USED Hok Hs ltac:(unfold USED; lia) Hnb)
      as (Hvn & _ & _ & Hnfl & _).
    rewrite (bind_run _ _ _ _ _ (bt_used_run _ _ Hvn)), Hnfl. reflexivity. }
  rewrite (bind_run _ _ _ _ _ Hc3).
  rewrite (bind_run _ _ _ _ _ Rpsz).
  cbv zeta. rewrite (to_size_small size), (to_size_small (size + psz)) by lia.
  rewrite (bind_run _ _ _ _ _ Rlp), (bind_run _ _ _ _ _ Rln).
  erewrite bind_run by (apply lifo_connect_run; [exact Hvp4 | exact Hvn8]).
  set (h1 := connect_state p n h).
  erewrite bind_run
    by (apply (bt_footer_tag h1 cur size FREE);
        [exact Hvcur | unfold h1, connect_state; peeks; exact Hchd
         | lia | exact Hcm16 | unfold FREE; lia]).
  erewrite bind_run by (apply bt_make_tag; [exact Hvcft | lia]).
  set (h2 := poke (cur + size - 4) (Z.lor (size + psz) FREE) h1).
  erewrite bind_run by (apply bt_make_tag; [exact Hvp | lia]).
  set (h3 := poke prev (Z.lor (size + psz) FREE) h2).
  assert (Hfl3 : free_list h3 (m1 ++ m2) tl).
  { apply free_list_poke_tag; [left; exact Hpm|].
    apply free_list_poke_tag; [right; cbn; zlia | exact Hfl1]. }
  destruct (free_list_add h3 (m1 ++ m2) tl prev Hok Hfl3 Hpnode Hpfresh)
    as (n' & Hn' & Hnok' & Hnin' & Radd & Hfl4).
  rewrite (bind_run _ _ _ _ _ Radd).
  set (h4 := add_state prev n' h3).
  rewrite (bind_run _ _ _ _ _ eq_refl).
  change (bt_heap_last h4) with (bt_heap_last h).
  assert (Hb : block_at h4 prev (psz + size) FREE).
  { apply block_at_add_state; [exact Hpm | apply Hnok'|].
    apply block_at_intro; cbn; try zlia;
      [|replace (prev + (psz + size) - 4) with (cur + size - 4) by (unfold prev; lia)];
      replace (psz + size) with (size + psz) by lia;
      unfold h3, h2, h1, connect_state; peeks; reflexivity. }
  assert (Hkept : kept_outside h h4 prev (prev + (psz + size))
                    (bt_heap_start h :: mid ++ [tl])).
  { rewrite Emid.
    apply (kept_outside_trans h h3).
    - apply (kept_outside_trans h h2).
      + apply (kept_outside_trans h h1).
        * apply kept_outside_connect; [apply in_full_l | apply in_full_r]; assumption.
        * apply kept_outside_poke. unfold prev. lia.
      + apply kept_outside_poke. lia.
    - apply kept_outside_add_state;
        [lia | lia | left | apply in_full_drop; right; exact Hnin']. }
  destruct (bt_heap_last h =? cur) eqn:Elast.
  - eexists. split; [reflexivity|]. split; [repeat split|].
    split; [exact Hkept|]. split; [exact Hb|].
    split; [apply free_list_set_last; exact Hfl4 | reflexivity].
  - exists h4. split; [reflexivity|]. split; [repeat split|].
    split; [exact Hkept|]. split; [exact Hb|].
    split; [exact Hfl4 | reflexivity].
Qed.

(** Case 4: both neighbours are free. *)
Lemma coalesce_case4 (nsz : Z) (a b c d : list Z) :
  pf = FREE -> cur <> bt_heap_last h ->
  block_at h next nsz FREE ->
  mid = a ++ prev :: b -> a ++ b = c ++ next :: d ->
  exists h',
    coalesce ptr h = Some (bt_payload prev, h') /\ same_arena h h' /\
    kept_outside h h' prev (prev + (psz + size + nsz))
                 (bt_heap_start h :: mid ++ [tl]) /\
    block_at h' prev (psz + size + nsz) FREE /\
    free_list h' (prev :: c ++ d) tl /\
    bt_heap_last h' = (if bt_heap_last h =? next then prev else bt_heap_last h).
Proof.
  intros Hfree Hnl Hnext Emid Eab.
  destruct coalesce_prelude
    as (Hs & Hvcur & Hvp & Rprev & Rnext & Rsize & Rused & Rfree & Rpsz & Rft
        & Hr & Hpr & Hnode).
  destruct (block_at_read h next nsz FREE Hok Hs ltac:(unfold FREE; lia) Hnext)
    as (Hvn & Hvnft & Hnsz & Hnfl & _ & Hnrange).
  pose proof Hcur as (Hcm & Hcmin & Hcm16 & Hclo & Hchi & Hchd & Hcft).
  pose proof Hprev as (Hpm & Hpmin & Hpm16 & Hplo & Hphi & Hphd & Hpft).
  pose proof Hnext as (Hnm & Hnmin & Hnm16 & Hnlo & Hnhi & Hnhd & Hnft).
  pose proof Hok as (Hlo0 & _ & _ & Hsmall).
  pose proof Hfl as Hfl0. rewrite Emid in Hfl0.
  assert (Hpfresh : prev ∉ bt_heap_start h :: (a ++ b) ++ [tl]).
  { apply NoDup_full_mid. apply Hfl0. }
  destruct (free_list_unlink h a prev b tl Hok Hfl0)
    as (p1 & n1 & Rlp1 & Rln1 & Hp1 & Hn1 & Hpin1 & Hnin1 & Hfl1).
  destruct (node_valid _ _ Hs Hp1) as (_ & Hvp1 & _).
  destruct (node_valid _ _ Hs Hn1) as (_ & _ & Hvn1).
  pose proof Hp1 as (Hpm1 & _). pose proof Hn1 as (Hnm1 & _).
  set (h1 := connect_state p1 n1 h) in *.
  rewrite Eab in Hfl1.
  destruct (free_list_unlink h1 c next d tl Hok Hfl1)
    as (p2 & n2 & Rlp2 & Rln2 & Hp2 & Hn2 & Hpin2 & Hnin2 & Hfl2).
  destruct (node_valid _ _ Hs Hp2) as (_ & Hvp2 & _).
  destruct (node_valid _ _ Hs Hn2) as (_ & _ & Hvn2).
  pose proof Hp2 as (Hpm2 & _). pose proof Hn2 as (Hnm2 & _).
  cbn in Hpm2, Hnm2.
  set (h2 := connect_state p2 n2 h1) in *.
  assert (Hpnode : node_ok h prev) by (unfold node_ok; zlia).
  assert (Hsub : forall x, x ∈ bt_heap_start h :: (c ++ next :: d) ++ [tl] ->
                           x ∈ bt_heap_start h :: mid ++ [tl]).
  { intros x Hx. rewrite Emid. apply in_full_drop. rewrite Eab. exact Hx. }
  unfold coalesce. fold cur.
  rewrite (bind_run _ _ _ _ _ Rprev), (bind_run _ _ _ _ _ Rnext).
  rewrite (bind_run _ _ _ _ _ Rsize), (bind_run _ _ _ _ _ eq_refl).
  rewrite (bind_run _ _ _ _ _ Rused). subst pf. cbn [truth FREE Z.eqb negb].
  rewrite (bind_run _ _ _ _ _ eq_refl).
  rewrite (bind_run _ _ _ _ _ Rused). cbn [truth FREE Z.eqb negb].
  rewrite (bind_run _ _ _ _ _ eq_refl).
  rewrite (bind_run _ _ _ _ _ (bt_free_run _ _ Hvp)), Rfree.
  cbn [FREE Z.eqb truth negb].
  replace (bt_heap_last h =? cur) with false
    by (symmetry; apply Z.eqb_neq; congruence).
  rewrite bind_assoc, (bind_run _ _ _ _ _ (bt_used_run _ _ Hvn)), Hnfl.
  rewrite (bind_run _ _ _ _ _ eq_refl). cbn [truth FREE Z.eqb negb].
  rewrite (bind_run _ _ _ _ _ Rpsz).
  rewrite (bind_run _ _ _ _ _ (bt_size_run _ _ Hvn)), Hnsz.
  cbv zeta. rewrite (to_size_small size), (to_word_small (psz + nsz)) by lia.
  rewrite (to_size_small (size + (psz + nsz))) by lia.
  replace (size + (psz + nsz)) with (psz + size + nsz) by lia.
  rewrite (bind_run _ _ _ _ _ Rlp1), (bind_run _ _ _ _ _ Rln1).
  erewrite bind_run by (apply lifo_connect_run; [exact Hvp1 | exact Hvn1]).
  fold h1.
  rewrite (bind_run _ _ _ _ _ Rlp2), (bind_run _ _ _ _ _ Rln2).
  erewrite bind_run by (apply lifo_connect_run; [exact Hvp2 | exact Hvn2]).
  fold h2.
  erewrite bind_run by (apply bt_make_tag; [exact Hvp | lia]).
  set (h3 := poke prev (Z.lor (psz + size + nsz) FREE) h2).
  erewrite bind_run
    by (apply (bt_footer_tag h3 next nsz FREE);
        [exact Hvn | unfold h3, h2, h1, connect_state; peeks; exact Hnhd
         | lia | exact Hnm16 | unfold FREE; lia]).
  erewrite bind_run by (apply bt_make_tag; [exact Hvnft | lia]).
  set (h4 := poke (next + nsz - 4) (Z.lor (psz + size + nsz) FREE) h3).
  assert (Hfl4 : free_list h4 (c ++ d) tl).
  { apply free_list_poke_tag; [right; cbn; zlia|].
    apply free_list_poke_tag; [left; exact Hpm | exact Hfl2]. }
  assert (Hpfresh4 : prev ∉ bt_heap_start h4 :: (c ++ d) ++ [tl]).
  { intros Hin. apply Hpfresh. rewrite Eab. apply in_full_drop. exact Hin. }
  destruct (free_list_add h4 (c ++ d) tl prev Hok Hfl4 Hpnode Hpfresh4)
    as (n' & Hn' & Hnok' & Hnin' & Radd & Hfl5).
  rewrite (bind_run _ _ _ _ _ Radd).
  set (h5 := add_state prev n' h4).
  rewrite (bind_run _ _ _ _ _ eq_refl).
  change (bt_heap_last h5) with (bt_heap_last h).
  assert (Hb : block_at h5 prev (psz + size + nsz) FREE).
  { apply block_at_add_state; [exact Hpm | apply Hnok'|].
    apply block_at_intro; cbn; try zlia;
      [|replace (prev + (psz + size + nsz) - 4) with (next + nsz - 4)
          by (unfold prev, next; lia)];
      unfold h4, h3, h2, h1, connect_state; peeks; reflexivity. }
  assert (Hkept : kept_outside h h5 prev (prev + (psz + size + nsz))
                    (bt_heap_start h :: mid ++ [tl])).
  { apply (kept_outside_trans h h4).
    - apply (kept_outside_trans h h3).
      + apply (kept_outside_trans h h2).
        * apply (kept_outside_trans h h1).
          -- apply kept_outside_connect; rewrite Emid;
               [apply in_full_l | apply in_full_r]; assumption.
          -- apply kept_outside_connect; apply Hsub;
               [apply in_full_l | apply in_full_r]; assumption.
        * apply kept_outside_poke. lia.
      + apply kept_outside_poke. unfold prev, next. lia.
    - apply kept_outside_add_state; [lia | lia | left |].
      apply Hsub. apply in_full_drop. right. exact Hnin'. }
  destruct (bt_heap_last h =? next) eqn:Elast.
  - eexists. split; [reflexivity|]. split; [repeat split|].
    split; [exact Hkept|]. split; [exact Hb|].
    split; [apply free_list_set_last; exact Hfl5 | reflexivity].
  - exists h5. split; [reflexivity|]. split; [repeat split|].
    split; [exact Hkept|]. split; [exact Hb|].
    split; [exact Hfl5 | reflexivity].
Qed.

End Coalesce.

(** A block is not both in use and free, so the premises of the four
    cases below exclude one another. *)
Lemma block_at_flag_unique h a s s' :
  block_at h a s USED -> block_at h a s' FREE -> False.
Proof.
  intros (_ & _ & Hs & _ & _ & Hu & _) (_ & _ & Hs' & _ & _ & Hf & _).
  rewrite Hu in Hf.
  rewrite !lor_flag in Hf by (unfold USED, FREE; zlia).
  unfold USED, FREE in Hf. zlia.
Qed.

(** C3: [coalesce] on a block [cur] that carries free tags and is not yet
    on the free list, with the block [prev] that ends where [cur] starts.
    Exactly one of four cases applies, by the flag of [prev] and by
    whether [cur] has a free successor (a topmost [cur] counts as having
    none, and its successor is not looked at):
    (1) no free neighbour: [cur] is put at the front of the free list;
    (2) only the successor is free: it leaves the list and [cur] takes
        both sizes;
    (3) only the predecessor is free: it takes both sizes and the result
        is its payload;
    (4) both are free: both leave the list and the predecessor takes the
        three sizes.
    In every case the merged block has matching free tags at both ends
    and sits at the front of the free list, and the topmost-block pointer
    moves to the merged block when the topmost block was absorbed. *)
Theorem coalesce_spec (h : heap) (ptr size psz pf : Z) (mid : list Z) (tl : Z) :
  let cur := bt_fromptr ptr in
  let prev := cur - psz in
  let next := cur + size in
  arena_ok h ->
  heap_start h = bt_heap_start h + 4 ->
  free_list h mid tl ->
  block_at h cur size FREE ->
  block_at h prev psz pf ->
  pf = FREE \/ pf = USED ->
  cur ∉ bt_heap_start h :: mid ++ [tl] ->
  (pf = USED ->
   (cur = bt_heap_last h \/ exists nsz, block_at h next nsz USED) ->
   exists h',
     coalesce ptr h = Some (ptr, h') /\ same_arena h h' /\
     kept_outside h h' cur (cur + size) (bt_heap_start h :: mid ++ [tl]) /\
     block_at h' cur size FREE /\
     free_list h' (cur :: mid) tl /\
     bt_heap_last h' = bt_heap_last h) /\
  (pf = USED -> cur <> bt_heap_last h ->
   forall nsz m1 m2,
     block_at h next nsz FREE -> mid = m1 ++ next :: m2 ->
     exists h',
       coalesce ptr h = Some (ptr, h') /\ same_arena h h' /\
       kept_outside h h' cur (cur + (size + nsz))
                    (bt_heap_start h :: mid ++ [tl]) /\
       block_at h' cur (size + nsz) FREE /\
       free_list h' (cur :: m1 ++ m2) tl /\
       bt_heap_last h' = (if bt_heap_last h =? next then cur
                          else bt_heap_last h)) /\
  (pf = FREE ->
   (cur = bt_heap_last h \/ exists nsz, block_at h next nsz USED) ->
   forall m1 m2,
     mid = m1 ++ prev :: m2 ->
     exists h',
       coalesce ptr h = Some (bt_payload prev, h') /\ same_arena h h' /\
       kept_outside h h' prev (prev + (psz + size))
                    (bt_heap_start h :: mid ++ [tl]) /\
       block_at h' prev (psz + size) FREE /\
       free_list h' (prev :: m1 ++ m2) tl /\
       bt_heap_last h' = (if bt_heap_last h =? cur then prev
                          else bt_heap_last h)) /\
  (pf = FREE -> cur <> bt_heap_last h ->
   forall nsz a b c d,
     block_at h next nsz FREE ->
     mid = a ++ prev :: b -> a ++ b = c ++ next :: d ->
     exists h',
       coalesce ptr h = Some (bt_payload prev, h') /\ same_arena h h' /\
       kept_outside h h' prev (prev + (psz + size + nsz))
                    (bt_heap_start h :: mid ++ [tl]) /\
       block_at h' prev (psz + size + nsz) FREE /\
       free_list h' (prev :: c ++ d) tl /\
       bt_heap_last h' = (if bt_heap_last h =? next then prev
                          else bt_heap_last h)).
Proof.
  intros cur prev next Hok Hstart Hfl Hcur Hprev Hpf Hfresh.
  split; [|split; [|split]].
  - intros Hu Hn.
    exact (coalesce_case1 h ptr size psz pf mid tl Hok Hstart Hfl Hcur Hprev Hpf
             Hfresh Hu Hn).
  - intros Hu Hl nsz m1 m2 Hn E.
    exact (coalesce_case2 h ptr size psz pf mid tl Hok Hstart Hfl Hcur Hprev Hpf
             Hfresh nsz m1 m2 Hu Hl Hn E).
  - intros Hf Hn m1 m2 E.
    exact (coalesce_case3 h ptr size psz pf mid tl Hok Hstart Hfl Hcur Hprev Hpf
             m1 m2 Hf Hn E).
  - intros Hf Hl nsz a b c d Hn E1 E2.
    exact (coalesce_case4 h ptr size psz pf mid tl Hok Hstart Hfl Hcur Hprev Hpf
             nsz a b c d Hf Hl Hn E1 E2).
Qed.

(** ** The theorems at concrete arenas *)

(** Closed facts about a concrete arena, by evaluation. *)
Ltac conc :=
  vm_compute;
  first [ reflexivity | exact I | discriminate | (intro; discriminate) ].

Ltac conc_dec := apply (bool_decide_unpack _); vm_compute; exact I.

Ltac conc_free_list :=
  unfold free_list, dll;
  split; [conc|];
  split; [split; [conc_dec | split; [conc_dec | cbn [chain app]; unfold linked; repeat split; conc]]|];
  split; conc.

Ltac conc_block := unfold block_at; repeat split; conc.

Ltac conc_arena := unfold arena_ok; repeat split; conc.

Lemma place_spec_witness :
  exists h',
    place 4188 32 three_free_heap = Some (tt, h') /\
    block_at h' 4188 32 USED /\
    block_at h' 4220 32 FREE /\
    free_list h' [4268; 4220; 4140] 4124.
Proof.
  destruct (place_spec three_free_heap 4188 32 64 [4268] [4140] 4124)
    as (h' & Hrun & _ & _ & Hcut).
  - conc_arena.
  - conc_free_list.
  - conc_block.
  - lia.
  - reflexivity.
  - conc_dec.
  - change (16 <=? 64 - 32) with true in Hcut. cbv iota in Hcut.
    destruct Hcut as (Hb1 & Hb2 & Hfl & _).
    exists h'. split; [exact Hrun|]. split; [exact Hb1|]. split; [exact Hb2 | exact Hfl].
Defined.

Lemma realloc_grow_spec_witness :
  exists h',
    realloc 0 4144 40 grow_heap = Some (4144, h') /\
    mem_brk h' = mem_brk grow_heap /\
    block_at h' 4140 48 USED /\
    block_at h' 4188 48 FREE /\
    free_list h' [4188] 4124.
Proof.
  pose proof (realloc_grow_spec grow_heap 4144 40 32 64 [] [] 4124) as H.
  cbv zeta in H.
  destruct H as (h' & Hrun & Hsame & _ & Hcut).
  - conc_arena.
  - conc_free_list.
  - lia.
  - conc_block.
  - conc_block.
  - conc.
  - split; conc.
  - conc_dec.
  - change (16 <=? 32 + 64 - realloc_asize 40) with true in Hcut. cbv iota in Hcut.
    destruct Hcut as (Hb1 & Hb2 & Hfl & _).
    exists h'. split; [apply Hrun|]. split; [apply Hsame|].
    split; [exact Hb1|]. split; [exact Hb2 | exact Hfl].
Defined.

Lemma coalesce_spec_witness :
  exists h',
    coalesce 4176 merge_heap = Some (4144, h') /\
    block_at h' 4140 96 FREE /\
    free_list h' [4140] 4124.
Proof.
  pose proof (coalesce_spec merge_heap 4176 32 32 FREE [4204; 4140] 4124) as H.
  cbv zeta in H.
  destruct H as (_ & _ & _ & Hboth).
  - conc_arena.
  - conc.
  - conc_free_list.
  - conc_block.
  - conc_block.
  - left. reflexivity.
  - conc_dec.
  - destruct (Hboth eq_refl ltac:(conc) 32 [4204] [] [] [])
      as (h' & Hrun & _ & _ & Hb & Hfl & _).
    + conc_block.
    + reflexivity.
    + reflexivity.
    + exists h'. split; [exact Hrun|]. split; [exact Hb | exact Hfl].
Defined.

(** * The allocator on well-formed heaps *)

Lemma span_app b1 b2 : span (b1 ++ b2) = span b1 + span b2.
Proof. induction b1 as [|[s f] b1 IH]; cbn; lia. Qed.

Lemma tiled_app h a b1 b2 :
  tiled h a (b1 ++ b2) <-> tiled h a b1 /\ tiled h (a + span b1) b2.
Proof.
  revert a. induction b1 as [|[s f] b1 IH]; intros a; cbn.
  - rewrite Z.add_0_r. tauto.
  - rewrite IH, Z.add_assoc. tauto.
Qed.

Lemma frees_app a b1 b2 :
  frees a (b1 ++ b2) = frees a b1 ++ frees (a + span b1) b2.
Proof.
  revert a. induction b1 as [|[s f] b1 IH]; intros a; cbn.
  - rewrite Z.add_0_r. reflexivity.
  - rewrite IH, Z.add_assoc. destruct (f =? FREE); reflexivity.
Qed.

Lemma useds_app a b1 b2 :
  useds a (b1 ++ b2) = useds a b1 ++ useds (a + span b1) b2.
Proof.
  revert a. induction b1 as [|[s f] b1 IH]; intros a; cbn.
  - rewrite Z.add_0_r. reflexivity.
  - rewrite IH, Z.add_assoc. destruct (f =? FREE); reflexivity.
Qed.

Lemma last_block_app d a b1 s f b2 :
  last_block d a (b1 ++ (s, f) :: b2)
  = last_block (a + span b1) (a + span b1 + s) b2.
Proof.
  revert d a. induction b1 as [|[s1 f1] b1 IH]; intros d a; cbn.
  - rewrite Z.add_0_r. reflexivity.
  - rewrite IH, Z.add_assoc. reflexivity.
Qed.

Lemma tiled_span h a bs : tiled h a bs -> 0 <= span bs.
Proof.
  revert a. induction bs as [|[s f] bs IH]; intros a; cbn; [lia|].
  intros ((_ & Hs & _) & _ & Ht). specialize (IH _ Ht). lia.
Qed.

Lemma tiled_end h a bs : tiled h a bs -> bs <> [] -> a + span bs <= mem_brk h.
Proof.
  revert a. induction bs as [|[s f] bs IH]; intros a; cbn; [congruence|].
  intros ((_ & Hs & _ & _ & Hhi & _) & _ & Ht) _.
  destruct bs as [|b bs]; [cbn; lia|].
  specialize (IH _ Ht ltac:(discriminate)). lia.
Qed.

Lemma last_block_ge h d a bs :
  tiled h a bs -> bs <> [] -> a <= last_block d a bs.
Proof.
  revert d a. induction bs as [|[s f] bs IH]; intros d a; cbn; [congruence|].
  intros ((_ & Hs & _) & _ & Ht) _.
  destruct bs as [|b bs]; [cbn; lia|].
  specialize (IH a _ Ht ltac:(discriminate)). lia.
Qed.

(** The free blocks of a tiling lie inside it. *)
Lemma frees_bounds h a bs x :
  tiled h a bs -> x ∈ frees a bs -> a <= x /\ x + 16 <= a + span bs.
Proof.
  revert a. induction bs as [|[s f] bs IH]; intros a; cbn.
  - intros _ Hx. inversion Hx.
  - intros ((_ & Hs & _) & _ & Ht) Hx.
    pose proof (tiled_span _ _ _ Ht).
    destruct (f =? FREE).
    + apply elem_of_cons in Hx as [-> | Hx]; [lia|].
      specialize (IH _ Ht Hx). lia.
    + specialize (IH _ Ht Hx). lia.
Qed.

Lemma frees_cong h a bs x :
  tiled h a bs -> x ∈ frees a bs -> (x - bt_heap_start h) mod 16 = 0.
Proof.
  revert a. induction bs as [|[s f] bs IH]; intros a; cbn.
  - intros _ Hx. inversion Hx.
  - intros ((Hm & _) & _ & Ht) Hx.
    destruct (f =? FREE).
    + apply elem_of_cons in Hx as [-> | Hx]; [exact Hm|]. exact (IH _ Ht Hx).
    + exact (IH _ Ht Hx).
Qed.

Lemma useds_bounds h a bs x s :
  tiled h a bs -> (x, s) ∈ useds a bs ->
  a <= x /\ x + s <= a + span bs /\ 16 <= s /\
  (x - bt_heap_start h) mod 16 = 0.
Proof.
  revert a. induction bs as [|[s1 f] bs IH]; intros a; cbn.
  - intros _ Hx. inversion Hx.
  - intros ((Hm & Hs & _) & _ & Ht) Hx.
    pose proof (tiled_span _ _ _ Ht).
    destruct (f =? FREE).
    + specialize (IH _ Ht Hx). lia.
    + apply elem_of_cons in Hx as [Hx | Hx].
      * injection Hx as -> ->. split; [lia|]. split; [lia|]. split; [lia | exact Hm].
      * specialize (IH _ Ht Hx). lia.
Qed.

(** A free block of the tiling, by its header. *)
Lemma frees_split h a bs x :
  tiled h a bs -> x ∈ frees a bs ->
  exists b1 s b2, bs = b1 ++ (s, FREE) :: b2 /\ x = a + span b1.
Proof.
  revert a. induction bs as [|[s f] bs IH]; intros a; cbn.
  - intros _ Hx. inversion Hx.
  - intros (Hb & Hf & Ht) Hx.
    destruct (f =? FREE) eqn:E.
    + apply Z.eqb_eq in E. subst f.
      apply elem_of_cons in Hx as [-> | Hx].
      * exists [], s, bs. cbn. split; [reflexivity | lia].
      * destruct (IH _ Ht Hx) as (b1 & s' & b2 & -> & ->).
        exists ((s, FREE) :: b1), s', b2. cbn. split; [reflexivity | lia].
    + destruct (IH _ Ht Hx) as (b1 & s' & b2 & -> & ->).
      exists ((s, f) :: b1), s', b2. cbn. split; [reflexivity | lia].
Qed.

Lemma useds_split h a bs x s :
  tiled h a bs -> (x, s) ∈ useds a bs ->
  exists b1 b2, bs = b1 ++ (s, USED) :: b2 /\ x = a + span b1.
Proof.
  revert a. induction bs as [|[s1 f] bs IH]; intros a; cbn.
  - intros _ Hx. inversion Hx.
  - intros (Hb & Hf & Ht) Hx.
    destruct (f =? FREE) eqn:E.
    + destruct (IH _ Ht Hx) as (b1 & b2 & -> & ->).
      exists ((s1, f) :: b1), b2. cbn. split; [reflexivity | lia].
    + apply Z.eqb_neq in E.
      assert (f = USED) by tauto. subst f.
      apply elem_of_cons in Hx as [Hx | Hx].
      * injection Hx as -> ->. exists [], bs. cbn. split; [reflexivity | lia].
      * destruct (IH _ Ht Hx) as (b1 & b2 & -> & ->).
        exists ((s1, USED) :: b1), b2. cbn. split; [reflexivity | lia].
Qed.

(** Tags outside the span that changes are kept, and so is a tiling. *)
Lemma tiled_kept h h' lo hi l a bs :
  same_arena h h' -> kept_outside h h' lo hi l ->
  (forall x, x ∈ l -> (x - bt_heap_start h) mod 16 = 0) ->
  tiled h a bs -> a + span bs <= lo \/ hi <= a ->
  tiled h' a bs.
Proof.
  intros Hsame Hk Hl. revert a.
  induction bs as [|[s f] bs IH]; intros a; cbn; [tauto|].
  intros (Hb & Hf & Ht) Hout.
  pose proof (tiled_span _ _ _ Ht).
  pose proof Hb as (Hm & Hs & Hs16 & _).
  split; [|split; [exact Hf|]].
  - apply (block_at_frame h); [exact Hsame | | | exact Hb].
    + apply Hk; [lia|]. intros x Hx. specialize (Hl x Hx). zlia.
    + apply Hk; [lia|]. intros x Hx. specialize (Hl x Hx). zlia.
  - apply IH; [exact Ht | lia].
Qed.

Lemma heap_inv_arena h bs mid : heap_inv h bs mid -> arena_ok h.
Proof.
  intros ((Hlo & Hbrk & Hmax & Hlen & _ & Ht & Hend & _) & _).
  pose proof Ht as ((_ & _ & _ & Hlo' & _) & _ & _ & _ & Ht').
  replace (bt_heap_start h + 16 + 16) with (bt_heap_start h + 32) in Ht' by lia.
  pose proof (tiled_span _ _ _ Ht').
  unfold arena_ok. lia.
Qed.

Lemma heap_inv_nodes h bs mid x :
  heap_inv h bs mid ->
  x ∈ bt_heap_start h :: mid ++ [bt_heap_start h + 16] ->
  (x - bt_heap_start h) mod 16 = 0 /\
  (x < bt_heap_start h + 32 \/ x ∈ frees (bt_heap_start h + 32) bs).
Proof.
  intros ((_ & _ & _ & _ & _ & Ht & _) & _ & Hp) Hx.
  destruct Ht as (_ & _ & _ & _ & Ht).
  replace (bt_heap_start h + 16 + 16) with (bt_heap_start h + 32) in Ht by lia.
  apply elem_of_cons in Hx as [-> | Hx]; [split; [zlia | lia]|].
  apply elem_of_app in Hx as [Hx | Hx].
  - rewrite Hp in Hx. split; [exact (frees_cong _ _ _ _ Ht Hx) | right; exact Hx].
  - apply list_elem_of_singleton in Hx. subst x. split; [zlia | lia].
Qed.

(** [place] on a free block that is a node of the free list: the run, the
    resulting blocks and the resulting list. *)
Lemma place_on_list (h : heap) (bt asize csize : Z) (m1 m2 : list Z) (tl : Z) :
  arena_ok h ->
  free_list h (m1 ++ bt :: m2) tl ->
  block_at h bt csize FREE ->
  16 <= asize <= csize -> asize mod 16 = 0 ->
  Forall (fun a => a <= bt \/ bt + csize <= a)
         (bt_heap_start h :: (m1 ++ m2) ++ [tl]) ->
  exists h',
    place bt asize h = Some (tt, h') /\ same_arena h h' /\
    kept_outside h h' bt (bt + csize) (bt_heap_start h :: (m1 ++ m2) ++ [tl]) /\
    if 16 <=? csize - asize then
      block_at h' bt asize USED /\
      block_at h' (bt + asize) (csize - asize) FREE /\
      free_list h' (m1 ++ (bt + asize) :: m2) tl /\
      bt_heap_last h' = (if bt =? bt_heap_last h then bt + asize
                         else bt_heap_last h)
    else
      block_at h' bt csize USED /\
      free_list h' (m1 ++ m2) tl /\
      bt_heap_last h' = bt_heap_last h.
Proof.
  intros Hok Hfl Hblk Hasize Ham Hout.
  pose proof Hfl as (Hs & _).
  destruct (block_at_read h bt csize FREE Hok Hs ltac:(unfold FREE; lia) Hblk)
    as (Hvbt & Hvft & Hsz & _ & _ & Hrange).
  pose proof Hblk as (Hbm & Hcmin & Hcm & Hlo & Hhi & Hhd & Hft).
  pose proof Hok as (Hlo0 & _ & _ & Hsmall).
  unfold place.
  rewrite (bind_run _ _ _ _ _ (bt_size_run _ _ Hvbt)).
  cbv zeta. rewrite Hsz. rewrite (to_size_small csize) by lia.
  rewrite (to_size_small (csize - asize)) by lia.
  destruct (16 <=? csize - asize) eqn:Esplit.
  - (* the block is cut *)
    apply Z.leb_le in Esplit.
    set (h1 := poke bt (Z.lor asize USED) h).
    set (h2 := poke (bt + asize - 4) (Z.lor asize USED) h1).
    assert (Hfl2 : free_list h2 (m1 ++ bt :: m2) tl).
    { apply free_list_poke_tag; [right; cbn; zlia|].
      apply free_list_poke_tag; [left; exact Hbm | exact Hfl]. }
    assert (Hok2 : arena_ok h2) by exact Hok.
    assert (Hnew : node_ok h2 (bt + asize)).
    { unfold node_ok. cbn. zlia. }
    assert (Hfresh : bt + asize ∉ bt_heap_start h2 :: (m1 ++ m2) ++ [tl]).
    { intros Hin. rewrite Forall_forall in Hout.
      specialize (Hout _ Hin). cbn beta in Hout. lia. }
    destruct (free_list_replace h2 m1 bt (bt + asize) m2 tl Hok2 Hfl2 Hnew Hfresh)
      as (p & n & Hprev & Hnext & Hp & Hn & Hx & Hpx & Hpin & Hnin & Hfl4).
    destruct (node_valid _ _ Hs Hp) as (_ & Hvp & _).
    destruct (node_valid _ _ Hs Hn) as (_ & _ & Hvn).
    destruct (node_valid _ _ Hs Hnew) as (Hvnew & Hvnew4 & Hvnew8).
    pose proof Hp as (Hpm & _). pose proof Hn as (Hnm & _).
    cbn in Hpm, Hnm.
    erewrite bind_run by (apply bt_make_tag; [exact Hvbt | lia]).
    fold h1.
    erewrite bind_run
      by (apply (bt_footer_tag h1 bt asize USED);
          [exact Hvbt | apply peek_poke_same | lia | exact Ham | unfold USED; lia]).
    erewrite bind_run by (apply bt_make_tag; [rewrite valid_word_iff; cbn; zlia | lia]).
    fold h2.
    erewrite bind_run
      by (apply (bt_next_tag h2 bt asize USED);
          [exact Hvbt | unfold h2, h1; peeks; reflexivity
           | lia | exact Ham | unfold USED; lia]).
    rewrite (bind_run _ _ _ _ _ Hprev).
    erewrite bind_run by (apply lifo_connect_run; [exact Hvp | exact Hvnew8]).
    set (h3 := connect_state p (bt + asize) h2).
    erewrite bind_run
      by (apply (lifo_next_connect h2); [zlia | zlia | congruence | exact Hnext]).
    erewrite bind_run by (apply lifo_connect_run; [exact Hvnew4 | exact Hvn]).
    set (h4 := connect_state (bt + asize) n h3).
    erewrite bind_run by (apply bt_make_tag; [exact Hvnew | lia]).
    set (h5 := poke (bt + asize) (Z.lor (csize - asize) FREE) h4).
    erewrite bind_run
      by (apply (bt_footer_tag h5 (bt + asize) (csize - asize) FREE);
          [exact Hvnew | apply peek_poke_same | lia | zlia | unfold FREE; lia]).
    replace (bt + asize + (csize - asize) - 4) with (bt + csize - 4) by lia.
    erewrite bind_run by (apply bt_make_tag; [exact Hvft | lia]).
    set (h6 := poke (bt + csize - 4) (Z.lor (csize - asize) FREE) h5).
    rewrite (bind_run _ _ _ _ _ eq_refl).
    change (bt_heap_last h6) with (bt_heap_last h).
    assert (Hfl6 : free_list h6 (m1 ++ (bt + asize) :: m2) tl).
    { apply free_list_poke_tag; [right; cbn; zlia|].
      apply free_list_poke_tag; [left; cbn; zlia | exact Hfl4]. }
    assert (Hb1 : block_at h6 bt asize USED).
    { apply block_at_intro; cbn; try zlia;
        unfold h6, h5, h4, h3, h2, h1, connect_state; peeks; reflexivity. }
    assert (Hb2 : block_at h6 (bt + asize) (csize - asize) FREE).
    { apply block_at_intro; cbn; try zlia;
        [|replace (bt + asize + (csize - asize) - 4) with (bt + csize - 4) by lia];
        unfold h6, h5, h4, h3, h2, h1, connect_state; peeks; reflexivity. }
    assert (Hkept : kept_outside h h6 bt (bt + csize)
                      (bt_heap_start h :: (m1 ++ m2) ++ [tl])).
    { intros a Ha Hlinks.
      assert (Hap : a <> p + 4).
      { apply Hlinks. apply elem_of_cons in Hpin as [-> | Hpin]; [left|right].
        rewrite <- app_assoc. apply elem_of_app. left. exact Hpin. }
      assert (Han : a <> n + 8).
      { apply Hlinks. right. rewrite <- app_assoc. apply elem_of_app. right. exact Hnin. }
      unfold h6, h5, h4, h3, h2, h1, connect_state. peeks. reflexivity. }
    destruct (bt =? bt_heap_last h) eqn:Elast.
    + eexists. split; [reflexivity|].
      split; [repeat split|]. split; [exact Hkept|].
      split; [exact Hb1|]. split; [exact Hb2|].
      split; [apply free_list_set_last; exact Hfl6 | reflexivity].
    + exists h6. split; [reflexivity|].
      split; [repeat split|]. split; [exact Hkept|].
      split; [exact Hb1|]. split; [exact Hb2|].
      split; [exact Hfl6 | reflexivity].
  - (* the whole block is used *)
    apply Z.leb_gt in Esplit.
    destruct (free_list_unlink h m1 bt m2 tl Hok Hfl)
      as (p & n & Hprev & Hnext & Hp & Hn & Hpin & Hnin & Hfl1).
    destruct (node_valid _ _ Hs Hp) as (_ & Hvp & _).
    destruct (node_valid _ _ Hs Hn) as (_ & _ & Hvn).
    pose proof Hp as (Hpm & _). pose proof Hn as (Hnm & _).
    rewrite (bind_run _ _ _ _ _ Hprev), (bind_run _ _ _ _ _ Hnext).
    erewrite bind_run by (apply lifo_connect_run; [exact Hvp | exact Hvn]).
    set (h1 := connect_state p n h).
    erewrite bind_run by (apply bt_make_tag; [exact Hvbt | lia]).
    set (h2 := poke bt (Z.lor csize USED) h1).
    erewrite bind_run
      by (apply (bt_footer_tag h2 bt csize USED);
          [exact Hvbt | apply peek_poke_same | lia | exact Hcm | unfold USED; lia]).
    rewrite bt_make_tag by (try exact Hvft; lia).
    set (h3 := poke (bt + csize - 4) (Z.lor csize USED) h2).
    exists h3. split; [reflexivity|]. split; [repeat split|]. split; [|split; [|split]].
    + intros a Ha Hlinks.
      assert (Hap : a <> p + 4).
      { apply Hlinks. apply elem_of_cons in Hpin as [-> | Hpin]; [left|right].
        rewrite <- app_assoc. apply elem_of_app. left. exact Hpin. }
      assert (Han : a <> n + 8).
      { apply Hlinks. right. rewrite <- app_assoc. apply elem_of_app. right. exact Hnin. }
      unfold h3, h2, h1, connect_state. peeks. reflexivity.
    + apply block_at_intro; cbn; try zlia;
        unfold h3, h2, h1, connect_state; peeks; reflexivity.
    + apply free_list_poke_tag; [right; cbn; zlia|].
      apply free_list_poke_tag; [left; exact Hbm | exact Hfl1].
    + reflexivity.
Qed.

(** The nodes of the free list other than a free block lie outside it. *)
Lemma heap_inv_outside h b1 c f b2 mid x :
  heap_inv h (b1 ++ (c, f) :: b2) mid ->
  x ∈ bt_heap_start h :: mid ++ [bt_heap_start h + 16] ->
  x <= bt_heap_start h + 32 + span b1 \/
  bt_heap_start h + 32 + span b1 + c <= x.
Proof.
  intros Hinv Hx.
  destruct (heap_inv_nodes _ _ _ _ Hinv Hx) as (_ & [Hlt | Hin]).
  - destruct Hinv as ((_ & _ & _ & _ & _ & Ht & _) & _).
    destruct Ht as (_ & _ & _ & _ & Ht).
    replace (bt_heap_start h + 16 + 16) with (bt_heap_start h + 32) in Ht by lia.
    apply tiled_app in Ht as (Ht1 & _).
    pose proof (tiled_span _ _ _ Ht1). lia.
  - destruct Hinv as ((_ & _ & _ & _ & _ & Ht & _) & _).
    destruct Ht as (_ & _ & _ & _ & Ht).
    replace (bt_heap_start h + 16 + 16) with (bt_heap_start h + 32) in Ht by lia.
    apply tiled_app in Ht as (Ht1 & Ht2).
    rewrite frees_app in Hin. apply elem_of_app in Hin as [Hin | Hin].
    + pose proof (frees_bounds _ _ _ _ Ht1 Hin). lia.
    + cbn in Hin. destruct Ht2 as (_ & _ & Ht2).
      destruct (f =? FREE).
      * apply elem_of_cons in Hin as [-> | Hin]; [lia|].
        pose proof (frees_bounds _ _ _ _ Ht2 Hin). lia.
      * pose proof (frees_bounds _ _ _ _ Ht2 Hin). lia.
Qed.

Lemma last_block_tail h d a bs :
  tiled h a bs -> last_block d a bs = d -> d < a -> bs = [].
Proof.
  intros Ht E Hd. destruct bs as [|b bs]; [reflexivity|].
  pose proof (last_block_ge h d a (b :: bs) Ht ltac:(discriminate)). lia.
Qed.

(** [place] on a free block of a well-formed heap. *)
Lemma place_inv h b1 c b2 m1 m2 asize :
  heap_inv h (b1 ++ (c, FREE) :: b2)
           (m1 ++ (bt_heap_start h + 32 + span b1) :: m2) ->
  16 <= asize <= c -> asize mod 16 = 0 ->
  exists h',
    place (bt_heap_start h + 32 + span b1) asize h = Some (tt, h') /\
    same_arena h h' /\
    kept_outside h h' (bt_heap_start h + 32 + span b1)
                 (bt_heap_start h + 32 + span b1 + c)
                 (bt_heap_start h :: (m1 ++ m2) ++ [bt_heap_start h + 16]) /\
    if 16 <=? c - asize then
      heap_inv h' (b1 ++ (asize, USED) :: (c - asize, FREE) :: b2)
               (m1 ++ (bt_heap_start h + 32 + span b1 + asize) :: m2)
    else heap_inv h' (b1 ++ (c, USED) :: b2) (m1 ++ m2).
Proof.
  remember (m1 ++ (bt_heap_start h + 32 + span b1) :: m2) as mid eqn:Emid.
  intros Hinv Hasize Ham.
  pose proof (heap_inv_arena _ _ _ Hinv) as Hok.
  pose proof Hinv as ((Hlo & Hbrk & Hmax & Hlen & Hstart & Ht & Hend & Hlast) & Hfl & Hperm).
  set (hs := bt_heap_start h) in *.
  set (bt := hs + 32 + span b1) in *.
  pose proof Ht as (Ha1 & _ & Ha2 & _ & Htb).
  replace (hs + 16 + 16) with (hs + 32) in Htb by lia.
  pose proof Htb as Htb'. apply tiled_app in Htb' as (Ht1 & Hblk & _ & Ht2).
  fold bt in Hblk, Ht2.
  assert (Hout : Forall (fun a => a <= bt \/ bt + c <= a)
                        (hs :: (m1 ++ m2) ++ [hs + 16])).
  { apply Forall_forall. intros x Hx.
    apply (heap_inv_outside h b1 c FREE b2 mid x Hinv).
    rewrite Emid. apply in_full_drop. exact Hx. }
  assert (Hcong : forall x, x ∈ hs :: (m1 ++ m2) ++ [hs + 16] ->
                            (x - hs) mod 16 = 0).
  { intros x Hx. apply (heap_inv_nodes h _ mid x Hinv).
    rewrite Emid. apply in_full_drop. exact Hx. }
  rewrite Emid in Hfl.
  destruct (place_on_list h bt asize c m1 m2 (hs + 16) Hok Hfl Hblk Hasize Ham Hout)
    as (h' & Hrun & Hsame & Hkept & Hres).
  exists h'. split; [exact Hrun|].
  split; [exact Hsame|]. split; [exact Hkept|].
  pose proof Hsame as (Elo & Ebrk & Emax & Estart & Ehs).
  assert (Hanch : block_at h' hs 16 USED /\ block_at h' (hs + 16) 16 USED).
  { pose proof (tiled_kept h h' bt (bt + c) _ hs [(16, USED); (16, USED)]
                  Hsame Hkept Hcong) as Hk.
    cbn in Hk. pose proof (tiled_span _ _ _ Ht1).
    destruct Hk as (K1 & _ & K2 & _); [tauto | unfold bt; lia | tauto]. }
  assert (Ht1' : tiled h' (hs + 32) b1).
  { apply (tiled_kept h h' bt (bt + c) _ (hs + 32) b1 Hsame Hkept Hcong Ht1).
    left. unfold bt. lia. }
  assert (Ht2' : tiled h' (bt + c) b2).
  { apply (tiled_kept h h' bt (bt + c) _ (bt + c) b2 Hsame Hkept Hcong Ht2).
    right. lia. }
  assert (Hperm' : m1 ++ m2 ≡ₚ frees (hs + 32) b1 ++ frees (bt + c) b2).
  { rewrite Emid, frees_app in Hperm. cbn in Hperm. fold bt in Hperm.
    exact (Permutation_app_inv _ _ _ _ _ Hperm). }
  rewrite last_block_app in Hlast. fold bt in Hlast.
  destruct (16 <=? c - asize) eqn:Esplit.
  - apply Z.leb_le in Esplit.
    destruct Hres as (Hb1 & Hb2 & Hfl' & Hlast').
    unfold heap_inv, arena_shape. rewrite Elo, Ebrk, Emax, Estart, Ehs. fold hs.
    split; [|split]; [|exact Hfl'|].
    1: split; [exact Hlo|]. 1: split; [exact Hbrk|]. 1: split; [exact Hmax|].
    1: split; [exact Hlen|]. 1: split; [exact Hstart|].
    1: split; [|split].
    + cbn [tiled]. split; [apply Hanch|]. split; [right; reflexivity|].
      split; [apply Hanch|]. split; [right; reflexivity|].
      replace (hs + 16 + 16) with (hs + 32) by lia.
      apply tiled_app. split; [exact Ht1'|]. fold bt. cbn [tiled].
      split; [exact Hb1|]. split; [right; reflexivity|].
      split; [exact Hb2|]. split; [left; reflexivity|].
      replace (bt + asize + (c - asize)) with (bt + c) by lia. exact Ht2'.
    + rewrite <- Hend, !span_app. cbn. lia.
    + rewrite Hlast', Hlast. rewrite last_block_app. fold bt. cbn [last_block].
      replace (bt + asize + (c - asize)) with (bt + c) by lia.
      destruct (bt =? last_block bt (bt + c) b2) eqn:E.
      * apply Z.eqb_eq in E. symmetry in E.
        apply (last_block_tail h) in E; [|exact Ht2 | destruct Hblk; lia].
        subst b2. reflexivity.
      * apply Z.eqb_neq in E. destruct b2 as [|[s2 f2] b2]; [cbn in E; lia|].
        reflexivity.
    + rewrite frees_app. cbn. fold bt.
      replace (bt + asize + (c - asize)) with (bt + c) by lia.
      rewrite <- !Permutation_middle. constructor. exact Hperm'.
  - apply Z.leb_gt in Esplit.
    destruct Hres as (Hb1 & Hfl' & Hlast').
    unfold heap_inv, arena_shape. rewrite Elo, Ebrk, Emax, Estart, Ehs. fold hs.
    split; [|split]; [|exact Hfl'|].
    1: split; [exact Hlo|]. 1: split; [exact Hbrk|]. 1: split; [exact Hmax|].
    1: split; [exact Hlen|]. 1: split; [exact Hstart|].
    1: split; [|split].
    + cbn [tiled]. split; [apply Hanch|]. split; [right; reflexivity|].
      split; [apply Hanch|]. split; [right; reflexivity|].
      replace (hs + 16 + 16) with (hs + 32) by lia.
      apply tiled_app. split; [exact Ht1'|]. fold bt. cbn [tiled].
      split; [exact Hb1|]. split; [right; reflexivity|]. exact Ht2'.
    + rewrite <- Hend, !span_app. cbn. lia.
    + rewrite Hlast', Hlast. rewrite last_block_app. reflexivity.
    + rewrite frees_app. cbn. fold bt. exact Hperm'.
Qed.

(** Replacing the blocks [old] by blocks [new] of the same span. *)
Lemma arena_shape_replace h h' pre old new post l lo hi :
  arena_shape h (pre ++ old ++ post) ->
  same_arena h h' ->
  lo = bt_heap_start h + 32 + span pre -> hi = lo + span old ->
  kept_outside h h' lo hi l ->
  (forall x, x ∈ l -> (x - bt_heap_start h) mod 16 = 0) ->
  span new = span old ->
  tiled h' lo new ->
  bt_heap_last h' =
    last_block (bt_heap_start h + 16) (bt_heap_start h + 32)
               (pre ++ new ++ post) ->
  arena_shape h' (pre ++ new ++ post).
Proof.
  intros (Hlo & Hbrk & Hmax & Hlen & Hstart & Ht & Hend & Hlast)
         Hsame -> -> Hkept Hcong Hspan Hnew Hlast'.
  pose proof Hsame as (Elo & Ebrk & Emax & Estart & Ehs).
  set (hs := bt_heap_start h) in *.
  destruct Ht as (Ha1 & _ & Ha2 & _ & Htb).
  replace (hs + 16 + 16) with (hs + 32) in Htb by lia.
  apply tiled_app in Htb as (Ht1 & Htb). apply tiled_app in Htb as (Hto & Ht2).
  pose proof (tiled_span _ _ _ Ht1). pose proof (tiled_span _ _ _ Hto).
  unfold arena_shape. rewrite Elo, Ebrk, Emax, Estart, Ehs. fold hs.
  split; [exact Hlo|]. split; [exact Hbrk|]. split; [exact Hmax|].
  split; [exact Hlen|]. split; [exact Hstart|]. split; [|split].
  - pose proof (tiled_kept h h' _ _ l hs [(16, USED); (16, USED)]
                  Hsame Hkept Hcong) as Hk.
    cbn in Hk. destruct Hk as (K1 & _ & K2 & _); [tauto | fold hs; lia |].
    cbn [tiled]. split; [exact K1|]. split; [right; reflexivity|].
    split; [exact K2|]. split; [right; reflexivity|].
    replace (hs + 16 + 16) with (hs + 32) by lia.
    apply tiled_app. split.
    + apply (tiled_kept h h' _ _ l _ _ Hsame Hkept Hcong Ht1). left. fold hs. lia.
    + apply tiled_app. split; [exact Hnew|]. rewrite Hspan.
      apply (tiled_kept h h' _ _ l _ _ Hsame Hkept Hcong Ht2). right. fold hs. lia.
  - rewrite <- Hend, !span_app. lia.
  - exact Hlast'.
Qed.

Lemma filter_keep (P : Z -> Prop) `{!forall x, Decision (P x)} (l : list Z) :
  (forall x, x ∈ l -> P x) -> filter P l = l.
Proof.
  induction l as [|a l IH]; intros Hall; [reflexivity|].
  rewrite filter_cons_True by (apply Hall; left).
  rewrite IH; [reflexivity|]. intros x Hx. apply Hall. right. exact Hx.
Qed.

Lemma filter_drop (P : Z -> Prop) `{!forall x, Decision (P x)} (m1 m2 : list Z) x :
  (forall y, y ∈ m1 ++ m2 -> P y) -> ~ P x ->
  filter P (m1 ++ x :: m2) = m1 ++ m2.
Proof.
  intros Hall Hx. rewrite filter_app, filter_cons_False by exact Hx.
  rewrite <- filter_app. apply filter_keep. exact Hall.
Qed.

Lemma prev_cases h a b1 :
  tiled h a b1 ->
  b1 = [] \/
  exists b1' ps pf, b1 = b1' ++ [(ps, pf)] /\ (pf = FREE \/ pf = USED) /\
                    block_at h (a + span b1') ps pf.
Proof.
  intros Ht. destruct b1 as [|b b1]; [left; reflexivity | right].
  destruct (exists_last (l := b :: b1)) as (b1' & [ps pf] & E); [discriminate|].
  rewrite E in Ht. apply tiled_app in Ht as (_ & Hb & Hf & _).
  exists b1', ps, pf. split; [exact E|]. split; assumption.
Qed.

Lemma absorb_prev_snoc b1 ps pf :
  absorb_prev (b1 ++ [(ps, pf)])
  = if pf =? FREE then (b1, ps) else (b1 ++ [(ps, pf)], 0).
Proof.
  unfold absorb_prev. rewrite last_snoc, List.removelast_last. reflexivity.
Qed.

Lemma last_block_le h d a bs :
  tiled h a bs -> d <= a -> d <= last_block d a bs.
Proof.
  intros Ht Hd. destruct bs as [|b bs]; [cbn; lia|].
  pose proof (last_block_ge h d a _ Ht ltac:(discriminate)). lia.
Qed.

(** The state in which [coalesce] is called: the block at [cur] carries
    free tags and is not on the free list. *)
Lemma coalesce_inv_facts h b1 s b2 mid :
  arena_shape h (b1 ++ (s, FREE) :: b2) ->
  free_list h mid (bt_heap_start h + 16) ->
  mid ≡ₚ (frees (bt_heap_start h + 32) b1 ++
          frees (bt_heap_start h + 32 + span b1 + s) b2) ->
  arena_ok h /\ heap_start h = bt_heap_start h + 4 /\
  block_at h (bt_heap_start h + 16) 16 USED /\
  tiled h (bt_heap_start h + 32) b1 /\
  block_at h (bt_heap_start h + 32 + span b1) s FREE /\
  tiled h (bt_heap_start h + 32 + span b1 + s) b2 /\
  ((bt_heap_start h + 32 + span b1)
     ∉ bt_heap_start h :: mid ++ [bt_heap_start h + 16]) /\
  (forall x, x ∈ bt_heap_start h :: mid ++ [bt_heap_start h + 16] ->
             (x - bt_heap_start h) mod 16 = 0) /\
  (forall x, x ∈ mid ->
             x ∈ frees (bt_heap_start h + 32) b1 \/
             x ∈ frees (bt_heap_start h + 32 + span b1 + s) b2) /\
  NoDup mid /\
  bt_heap_last h =
    last_block (bt_heap_start h + 32 + span b1)
               (bt_heap_start h + 32 + span b1 + s) b2.
Proof.
  intros Hshape Hfl Hperm.
  destruct Hshape as (Hlo & Hbrk & Hmax & Hlen & Hstart & Ht & Hend & Hlast).
  set (hs := bt_heap_start h) in *. set (cur := hs + 32 + span b1) in *.
  destruct Ht as (Ha1 & _ & Ha2 & _ & Htb).
  replace (hs + 16 + 16) with (hs + 32) in Htb by lia.
  apply tiled_app in Htb as (Ht1 & Hcur & _ & Ht2). fold cur in Hcur, Ht2.
  pose proof (tiled_span _ _ _ Ht1). pose proof (tiled_span _ _ _ Ht2).
  assert (Hin : forall x, x ∈ mid ->
                          x ∈ frees (hs + 32) b1 \/ x ∈ frees (cur + s) b2).
  { intros x Hx. rewrite Hperm in Hx. apply elem_of_app in Hx. exact Hx. }
  split; [|split; [exact Hstart|]].
  { rewrite span_app in Hend. cbn in Hend. destruct Ha1 as (_ & _ & _ & ? & _).
    destruct Hcur as (_ & ? & _). unfold arena_ok. lia. }
  split; [exact Ha2|]. split; [exact Ht1|].
  split; [exact Hcur|]. split; [exact Ht2|]. split; [|split; [|split; [|split]]].
  - intros Hx. apply elem_of_cons in Hx as [Hx | Hx]; [unfold cur in Hx; lia|].
    apply elem_of_app in Hx as [Hx | Hx].
    + destruct (Hin _ Hx) as [Hx' | Hx'].
      * pose proof (frees_bounds _ _ _ _ Ht1 Hx'). unfold cur in *. lia.
      * pose proof (frees_bounds _ _ _ _ Ht2 Hx'). destruct Hcur as (_ & ? & _). lia.
    + apply list_elem_of_singleton in Hx. unfold cur in Hx. lia.
  - intros x Hx. apply elem_of_cons in Hx as [-> | Hx]; [zlia|].
    apply elem_of_app in Hx as [Hx | Hx].
    + destruct (Hin _ Hx) as [Hx' | Hx'].
      * exact (frees_cong _ _ _ _ Ht1 Hx').
      * exact (frees_cong _ _ _ _ Ht2 Hx').
    + apply list_elem_of_singleton in Hx. subst x. zlia.
  - exact Hin.
  - destruct Hfl as (_ & (Hnd & _) & _). apply NoDup_cons in Hnd as (_ & Hnd).
    apply NoDup_app in Hnd as (Hnd & _). exact Hnd.
  - rewrite Hlast, last_block_app. reflexivity.
Qed.

(** The block before [cur]: the end anchor or the last block of [b1]. *)
Lemma coalesce_inv_prev h b1 :
  block_at h (bt_heap_start h + 16) 16 USED ->
  tiled h (bt_heap_start h + 32) b1 ->
  exists psz pf,
    block_at h (bt_heap_start h + 32 + span b1 - psz) psz pf /\
    ((pf = USED /\ absorb_prev b1 = (b1, 0)) \/
     (pf = FREE /\ exists b1', b1 = b1' ++ [(psz, FREE)] /\
                               absorb_prev b1 = (b1', psz))).
Proof.
  intros Ha2 Ht1.
  destruct (prev_cases h _ b1 Ht1) as [-> | (b1' & ps & pf & -> & Hpf & Hprev)].
  - exists 16, USED. split.
    + replace (bt_heap_start h + 32 + span [] - 16) with (bt_heap_start h + 16)
        by (cbn; lia).
      exact Ha2.
    + left. split; reflexivity.
  - exists ps, pf. split.
    + replace (bt_heap_start h + 32 + span (b1' ++ [(ps, pf)]) - ps)
        with (bt_heap_start h + 32 + span b1') by (rewrite span_app; cbn; lia).
      exact Hprev.
    + rewrite absorb_prev_snoc. destruct Hpf as [-> | ->]; [right | left].
      * split; [reflexivity|]. exists b1'. split; reflexivity.
      * split; reflexivity.
Qed.

(** The block after [cur], if there is one. *)
Lemma coalesce_inv_next h cur s b2 :
  block_at h cur s FREE -> tiled h (cur + s) b2 ->
  bt_heap_last h = last_block cur (cur + s) b2 ->
  ((cur = bt_heap_last h \/ exists nsz, block_at h (cur + s) nsz USED) /\
   absorb_next b2 = (0, b2) /\ (cur + s) ∉ frees (cur + s) b2) \/
  (cur <> bt_heap_last h /\ exists nsz t,
     b2 = (nsz, FREE) :: t /\ block_at h (cur + s) nsz FREE /\
     absorb_next b2 = (nsz, t)).
Proof.
  intros Hcur Ht2 Hlast. pose proof Hcur as (_ & Hs & _).
  destruct b2 as [|[ns nf] t].
  - left. split; [left; rewrite Hlast; reflexivity|].
    split; [reflexivity | apply not_elem_of_nil].
  - cbn [last_block] in Hlast. destruct Ht2 as (Hnext & Hnf & Ht).
    pose proof Hnext as (_ & Hns & _).
    pose proof (last_block_le h (cur + s) (cur + s + ns) t Ht ltac:(lia)).
    destruct Hnf as [-> | ->].
    + right. split; [lia|]. exists ns, t. split; [reflexivity|].
      split; [exact Hnext | reflexivity].
    + left. split; [right; exists ns; exact Hnext|]. split; [reflexivity|].
      cbn. intros Hin. pose proof (frees_bounds _ _ _ _ Ht Hin). lia.
Qed.

(** A free block and an in-use block of a tiling do not overlap. *)
Lemma frees_useds_disjoint h a bs y x sz :
  tiled h a bs -> y ∈ frees a bs -> (x, sz) ∈ useds a bs ->
  y + 16 <= x \/ x + sz <= y.
Proof.
  revert a. induction bs as [|[s f] bs IH]; intros a; cbn.
  - intros _ Hy. inversion Hy.
  - intros ((_ & Hs & _) & _ & Ht) Hy Hx.
    destruct (f =? FREE).
    + pose proof (useds_bounds _ _ _ _ _ Ht Hx).
      apply elem_of_cons in Hy as [-> | Hy]; [lia|]. exact (IH _ Ht Hy Hx).
    + pose proof (frees_bounds _ _ _ _ Ht Hy).
      apply elem_of_cons in Hx as [Hx | Hx].
      * injection Hx as -> ->. lia.
      * exact (IH _ Ht Hy Hx).
Qed.

(** Words inside in-use blocks are neither tags of other blocks nor link
    words of the free list. *)
Lemma payloads_kept_intro h h' a bs lo hi l U :
  tiled h a bs -> kept_outside h h' lo hi l ->
  (forall y, y ∈ l -> y + 16 <= a \/ y ∈ frees a bs) ->
  (forall x sz, (x, sz) ∈ U ->
                (x, sz) ∈ useds a bs /\ (x + sz <= lo \/ hi <= x)) ->
  payloads_kept h h' U.
Proof.
  intros Ht Hk Hl HU x sz w Hx Hw.
  destruct (HU _ _ Hx) as (Hin & Hout).
  pose proof (useds_bounds _ _ _ _ _ Ht Hin) as (Hxa & _).
  apply Hk; [lia|].
  intros y Hy. destruct (Hl _ Hy) as [Hlow | Hfree]; [lia|].
  pose proof (frees_useds_disjoint _ _ _ _ _ _ Ht Hfree Hin). lia.
Qed.

Lemma payloads_kept_trans h1 h2 h3 U :
  payloads_kept h1 h2 U -> payloads_kept h2 h3 U -> payloads_kept h1 h3 U.
Proof.
  intros H12 H23 x sz w Hx Hw.
  rewrite (H23 x sz w Hx Hw). exact (H12 x sz w Hx Hw).
Qed.

Lemma useds_before_absorbed h a b1 x sz :
  tiled h a b1 -> (x, sz) ∈ useds a b1 ->
  x + sz <= a + span b1 - (absorb_prev b1).2.
Proof.
  intros Ht Hx.
  destruct (prev_cases h a b1 Ht) as [-> | (b1' & ps & pf & -> & Hpf & Hprev)].
  - inversion Hx.
  - rewrite absorb_prev_snoc. apply tiled_app in Ht as (Ht1 & _).
    destruct Hpf as [-> | ->]; cbn [Z.eqb FREE USED fst snd].
    + rewrite useds_app in Hx. cbn in Hx. rewrite app_nil_r in Hx.
      pose proof (useds_bounds _ _ _ _ _ Ht1 Hx). rewrite span_app. cbn. lia.
    + rewrite useds_app in Hx. apply elem_of_app in Hx as [Hx | Hx].
      * pose proof (useds_bounds _ _ _ _ _ Ht1 Hx).
        destruct Hprev as (_ & ? & _). rewrite span_app. cbn. lia.
      * cbn in Hx. apply list_elem_of_singleton in Hx. injection Hx as -> ->.
        rewrite span_app. cbn. lia.
Qed.

Lemma useds_after_absorbed h a b2 x sz :
  tiled h a b2 -> (x, sz) ∈ useds a b2 -> a + (absorb_next b2).1 <= x.
Proof.
  intros Ht Hx. destruct b2 as [|[ns nf] t]; [inversion Hx|].
  pose proof (useds_bounds _ _ _ _ _ Ht Hx) as Hb.
  destruct Ht as (_ & Hnf & Ht). unfold absorb_next.
  destruct Hnf as [-> | ->]; cbn [Z.eqb FREE USED fst snd].
  - cbn in Hx. pose proof (useds_bounds _ _ _ _ _ Ht Hx). lia.
  - lia.
Qed.

(** [coalesce] on a well-formed heap whose block at [cur] has just been
    given free tags. *)
Lemma coalesce_inv_core h b1 s b2 mid :
  arena_shape h (b1 ++ (s, FREE) :: b2) ->
  free_list h mid (bt_heap_start h + 16) ->
  mid ≡ₚ (frees (bt_heap_start h + 32) b1 ++
          frees (bt_heap_start h + 32 + span b1 + s) b2) ->
  exists h',
    coalesce (bt_heap_start h + 32 + span b1 + 4) h
    = Some (bt_heap_start h + 32 + span b1 - (absorb_prev b1).2 + 4, h') /\
    same_arena h h' /\
    kept_outside h h'
      (bt_heap_start h + 32 + span b1 - (absorb_prev b1).2)
      (bt_heap_start h + 32 + span b1 + s + (absorb_next b2).1)
      (bt_heap_start h :: mid ++ [bt_heap_start h + 16]) /\
    heap_inv h' (release b1 s b2)
      (released_list (bt_heap_start h + 32 + span b1) s (absorb_prev b1).2 mid).
Proof.
  intros Hshape Hfl Hperm.
  destruct (coalesce_inv_facts h b1 s b2 mid Hshape Hfl Hperm)
    as (Hok & Hstart & Ha2 & Ht1 & Hcur & Ht2 & Hfresh & Hcong & Hin & Hnd & Hlast).
  set (hs := bt_heap_start h) in *. set (cur := hs + 32 + span b1) in *.
  destruct (coalesce_inv_prev h b1 Ha2 Ht1) as (psz & pf & Hprev & Hpcase).
  fold hs in Hprev. fold cur in Hprev.
  destruct (coalesce_inv_next h cur s b2 Hcur Ht2 Hlast) as [Hncase | Hncase].
  - destruct Hncase as (Hnext & En & Hnn).
    destruct Hpcase as [(-> & Ep) | (-> & b1' & Eb1 & Ep)].
    + (* case 1 *)
      pose proof (coalesce_case1 h (cur + 4) s psz USED mid (hs + 16)) as H1.
      unfold bt_fromptr in H1. replace (cur + 4 - 4) with cur in H1 by lia.
      destruct (H1 Hok Hstart Hfl Hcur Hprev ltac:(right; reflexivity) Hfresh
                   eq_refl Hnext)
        as (h' & Hrun & Hsame & Hkept & Hblk & Hfl' & Hlast').
      unfold release, released_list. rewrite Ep, En. cbn [fst snd].
      replace (cur - 0) with cur by lia. replace (cur + s + 0) with (cur + s) by lia.
      replace (0 + s + 0) with s by lia.
      exists h'. split; [exact Hrun|]. split; [exact Hsame|]. split; [exact Hkept|].
      rewrite filter_keep.
      2:{ intros x Hx. split.
          - intros ->. apply Hfresh. right. apply elem_of_app. left. exact Hx.
          - intros ->. destruct (Hin _ Hx) as [Hx' | Hx'].
            + pose proof (frees_bounds _ _ _ _ Ht1 Hx').
              destruct Hcur as (_ & ? & _). unfold cur in *. lia.
            + exact (Hnn Hx'). }
      pose proof Hsame as (_ & _ & _ & _ & Ehs).
      split; [|split].
      * apply (arena_shape_replace h h' b1 [(s, FREE)] [(s, FREE)] b2
                 (hs :: mid ++ [hs + 16]) cur (cur + s));
          [exact Hshape | exact Hsame | reflexivity | cbn; lia | exact Hkept
          | exact Hcong | reflexivity | | ].
        -- cbn. split; [exact Hblk|]. split; [left; reflexivity | exact I].
        -- cbn [app]. rewrite Hlast', last_block_app. exact Hlast.
      * rewrite Ehs. exact Hfl'.
      * rewrite Ehs, frees_app. cbn. fold hs. fold cur.
        rewrite <- Permutation_middle. constructor. exact Hperm.
    + (* case 3 *)
      pose proof (coalesce_case3 h (cur + 4) s psz FREE mid (hs + 16)) as H3.
      unfold bt_fromptr, bt_payload in H3.
      replace (cur + 4 - 4) with cur in H3 by lia.
      assert (Hpin : cur - psz ∈ mid).
      { rewrite Hperm. apply elem_of_app. left. rewrite Eb1, frees_app.
        apply elem_of_app. right. cbn.
        replace (hs + 32 + span b1') with (cur - psz)
          by (unfold cur; rewrite Eb1, span_app; cbn; lia).
        left. }
      apply list_elem_of_split in Hpin as (m1 & m2 & Emid).
      destruct (H3 Hok Hstart Hfl Hcur Hprev ltac:(left; reflexivity)
                   m1 m2 eq_refl Hnext Emid)
        as (h' & Hrun & Hsame & Hkept & Hblk & Hfl' & Hlast').
      unfold release, released_list. rewrite Ep, En. cbn [fst snd].
      replace (cur + s + 0) with (cur + s) by lia.
      replace (psz + s + 0) with (psz + s) by lia.
      replace (cur - psz + (psz + s)) with (cur + s) in Hkept by lia.
      exists h'. split; [exact Hrun|]. split; [exact Hsame|]. split; [exact Hkept|].
      assert (Hnd' : NoDup (m1 ++ (cur - psz) :: m2)) by (rewrite <- Emid; exact Hnd).
      apply NoDup_drop_mid in Hnd' as (_ & Hp1 & Hp2).
      rewrite Emid, filter_drop.
      2:{ intros y Hy. split.
          - intros ->. apply elem_of_app in Hy as [Hy | Hy]; tauto.
          - intros ->.
            assert (Hy' : cur + s ∈ mid).
            { rewrite Emid. apply elem_of_app in Hy as [Hy | Hy];
                apply elem_of_app; [left; exact Hy | right; right; exact Hy]. }
            destruct (Hin _ Hy') as [Hx' | Hx'].
            + pose proof (frees_bounds _ _ _ _ Ht1 Hx').
              destruct Hcur as (_ & ? & _). unfold cur in *. lia.
            + exact (Hnn Hx'). }
      2:{ intros [Hne _]. apply Hne. reflexivity. }
      pose proof Hsame as (_ & _ & _ & _ & Ehs).
      assert (Espan : hs + 32 + span b1' = cur - psz)
        by (unfold cur; rewrite Eb1, span_app; cbn; lia).
      split; [|split].
      * apply (arena_shape_replace h h' b1' [(psz, FREE); (s, FREE)]
                 [(psz + s, FREE)] b2
                 (hs :: (m1 ++ (cur - psz) :: m2) ++ [hs + 16]) (cur - psz) (cur + s)).
        -- rewrite Eb1, <- app_assoc in Hshape. exact Hshape.
        -- exact Hsame.
        -- fold hs. lia.
        -- cbn. lia.
        -- rewrite <- Emid. exact Hkept.
        -- rewrite <- Emid. exact Hcong.
        -- cbn. lia.
        -- cbn. split; [exact Hblk|]. split; [left; reflexivity | exact I].
        -- cbn [app]. rewrite Hlast'. fold hs. rewrite last_block_app, Espan.
           replace (cur - psz + (psz + s)) with (cur + s) by lia.
           rewrite Hlast.
           destruct (last_block cur (cur + s) b2 =? cur) eqn:E.
           ++ apply Z.eqb_eq in E.
              apply (last_block_tail h) in E;
                [|exact Ht2 | destruct Hcur as (_ & ? & _); lia].
              rewrite E. reflexivity.
           ++ apply Z.eqb_neq in E. destruct b2 as [|[s2 f2] t]; [cbn in E; lia|].
              reflexivity.
      * rewrite Ehs. exact Hfl'.
      * rewrite Ehs, frees_app. cbn. fold hs. rewrite Espan.
        replace (cur - psz + (psz + s)) with (cur + s) by lia.
        rewrite <- Permutation_middle. constructor.
        rewrite Emid, Eb1, frees_app in Hperm. cbn in Hperm.
        rewrite Espan in Hperm.
        rewrite <- app_assoc in Hperm. cbn [app] in Hperm.
        exact (Permutation_app_inv _ _ _ _ _ Hperm).
  - destruct Hncase as (Hnl & nsz & t & Eb2 & Hnext & En).
    assert (Hnin : cur + s ∈ mid).
    { rewrite Hperm. apply elem_of_app. right. rewrite Eb2. cbn. left. }
    destruct Hpcase as [(-> & Ep) | (-> & b1' & Eb1 & Ep)].
    + (* case 2 *)
      pose proof (coalesce_case2 h (cur + 4) s psz USED mid (hs + 16)) as H2.
      unfold bt_fromptr in H2. replace (cur + 4 - 4) with cur in H2 by lia.
      apply list_elem_of_split in Hnin as (m1 & m2 & Emid).
      destruct (H2 Hok Hstart Hfl Hcur Hprev ltac:(right; reflexivity) Hfresh
                   nsz m1 m2 eq_refl Hnl Hnext Emid)
        as (h' & Hrun & Hsame & Hkept & Hblk & Hfl' & Hlast').
      unfold release, released_list. rewrite Ep, En. cbn [fst snd].
      replace (cur - 0) with cur by lia.
      replace (0 + s + nsz) with (s + nsz) by lia.
      replace (cur + (s + nsz)) with (cur + s + nsz) in Hkept by lia.
      exists h'. split; [exact Hrun|]. split; [exact Hsame|]. split; [exact Hkept|].
      assert (Hnd' : NoDup (m1 ++ (cur + s) :: m2)) by (rewrite <- Emid; exact Hnd).
      apply NoDup_drop_mid in Hnd' as (_ & Hp1 & Hp2).
      rewrite Emid, filter_drop.
      2:{ intros y Hy. split.
          - intros ->. apply Hfresh. right. apply elem_of_app. left.
            rewrite Emid. apply elem_of_app in Hy as [Hy | Hy];
              apply elem_of_app; [left; exact Hy | right; right; exact Hy].
          - intros ->. apply elem_of_app in Hy as [Hy | Hy]; tauto. }
      2:{ intros [_ Hne]. apply Hne. reflexivity. }
      pose proof Hsame as (_ & _ & _ & _ & Ehs).
      split; [|split].
      * apply (arena_shape_replace h h' b1 [(s, FREE); (nsz, FREE)]
                 [(s + nsz, FREE)] t
                 (hs :: (m1 ++ (cur + s) :: m2) ++ [hs + 16]) cur (cur + s + nsz)).
        -- rewrite Eb2 in Hshape. exact Hshape.
        -- exact Hsame.
        -- reflexivity.
        -- cbn. lia.
        -- rewrite <- Emid. exact Hkept.
        -- rewrite <- Emid. exact Hcong.
        -- cbn. lia.
        -- cbn. split; [exact Hblk|]. split; [left; reflexivity | exact I].
        -- cbn [app]. rewrite Hlast'. fold hs. rewrite last_block_app. fold cur.
           rewrite Hlast, Eb2. cbn [last_block].
           replace (cur + (s + nsz)) with (cur + s + nsz) by lia.
           rewrite Eb2 in Ht2. destruct Ht2 as (_ & _ & Ht).
           destruct (last_block (cur + s) (cur + s + nsz) t =? cur + s) eqn:E.
           ++ apply Z.eqb_eq in E.
              apply (last_block_tail h) in E;
                [|exact Ht | destruct Hnext as (_ & ? & _); lia].
              rewrite E. reflexivity.
           ++ apply Z.eqb_neq in E. destruct t as [|[s2 f2] t]; [cbn in E; lia|].
              reflexivity.
      * rewrite Ehs. exact Hfl'.
      * rewrite Ehs, frees_app. cbn. fold hs. fold cur.
        replace (cur + (s + nsz)) with (cur + s + nsz) by lia.
        rewrite <- Permutation_middle. constructor.
        rewrite Emid, Eb2 in Hperm. cbn in Hperm.
        exact (Permutation_app_inv _ _ _ _ _ Hperm).
    + (* case 4 *)
      pose proof (coalesce_case4 h (cur + 4) s psz FREE mid (hs + 16)) as H4.
      unfold bt_fromptr, bt_payload in H4.
      replace (cur + 4 - 4) with cur in H4 by lia.
      assert (Espan : hs + 32 + span b1' = cur - psz)
        by (unfold cur; rewrite Eb1, span_app; cbn; lia).
      assert (Hpin : cur - psz ∈ mid).
      { rewrite Hperm. apply elem_of_app. left. rewrite Eb1, frees_app.
        apply elem_of_app. right. cbn. rewrite Espan. left. }
      apply list_elem_of_split in Hpin as (a & b & Emid).
      assert (Hnin' : cur + s ∈ a ++ b).
      { rewrite Emid in Hnin. apply elem_of_app in Hnin as [Hn | Hn].
        - apply elem_of_app. left. exact Hn.
        - apply elem_of_cons in Hn as [Hn | Hn].
          + pose proof Hprev as (_ & ? & _). pose proof Hcur as (_ & ? & _). lia.
          + apply elem_of_app. right. exact Hn. }
      apply list_elem_of_split in Hnin' as (c & d & Eab).
      destruct (H4 Hok Hstart Hfl Hcur Hprev ltac:(left; reflexivity)
                   nsz a b c d eq_refl Hnl Hnext Emid Eab)
        as (h' & Hrun & Hsame & Hkept & Hblk & Hfl' & Hlast').
      unfold release, released_list. rewrite Ep, En. cbn [fst snd].
      replace (cur - psz + (psz + s + nsz)) with (cur + s + nsz) in Hkept by lia.
      exists h'. split; [exact Hrun|]. split; [exact Hsame|]. split; [exact Hkept|].
      assert (Hnd' : NoDup (a ++ (cur - psz) :: b)) by (rewrite <- Emid; exact Hnd).
      apply NoDup_drop_mid in Hnd' as (Hndab & Hp1 & Hp2).
      rewrite Eab in Hndab. apply NoDup_drop_mid in Hndab as (_ & Hn1 & Hn2).
      assert (Efil : filter (fun x => x <> cur - psz /\ x <> cur + s) mid = c ++ d).
      { rewrite Emid, filter_app, filter_cons_False
          by (intros [Hne _]; apply Hne; reflexivity).
        rewrite <- filter_app, Eab. apply filter_drop.
        - intros y Hy. split.
          + intros ->.
            assert (Hy' : cur - psz ∈ a ++ b).
            { rewrite Eab. apply elem_of_app in Hy as [Hy | Hy];
                apply elem_of_app; [left; exact Hy | right; right; exact Hy]. }
            apply elem_of_app in Hy' as [Hy' | Hy']; tauto.
          + intros ->. apply elem_of_app in Hy as [Hy | Hy]; tauto.
        - intros [_ Hne]. apply Hne. reflexivity. }
      rewrite Efil.
      pose proof Hsame as (_ & _ & _ & _ & Ehs).
      split; [|split].
      * apply (arena_shape_replace h h' b1'
                 [(psz, FREE); (s, FREE); (nsz, FREE)]
                 [(psz + s + nsz, FREE)] t
                 (hs :: mid ++ [hs + 16]) (cur - psz) (cur + s + nsz)).
        -- rewrite Eb1, Eb2, <- app_assoc in Hshape. exact Hshape.
        -- exact Hsame.
        -- fold hs. lia.
        -- cbn. lia.
        -- exact Hkept.
        -- exact Hcong.
        -- cbn. lia.
        -- cbn. split; [exact Hblk|]. split; [left; reflexivity | exact I].
        -- cbn [app]. rewrite Hlast'. fold hs. rewrite last_block_app, Espan.
           rewrite Hlast, Eb2. cbn [last_block].
           replace (cur - psz + (psz + s + nsz)) with (cur + s + nsz) by lia.
           rewrite Eb2 in Ht2. destruct Ht2 as (_ & _ & Ht).
           destruct (last_block (cur + s) (cur + s + nsz) t =? cur + s) eqn:E.
           ++ apply Z.eqb_eq in E.
              apply (last_block_tail h) in E;
                [|exact Ht | destruct Hnext as (_ & ? & _); lia].
              rewrite E. reflexivity.
           ++ apply Z.eqb_neq in E. destruct t as [|[s2 f2] t]; [cbn in E; lia|].
              reflexivity.
      * rewrite Ehs. exact Hfl'.
      * rewrite Ehs, frees_app. cbn. fold hs. rewrite Espan.
        replace (cur - psz + (psz + s + nsz)) with (cur + s + nsz) by lia.
        rewrite <- Permutation_middle. constructor.
        rewrite Emid, Eb1, Eb2, frees_app in Hperm. cbn in Hperm.
        rewrite Espan in Hperm.
        rewrite <- app_assoc in Hperm. cbn [app] in Hperm.
        apply Permutation_app_inv in Hperm.
        rewrite Eab in Hperm.
        exact (Permutation_app_inv _ _ _ _ _ Hperm).
Qed.

Lemma coalesce_inv h b1 s b2 mid :
  arena_shape h (b1 ++ (s, FREE) :: b2) ->
  free_list h mid (bt_heap_start h + 16) ->
  mid ≡ₚ (frees (bt_heap_start h + 32) b1 ++
          frees (bt_heap_start h + 32 + span b1 + s) b2) ->
  exists h',
    coalesce (bt_heap_start h + 32 + span b1 + 4) h
    = Some (bt_heap_start h + 32 + span b1 - (absorb_prev b1).2 + 4, h') /\
    same_arena h h' /\
    heap_inv h' (release b1 s b2)
      (released_list (bt_heap_start h + 32 + span b1) s (absorb_prev b1).2 mid) /\
    payloads_kept h h'
      (useds (bt_heap_start h + 32) b1 ++
       useds (bt_heap_start h + 32 + span b1 + s) b2).
Proof.
  intros Hshape Hfl Hperm.
  destruct (coalesce_inv_core h b1 s b2 mid Hshape Hfl Hperm)
    as (h' & Hrun & Hsame & Hkept & Hinv').
  exists h'. split; [exact Hrun|]. split; [exact Hsame|]. split; [exact Hinv'|].
  destruct Hshape as (_ & _ & _ & _ & _ & Ht & _).
  destruct Ht as (_ & _ & _ & _ & Htb).
  set (hs := bt_heap_start h) in *. set (cur := hs + 32 + span b1) in *.
  replace (hs + 16 + 16) with (hs + 32) in Htb by lia.
  pose proof Htb as Htb'.
  apply tiled_app in Htb' as (Ht1 & _ & _ & Ht2). fold cur in Ht2.
  apply (payloads_kept_intro h h' (hs + 32) _ _ _ _ _ Htb Hkept).
  - intros y Hy. apply elem_of_cons in Hy as [-> | Hy]; [left; lia|].
    apply elem_of_app in Hy as [Hy | Hy].
    + right. rewrite Hperm in Hy. rewrite frees_app. cbn. fold cur.
      apply elem_of_app in Hy as [Hy | Hy]; apply elem_of_app;
        [left; exact Hy | right; right; exact Hy].
    + apply list_elem_of_singleton in Hy. left. lia.
  - intros x sz Hx. rewrite useds_app. cbn. fold cur.
    apply elem_of_app in Hx as [Hx | Hx].
    + split; [apply elem_of_app; left; exact Hx|]. left.
      pose proof (useds_before_absorbed _ _ _ _ _ Ht1 Hx). unfold cur. lia.
    + split; [apply elem_of_app; right; exact Hx|]. right.
      pose proof (useds_after_absorbed _ _ _ _ _ Ht2 Hx). lia.
Qed.

(** [free] on an in-use block of a well-formed heap. *)
Lemma free_inv h b1 s b2 mid :
  heap_inv h (b1 ++ (s, USED) :: b2) mid ->
  exists h',
    free (bt_heap_start h + 32 + span b1 + 4) h = Some (tt, h') /\
    same_arena h h' /\
    heap_inv h' (release b1 s b2)
      (released_list (bt_heap_start h + 32 + span b1) s (absorb_prev b1).2 mid) /\
    payloads_kept h h'
      (useds (bt_heap_start h + 32) b1 ++
       useds (bt_heap_start h + 32 + span b1 + s) b2).
Proof.
  intros Hinv.
  pose proof (heap_inv_arena _ _ _ Hinv) as Hok.
  pose proof Hinv as (Hshape & Hfl & Hperm).
  pose proof Hshape as (Hlo & Hbrk & Hmax & Hlen & Hstart & Ht & Hend & Hlast).
  pose proof Hfl as (Hs4 & _).
  set (hs := bt_heap_start h) in *. set (cur := hs + 32 + span b1) in *.
  destruct Ht as (Ha1 & _ & Ha2 & _ & Htb).
  replace (hs + 16 + 16) with (hs + 32) in Htb by lia.
  pose proof Htb as Htb'.
  apply tiled_app in Htb' as (Ht1 & Hcur & _ & Ht2). fold cur in Hcur, Ht2.
  destruct (block_at_read h cur s USED Hok Hs4 ltac:(unfold USED; lia) Hcur)
    as (Hvcur & Hvft & Hsz & _ & _ & Hrange).
  pose proof Hcur as (Hcm & Hcmin & Hcm16 & Hclo & Hchi & Hchd & Hcft).
  pose proof Hok as (Hlo0 & _).
  set (h1 := poke cur (Z.lor s FREE) h).
  set (h2 := poke (cur + s - 4) (Z.lor s FREE) h1).
  assert (Hsame2 : same_arena h h2) by (repeat split).
  assert (Hkept2 : kept_outside h h2 cur (cur + s) []).
  { apply (kept_outside_trans h h1); apply kept_outside_poke; lia. }
  assert (Hshape2 : arena_shape h2 (b1 ++ (s, FREE) :: b2)).
  { apply (arena_shape_replace h h2 b1 [(s, USED)] [(s, FREE)] b2 [] cur (cur + s));
      [exact Hshape | exact Hsame2 | reflexivity | cbn; lia | exact Hkept2
      | intros x Hx; inversion Hx | reflexivity | | ].
    - cbn. split; [|split; [left; reflexivity | exact I]].
      apply block_at_intro; cbn; try assumption; unfold h2, h1; peeks; reflexivity.
    - cbn [app]. rewrite !last_block_app in *. exact Hlast. }
  assert (Hfl2 : free_list h2 mid (hs + 16)).
  { apply free_list_poke_tag; [right; cbn; fold hs; zlia|].
    apply free_list_poke_tag; [left; exact Hcm | exact Hfl]. }
  assert (Hperm2 : mid ≡ₚ (frees (hs + 32) b1 ++ frees (cur + s) b2)).
  { rewrite Hperm, frees_app. reflexivity. }
  destruct (coalesce_inv h2 b1 s b2 mid Hshape2 Hfl2 Hperm2)
    as (h' & Hrun & Hsame & Hinv' & Hpay).
  change (bt_heap_start h2) with hs in Hrun, Hinv', Hpay.
  fold cur in Hrun, Hinv', Hpay.
  exists h'. split; [|split; [|split]].
  - unfold free.
    replace (cur + 4 =? NULL) with false
      by (symmetry; apply Z.eqb_neq; unfold NULL; lia).
    unfold bt_fromptr. replace (cur + 4 - 4) with cur by lia.
    rewrite (bind_run _ _ _ _ _ (bt_size_run _ _ Hvcur)).
    rewrite Hsz. cbv zeta. rewrite (to_size_small s) by lia.
    erewrite bind_run by (apply bt_make_tag; [exact Hvcur | lia]).
    fold h1.
    erewrite bind_run
      by (apply (bt_footer_tag h1 cur s FREE);
          [exact Hvcur | apply peek_poke_same | lia | exact Hcm16 | unfold FREE; lia]).
    erewrite bind_run by (apply bt_make_tag; [exact Hvft | lia]).
    fold h2. rewrite (bind_run _ _ _ _ _ Hrun). reflexivity.
  - destruct Hsame as (E1 & E2 & E3 & E4 & E5). repeat split; assumption.
  - exact Hinv'.
  - apply (payloads_kept_trans h h2).
    + apply (payloads_kept_intro h h2 (hs + 32) _ cur (cur + s) [] _ Htb Hkept2).
      * intros y Hy. inversion Hy.
      * intros x sz Hx. rewrite useds_app. cbn. fold cur.
        apply elem_of_app in Hx as [Hx | Hx].
        -- split; [apply elem_of_app; left; exact Hx|].
           pose proof (useds_bounds _ _ _ _ _ Ht1 Hx). unfold cur. lia.
        -- split; [apply elem_of_app; right; right; exact Hx|].
           pose proof (useds_bounds _ _ _ _ _ Ht2 Hx). lia.
    + exact Hpay.
Qed.

(** ** Growing the arena *)

Lemma round_size_aligned asize :
  0 <= asize -> asize mod 16 = 0 -> asize + 15 < 2 ^ 64 ->
  Z.land (to_size (asize + ALIGNMENT - 1)) (to_size (- ALIGNMENT)) = asize.
Proof.
  intros H0 Hm Hr. unfold ALIGNMENT, to_size.
  rewrite (Z.mod_small (asize + 16 - 1)) by lia.
  change ((- (16)) mod 2 ^ 64) with (2 ^ 64 - 16).
  apply Z.bits_inj'. intros i Hi. rewrite Z.land_spec.
  destruct (Z.ltb_spec i 4) as [Hlt | Hge].
  - replace (Z.testbit (2 ^ 64 - 16) i) with false.
    2:{ symmetry. change (2 ^ 64 - 16) with (Z.shiftl (2 ^ 60 - 1) 4).
        apply Z.shiftl_spec_low. exact Hlt. }
    rewrite andb_false_r. symmetry. apply Z.testbit_false; [exact Hi|].
    assert (Hi4 : i = 0 \/ i = 1 \/ i = 2 \/ i = 3) by lia.
    destruct Hi4 as [-> | [-> | [-> | ->]]]; zlia.
  - destruct (Z.ltb_spec i 64) as [Hlt | Hge64].
    + replace (Z.testbit (2 ^ 64 - 16) i) with true.
      2:{ symmetry. change (2 ^ 64 - 16) with (Z.shiftl (2 ^ 60 - 1) 4).
          rewrite Z.shiftl_spec by lia.
          change (2 ^ 60 - 1) with (Z.ones 60). apply Z.ones_spec_low. lia. }
      rewrite andb_true_r.
      replace i with ((i - 4) + 4) by lia.
      rewrite <- !Z.shiftr_spec by lia. f_equal.
      rewrite !Z.shiftr_div_pow2 by lia. change (2 ^ 4) with 16. zlia.
    + rewrite (Z.bits_above_log2 (asize + 16 - 1)); [rewrite andb_false_l|lia|].
      * symmetry. destruct (Z.eq_dec asize 0) as [-> | Hnz]; [apply Z.testbit_0_l|].
        apply Z.bits_above_log2; [lia|].
        apply Z.log2_lt_pow2; [lia|].
        apply Z.lt_le_trans with (2 ^ 64); [lia|]. apply Z.pow_le_mono_r; lia.
      * apply Z.log2_lt_pow2; [lia|].
        apply Z.lt_le_trans with (2 ^ 64); [lia|]. apply Z.pow_le_mono_r; lia.
Qed.

Lemma valid_word_grow h b a :
  mem_brk h <= b -> valid_word h a = true -> valid_word (set_brk b h) a = true.
Proof. rewrite !valid_word_iff. cbn. lia. Qed.

Lemma lifo_next_grow h b x y :
  mem_brk h <= b -> lifo_next x h = Some (y, h) ->
  lifo_next x (set_brk b h) = Some (y, set_brk b h).
Proof.
  intros Hb. rewrite !lifo_next_iff. intros (Hv & E).
  split; [apply valid_word_grow; assumption | exact E].
Qed.

Lemma lifo_prev_grow h b x y :
  mem_brk h <= b -> lifo_prev x h = Some (y, h) ->
  lifo_prev x (set_brk b h) = Some (y, set_brk b h).
Proof.
  intros Hb. rewrite !lifo_prev_iff. intros (Hv & E).
  split; [apply valid_word_grow; assumption | exact E].
Qed.

Lemma chain_grow h b l :
  mem_brk h <= b -> chain h l -> chain (set_brk b h) l.
Proof.
  intros Hb. induction l as [|x l IH]; [tauto|].
  destruct l as [|y l]; [tauto|].
  intros ((Hn & Hp) & Hc). split; [split|].
  - apply lifo_next_grow; assumption.
  - apply lifo_prev_grow; assumption.
  - apply IH. exact Hc.
Qed.

Lemma free_list_grow h b mid tl :
  mem_brk h <= b -> free_list h mid tl -> free_list (set_brk b h) mid tl.
Proof.
  intros Hb (Hs & (Hnd & Hno & Hc) & Hp & Hn).
  split; [exact Hs|]. split; [|split].
  - split; [exact Hnd|]. split.
    + eapply Forall_impl; [exact Hno|]. intros x (H1 & H2 & H3).
      unfold node_ok. cbn. repeat split; try assumption. lia.
    + apply chain_grow; assumption.
  - apply (lifo_prev_grow h b); assumption.
  - apply (lifo_next_grow h b); assumption.
Qed.

Lemma tiled_grow h b a bs :
  mem_brk h <= b -> tiled h a bs -> tiled (set_brk b h) a bs.
Proof.
  intros Hb. revert a. induction bs as [|[s f] bs IH]; intros a; cbn; [tauto|].
  intros ((H1 & H2 & H3 & H4 & H5 & H6 & H7) & Hf & Ht).
  split; [|split; [exact Hf | apply IH; exact Ht]].
  unfold block_at. cbn. repeat split; try assumption. lia.
Qed.

Lemma peek_set_last h x a : peek (set_bt_heap_last x h) a = peek h a.
Proof. reflexivity. Qed.

Lemma tiled_span_mod h a bs : tiled h a bs -> span bs mod 16 = 0.
Proof.
  revert a. induction bs as [|[s f] bs IH]; intros a; cbn; [reflexivity|].
  intros ((_ & _ & Hs & _) & _ & Ht). specialize (IH _ Ht). zlia.
Qed.

Lemma span_absorb_prev h a b1 :
  tiled h a b1 -> span (absorb_prev b1).1 = span b1 - (absorb_prev b1).2.
Proof.
  intros Ht.
  destruct (prev_cases h a b1 Ht) as [-> | (b1' & ps & pf & -> & Hpf & _)].
  - reflexivity.
  - rewrite absorb_prev_snoc. destruct (pf =? FREE); cbn [fst snd].
    + rewrite span_app. cbn. lia.
    + lia.
Qed.

(** [extend_heap] on a well-formed heap, for a size that is a block
    size. *)
Lemma extend_inv h bs mid asize :
  heap_inv h bs mid ->
  16 <= asize -> asize mod 16 = 0 -> asize + 15 < 2 ^ 64 ->
  (mem_max h < mem_brk h + asize -> extend_heap asize h = Some (NULL, h)) /\
  (mem_brk h + asize <= mem_max h ->
   exists h',
     extend_heap asize h
     = Some (bt_heap_start h + 32 + span bs - (absorb_prev bs).2 + 4, h') /\
     mem_lo h' = mem_lo h /\ mem_brk h' = mem_brk h + asize /\
     mem_max h' = mem_max h /\ heap_start h' = heap_start h /\
     bt_heap_start h' = bt_heap_start h /\
     heap_inv h' (release bs asize [])
       (released_list (bt_heap_start h + 32 + span bs) asize
                      (absorb_prev bs).2 mid) /\
     payloads_kept h h' (useds (bt_heap_start h + 32) bs)).
Proof.
  intros Hinv Hmin Hm16 Hr.
  pose proof (heap_inv_arena _ _ _ Hinv) as Hok.
  pose proof Hinv as (Hshape & Hfl & Hperm).
  pose proof Hshape as (Hlo & Hbrk & Hmax & Hlen & Hstart & Ht & Hend & Hlast).
  pose proof Hfl as (Hs4 & _).
  set (hs := bt_heap_start h) in *. set (cur := hs + 32 + span bs) in *.
  unfold extend_heap. rewrite round_size_aligned by (try assumption; lia).
  cbv zeta. unfold mem_sbrk.
  split.
  - intros Hfull.
    rewrite (bind_run _ _ h SBRK_FAIL h).
    2:{ replace (mem_brk h + asize <=? mem_max h) with false
          by (symmetry; apply Z.leb_gt; lia).
        rewrite andb_false_r. reflexivity. }
    reflexivity.
  - intros Hroom.
    set (hg := set_brk (mem_brk h + asize) h).
    rewrite (bind_run _ _ h (mem_brk h) hg).
    2:{ replace (0 <=? asize) with true by (symmetry; apply Z.leb_le; lia).
        replace (mem_brk h + asize <=? mem_max h) with true
          by (symmetry; apply Z.leb_le; lia).
        reflexivity. }
    replace (mem_brk h =? SBRK_FAIL) with false
      by (symmetry; apply Z.eqb_neq; lia).
    unfold bt_fromptr. replace (mem_brk h - 4) with cur by (unfold cur; lia).
    replace (mem_brk h) with (cur + 4) by (unfold cur; lia).
    destruct Ht as (Ha1 & _ & Ha2 & _ & Htb).
    replace (hs + 16 + 16) with (hs + 32) in Htb by lia.
    pose proof (tiled_span _ _ _ Htb) as Hspan.
    pose proof (tiled_span_mod _ _ _ Htb) as Hspan16.
    pose proof Ha1 as (_ & _ & _ & Hlo1 & _).
    assert (Hvcur : valid_word hg cur = true).
    { rewrite valid_word_iff. cbn. unfold cur. zlia. }
    assert (Hvft : valid_word hg (cur + asize - 4) = true).
    { rewrite valid_word_iff. cbn. unfold cur. zlia. }
    set (h1 := poke cur (Z.lor asize FREE) hg).
    set (h2 := poke (cur + asize - 4) (Z.lor asize FREE) h1).
    set (h3 := set_bt_heap_last cur h2).
    erewrite bind_run by (apply bt_make_tag; [exact Hvcur | lia]).
    fold h1.
    erewrite bind_run
      by (apply (bt_footer_tag h1 cur asize FREE);
          [exact Hvcur | apply peek_poke_same | lia | exact Hm16 | unfold FREE; lia]).
    erewrite bind_run by (apply bt_make_tag; [exact Hvft | lia]).
    fold h2. rewrite (bind_run _ _ h2 tt h3) by reflexivity.
    assert (Hsame3 : same_arena hg h3) by (repeat split).
    assert (Hkept3 : kept_outside hg h3 cur (cur + asize) []).
    { intros a Ha _. unfold h3, h2, h1.
      change (peek (set_bt_heap_last cur ?x) a) with (peek x a).
      rewrite !peek_poke_other by lia. reflexivity. }
    assert (Htg : tiled hg hs ((16, USED) :: (16, USED) :: bs)).
    { apply tiled_grow; [lia|]. cbn [tiled].
      split; [exact Ha1|]. split; [right; reflexivity|].
      split; [exact Ha2|]. split; [right; reflexivity|].
      replace (hs + 16 + 16) with (hs + 32) by lia. exact Htb. }
    assert (Ht3 : tiled h3 hs ((16, USED) :: (16, USED) :: bs)).
    { apply (tiled_kept hg h3 cur (cur + asize) [] hs _ Hsame3 Hkept3);
        [intros x Hx; inversion Hx | exact Htg |].
      left. cbn. unfold cur. lia. }
    assert (Hshape3 : arena_shape h3 (bs ++ (asize, FREE) :: [])).
    { unfold arena_shape. cbn -[tiled span last_block Z.add Z.sub Z.pow]. fold hs.
      split; [exact Hlo|]. split; [lia|]. split; [exact Hmax|].
      split; [exact Hlen|]. split; [exact Hstart|]. split; [|split].
      - change ((16, USED) :: (16, USED) :: bs ++ [(asize, FREE)])
          with (((16, USED) :: (16, USED) :: bs) ++ [(asize, FREE)]).
        apply tiled_app. split; [exact Ht3|]. cbn.
        replace (hs + (16 + (16 + span bs))) with cur by (unfold cur; lia).
        split; [|split; [left; reflexivity | exact I]].
        apply block_at_intro; cbn; fold hs; try (unfold cur; zlia);
          unfold h3, h2, h1; rewrite peek_set_last; peeks; reflexivity.
      - rewrite span_app. cbn. unfold cur in *. lia.
      - rewrite last_block_app. reflexivity. }
    assert (Hfl3 : free_list h3 mid (hs + 16)).
    { apply free_list_set_last.
      apply free_list_poke_tag; [right; cbn; fold hs; unfold cur; zlia|].
      apply free_list_poke_tag; [left; cbn; fold hs; unfold cur; zlia|].
      apply free_list_grow; [lia | exact Hfl]. }
    assert (Hperm3 : mid ≡ₚ (frees (hs + 32) bs ++ frees (cur + asize) [])).
    { cbn. rewrite app_nil_r. exact Hperm. }
    destruct (coalesce_inv h3 bs asize [] mid Hshape3 Hfl3 Hperm3)
      as (h' & Hrun & Hsame & Hinv' & Hpay).
    change (bt_heap_start h3) with hs in Hrun, Hinv', Hpay.
    fold cur in Hrun, Hinv', Hpay.
    exists h'. split; [exact Hrun|].
    destruct Hsame as (E1 & E2 & E3 & E4 & E5).
    split; [exact E1|].
    split; [rewrite E2; unfold h3, h2, h1, hg; cbn; lia|]. split; [exact E3|].
    split; [exact E4|]. split; [exact E5|]. split; [exact Hinv'|].
    cbn in Hpay. rewrite app_nil_r in Hpay.
    intros x sz w Hx Hw. rewrite (Hpay x sz w Hx Hw).
    pose proof (useds_bounds _ _ _ _ _ Htb Hx).
    unfold h3, h2, h1.
    change (peek (set_bt_heap_last cur ?y) w) with (peek y w).
    rewrite !peek_poke_other by (unfold cur; lia). reflexivity.
Qed.

(** ** Searching a well-formed heap *)

Lemma blk_read h a c f :
  arena_ok h -> bt_heap_start h mod 4 = 0 -> block_at h a c f ->
  f = FREE \/ f = USED ->
  blk_size h a = c /\ blk_free h a = (f =? FREE).
Proof.
  intros Hok Hs Hb Hf.
  destruct (block_at_read h a c f Hok Hs ltac:(unfold FREE, USED in Hf; lia) Hb)
    as (_ & _ & Hsz & Hfl & _ & Hr).
  unfold blk_size, blk_free. rewrite Hsz, Hfl.
  split; [apply to_size_small; lia | reflexivity].
Qed.

Lemma chain_walk h tl :
  arena_ok h -> bt_heap_start h mod 4 = 0 ->
  lifo_next tl h = Some (NULL, h) ->
  forall l, Forall (node_ok h) (l ++ [tl]) -> chain h (l ++ [tl]) ->
            lifo_walk h (hd tl l) (l ++ [tl]).
Proof.
  intros Hok Hs Htl.
  assert (Hnode : forall a, node_ok h a -> a <> NULL /\ valid_word h a = true).
  { intros a Ha. destruct (node_valid _ _ Hs Ha) as (Hv & _).
    destruct Ha as (_ & Hlo & _). destruct Hok as (Hlo0 & _).
    split; [unfold NULL; lia | exact Hv]. }
  induction l as [|a l IH]; intros Hno Hc.
  - cbn in *. apply Forall_cons in Hno as (Hn & _).
    destruct (Hnode _ Hn) as (Hnn & Hv).
    split; [reflexivity|]. split; [exact Hnn|]. split; [exact Hv|].
    exists NULL. split; [exact Htl | reflexivity].
  - cbn [app hd] in *. apply Forall_cons in Hno as (Hn & Hno).
    destruct (Hnode _ Hn) as (Hnn & Hv).
    split; [reflexivity|]. split; [exact Hnn|]. split; [exact Hv|].
    exists (hd tl l). destruct l as [|b l].
    + cbn in Hc. destruct Hc as ((Hnx & _) & _).
      split; [exact Hnx|]. apply (IH Hno). exact I.
    + cbn [app] in Hc. destruct Hc as ((Hnx & _) & Hc).
      split; [exact Hnx|]. apply (IH Hno). exact Hc.
Qed.

Lemma free_list_walk h mid tl :
  arena_ok h -> free_list h mid tl ->
  lifo_next (bt_heap_start h) h = Some (hd tl mid, h) /\
  lifo_walk h (hd tl mid) (mid ++ [tl]).
Proof.
  intros Hok (Hs & (_ & Hno & Hc) & _ & Htl).
  apply Forall_cons in Hno as (_ & Hno).
  split.
  - destruct mid as [|a l]; cbn in Hc; apply Hc.
  - apply chain_walk; try assumption.
    destruct mid as [|a l]; cbn in Hc; [exact I | apply Hc].
Qed.

(** A block of the tiling, by its place in the list. *)
Lemma tiled_block h a b1 c f b2 :
  tiled h a (b1 ++ (c, f) :: b2) ->
  block_at h (a + span b1) c f /\ (f = FREE \/ f = USED).
Proof. intros Ht. apply tiled_app in Ht as (_ & Hb & Hf & _). tauto. Qed.

(** [find_fit] on a well-formed heap: [NULL] when no free block is large
    enough, otherwise a smallest free block that is large enough, the
    first one in the free list among those of this size. *)
Lemma find_fit_inv h bs mid fuel reqsz :
  heap_inv h bs mid -> (length mid + 1 < fuel)%nat ->
  exists r, find_fit fuel reqsz h = Some (r, h) /\
    ((r = NULL /\ forall c, (c, FREE) ∈ bs -> c < reqsz) \/
     (exists b1 c b2 m1 m2,
        bs = b1 ++ (c, FREE) :: b2 /\ r = bt_heap_start h + 32 + span b1 /\
        mid = m1 ++ r :: m2 /\ reqsz <= c /\
        (forall c', (c', FREE) ∈ bs -> reqsz <= c' -> c <= c') /\
        (forall a, a ∈ m1 -> reqsz <= blk_size h a -> c < blk_size h a))).
Proof.
  intros Hinv Hfuel.
  pose proof (heap_inv_arena _ _ _ Hinv) as Hok.
  pose proof Hinv as (Hshape & Hfl & Hperm).
  pose proof Hshape as (_ & _ & _ & _ & _ & Ht & _).
  pose proof Hfl as (Hs4 & _).
  set (hs := bt_heap_start h) in *.
  destruct Ht as (_ & _ & Ha2 & _ & Htb).
  replace (hs + 16 + 16) with (hs + 32) in Htb by lia.
  destruct (free_list_walk h mid (hs + 16) Hok Hfl) as (Hfirst & Hwalk).
  destruct (find_fit_loop_spec h reqsz (mid ++ [hs + 16]) fuel
              (hd (hs + 16) mid) NULL 0 [] Hwalk)
    as (r & Hrun & Hbest).
  { rewrite length_app. cbn. lia. }
  { left. split; [reflexivity|]. intros a Ha. inversion Ha. }
  cbn [app] in Hbest.
  assert (Hmidfree : forall a, a ∈ mid ->
            exists c, (c, FREE) ∈ bs /\ blk_free h a = true /\ blk_size h a = c).
  { intros a Ha. rewrite Hperm in Ha.
    destruct (frees_split _ _ _ _ Htb Ha) as (x & c & y & E & ->).
    pose proof Htb as Htb'. rewrite E in Htb'.
    destruct (tiled_block _ _ _ _ _ _ Htb') as (Hb & Hf).
    destruct (blk_read h _ c FREE Hok Hs4 Hb Hf) as (E1 & E2).
    exists c. split; [rewrite E; apply elem_of_app; right; left|].
    split; [exact E2 | exact E1]. }
  assert (Hfree : forall c, (c, FREE) ∈ bs ->
            exists a, a ∈ mid /\ blk_free h a = true /\ blk_size h a = c).
  { intros c Hc. apply list_elem_of_split in Hc as (x & y & E).
    exists (hs + 32 + span x). rewrite E in Htb.
    destruct (tiled_block _ _ _ _ _ _ Htb) as (Hb & Hf).
    destruct (blk_read h _ c FREE Hok Hs4 Hb Hf) as (E1 & E2).
    split; [|split; [exact E2 | exact E1]].
    rewrite Hperm, E, frees_app. apply elem_of_app. right. cbn. left. }
  exists r. split.
  - unfold find_fit. rewrite (bind_run _ _ _ _ _ eq_refl).
    fold hs. rewrite (bind_run _ _ _ _ _ Hfirst). exact Hrun.
  - destruct Hbest as [(-> & Hno) | (l1 & l2 & El & Hfit & Hbefore & Hafter)].
    + left. split; [reflexivity|]. intros c Hc.
      destruct (Hfree c Hc) as (a & Ha & Hfr & Hsz).
      destruct (Z.lt_ge_cases c reqsz) as [Hlt | Hge]; [exact Hlt|].
      exfalso. apply (Hno a); [apply elem_of_app; left; exact Ha|].
      split; [exact Hfr | lia].
    + right.
      assert (Hrtl : r <> hs + 16).
      { intros ->.
        destruct (blk_read h _ 16 USED Hok Hs4 Ha2 ltac:(right; reflexivity))
          as (_ & E2).
        destruct Hfit as (Hfr & _). rewrite E2 in Hfr. discriminate. }
      assert (exists m2, mid = l1 ++ r :: m2) as (m2 & Emid).
      { destruct l2 as [|x l2].
        - replace (l1 ++ [r]) with (l1 ++ [r]) in El by reflexivity.
          apply app_inj_tail in El as (_ & El). congruence.
        - destruct (exists_last (l := x :: l2)) as (m2 & y & E); [discriminate|].
          rewrite E in El.
          replace (l1 ++ r :: m2 ++ [y]) with ((l1 ++ r :: m2) ++ [y]) in El
            by (rewrite <- app_assoc; reflexivity).
          apply app_inj_tail in El as (El & _). exists m2. exact El. }
      assert (Hr : r ∈ mid) by (rewrite Emid; apply elem_of_app; right; left).
      destruct (Hmidfree r Hr) as (c & Hc & Hfr & Hsz).
      rewrite Hperm in Hr.
      destruct (frees_split _ _ _ _ Htb Hr) as (b1 & c0 & b2 & E & Er).
      pose proof Htb as Htb'. rewrite E in Htb'.
      destruct (tiled_block _ _ _ _ _ _ Htb') as (Hb & Hf).
      rewrite <- Er in Hb.
      destruct (blk_read h r c0 FREE Hok Hs4 Hb Hf) as (E1 & E2).
      destruct Hfit as (_ & Hge). rewrite E1 in Hge.
      exists b1, c0, b2, l1, m2. split; [exact E|]. split; [exact Er|].
      split; [exact Emid|]. split; [exact Hge|]. split.
      * intros c' Hc' Hge'.
        destruct (Hfree c' Hc') as (a & Ha & Hfr' & Hsz').
        assert (Hfa : fits h reqsz a) by (split; [exact Hfr' | lia]).
        assert (Hin : a ∈ l1 ++ r :: l2)
          by (rewrite <- El; apply elem_of_app; left; exact Ha).
        apply elem_of_app in Hin as [Hin | Hin].
        -- specialize (Hbefore a Hin Hfa). lia.
        -- apply elem_of_cons in Hin as [-> | Hin]; [lia|].
           specialize (Hafter a Hin Hfa). lia.
      * intros a Ha Hge'.
        assert (Ha' : a ∈ mid) by (rewrite Emid; apply elem_of_app; left; exact Ha).
        destruct (Hmidfree a Ha') as (ca & _ & Hfra & _).
        specialize (Hbefore a Ha (conj Hfra Hge')). lia.
Qed.

(** ** malloc on a well-formed heap *)

Lemma malloc_asize_bounds size :
  0 < size <= 2 ^ 64 - 24 ->
  16 <= malloc_asize size /\ malloc_asize size mod 16 = 0 /\
  size + 8 <= malloc_asize size < size + 24 /\
  malloc_asize size + 15 < 2 ^ 64.
Proof.
  intros H. unfold malloc_asize, to_size, ALIGNMENT.
  destruct (size <=? 8) eqn:E.
  - apply Z.leb_le in E. repeat split; lia.
  - apply Z.leb_gt in E. zlia.
Qed.

Lemma useds_absorb_prev h a b1 :
  tiled h a b1 -> useds a (absorb_prev b1).1 = useds a b1.
Proof.
  intros Ht.
  destruct (prev_cases h a b1 Ht) as [-> | (b1' & ps & pf & -> & Hpf & _)].
  - reflexivity.
  - rewrite absorb_prev_snoc. destruct Hpf as [-> | ->]; cbn [Z.eqb FREE USED fst snd].
    + rewrite useds_app. cbn. rewrite app_nil_r. reflexivity.
    + reflexivity.
Qed.

Lemma release_nil bs asize :
  release bs asize []
  = (absorb_prev bs).1 ++ [((absorb_prev bs).2 + asize, FREE)].
Proof. unfold release. cbn. rewrite Z.add_0_r. reflexivity. Qed.

Lemma place_payloads h h' b1 c f b2 mid l :
  heap_inv h (b1 ++ (c, f) :: b2) mid ->
  (forall y, y ∈ l -> y ∈ bt_heap_start h :: mid ++ [bt_heap_start h + 16]) ->
  kept_outside h h' (bt_heap_start h + 32 + span b1)
               (bt_heap_start h + 32 + span b1 + c) l ->
  payloads_kept h h' (useds (bt_heap_start h + 32) b1 ++
                      useds (bt_heap_start h + 32 + span b1 + c) b2).
Proof.
  intros Hinv Hl Hkept.
  pose proof Hinv as ((_ & _ & _ & _ & _ & Ht & _) & _ & Hperm).
  set (hs := bt_heap_start h) in *.
  destruct Ht as (_ & _ & _ & _ & Htb).
  replace (hs + 16 + 16) with (hs + 32) in Htb by lia.
  pose proof Htb as Htb'. apply tiled_app in Htb' as (Ht1 & _ & _ & Ht2).
  apply (payloads_kept_intro h h' (hs + 32) _ _ _ _ _ Htb Hkept).
  - intros y Hy. specialize (Hl y Hy).
    destruct (heap_inv_nodes _ _ _ _ Hinv Hl) as (Hc & [Hlow | Hfree]);
      [left; fold hs in Hlow, Hc; zlia | right; exact Hfree].
  - intros x sz Hx.
    assert (Hin : (x, sz) ∈ useds (hs + 32) (b1 ++ (c, f) :: b2)).
    { rewrite useds_app. cbn. apply elem_of_app in Hx as [Hx | Hx];
        apply elem_of_app; [left; exact Hx | right].
      destruct (f =? FREE); [exact Hx | right; exact Hx]. }
    split; [exact Hin|].
    apply elem_of_app in Hx as [Hx | Hx].
    + pose proof (useds_bounds _ _ _ _ _ Ht1 Hx). lia.
    + pose proof (useds_bounds _ _ _ _ _ Ht2 Hx). lia.
Qed.

(** [malloc] for a request whose needed block size is a multiple of 16, at
    least 16: the three ways it can go. *)
Lemma malloc_inv_gen h bs mid fuel size :
  heap_inv h bs mid -> size <> 0 ->
  16 <= malloc_asize size -> malloc_asize size mod 16 = 0 ->
  malloc_asize size + 15 < 2 ^ 64 ->
  (length mid + 1 < fuel)%nat ->
  (exists b1 c b2 m1 m2 h',
     bs = b1 ++ (c, FREE) :: b2 /\ malloc_asize size <= c /\
     (forall c', (c', FREE) ∈ bs -> malloc_asize size <= c' -> c <= c') /\
     mid = m1 ++ (bt_heap_start h + 32 + span b1) :: m2 /\
     (forall a, a ∈ m1 -> malloc_asize size <= blk_size h a ->
                c < blk_size h a) /\
     malloc fuel size h = Some (bt_heap_start h + 32 + span b1 + 4, h') /\
     same_arena h h' /\
     heap_inv h' (carve b1 c (malloc_asize size) b2)
       (if 16 <=? c - malloc_asize size
        then m1 ++ (bt_heap_start h + 32 + span b1 + malloc_asize size) :: m2
        else m1 ++ m2) /\
     payloads_kept h h' (useds (bt_heap_start h + 32) bs)) \/
  ((forall c, (c, FREE) ∈ bs -> c < malloc_asize size) /\
   mem_brk h + malloc_asize size <= mem_max h /\
   exists h',
     malloc fuel size h
     = Some (bt_heap_start h + 32 + span bs - (absorb_prev bs).2 + 4, h') /\
     mem_lo h' = mem_lo h /\ mem_brk h' = mem_brk h + malloc_asize size /\
     mem_max h' = mem_max h /\ heap_start h' = heap_start h /\
     bt_heap_start h' = bt_heap_start h /\
     heap_inv h' (carve (absorb_prev bs).1
                        ((absorb_prev bs).2 + malloc_asize size)
                        (malloc_asize size) [])
       (if 16 <=? (absorb_prev bs).2 + malloc_asize size - malloc_asize size
        then (bt_heap_start h + 32 + span bs - (absorb_prev bs).2
              + malloc_asize size)
             :: filter (fun x =>
                  x <> bt_heap_start h + 32 + span bs - (absorb_prev bs).2 /\
                  x <> bt_heap_start h + 32 + span bs + malloc_asize size) mid
        else filter (fun x =>
                  x <> bt_heap_start h + 32 + span bs - (absorb_prev bs).2 /\
                  x <> bt_heap_start h + 32 + span bs + malloc_asize size) mid) /\
     payloads_kept h h' (useds (bt_heap_start h + 32) bs)) \/
  ((forall c, (c, FREE) ∈ bs -> c < malloc_asize size) /\
   mem_max h < mem_brk h + malloc_asize size /\
   malloc fuel size h = Some (NULL, h)).
Proof.
  intros Hinv Hsize Hamin Ham Har Hfuel.
  set (asize := malloc_asize size) in *.
  pose proof (heap_inv_arena _ _ _ Hinv) as Hok.
  pose proof Hok as (Hlo0 & _).
  pose proof Hinv as ((_ & _ & _ & _ & _ & Ht & _) & _).
  set (hs := bt_heap_start h) in *.
  destruct Ht as ((_ & _ & _ & Hlo1 & _) & _ & _ & _ & Htb).
  replace (hs + 16 + 16) with (hs + 32) in Htb by lia.
  pose proof (tiled_span _ _ _ Htb) as Hspan.
  destruct (find_fit_inv h bs mid fuel asize Hinv Hfuel)
    as (r & Hfind & [(-> & Hnone)
                    | (b1 & c & b2 & m1 & m2 & Ebs & -> & Emid & Hge & Hbest & Hord)]).
  - (* no fit: the arena grows *)
    right.
    destruct (extend_inv h bs mid asize Hinv Hamin Ham Har) as (Hfail & Hgrow).
    destruct (Z.le_gt_cases (mem_brk h + asize) (mem_max h)) as [Hroom | Hfull].
    + left. split; [exact Hnone|]. split; [exact Hroom|].
      destruct (Hgrow Hroom)
        as (h0 & Hext & E1 & E2 & E3 & E4 & E5 & Hinv0 & Hpay0).
      fold hs in Hext, Hinv0, Hpay0.
      rewrite release_nil in Hinv0.
      pose proof (span_absorb_prev _ _ _ Htb) as Esp.
      pose proof (tiled_span_mod _ _ _ Htb) as Hsp16.
      set (ps := (absorb_prev bs).2) in *. set (b1 := (absorb_prev bs).1) in *.
      assert (Hps : 0 <= ps).
      { unfold ps. destruct (prev_cases h _ bs Htb)
          as [-> | (b1' & p & pf & -> & Hpf & (_ & Hp & _))]; [cbn; lia|].
        rewrite absorb_prev_snoc. destruct (pf =? FREE); cbn; lia. }
      assert (Hb1 : 0 <= span b1).
      { pose proof Hinv0 as ((_ & _ & _ & _ & _ & Ht0 & _) & _).
        destruct Ht0 as (_ & _ & _ & _ & Ht0).
        apply tiled_app in Ht0 as (Ht0 & _). exact (tiled_span _ _ _ Ht0). }
      set (F := filter (fun x => x <> hs + 32 + span bs - ps /\
                                 x <> hs + 32 + span bs + asize) mid).
      assert (Ebt : bt_heap_start h0 + 32 + span b1 = hs + 32 + span bs - ps)
        by (rewrite E5, Esp; fold hs; lia).
      unfold released_list in Hinv0. fold F in Hinv0.
      assert (Hinv0' : heap_inv h0 (b1 ++ (ps + asize, FREE) :: [])
                         ([] ++ (bt_heap_start h0 + 32 + span b1) :: F))
        by (rewrite Ebt; exact Hinv0).
      destruct (place_inv h0 b1 (ps + asize) [] [] F asize Hinv0'
                  ltac:(lia) Ham)
        as (h' & Hplace & Hsame & Hkept & Hres).
      rewrite Ebt in Hplace, Hkept, Hres.
      rewrite E5 in Hkept. fold hs in Hkept.
      destruct Hsame as (F1 & F2 & F3 & F4 & F5).
      exists h'.
      split; [|split; [rewrite F1; exact E1|]; split; [rewrite F2; exact E2|];
                split; [rewrite F3; exact E3|]; split; [rewrite F4; exact E4|];
                split; [rewrite F5; exact E5|]].
      * unfold malloc.
        replace (size =? 0) with false by (symmetry; apply Z.eqb_neq; lia).
        cbv zeta. fold asize. rewrite (bind_run _ _ _ _ _ Hfind).
        cbn [NULL Z.eqb negb]. rewrite (bind_run _ _ _ _ _ Hext).
        replace (hs + 32 + span bs - ps + 4 =? NULL) with false
          by (symmetry; apply Z.eqb_neq; unfold NULL; lia).
        unfold bt_fromptr, bt_payload.
        replace (hs + 32 + span bs - ps + 4 - 4) with (hs + 32 + span bs - ps)
          by lia.
        rewrite (bind_run _ _ _ _ _ Hplace). reflexivity.
      * split.
        -- unfold carve. destruct (16 <=? ps + asize - asize); exact Hres.
        -- apply (payloads_kept_trans h h0); [exact Hpay0|].
           pose proof (place_payloads h0 h' b1 (ps + asize) FREE [] _
                         (hs :: ([] ++ F) ++ [hs + 16]) Hinv0') as Hp.
           rewrite Ebt in Hp. rewrite E5 in Hp. fold hs in Hp.
           cbn [useds] in Hp. rewrite app_nil_r in Hp. unfold b1 in Hp.
           rewrite (useds_absorb_prev h _ _ Htb) in Hp.
           apply Hp; [|exact Hkept].
           intros y Hy. cbn [app] in *. rewrite !elem_of_cons in *.
           tauto.
    + right. split; [exact Hnone|]. split; [lia|].
      unfold malloc.
      replace (size =? 0) with false by (symmetry; apply Z.eqb_neq; lia).
      cbv zeta. fold asize. rewrite (bind_run _ _ _ _ _ Hfind).
      cbn [NULL Z.eqb negb]. rewrite (bind_run _ _ _ _ _ (Hfail Hfull)).
      reflexivity.
  - (* a fit *)
    left. rewrite Ebs, Emid in Hinv. fold hs in Hfind, Emid |- *.
    destruct (place_inv h b1 c b2 m1 m2 asize Hinv ltac:(lia) Ham)
      as (h' & Hplace & Hsame & Hkept & Hres).
    fold hs in Hplace, Hkept, Hres.
    exists b1, c, b2, m1, m2, h'.
    split; [exact Ebs|]. split; [exact Hge|]. split; [exact Hbest|].
    split; [exact Emid|]. split; [exact Hord|].
    split; [|split; [exact Hsame|split]].
    + unfold malloc.
      replace (size =? 0) with false by (symmetry; apply Z.eqb_neq; lia).
      cbv zeta. fold asize. rewrite (bind_run _ _ _ _ _ Hfind).
      replace (hs + 32 + span b1 =? NULL) with false.
      2:{ symmetry. apply Z.eqb_neq. unfold NULL.
          rewrite Ebs, span_app in Hspan. rewrite Ebs in Htb.
          apply tiled_app in Htb as (Ht1 & _).
          pose proof (tiled_span _ _ _ Ht1). lia. }
      cbn [negb]. rewrite (bind_run _ _ _ _ _ Hplace). reflexivity.
    + unfold carve. destruct (16 <=? c - asize); exact Hres.
    + rewrite Ebs, useds_app. cbn.
      apply (place_payloads h h' b1 c FREE b2 _
               (hs :: (m1 ++ m2) ++ [hs + 16]) Hinv); [|exact Hkept].
      intros y Hy. apply in_full_drop. exact Hy.
Qed.

(** [malloc] for a request of at most [2^64 - 24] bytes. *)
Lemma malloc_inv h bs mid fuel size :
  heap_inv h bs mid -> 0 < size <= 2 ^ 64 - 24 ->
  (length mid + 1 < fuel)%nat ->
  (exists b1 c b2 m1 m2 h',
     bs = b1 ++ (c, FREE) :: b2 /\ malloc_asize size <= c /\
     (forall c', (c', FREE) ∈ bs -> malloc_asize size <= c' -> c <= c') /\
     mid = m1 ++ (bt_heap_start h + 32 + span b1) :: m2 /\
     (forall a, a ∈ m1 -> malloc_asize size <= blk_size h a ->
                c < blk_size h a) /\
     malloc fuel size h = Some (bt_heap_start h + 32 + span b1 + 4, h') /\
     same_arena h h' /\
     heap_inv h' (carve b1 c (malloc_asize size) b2)
       (if 16 <=? c - malloc_asize size
        then m1 ++ (bt_heap_start h + 32 + span b1 + malloc_asize size) :: m2
        else m1 ++ m2) /\
     payloads_kept h h' (useds (bt_heap_start h + 32) bs)) \/
  ((forall c, (c, FREE) ∈ bs -> c < malloc_asize size) /\
   mem_brk h + malloc_asize size <= mem_max h /\
   exists h',
     malloc fuel size h
     = Some (bt_heap_start h + 32 + span bs - (absorb_prev bs).2 + 4, h') /\
     mem_lo h' = mem_lo h /\ mem_brk h' = mem_brk h + malloc_asize size /\
     mem_max h' = mem_max h /\ heap_start h' = heap_start h /\
     bt_heap_start h' = bt_heap_start h /\
     heap_inv h' (carve (absorb_prev bs).1
                        ((absorb_prev bs).2 + malloc_asize size)
                        (malloc_asize size) [])
       (if 16 <=? (absorb_prev bs).2 + malloc_asize size - malloc_asize size
        then (bt_heap_start h + 32 + span bs - (absorb_prev bs).2
              + malloc_asize size)
             :: filter (fun x =>
                  x <> bt_heap_start h + 32 + span bs - (absorb_prev bs).2 /\
                  x <> bt_heap_start h + 32 + span bs + malloc_asize size) mid
        else filter (fun x =>
                  x <> bt_heap_start h + 32 + span bs - (absorb_prev bs).2 /\
                  x <> bt_heap_start h + 32 + span bs + malloc_asize size) mid) /\
     payloads_kept h h' (useds (bt_heap_start h + 32) bs)) \/
  ((forall c, (c, FREE) ∈ bs -> c < malloc_asize size) /\
   mem_max h < mem_brk h + malloc_asize size /\
   malloc fuel size h = Some (NULL, h)).
Proof.
  intros Hinv Hsize Hfuel.
  destruct (malloc_asize_bounds size Hsize) as (Hamin & Ham & _ & Har).
  apply malloc_inv_gen; try assumption. lia.
Qed.

(** ** Initialisation *)

(** [mm_init] on an arena that cannot grow by 48 bytes: the result is
    [-1], nothing is written, and [heap_start] is left at the failure
    value of [mem_sbrk]. *)
Theorem mm_init_no_room (h : heap) :
  mem_max h < mem_brk h + 48 ->
  mm_init h = Some (-1, set_heap_start SBRK_FAIL h).
Proof.
  intros Hfull. unfold mm_init, mem_sbrk.
  rewrite (bind_run _ _ h SBRK_FAIL h).
  2:{ replace (mem_brk h + 12 * 4 <=? mem_max h) with false
        by (symmetry; apply Z.leb_gt; lia).
      rewrite andb_false_r. reflexivity. }
  rewrite (bind_run _ _ h tt (set_heap_start SBRK_FAIL h)) by reflexivity.
  reflexivity.
Qed.

(** What [mm_init] does to an arena with room, for the proofs about its
    callers. *)
Lemma mm_init_inv (h : heap) :
  0 < mem_lo h <= mem_brk h -> mem_brk h mod 4 = 0 ->
  mem_brk h + 48 <= mem_max h -> mem_max h < SBRK_FAIL ->
  mem_max h - mem_lo h < 2 ^ 31 ->
  exists h',
    mm_init h = Some (0, h') /\ heap_inv h' [] [] /\
    mem_lo h' = mem_lo h /\ mem_brk h' = mem_brk h + 48 /\
    mem_max h' = mem_max h /\ bt_heap_start h' = mem_brk h + 12 /\
    (forall a, a < mem_brk h \/ mem_brk h + 48 <= a -> peek h' a = peek h a).
Proof.
  intros Hlo Hal Hroom Hmax Hlen.
  set (p := mem_brk h).
  set (hg := set_heap_start p (set_brk (p + 48) h)).
  assert (Hv : forall k, 0 <= k < 12 -> valid_word hg (p + 4 * k) = true).
  { intros k Hk. rewrite valid_word_iff. cbn. unfold p. zlia. }
  unfold mm_init, mem_sbrk.
  rewrite (bind_run _ _ h p (set_brk (p + 48) h)).
  2:{ replace (mem_brk h + 12 * 4 <=? mem_max h) with true
        by (symmetry; apply Z.leb_le; lia).
      reflexivity. }
  rewrite (bind_run _ _ _ tt hg) by reflexivity.
  replace (p =? SBRK_FAIL) with false
    by (symmetry; apply Z.eqb_neq; unfold p; lia).
  unfold ALIGNMENT, lifo_create_next, lifo_create_prev, lifo_put_next,
    lifo_put_prev, bt_fromptr.
  replace ((p + 4 * 7 - (p + 4 * 3)) ÷ 4) with 4 by zlia.
  replace ((p + 4 * 3 - (p + 4 * 7)) ÷ 4) with (-4) by zlia.
  replace (p + 4 * 3 + 4) with (p + 4 * 4) by lia.
  replace (p + 4 * 7 + 8) with (p + 4 * 9) by lia.
  rewrite !to_word_small by lia.
  set (h1 := poke (p + 4 * 3) (Z.lor 16 USED) hg).
  set (h2 := poke (p + 4 * 6) (Z.lor 16 USED) h1).
  set (h3 := poke (p + 4 * 4) 4 h2).
  set (h4 := poke (p + 4 * 5) 0 h3).
  set (h5 := poke (p + 4 * 7) (Z.lor 16 USED) h4).
  set (h6 := poke (p + 4 * 10) (Z.lor 16 USED) h5).
  set (h7 := poke (p + 4 * 8) 0 h6).
  set (h8 := poke (p + 4 * 9) (-4) h7).
  rewrite (bind_run _ _ hg tt h1) by (apply bt_make_tag; [apply Hv; lia | lia]).
  rewrite (bind_run _ _ h1 tt h2) by (apply bt_make_tag; [apply Hv; lia | lia]).
  rewrite (bind_run _ _ h2 tt h3) by (apply store_run; apply Hv; lia).
  rewrite (bind_run _ _ h3 tt h4) by (apply store_run; apply Hv; lia).
  rewrite (bind_run _ _ h4 tt h5) by (apply bt_make_tag; [apply Hv; lia | lia]).
  rewrite (bind_run _ _ h5 tt h6) by (apply bt_make_tag; [apply Hv; lia | lia]).
  rewrite (bind_run _ _ h6 tt h7) by (apply store_run; apply Hv; lia).
  rewrite (bind_run _ _ h7 tt h8) by (apply store_run; apply Hv; lia).
  rewrite (bind_run _ _ h8 tt (set_heap_start (p + 4 * 4) h8)) by reflexivity.
  rewrite (bind_run _ _ _ tt
             (set_bt_heap_start (p + 4 * 4 - 4) (set_heap_start (p + 4 * 4) h8)))
    by reflexivity.
  rewrite (bind_run _ _ _ tt
             (set_bt_heap_last (p + 4 * 4 - 4 + 4 * 4)
                (set_bt_heap_start (p + 4 * 4 - 4) (set_heap_start (p + 4 * 4) h8))))
    by reflexivity.
  set (h' := set_bt_heap_last _ _).
  assert (Hpeek : forall a, peek h' a = peek h8 a) by reflexivity.
  assert (Ehs : bt_heap_start h' = p + 12) by (cbn; lia).
  assert (Elo : mem_lo h' = mem_lo h) by reflexivity.
  assert (Ebrk : mem_brk h' = p + 48) by reflexivity.
  exists h'. split; [reflexivity|].
  split.
  2:{ split; [reflexivity|]. split; [reflexivity|]. split; [reflexivity|].
      split; [exact Ehs|].
      intros a Ha. rewrite Hpeek. unfold h8, h7, h6, h5, h4, h3, h2, h1.
      rewrite !peek_poke_other by (unfold p in *; lia). reflexivity. }
  assert (Hb1 : block_at h' (p + 12) 16 USED).
  { apply block_at_intro; rewrite ?Ehs, ?Elo, ?Ebrk, ?Hpeek;
      try (unfold p; zlia); unfold h8, h7, h6, h5, h4, h3, h2, h1; peeks; reflexivity. }
  assert (Hb2 : block_at h' (p + 28) 16 USED).
  { apply block_at_intro; rewrite ?Ehs, ?Elo, ?Ebrk, ?Hpeek;
      try (unfold p; zlia); unfold h8, h7, h6, h5, h4, h3, h2, h1; peeks; reflexivity. }
  assert (Hvw : forall a, p <= a -> a + 4 <= p + 48 -> a mod 4 = 0 ->
                          valid_word h' a = true).
  { intros a H1 H2 H3. rewrite valid_word_iff, Elo, Ebrk. unfold p in *. lia. }
  split; [|split].
  - unfold arena_shape. rewrite Ehs. cbn [span last_block tiled].
    rewrite Elo, Ebrk.
    split; [lia|]. split; [unfold p; change (mem_max h') with (mem_max h); lia|].
    split; [exact Hmax|].
    split; [exact Hlen|]. split; [cbn; lia|]. split; [|split].
    + split; [exact Hb1|]. split; [right; reflexivity|].
      replace (p + 12 + 16) with (p + 28) by lia.
      split; [exact Hb2|]. split; [right; reflexivity | exact I].
    + cbn. lia.
    + cbn. lia.
  - unfold free_list. rewrite Ehs. split; [unfold p; zlia|]. split; [|split].
    + split; [|split].
      * cbn. apply NoDup_cons. split; [|apply NoDup_singleton].
        intros Hin. apply list_elem_of_singleton in Hin. lia.
      * cbn. repeat constructor; rewrite ?Ehs, ?Elo, ?Ebrk; unfold p; zlia.
      * cbn. split; [|exact I]. split.
        -- apply lifo_next_iff. split; [apply Hvw; unfold p; zlia|].
           rewrite Hpeek. unfold h8, h7, h6, h5, h4, h3, h2, h1. peeks.
           unfold link_ptr. cbn. lia.
        -- apply lifo_prev_iff. split; [apply Hvw; unfold p; zlia|].
           rewrite Hpeek. unfold h8, h7, h6, h5, h4, h3, h2, h1. peeks.
           unfold link_ptr. cbn. lia.
    + apply lifo_prev_iff. split; [apply Hvw; unfold p; zlia|].
      rewrite Hpeek. unfold h8, h7, h6, h5, h4, h3, h2, h1. peeks. reflexivity.
    + apply lifo_next_iff. split; [apply Hvw; unfold p; zlia|].
      rewrite Hpeek. unfold h8, h7, h6, h5, h4, h3, h2, h1. peeks. reflexivity.
  - reflexivity.
Qed.

(** [mm_init] on an arena with room for 48 bytes, whose break is a
    multiple of 4: the result is 0 and the heap is well formed and empty;
    the break has moved by 48 bytes, the first block tag is 12 bytes above
    the old break, and no word below the old break has changed. *)
Theorem mm_init_spec (h : heap) :
  0 < mem_lo h <= mem_brk h -> mem_brk h mod 4 = 0 ->
  mem_brk h + 48 <= mem_max h -> mem_max h < SBRK_FAIL ->
  mem_max h - mem_lo h < 2 ^ 31 ->
  exists h',
    mm_init h = Some (0, h') /\ heap_inv h' [] [] /\
    mem_lo h' = mem_lo h /\ mem_brk h' = mem_brk h + 48 /\
    mem_max h' = mem_max h /\ bt_heap_start h' = mem_brk h + 12 /\
    (forall a, a < mem_brk h \/ mem_brk h + 48 <= a -> peek h' a = peek h a).
Proof. apply mm_init_inv. Qed.

(** ** The blocks after [place] and [coalesce] *)

Lemma useds_carve a b1 c asize b2 :
  useds a (carve b1 c asize b2)
  = useds a b1 ++
    (a + span b1, if 16 <=? c - asize then asize else c)
    :: useds (a + span b1 + c) b2.
Proof.
  unfold carve. rewrite useds_app. destruct (16 <=? c - asize); cbn.
  - replace (a + span b1 + asize + (c - asize)) with (a + span b1 + c) by lia.
    reflexivity.
  - reflexivity.
Qed.

Lemma useds_absorb_next a b2 :
  useds (a + (absorb_next b2).1) (absorb_next b2).2 = useds a b2.
Proof.
  destruct b2 as [|[ns nf] t]; [reflexivity|].
  unfold absorb_next. cbn [useds]. destruct (nf =? FREE) eqn:E; cbn [fst snd].
  - reflexivity.
  - rewrite Z.add_0_r. cbn [useds]. rewrite E. reflexivity.
Qed.

Lemma useds_release h a b1 s b2 :
  tiled h a b1 ->
  useds a (release b1 s b2) = useds a b1 ++ useds (a + span b1 + s) b2.
Proof.
  intros Ht. unfold release. rewrite useds_app. cbn.
  rewrite (useds_absorb_prev h a b1 Ht), (span_absorb_prev h a b1 Ht).
  replace (a + (span b1 - (absorb_prev b1).2) +
           ((absorb_prev b1).2 + s + (absorb_next b2).1))
    with (a + span b1 + s + (absorb_next b2).1) by lia.
  rewrite useds_absorb_next. reflexivity.
Qed.

Lemma coalesced_app l1 x l2 :
  coalesced (l1 ++ x :: l2) <-> coalesced (l1 ++ [x]) /\ coalesced (x :: l2).
Proof.
  induction l1 as [|[c f] l1 IH].
  - cbn. destruct x. tauto.
  - destruct l1 as [|[c' f'] l1].
    + cbn. destruct x. tauto.
    + change (coalesced (((c, f) :: (c', f') :: l1) ++ x :: l2))
        with ((f = FREE -> f' <> FREE) /\ coalesced (((c', f') :: l1) ++ x :: l2)).
      change (coalesced (((c, f) :: (c', f') :: l1) ++ [x]))
        with ((f = FREE -> f' <> FREE) /\ coalesced (((c', f') :: l1) ++ [x])).
      tauto.
Qed.

Lemma coalesced_tail x l : coalesced (x :: l) -> coalesced l.
Proof. destruct x, l as [|[] l]; cbn; tauto. Qed.

Lemma coalesced_init l x : coalesced (l ++ [x]) -> coalesced l.
Proof.
  induction l as [|[c f] l IH]; [intros; exact I|].
  destruct l as [|[c' f'] l]; [intros; exact I|].
  change (coalesced (((c, f) :: (c', f') :: l) ++ [x]))
    with ((f = FREE -> f' <> FREE) /\ coalesced (((c', f') :: l) ++ [x])).
  intros (H1 & H2). split; [exact H1 | exact (IH H2)].
Qed.

(** The last block may change as long as it does not become free. *)
Lemma coalesced_snoc_flag l c f c' f' :
  coalesced (l ++ [(c, f)]) -> (f' = FREE -> f = FREE) ->
  coalesced (l ++ [(c', f')]).
Proof.
  intros H Hf. induction l as [|[c1 f1] l IH]; [exact I|].
  destruct l as [|[c2 f2] l].
  - cbn in *. split; [|exact I]. intros H1 H2. apply (proj1 H H1). tauto.
  - change (coalesced (((c1, f1) :: (c2, f2) :: l) ++ [(c, f)]))
      with ((f1 = FREE -> f2 <> FREE) /\ coalesced (((c2, f2) :: l) ++ [(c, f)]))
      in H.
    change ((f1 = FREE -> f2 <> FREE) /\ coalesced (((c2, f2) :: l) ++ [(c', f')])).
    split; [apply H | apply IH; apply H].
Qed.

Lemma coalesced_cons_flag l c f c' f' :
  coalesced ((c, f) :: l) -> (f' = FREE -> f = FREE) ->
  coalesced ((c', f') :: l).
Proof. destruct l as [|[c2 f2] l]; cbn; tauto. Qed.

Lemma coalesced_absorb_prev b1 m :
  coalesced b1 -> coalesced ((absorb_prev b1).1 ++ [(m, FREE)]).
Proof.
  intros H. destruct b1 as [|b b1]; [exact I|].
  destruct (exists_last (l := b :: b1)) as (b1' & [ps pf] & E); [discriminate|].
  rewrite E in *. rewrite absorb_prev_snoc.
  destruct (pf =? FREE) eqn:Ef; cbn [fst].
  - apply (coalesced_snoc_flag b1' ps pf); [exact H|].
    intros _. apply Z.eqb_eq. exact Ef.
  - rewrite <- app_assoc. cbn [app]. apply coalesced_app. split; [exact H|].
    cbn. apply Z.eqb_neq in Ef. split; [|exact I]. intros H1 _. exact (Ef H1).
Qed.

Lemma coalesced_absorb_next b2 m :
  coalesced b2 -> coalesced ((m, FREE) :: (absorb_next b2).2).
Proof.
  intros H. destruct b2 as [|[ns nf] t]; [exact I|].
  unfold absorb_next. destruct (nf =? FREE) eqn:Ef; cbn [snd].
  - apply Z.eqb_eq in Ef. subst nf.
    apply (coalesced_cons_flag t ns FREE); [exact H | tauto].
  - apply Z.eqb_neq in Ef.
    change ((FREE = FREE -> nf <> FREE) /\ coalesced ((ns, nf) :: t)).
    split; [intros _; exact Ef | exact H].
Qed.

Lemma coalesced_release b1 s f b2 :
  coalesced (b1 ++ (s, f) :: b2) -> coalesced (release b1 s b2).
Proof.
  intros H. apply coalesced_app in H as (H1 & H2).
  apply coalesced_init in H1. apply coalesced_tail in H2.
  unfold release. apply coalesced_app. split.
  - apply coalesced_absorb_prev. exact H1.
  - apply coalesced_absorb_next. exact H2.
Qed.

Lemma coalesced_carve b1 c asize b2 :
  coalesced (b1 ++ (c, FREE) :: b2) -> coalesced (carve b1 c asize b2).
Proof.
  intros H. apply coalesced_app in H as (H1 & H2).
  unfold carve. destruct (16 <=? c - asize); cbn [app]; apply coalesced_app.
  - split.
    + apply (coalesced_snoc_flag b1 c FREE); [exact H1|]. unfold USED, FREE. lia.
    + change ((USED = FREE -> FREE <> FREE) /\
              coalesced ((c - asize, FREE) :: b2)).
      split; [unfold USED, FREE; lia|].
      apply (coalesced_cons_flag b2 c FREE); [exact H2 | tauto].
  - split.
    + apply (coalesced_snoc_flag b1 c FREE); [exact H1|]. unfold USED, FREE. lia.
    + apply (coalesced_cons_flag b2 c FREE); [exact H2|]. unfold USED, FREE. lia.
Qed.

(** ** The allocator on a well-formed heap *)

Lemma heap_inv_tiled h bs mid :
  heap_inv h bs mid -> tiled h (bt_heap_start h + 32) bs.
Proof.
  intros ((_ & _ & _ & _ & _ & Ht & _) & _).
  destruct Ht as (_ & _ & _ & _ & Ht).
  replace (bt_heap_start h + 16 + 16) with (bt_heap_start h + 32) in Ht by lia.
  exact Ht.
Qed.

Lemma heap_inv_base h bs mid : heap_inv h bs mid -> 0 < bt_heap_start h.
Proof.
  intros ((Hlo & _ & _ & _ & _ & Ht & _) & _).
  destruct Ht as ((_ & _ & _ & H & _) & _). lia.
Qed.

(** What [malloc] does to a well-formed heap when the needed block size is
    a block size: the new block has this size, or up to 15 bytes more when
    the rest of the free block is too small to stand alone. *)
Lemma malloc_block_gen (h : heap) (bs : list (Z * Z)) (mid : list Z)
    (fuel : nat) (size : Z) :
  heap_inv h bs mid -> size <> 0 ->
  16 <= malloc_asize size -> malloc_asize size mod 16 = 0 ->
  malloc_asize size + 15 < 2 ^ 64 ->
  (length mid + 1 < fuel)%nat ->
  exists r h',
    malloc fuel size h = Some (r, h') /\
    ((r = NULL /\ h' = h) \/
     (r <> NULL /\ exists bs' mid' s,
        heap_inv h' bs' mid' /\ bt_heap_start h' = bt_heap_start h /\
        inserted (bt_fromptr r, s) (useds (bt_heap_start h + 32) bs)
                 (useds (bt_heap_start h + 32) bs') /\
        malloc_asize size <= s < malloc_asize size + 16 /\
        payloads_kept h h' (useds (bt_heap_start h + 32) bs) /\
        (coalesced bs -> coalesced bs'))).
Proof.
  intros Hinv Hsize Hamin Ham Har Hfuel.
  pose proof (heap_inv_tiled _ _ _ Hinv) as Htb.
  pose proof (heap_inv_base _ _ _ Hinv) as Hhs.
  destruct (malloc_inv_gen h bs mid fuel size Hinv Hsize Hamin Ham Har Hfuel)
    as [(b1 & c & b2 & m1 & m2 & h' & Ebs & Hge & _ & _ & _ & Hrun & Hsame & Hinv' & Hpay)
       | [(_ & _ & h' & Hrun & _ & _ & _ & _ & Ehs & Hinv' & Hpay)
         | (_ & _ & Hrun)]].
  - rewrite Ebs in Htb. pose proof Htb as Htb'.
    apply tiled_app in Htb' as (Ht1 & _). pose proof (tiled_span _ _ _ Ht1).
    eexists _, h'. split; [exact Hrun|]. right. split; [unfold NULL; lia|].
    eexists _, _, _. split; [exact Hinv'|]. split; [apply Hsame|].
    split; [|split; [|split; [exact Hpay|]]].
    + exists (useds (bt_heap_start h + 32) b1),
             (useds (bt_heap_start h + 32 + span b1 + c) b2).
      split.
      * rewrite Ebs, useds_app. reflexivity.
      * rewrite useds_carve. unfold bt_fromptr.
        replace (bt_heap_start h + 32 + span b1 + 4 - 4)
          with (bt_heap_start h + 32 + span b1) by lia.
        reflexivity.
    + destruct (16 <=? c - malloc_asize size) eqn:E; [lia|].
      apply Z.leb_gt in E. lia.
    + rewrite Ebs. apply coalesced_carve.
  - pose proof (span_absorb_prev _ _ _ Htb) as Esp.
    pose proof (heap_inv_tiled _ _ _ Hinv') as Htb'.
    unfold carve in Htb'. apply tiled_app in Htb' as (Ht1 & _).
    pose proof (tiled_span _ _ _ Ht1).
    eexists _, h'. split; [exact Hrun|]. right. split; [unfold NULL; lia|].
    eexists _, _, _. split; [exact Hinv'|]. split; [exact Ehs|].
    split; [|split; [|split; [exact Hpay|]]].
    + exists (useds (bt_heap_start h + 32) bs), [].
      split; [rewrite app_nil_r; reflexivity|].
      rewrite useds_carve, (useds_absorb_prev h _ _ Htb), Esp. unfold bt_fromptr.
      cbn [useds].
      replace (bt_heap_start h + 32 + span bs - (absorb_prev bs).2 + 4 - 4)
        with (bt_heap_start h + 32 + (span bs - (absorb_prev bs).2)) by lia.
      reflexivity.
    + destruct (16 <=? _) eqn:E; [lia|]. apply Z.leb_gt in E.
      assert (0 <= (absorb_prev bs).2); [|lia].
      destruct (prev_cases h _ bs Htb)
        as [-> | (b1' & p & pf & -> & Hpf & (_ & Hp & _))]; [cbn; lia|].
      rewrite absorb_prev_snoc. destruct (pf =? FREE); cbn; lia.
    + intros Hc. apply coalesced_carve.
      apply (coalesced_absorb_prev bs). exact Hc.
  - exists NULL, h. split; [exact Hrun|]. left. split; reflexivity.
Qed.

(** What [malloc] does to a well-formed heap, for the proofs about its
    callers. *)
Lemma malloc_block (h : heap) (bs : list (Z * Z)) (mid : list Z)
    (fuel : nat) (size : Z) :
  heap_inv h bs mid -> 0 < size <= 2 ^ 64 - 24 ->
  (length mid + 1 < fuel)%nat ->
  exists r h',
    malloc fuel size h = Some (r, h') /\
    ((r = NULL /\ h' = h) \/
     (r <> NULL /\ exists bs' mid' s,
        heap_inv h' bs' mid' /\ bt_heap_start h' = bt_heap_start h /\
        inserted (bt_fromptr r, s) (useds (bt_heap_start h + 32) bs)
                 (useds (bt_heap_start h + 32) bs') /\
        size + 8 <= s /\
        payloads_kept h h' (useds (bt_heap_start h + 32) bs) /\
        (coalesced bs -> coalesced bs'))).
Proof.
  intros Hinv Hsize Hfuel.
  destruct (malloc_asize_bounds size Hsize) as (Hamin & Ham & Hage & Har).
  destruct (malloc_block_gen h bs mid fuel size Hinv ltac:(lia) Hamin Ham Har Hfuel)
    as (r & h' & Hrun & [Hnull | (Hnn & bs' & mid' & s & H1 & H2 & H3 & H4 & H5 & H6)]).
  - exists r, h'. split; [exact Hrun | left; exact Hnull].
  - exists r, h'. split; [exact Hrun | right]. split; [exact Hnn|].
    exists bs', mid', s. split; [exact H1|]. split; [exact H2|].
    split; [exact H3|]. split; [lia|]. split; [exact H5 | exact H6].
Qed.

(** [malloc] on a well-formed heap returns, whatever the request up to
    [2^64 - 24] and given fuel for the search of the free list. Either it
    returns [NULL] and the state is unchanged, or the heap is well formed
    again, its in-use blocks are the old ones and one new block, whose
    payload is the result and holds the request, and no payload word of
    an old block has changed. *)
Theorem malloc_spec (h : heap) (bs : list (Z * Z)) (mid : list Z)
    (fuel : nat) (size : Z) :
  heap_inv h bs mid -> 0 < size <= 2 ^ 64 - 24 ->
  (length mid + 1 < fuel)%nat ->
  exists r h',
    malloc fuel size h = Some (r, h') /\
    ((r = NULL /\ h' = h) \/
     (r <> NULL /\ exists bs' mid' s,
        heap_inv h' bs' mid' /\
        inserted (bt_fromptr r, s) (useds (bt_heap_start h + 32) bs)
                 (useds (bt_heap_start h' + 32) bs') /\
        size + 8 <= s /\
        payloads_kept h h' (useds (bt_heap_start h + 32) bs))).
Proof.
  intros Hinv Hsize Hfuel.
  destruct (malloc_block h bs mid fuel size Hinv Hsize Hfuel)
    as (r & h' & Hrun & [Hnull | (Hnn & bs' & mid' & s & Hinv' & Ehs & Hins & Hs & Hpay & _)]).
  - exists r, h'. split; [exact Hrun | left; exact Hnull].
  - exists r, h'. split; [exact Hrun|]. right. split; [exact Hnn|].
    exists bs', mid', s. rewrite Ehs. tauto.
Qed.

(** [malloc] keeps a heap free of adjacent free blocks. *)
Theorem malloc_keeps_coalesced (h : heap) (bs : list (Z * Z)) (mid : list Z)
    (fuel : nat) (size : Z) :
  heap_inv h bs mid -> coalesced bs -> 0 < size <= 2 ^ 64 - 24 ->
  (length mid + 1 < fuel)%nat ->
  exists r h' bs' mid',
    malloc fuel size h = Some (r, h') /\ heap_inv h' bs' mid' /\ coalesced bs'.
Proof.
  intros Hinv Hco Hsize Hfuel.
  destruct (malloc_block h bs mid fuel size Hinv Hsize Hfuel)
    as (r & h' & Hrun & [(_ & ->) | (_ & bs' & mid' & s & Hinv' & _ & _ & _ & _ & Hco')]).
  - exists r, h, bs, mid. tauto.
  - exists r, h', bs', mid'. tauto.
Qed.

(** [malloc] fails exactly when no free block is large enough and the
    arena cannot grow by the needed block size. *)
Theorem malloc_null_iff (h : heap) (bs : list (Z * Z)) (mid : list Z)
    (fuel : nat) (size : Z) :
  heap_inv h bs mid -> 0 < size <= 2 ^ 64 - 24 ->
  (length mid + 1 < fuel)%nat ->
  (exists h', malloc fuel size h = Some (NULL, h')) <->
  ((forall c, (c, FREE) ∈ bs -> c < malloc_asize size) /\
   mem_max h < mem_brk h + malloc_asize size).
Proof.
  intros Hinv Hsize Hfuel.
  pose proof (heap_inv_tiled _ _ _ Hinv) as Htb.
  pose proof (heap_inv_base _ _ _ Hinv) as Hhs.
  destruct (malloc_inv h bs mid fuel size Hinv Hsize Hfuel)
    as [(b1 & c & b2 & m1 & m2 & h' & Ebs & Hge & _ & _ & _ & Hrun & _)
       | [(Hnone & Hroom & h' & Hrun & _ & _ & _ & _ & Ehs & Hinv' & _)
         | (Hnone & Hfull & Hrun)]].
  - rewrite Ebs in Htb. apply tiled_app in Htb as (Ht1 & _).
    pose proof (tiled_span _ _ _ Ht1). split.
    + intros (h2 & E). rewrite Hrun in E. injection E as E _. unfold NULL in E. lia.
    + intros (Hnone & _). exfalso.
      specialize (Hnone c ltac:(rewrite Ebs; apply elem_of_app; right; left)). lia.
  - pose proof (span_absorb_prev _ _ _ Htb) as Esp.
    pose proof (heap_inv_tiled _ _ _ Hinv') as Htb'.
    unfold carve in Htb'. apply tiled_app in Htb' as (Ht1 & _).
    pose proof (tiled_span _ _ _ Ht1). split.
    + intros (h2 & E). rewrite Hrun in E. injection E as E _. unfold NULL in E. lia.
    + intros (_ & Hfull). lia.
  - split; [intros _; split; assumption | intros _; exists h; exact Hrun].
Qed.

(** The payloads [malloc] returns keep the alignment of [heap_start]:
    they are 16-byte aligned when the arena is. *)
Theorem malloc_aligned (h : heap) (bs : list (Z * Z)) (mid : list Z)
    (fuel : nat) (size : Z) (r : Z) (h' : heap) :
  heap_inv h bs mid -> 0 < size <= 2 ^ 64 - 24 ->
  (length mid + 1 < fuel)%nat ->
  malloc fuel size h = Some (r, h') -> r <> NULL ->
  (r - heap_start h) mod 16 = 0.
Proof.
  intros Hinv Hsize Hfuel Hr Hnn.
  pose proof (heap_inv_tiled _ _ _ Hinv) as Htb.
  pose proof Hinv as ((_ & _ & _ & _ & Hst & _) & _).
  pose proof (tiled_span_mod _ _ _ Htb) as Hm.
  destruct (malloc_inv h bs mid fuel size Hinv Hsize Hfuel)
    as [(b1 & c & b2 & m1 & m2 & h2 & Ebs & _ & _ & _ & _ & Hrun & _)
       | [(_ & _ & h2 & Hrun & _ & _ & _ & _ & _ & Hinv' & _)
         | (_ & _ & Hrun)]];
    rewrite Hrun in Hr; injection Hr as <- <-.
  - rewrite Ebs in Htb. apply tiled_app in Htb as (Ht1 & _).
    pose proof (tiled_span_mod _ _ _ Ht1). rewrite Hst. zlia.
  - pose proof (span_absorb_prev _ _ _ Htb) as Esp.
    pose proof (heap_inv_tiled _ _ _ Hinv') as Htb'.
    unfold carve in Htb'. apply tiled_app in Htb' as (Ht1 & _).
    pose proof (tiled_span_mod _ _ _ Ht1). rewrite Hst. zlia.
  - congruence.
Qed.

(** [malloc] grows the arena only when no free block is large enough,
    and then by the needed block size; otherwise it takes a smallest
    free block that is large enough and the arena keeps its size. *)
Theorem malloc_arena (h : heap) (bs : list (Z * Z)) (mid : list Z)
    (fuel : nat) (size : Z) (r : Z) (h' : heap) :
  heap_inv h bs mid -> 0 < size <= 2 ^ 64 - 24 ->
  (length mid + 1 < fuel)%nat ->
  malloc fuel size h = Some (r, h') -> r <> NULL ->
  ((exists c, (c, FREE) ∈ bs /\ malloc_asize size <= c) ->
   mem_brk h' = mem_brk h /\
   exists b1 c b2,
     bs = b1 ++ (c, FREE) :: b2 /\ r = bt_heap_start h + 32 + span b1 + 4 /\
     malloc_asize size <= c /\
     forall c', (c', FREE) ∈ bs -> malloc_asize size <= c' -> c <= c') /\
  ((forall c, (c, FREE) ∈ bs -> c < malloc_asize size) ->
   mem_brk h' = mem_brk h + malloc_asize size).
Proof.
  intros Hinv Hsize Hfuel Hr Hnn.
  destruct (malloc_inv h bs mid fuel size Hinv Hsize Hfuel)
    as [(b1 & c & b2 & m1 & m2 & h2 & Ebs & Hge & Hbest & _ & _ & Hrun & Hsame & _)
       | [(Hnone & _ & h2 & Hrun & _ & Ebrk & _)
         | (_ & _ & Hrun)]];
    rewrite Hrun in Hr; injection Hr as <- <-.
  - split.
    + intros _. split; [apply Hsame|].
      exists b1, c, b2. split; [exact Ebs|]. split; [reflexivity|].
      split; [exact Hge | exact Hbest].
    + intros Hnone. exfalso.
      specialize (Hnone c ltac:(rewrite Ebs; apply elem_of_app; right; left)). lia.
  - split.
    + intros (c & Hc & Hge). specialize (Hnone c Hc). lia.
    + intros _. exact Ebrk.
  - congruence.
Qed.

(** The memory [malloc] hands out lies outside every block that was in
    use before the call. *)
Theorem malloc_fresh (h : heap) (bs : list (Z * Z)) (mid : list Z)
    (fuel : nat) (size : Z) (r : Z) (h' : heap) :
  heap_inv h bs mid -> 0 < size <= 2 ^ 64 - 24 ->
  (length mid + 1 < fuel)%nat ->
  malloc fuel size h = Some (r, h') -> r <> NULL ->
  forall a s, (a, s) ∈ useds (bt_heap_start h + 32) bs ->
              r + size <= a \/ a + s <= bt_fromptr r.
Proof.
  intros Hinv Hsize Hfuel Hr Hnn a s Ha.
  destruct (malloc_asize_bounds size Hsize) as (Hamin & Ham & Hage & Har).
  pose proof (heap_inv_tiled _ _ _ Hinv) as Htb.
  unfold bt_fromptr.
  destruct (malloc_inv h bs mid fuel size Hinv Hsize Hfuel)
    as [(b1 & c & b2 & m1 & m2 & h2 & Ebs & Hge & _ & _ & _ & Hrun & _)
       | [(_ & _ & h2 & Hrun & _)
         | (_ & _ & Hrun)]];
    rewrite Hrun in Hr; injection Hr as <- <-.
  - rewrite Ebs in Htb, Ha. apply tiled_app in Htb as (Ht1 & _ & _ & Ht2).
    rewrite useds_app in Ha. cbn in Ha. apply elem_of_app in Ha as [Ha | Ha].
    + pose proof (useds_bounds _ _ _ _ _ Ht1 Ha). lia.
    + pose proof (useds_bounds _ _ _ _ _ Ht2 Ha). lia.
  - pose proof (useds_before_absorbed _ _ _ _ _ Htb Ha). lia.
  - congruence.
Qed.

(** ** free on a well-formed heap *)

Lemma free_block (h : heap) (bs : list (Z * Z)) (mid : list Z) (a s : Z) :
  heap_inv h bs mid -> (a, s) ∈ useds (bt_heap_start h + 32) bs ->
  exists h' bs' mid',
    free (bt_payload a) h = Some (tt, h') /\ same_arena h h' /\
    heap_inv h' bs' mid' /\
    inserted (a, s) (useds (bt_heap_start h + 32) bs')
             (useds (bt_heap_start h + 32) bs) /\
    payloads_kept h h' (useds (bt_heap_start h + 32) bs') /\
    (coalesced bs -> coalesced bs') /\
    exists b1' sm b2' rest,
      bs' = b1' ++ (sm, FREE) :: b2' /\
      mid' = (bt_heap_start h + 32 + span b1') :: rest /\
      bt_heap_start h + 32 + span b1' <= a /\
      a + s <= bt_heap_start h + 32 + span b1' + sm.
Proof.
  intros Hinv Ha.
  pose proof (heap_inv_tiled _ _ _ Hinv) as Htb.
  destruct (useds_split _ _ _ _ _ Htb Ha) as (b1 & b2 & Ebs & ->).
  rewrite Ebs in Hinv, Htb.
  destruct (free_inv h b1 s b2 mid Hinv) as (h' & Hrun & Hsame & Hinv' & Hpay).
  pose proof Htb as Htb'. apply tiled_app in Htb' as (Ht1 & _ & _ & Ht2).
  pose proof (useds_release h _ b1 s b2 Ht1) as Eu.
  exists h', (release b1 s b2),
    (released_list (bt_heap_start h + 32 + span b1) s (absorb_prev b1).2 mid).
  split; [exact Hrun|]. split; [exact Hsame|].
  split; [exact Hinv'|]. split; [|split; [|split]].
  - exists (useds (bt_heap_start h + 32) b1),
           (useds (bt_heap_start h + 32 + span b1 + s) b2).
    split; [exact Eu|]. rewrite Ebs, useds_app. reflexivity.
  - rewrite Eu. exact Hpay.
  - rewrite Ebs. apply coalesced_release.
  - unfold release, released_list.
    eexists _, _, _, _. split; [reflexivity|].
    rewrite (span_absorb_prev h _ b1 Ht1).
    assert (0 <= (absorb_prev b1).2 /\ 0 <= (absorb_next b2).1) as (Hp & Hn).
    { split.
      - destruct (prev_cases h _ b1 Ht1)
          as [-> | (b1' & p & pf & -> & Hpf & (_ & Hp & _))]; [cbn; lia|].
        rewrite absorb_prev_snoc. destruct (pf =? FREE); cbn; lia.
      - destruct b2 as [|[ns nf] t]; [cbn; lia|].
        destruct Ht2 as ((_ & Hns & _) & _). unfold absorb_next.
        destruct (nf =? FREE); cbn; lia. }
    split; [f_equal; lia|]. lia.
Qed.

(** [free] on the payload of an in-use block of a well-formed heap: the
    heap is well formed again with the same arena, the in-use blocks are
    the others, their payloads are untouched, and the free block that
    now covers the released one is the first node of the free list. *)
Theorem free_spec (h : heap) (bs : list (Z * Z)) (mid : list Z) (a s : Z) :
  heap_inv h bs mid -> (a, s) ∈ useds (bt_heap_start h + 32) bs ->
  exists h' bs' mid',
    free (bt_payload a) h = Some (tt, h') /\ same_arena h h' /\
    heap_inv h' bs' mid' /\
    inserted (a, s) (useds (bt_heap_start h + 32) bs')
             (useds (bt_heap_start h + 32) bs) /\
    payloads_kept h h' (useds (bt_heap_start h + 32) bs') /\
    exists b1' sm b2' rest,
      bs' = b1' ++ (sm, FREE) :: b2' /\
      mid' = (bt_heap_start h + 32 + span b1') :: rest /\
      bt_heap_start h + 32 + span b1' <= a /\
      a + s <= bt_heap_start h + 32 + span b1' + sm.
Proof.
  intros Hinv Ha.
  destruct (free_block h bs mid a s Hinv Ha)
    as (h' & bs' & mid' & H1 & H2 & H3 & H4 & H5 & _ & H6).
  exists h', bs', mid'. tauto.
Qed.

(** [free] keeps a heap free of adjacent free blocks: the released block
    is merged with each free neighbour. The blocks afterwards are those
    of [release]: a free predecessor and a free successor are absorbed
    into the released block, the other blocks are as before. *)
Theorem free_keeps_coalesced (h : heap) (b1 : list (Z * Z)) (s : Z)
    (b2 : list (Z * Z)) (mid : list Z) :
  heap_inv h (b1 ++ (s, USED) :: b2) mid ->
  coalesced (b1 ++ (s, USED) :: b2) ->
  exists h',
    free (bt_payload (bt_heap_start h + 32 + span b1)) h = Some (tt, h') /\
    heap_inv h' (release b1 s b2)
      (released_list (bt_heap_start h + 32 + span b1) s (absorb_prev b1).2 mid) /\
    (forall ps, last b1 = Some (ps, FREE) ->
                absorb_prev b1 = (removelast b1, ps)) /\
    (forall ns t, b2 = (ns, FREE) :: t -> absorb_next b2 = (ns, t)) /\
    coalesced (release b1 s b2).
Proof.
  intros Hinv Hco.
  destruct (free_inv h b1 s b2 mid Hinv) as (h' & Hrun & _ & Hinv' & _).
  exists h'. split; [exact Hrun|]. split; [exact Hinv'|].
  split; [|split].
  - intros ps E. unfold absorb_prev. rewrite E. reflexivity.
  - intros ns t ->. reflexivity.
  - exact (coalesced_release b1 s USED b2 Hco).
Qed.

(** ** Releasing a block and asking for it again *)

Lemma tiled_split_unique h a b1 x b2 b1' x' b2' :
  tiled h a (b1 ++ x :: b2) -> b1 ++ x :: b2 = b1' ++ x' :: b2' ->
  span b1 = span b1' -> b1 = b1' /\ x = x' /\ b2 = b2'.
Proof.
  revert a b1'. induction b1 as [|[c f] b1 IH]; intros a b1' Ht E Hs.
  - destruct b1' as [|[c' f'] b1'].
    + cbn in E. injection E as -> ->. tauto.
    + exfalso. cbn in E. injection E as -> E. rewrite E in Ht.
      destruct x' as [cx fx]. cbn in Ht. destruct Ht as ((_ & Hc & _) & _ & Ht).
      apply tiled_app in Ht as (Ht & _). pose proof (tiled_span _ _ _ Ht).
      cbn in Hs. lia.
  - destruct b1' as [|[c' f'] b1'].
    + exfalso. cbn in Ht. destruct Ht as ((_ & Hc & _) & _ & Ht).
      apply tiled_app in Ht as (Ht & _). pose proof (tiled_span _ _ _ Ht).
      cbn in Hs. lia.
    + cbn in E. injection E as -> -> E. cbn in Ht. destruct Ht as (_ & _ & Ht).
      cbn in Hs. destruct (IH _ _ Ht E ltac:(lia)) as (-> & -> & ->). tauto.
Qed.

Lemma no_free_prev b1 :
  (forall ps, last b1 <> Some (ps, FREE)) -> absorb_prev b1 = (b1, 0).
Proof.
  intros H. unfold absorb_prev. destruct (last b1) as [[ps f]|] eqn:E; [|reflexivity].
  destruct (f =? FREE) eqn:Ef; [|reflexivity].
  apply Z.eqb_eq in Ef. subst f. exfalso. exact (H ps eq_refl).
Qed.

Lemma no_free_next b2 :
  (forall ns, head b2 <> Some (ns, FREE)) -> absorb_next b2 = (0, b2).
Proof.
  intros H. destruct b2 as [|[ns f] t]; [reflexivity|]. unfold absorb_next.
  destruct (f =? FREE) eqn:Ef; [|reflexivity].
  apply Z.eqb_eq in Ef. subst f. exfalso. exact (H ns eq_refl).
Qed.

(** A block whose neighbours are in use, released and requested again
    with a size that needs exactly its block size, is handed out again:
    the free list is last in, first out, and among the free blocks of the
    best size the search takes the first. The blocks and the free list
    are as before. *)
Theorem free_malloc_same (h : heap) (b1 : list (Z * Z)) (s : Z)
    (b2 : list (Z * Z)) (mid : list Z) (fuel : nat) (size : Z) :
  heap_inv h (b1 ++ (s, USED) :: b2) mid ->
  (forall ps, last b1 <> Some (ps, FREE)) ->
  (forall ns, head b2 <> Some (ns, FREE)) ->
  0 < size <= 2 ^ 64 - 24 -> malloc_asize size = s ->
  (length mid + 2 < fuel)%nat ->
  exists h1 h2,
    free (bt_payload (bt_heap_start h + 32 + span b1)) h = Some (tt, h1) /\
    malloc fuel size h1
    = Some (bt_payload (bt_heap_start h + 32 + span b1), h2) /\
    heap_inv h2 (b1 ++ (s, USED) :: b2) mid /\
    payloads_kept h h2
      (useds (bt_heap_start h + 32) b1 ++
       useds (bt_heap_start h + 32 + span b1 + s) b2).
Proof.
  intros Hinv Hp Hn Hsize Es Hfuel.
  pose proof (heap_inv_arena _ _ _ Hinv) as Hok.
  pose proof (heap_inv_tiled _ _ _ Hinv) as Htb.
  pose proof Hinv as (_ & Hfl & Hperm).
  set (hs := bt_heap_start h) in *. set (cur := hs + 32 + span b1) in *.
  pose proof Htb as Htb'. apply tiled_app in Htb' as (Ht1 & Hcur & _ & Ht2).
  fold cur in Hcur, Ht2.
  destruct (free_inv h b1 s b2 mid Hinv) as (h1 & Hfree & Hsame1 & Hinv1 & Hpay1).
  fold hs in Hfree, Hinv1, Hpay1. fold cur in Hfree, Hinv1, Hpay1.
  unfold release, released_list in Hinv1.
  rewrite (no_free_prev b1 Hp), (no_free_next b2 Hn) in Hinv1. cbn [fst snd] in Hinv1.
  replace (0 + s + 0) with s in Hinv1 by lia.
  replace (cur - 0) with cur in Hinv1 by lia.
  rewrite filter_keep in Hinv1.
  2:{ intros x Hx. rewrite Hperm, frees_app in Hx. cbn in Hx. fold cur in Hx.
      apply elem_of_app in Hx as [Hx | Hx].
      - pose proof (frees_bounds _ _ _ _ Ht1 Hx). pose proof Hcur as (_ & ? & _).
        unfold cur in *. lia.
      - pose proof (frees_bounds _ _ _ _ Ht2 Hx).
        pose proof Hcur as (_ & ? & _). split; [lia|].
        intros ->. destruct b2 as [|[ns nf] t]; [inversion Hx|].
        cbn in Hx. destruct Ht2 as ((_ & Hns & _) & Hnf & Ht).
        destruct (nf =? FREE) eqn:Ef.
        + apply Z.eqb_eq in Ef. subst nf. exact (Hn ns eq_refl).
        + pose proof (frees_bounds _ _ _ _ Ht Hx).
          pose proof Hcur as (_ & ? & _). lia. }
  pose proof Hsame1 as (_ & _ & _ & _ & Ehs1).
  pose proof (heap_inv_tiled _ _ _ Hinv1) as Htb1. rewrite Ehs1 in Htb1. fold hs in Htb1.
  pose proof (heap_inv_arena _ _ _ Hinv1) as Hok1.
  pose proof Hinv1 as (_ & (Hs4 & _) & _).
  destruct (tiled_block _ _ _ _ _ _ Htb1) as (Hcur1 & _). fold cur in Hcur1.
  destruct (blk_read h1 cur s FREE Hok1 Hs4 Hcur1 ltac:(left; reflexivity))
    as (Esz & _).
  exists h1.
  destruct (malloc_inv h1 _ _ fuel size Hinv1 Hsize ltac:(cbn; lia))
    as [(b1' & c & b2' & m1 & m2 & h2 & Ebs & Hge & Hbest & Emid & Hord
         & Hrun & Hsame2 & Hinv2 & Hpay2)
       | [(Hnone & _) | (Hnone & _)]].
  - rewrite Ehs1 in Emid, Hrun, Hinv2, Hpay2. fold hs in Emid, Hrun, Hinv2, Hpay2.
    rewrite Es in *.
    assert (Ec : c = s).
    { specialize (Hbest s ltac:(apply elem_of_app; right; left) ltac:(lia)). lia. }
    subst c.
    destruct m1 as [|y m1].
    + cbn [app] in Emid. injection Emid as Ecur Em2.
      destruct (tiled_split_unique _ _ _ _ _ _ _ _ Htb1 Ebs ltac:(unfold cur in Ecur; lia))
        as (-> & _ & ->).
      exists h2. split; [exact Hfree|]. split; [exact Hrun|]. split.
      * unfold carve in Hinv2. replace (16 <=? s - s) with false in Hinv2
          by (symmetry; apply Z.leb_gt; lia).
        cbn [app] in Hinv2. rewrite Em2. exact Hinv2.
      * apply (payloads_kept_trans h h1); [exact Hpay1|].
        rewrite useds_app in Hpay2. cbn in Hpay2. exact Hpay2.
    + exfalso. cbn [app] in Emid. injection Emid as Ecur _.
      specialize (Hord cur ltac:(rewrite Ecur; left) ltac:(lia)). lia.
  - exfalso. specialize (Hnone s ltac:(apply elem_of_app; right; left)). lia.
  - exfalso. specialize (Hnone s ltac:(apply elem_of_app; right; left)). lia.
Qed.

(** ** Writing into a payload *)

Lemma store_byte_inv a b h u h' :
  store_byte a b h = Some (u, h') ->
  h' = poke (a - a mod 4) (set_byte (peek h (a - a mod 4)) (a mod 4) b) h.
Proof.
  unfold store_byte. intros H. apply bind_inv in H as (w & h1 & Hl & Hs).
  apply load_inv in Hl as (-> & -> & _). apply store_inv in Hs as (-> & _).
  reflexivity.
Qed.

(** [memset] and [memcpy] change no word outside the bytes they write. *)
Lemma memset_loop_words c n :
  forall dst h h',
    memset_loop n dst c h = Some (tt, h') ->
    forall w, w + 4 <= dst \/ dst + Z.of_nat n <= w -> peek h' w = peek h w.
Proof.
  induction n as [|n IH]; intros dst h h' H w Hw.
  - cbn in H. injection H as <-. reflexivity.
  - cbn [memset_loop] in H. apply bind_inv in H as (u & h1 & Hs & Hr).
    apply store_byte_inv in Hs. rewrite (IH _ _ _ Hr w ltac:(lia)).
    subst h1. apply peek_poke_other. zlia.
Qed.

Lemma memcpy_loop_words n :
  forall dst src h h',
    memcpy_loop n dst src h = Some (tt, h') ->
    forall w, w + 4 <= dst \/ dst + Z.of_nat n <= w -> peek h' w = peek h w.
Proof.
  induction n as [|n IH]; intros dst src h h' H w Hw.
  - cbn in H. injection H as <-. reflexivity.
  - cbn [memcpy_loop] in H. apply bind_inv in H as (b & h1 & Hl & H).
    unfold load_byte in Hl. apply bind_inv in Hl as (x & h0 & Hl & Hret).
    apply load_inv in Hl as (-> & _ & _). injection Hret as _ <-.
    apply bind_inv in H as (u & h2 & Hs & Hr).
    apply store_byte_inv in Hs. rewrite (IH _ _ _ _ Hr w ltac:(lia)).
    subst h2. apply peek_poke_other. zlia.
Qed.

(** The in-use blocks of a tiling come by increasing address. *)
Lemma useds_sorted h base bs u1 a s u2 :
  tiled h base bs -> useds base bs = u1 ++ (a, s) :: u2 ->
  (forall x sz, (x, sz) ∈ u1 -> x + sz <= a) /\
  (forall x sz, (x, sz) ∈ u2 -> a + s <= x).
Proof.
  revert base u1. induction bs as [|[c f] bs IH]; intros base u1 Ht E.
  - destruct u1; discriminate.
  - cbn in E, Ht. destruct Ht as ((_ & Hc & _) & _ & Ht).
    destruct (f =? FREE).
    + exact (IH _ _ Ht E).
    + destruct u1 as [|y u1].
      * cbn in E. injection E as <- <- <-. split.
        -- intros x sz Hx. inversion Hx.
        -- intros x sz Hx. pose proof (useds_bounds _ _ _ _ _ Ht Hx). lia.
      * cbn in E. injection E as <- E. destruct (IH _ _ Ht E) as (H1 & H2).
        split; [|exact H2].
        intros x sz Hx. apply elem_of_cons in Hx as [Hx | Hx].
        -- injection Hx as -> ->.
           assert (Hin : (a, s) ∈ useds (base + c) bs)
             by (rewrite E; apply elem_of_app; right; left).
           pose proof (useds_bounds _ _ _ _ _ Ht Hin). lia.
        -- exact (H1 x sz Hx).
Qed.

(** A write that stays inside the payload of an in-use block keeps the
    heap well formed and the other payloads as they are. *)
Lemma heap_inv_payload_write h h' bs mid u1 a s u2 :
  heap_inv h bs mid ->
  useds (bt_heap_start h + 32) bs = u1 ++ (a, s) :: u2 ->
  same_globals h h' ->
  (forall w, w <= a \/ a + s - 4 <= w -> peek h' w = peek h w) ->
  heap_inv h' bs mid /\ payloads_kept h h' (u1 ++ u2).
Proof.
  intros Hinv Eu (Elo & Ebrk & Emax & Est & Elast & Ehs) Hfr.
  pose proof (heap_inv_tiled _ _ _ Hinv) as Htb.
  destruct (useds_sorted _ _ _ _ _ _ _ Htb Eu) as (Hs1 & Hs2).
  assert (Hin : (a, s) ∈ useds (bt_heap_start h + 32) bs)
    by (rewrite Eu; apply elem_of_app; right; left).
  destruct (useds_split _ _ _ _ _ Htb Hin) as (b1 & b2 & Ebs & Ea).
  pose proof (useds_bounds _ _ _ _ _ Htb Hin) as (Hab & _ & Hs16 & _).
  assert (Hsame : same_arena h h') by (repeat split; assumption).
  assert (Hkept : kept_outside h h' (a + 1) (a + s - 4) []).
  { intros w Hw _. apply Hfr. lia. }
  split.
  - destruct Hinv as (Hshape & Hfl & Hperm). split; [|split].
    + rewrite Ebs.
      apply (arena_shape_replace h h' b1 [(s, USED)] [(s, USED)] b2 []
               a (a + s)).
      * cbn [app]. rewrite <- Ebs. exact Hshape.
      * exact Hsame.
      * exact Ea.
      * cbn. lia.
      * intros w Hw _. apply Hfr. lia.
      * intros x Hx. inversion Hx.
      * reflexivity.
      * rewrite Ebs in Htb. destruct (tiled_block _ _ _ _ _ _ Htb) as (Hb & _).
        rewrite <- Ea in Hb. cbn. split; [|split; [right; reflexivity | exact I]].
        apply (block_at_frame h); [exact Hsame | | | exact Hb]; apply Hfr; lia.
      * rewrite Elast. cbn [app]. rewrite <- Ebs. apply Hshape.
    + rewrite Ehs. apply (free_list_frame h); [exact Hsame | | exact Hfl].
      intros x Hx.
      destruct (heap_inv_nodes h bs mid x (conj Hshape (conj Hfl Hperm)) Hx)
        as (Hc & [Hlow | Hfree]).
      * split; apply Hfr; left; zlia.
      * pose proof (frees_useds_disjoint _ _ _ _ _ _ Htb Hfree Hin).
        split; apply Hfr; lia.
    + rewrite Ehs. exact Hperm.
  - intros x sz w Hx Hw. apply Hfr.
    apply elem_of_app in Hx as [Hx | Hx].
    + specialize (Hs1 x sz Hx). lia.
    + specialize (Hs2 x sz Hx). lia.
Qed.

(** ** calloc on a well-formed heap *)

(** What [calloc] does to a well-formed heap: the pointer is the one
    [malloc] returns for the byte count, and the zero fill changes no word
    outside the bytes it writes. *)
Lemma calloc_full (h : heap) (bs : list (Z * Z)) (mid : list Z)
    (fuel : nat) (nmemb size : Z) :
  heap_inv h bs mid ->
  0 < to_size (nmemb * size) <= 2 ^ 64 - 24 ->
  (length mid + 1 < fuel)%nat ->
  exists r h',
    calloc fuel nmemb size h = Some (r, h') /\
    ((r = NULL /\ h' = h /\
      malloc fuel (to_size (nmemb * size)) h = Some (NULL, h)) \/
     (r <> NULL /\
      (exists h1,
         malloc fuel (to_size (nmemb * size)) h = Some (r, h1) /\
         forall w, w + 4 <= r \/ r + to_size (nmemb * size) <= w ->
                   peek h' w = peek h1 w) /\
      exists bs' mid' s,
        heap_inv h' bs' mid' /\
        inserted (bt_fromptr r, s) (useds (bt_heap_start h + 32) bs)
                 (useds (bt_heap_start h' + 32) bs') /\
        to_size (nmemb * size) + 8 <= s /\
        (forall i, 0 <= i < to_size (nmemb * size) -> byte_at h' (r + i) = 0) /\
        payloads_kept h h' (useds (bt_heap_start h + 32) bs) /\
        (coalesced bs -> coalesced bs'))).
Proof.
  intros Hinv Hbytes Hfuel. set (bytes := to_size (nmemb * size)) in *.
  destruct (malloc_block h bs mid fuel bytes Hinv Hbytes Hfuel)
    as (r & h1 & Hrun & [(-> & ->)
        | (Hnn & bs' & mid' & s & Hinv1 & Ehs & Hins & Hs & Hpay & Hco)]).
  - exists NULL, h. split; [|left; split; [reflexivity|split; [reflexivity | exact Hrun]]].
    unfold calloc. fold bytes. rewrite (bind_run _ _ _ _ _ Hrun). reflexivity.
  - destruct Hins as (u1 & u2 & Eu & Eu'). rewrite <- Ehs in Eu'.
    pose proof (heap_inv_tiled _ _ _ Hinv1) as Htb1.
    assert (Hin : (bt_fromptr r, s) ∈ useds (bt_heap_start h1 + 32) bs')
      by (rewrite Eu'; apply elem_of_app; right; left).
    destruct (useds_split _ _ _ _ _ Htb1 Hin) as (b1 & b2 & Ebs & Ea).
    pose proof Htb1 as Htb1'. rewrite Ebs in Htb1'.
    destruct (tiled_block _ _ _ _ _ _ Htb1') as ((Hm & Hs16 & Hsm & Hlo & Hhi & _) & _).
    rewrite <- Ea in Hm, Hlo, Hhi.
    pose proof Hinv1 as (_ & (Hs4 & _) & _).
    unfold bt_fromptr in *.
    destruct (memset_loop_spec 0 (Z.to_nat bytes) r h1)
      as (h2 & Hset & Hfill & _ & Hg).
    { intros i Hi. unfold valid_byte. zlia. }
    pose proof (memset_loop_words _ _ _ _ _ Hset) as Hwords.
    destruct (heap_inv_payload_write h1 h2 bs' mid' u1 (r - 4) s u2
                Hinv1 Eu' Hg) as (Hinv2 & Hpay2).
    { intros w Hw. apply Hwords. lia. }
    exists r, h2. split.
    + unfold calloc. fold bytes. rewrite (bind_run _ _ _ _ _ Hrun).
      replace (r =? NULL) with false by (symmetry; apply Z.eqb_neq; exact Hnn).
      cbn [negb]. unfold memset. rewrite (bind_run _ _ _ _ _ Hset). reflexivity.
    + right. split; [exact Hnn|]. split.
      { exists h1. split; [exact Hrun|]. intros w Hw. apply Hwords. lia. }
      exists bs', mid', s.
      split; [exact Hinv2|]. split; [|split; [exact Hs|split; [|split; [|exact Hco]]]].
      * exists u1, u2. split; [exact Eu|].
        destruct Hg as (_ & _ & _ & _ & _ & ->). exact Eu'.
      * intros i Hi. rewrite Hfill by lia. reflexivity.
      * apply (payloads_kept_trans h h1); [exact Hpay|].
        rewrite Eu. exact Hpay2.
Qed.

(** What [calloc] does to a well-formed heap, for the proofs about its
    callers. *)
Lemma calloc_block (h : heap) (bs : list (Z * Z)) (mid : list Z)
    (fuel : nat) (nmemb size : Z) :
  heap_inv h bs mid ->
  0 < to_size (nmemb * size) <= 2 ^ 64 - 24 ->
  (length mid + 1 < fuel)%nat ->
  exists r h',
    calloc fuel nmemb size h = Some (r, h') /\
    ((r = NULL /\ h' = h) \/
     (r <> NULL /\ exists bs' mid' s,
        heap_inv h' bs' mid' /\
        inserted (bt_fromptr r, s) (useds (bt_heap_start h + 32) bs)
                 (useds (bt_heap_start h' + 32) bs') /\
        to_size (nmemb * size) + 8 <= s /\
        (forall i, 0 <= i < to_size (nmemb * size) -> byte_at h' (r + i) = 0) /\
        payloads_kept h h' (useds (bt_heap_start h + 32) bs) /\
        (coalesced bs -> coalesced bs'))).
Proof.
  intros Hinv Hbytes Hfuel.
  destruct (calloc_full h bs mid fuel nmemb size Hinv Hbytes Hfuel)
    as (r & h' & Hrun & [(Hr & Hh & _) | (Hnn & _ & Hres)]).
  - exists r, h'. split; [exact Hrun | left; split; assumption].
  - exists r, h'. split; [exact Hrun | right]. split; [exact Hnn | exact Hres].
Qed.

(** [calloc] on a well-formed heap, for a byte count (the product of the
    arguments as a [size_t]) between 1 and [2^64 - 24]: either [NULL] with
    the state unchanged, or a new in-use block whose payload holds the
    byte count and is all zero; the heap is well formed and the payloads
    of the other blocks are untouched. *)
Theorem calloc_heap (h : heap) (bs : list (Z * Z)) (mid : list Z)
    (fuel : nat) (nmemb size : Z) :
  heap_inv h bs mid ->
  0 < to_size (nmemb * size) <= 2 ^ 64 - 24 ->
  (length mid + 1 < fuel)%nat ->
  exists r h',
    calloc fuel nmemb size h = Some (r, h') /\
    ((r = NULL /\ h' = h) \/
     (r <> NULL /\ exists bs' mid' s,
        heap_inv h' bs' mid' /\
        inserted (bt_fromptr r, s) (useds (bt_heap_start h + 32) bs)
                 (useds (bt_heap_start h' + 32) bs') /\
        to_size (nmemb * size) + 8 <= s /\
        (forall i, 0 <= i < to_size (nmemb * size) -> byte_at h' (r + i) = 0) /\
        payloads_kept h h' (useds (bt_heap_start h + 32) bs))).
Proof.
  intros Hinv Hbytes Hfuel.
  destruct (calloc_block h bs mid fuel nmemb size Hinv Hbytes Hfuel)
    as (r & h' & Hrun & [Hnull | (Hnn & bs' & mid' & s & H1 & H2 & H3 & H4 & H5 & _)]).
  - exists r, h'. split; [exact Hrun | left; exact Hnull].
  - exists r, h'. split; [exact Hrun | right]. split; [exact Hnn|].
    exists bs', mid', s. tauto.
Qed.

(** C9: on a well-formed heap [calloc] takes the product of its arguments
    modulo [2^64] as the byte count and hands it to [malloc]. For a byte
    count of at most [2^64 - 24]: when [malloc] returns [NULL] so does
    [calloc] and the state is the initial one; otherwise the result is
    [malloc]'s pointer, the payload of one new in-use block that holds the
    byte count, every one of these bytes is zero, the zero fill has
    changed no word outside them, the heap is well formed and the payloads
    of the other blocks are untouched. *)
Theorem calloc_spec (h : heap) (bs : list (Z * Z)) (mid : list Z)
    (fuel : nat) (nmemb size : Z) :
  heap_inv h bs mid ->
  to_size (nmemb * size) <= 2 ^ 64 - 24 ->
  (length mid + 1 < fuel)%nat ->
  exists r h',
    calloc fuel nmemb size h = Some (r, h') /\
    ((r = NULL /\ h' = h /\
      malloc fuel (to_size (nmemb * size)) h = Some (NULL, h)) \/
     (r <> NULL /\
      (exists h1,
         malloc fuel (to_size (nmemb * size)) h = Some (r, h1) /\
         forall w, w + 4 <= r \/ r + to_size (nmemb * size) <= w ->
                   peek h' w = peek h1 w) /\
      exists bs' mid' s,
        heap_inv h' bs' mid' /\
        inserted (bt_fromptr r, s) (useds (bt_heap_start h + 32) bs)
                 (useds (bt_heap_start h' + 32) bs') /\
        to_size (nmemb * size) + 8 <= s /\
        (forall i, 0 <= i < to_size (nmemb * size) -> byte_at h' (r + i) = 0) /\
        payloads_kept h h' (useds (bt_heap_start h + 32) bs))).
Proof.
  intros Hinv Hbytes Hfuel.
  pose proof (to_size_range (nmemb * size)) as Hr.
  destruct (Z.eq_dec (to_size (nmemb * size)) 0) as [Ez | Hnz].
  - exists NULL, h. unfold calloc. rewrite Ez.
    split; [reflexivity|]. left. split; [reflexivity|]. split; reflexivity.
  - destruct (calloc_full h bs mid fuel nmemb size Hinv ltac:(lia) Hfuel)
      as (r & h' & Hrun & [Hnull
          | (Hnn & Hmal & bs' & mid' & s & H1 & H2 & H3 & H4 & H5 & _)]).
    + exists r, h'. split; [exact Hrun | left; exact Hnull].
    + exists r, h'. split; [exact Hrun | right]. split; [exact Hnn|].
      split; [exact Hmal|]. exists bs', mid', s. tauto.
Qed.

(** ** realloc on a well-formed heap *)

(** The nodes of the free list lie outside an in-use block. *)
Lemma heap_inv_outside_used h b1 c b2 mid x :
  heap_inv h (b1 ++ (c, USED) :: b2) mid ->
  x ∈ bt_heap_start h :: mid ++ [bt_heap_start h + 16] ->
  x + 16 <= bt_heap_start h + 32 + span b1 \/
  bt_heap_start h + 32 + span b1 + c <= x.
Proof.
  intros Hinv Hx.
  pose proof (heap_inv_tiled _ _ _ Hinv) as Ht.
  apply tiled_app in Ht as (Ht1 & _ & _ & Ht2).
  pose proof (tiled_span _ _ _ Ht1).
  destruct (heap_inv_nodes _ _ _ _ Hinv Hx) as (Hc & [Hlt | Hin]).
  - left. zlia.
  - rewrite frees_app in Hin. cbn in Hin. apply elem_of_app in Hin as [Hin | Hin].
    + pose proof (frees_bounds _ _ _ _ Ht1 Hin). lia.
    + pose proof (frees_bounds _ _ _ _ Ht2 Hin). lia.
Qed.

(** The look at the successor, for an in-use block of a well-formed
    heap: the successor and the joint size when the successor is free. *)
Lemma realloc_probe_inv h b1 s b2 mid :
  heap_inv h (b1 ++ (s, USED) :: b2) mid ->
  realloc_probe (bt_heap_start h + 32 + span b1) s h
  = Some (match b2 with
          | (ns, f) :: _ =>
            if f =? FREE
            then (bt_heap_start h + 32 + span b1 + s, s + ns)
            else (NULL, 0)
          | [] => (NULL, 0)
          end, h).
Proof.
  intros Hinv.
  pose proof (heap_inv_arena _ _ _ Hinv) as Hok.
  pose proof (heap_inv_tiled _ _ _ Hinv) as Htb.
  pose proof Hinv as ((_ & _ & _ & _ & _ & _ & _ & Hlast) & (Hs4 & _) & _).
  set (hs := bt_heap_start h) in *. set (cur := hs + 32 + span b1) in *.
  rewrite last_block_app in Hlast. fold cur in Hlast.
  apply tiled_app in Htb as (Ht1 & Hcur & _ & Ht2). fold cur in Hcur, Ht2.
  destruct (block_at_read h cur s USED Hok Hs4 ltac:(unfold USED; lia) Hcur)
    as (Hvcur & _ & _ & _ & _ & Hrange).
  pose proof Hcur as (_ & Hmin & Hm16 & _ & _ & Hhd & _).
  unfold realloc_probe. rewrite (bind_run _ _ _ _ _ eq_refl).
  destruct b2 as [|[ns nf] t].
  - cbn [last_block] in Hlast. rewrite Hlast, Z.eqb_refl. reflexivity.
  - cbn [last_block] in Hlast. destruct Ht2 as (Hnext & Hnf & Ht).
    pose proof Hnext as (_ & Hns & _).
    pose proof (last_block_le h (cur + s) (cur + s + ns) t Ht ltac:(lia)).
    replace (cur =? bt_heap_last h) with false
      by (symmetry; apply Z.eqb_neq; lia).
    cbn [negb].
    erewrite bind_run
      by (apply (bt_next_tag h cur s USED);
          [exact Hvcur | exact Hhd | lia | exact Hm16 | unfold USED; lia]).
    destruct (block_at_read h (cur + s) ns nf Hok Hs4
                ltac:(unfold FREE, USED in Hnf; lia) Hnext)
      as (Hvn & _ & Hnsz & Hnfl & _ & Hnrange).
    rewrite (bind_run _ _ _ _ _ (bt_free_run _ _ Hvn)).
    unfold blk_free. rewrite Hnfl.
    destruct Hnf as [-> | ->]; cbn [FREE USED Z.eqb truth negb].
    + rewrite (bind_run _ _ _ _ _ (bt_size_run _ _ Hvn)).
      rewrite Hnsz, to_size_small by lia. reflexivity.
    + reflexivity.
Qed.

Lemma realloc_same_inv (h : heap) (b1 : list (Z * Z)) (s : Z)
    (b2 : list (Z * Z)) (mid : list Z) (fuel : nat) (size : Z) :
  heap_inv h (b1 ++ (s, USED) :: b2) mid ->
  0 < size -> realloc_asize size = s ->
  realloc fuel (bt_payload (bt_heap_start h + 32 + span b1)) size h
  = Some (bt_payload (bt_heap_start h + 32 + span b1), h).
Proof.
  intros Hinv Hsize Es.
  pose proof (realloc_probe_inv h b1 s b2 mid Hinv) as Hprobe.
  pose proof (heap_inv_arena _ _ _ Hinv) as Hok.
  pose proof (heap_inv_tiled _ _ _ Hinv) as Htb.
  pose proof (heap_inv_base _ _ _ Hinv) as Hhs.
  pose proof Hinv as (_ & (Hs4 & _) & _).
  set (hs := bt_heap_start h) in *. set (cur := hs + 32 + span b1) in *.
  apply tiled_app in Htb as (Ht1 & Hcur & _). fold cur in Hcur.
  pose proof (tiled_span _ _ _ Ht1).
  destruct (block_at_read h cur s USED Hok Hs4 ltac:(unfold USED; lia) Hcur)
    as (Hvcur & _ & Hsz & _ & _ & Hrange).
  unfold realloc, bt_payload.
  replace (size =? 0) with false by (symmetry; apply Z.eqb_neq; lia).
  replace (cur + 4 =? NULL) with false
    by (symmetry; apply Z.eqb_neq; unfold NULL, cur; lia).
  cbv zeta. unfold bt_fromptr. replace (cur + 4 - 4) with cur by lia.
  rewrite (bind_run _ _ _ _ _ (bt_size_run _ _ Hvcur)).
  rewrite Hsz, (to_size_small s) by lia.
  rewrite (bind_run _ _ _ _ _ Hprobe).
  rewrite Es, Z.eqb_refl. reflexivity.
Qed.

(** A request that needs exactly the block's size changes nothing:
    [realloc] returns the pointer and the state is the initial one. *)
Theorem realloc_same_size (h : heap) (b1 : list (Z * Z)) (s : Z)
    (b2 : list (Z * Z)) (mid : list Z) (fuel : nat) (size : Z) :
  heap_inv h (b1 ++ (s, USED) :: b2) mid ->
  0 < size -> realloc_asize size = s ->
  realloc fuel (bt_payload (bt_heap_start h + 32 + span b1)) size h
  = Some (bt_payload (bt_heap_start h + 32 + span b1), h).
Proof. apply realloc_same_inv. Qed.

(** The shrinking branch on a well-formed heap: the block is cut, its
    tail becomes a free block at the head of the list, and nothing is
    merged. *)
Lemma realloc_shrink_inv h b1 s b2 mid fuel size :
  heap_inv h (b1 ++ (s, USED) :: b2) mid ->
  0 < size <= 2 ^ 64 - 24 -> realloc_asize size < s ->
  exists h',
    realloc fuel (bt_payload (bt_heap_start h + 32 + span b1)) size h
    = Some (bt_payload (bt_heap_start h + 32 + span b1), h') /\
    same_arena h h' /\
    heap_inv h' (b1 ++ (realloc_asize size, USED)
                    :: (s - realloc_asize size, FREE) :: b2)
             ((bt_heap_start h + 32 + span b1 + realloc_asize size) :: mid) /\
    payloads_kept h h'
      ((bt_heap_start h + 32 + span b1, realloc_asize size)
         :: useds (bt_heap_start h + 32) b1 ++
            useds (bt_heap_start h + 32 + span b1 + s) b2).
Proof.
  intros Hinv Hsize Hlt.
  pose proof (realloc_probe_inv h b1 s b2 mid Hinv) as Hprobe.
  pose proof (heap_inv_arena _ _ _ Hinv) as Hok.
  pose proof (heap_inv_tiled _ _ _ Hinv) as Htb.
  pose proof (heap_inv_base _ _ _ Hinv) as Hhs.
  pose proof Hinv as (Hshape & Hfl & Hperm).
  pose proof Hfl as (Hs4 & _).
  pose proof Hshape as (_ & _ & _ & _ & _ & _ & _ & Hlast).
  pose proof (malloc_asize_bounds size Hsize) as (Hamin & Ham & Hage & _).
  change (malloc_asize size) with (realloc_asize size) in Hamin, Ham, Hage.
  set (asize := realloc_asize size) in *.
  set (hs := bt_heap_start h) in *. set (cur := hs + 32 + span b1) in *.
  pose proof Htb as Htb'.
  apply tiled_app in Htb' as (Ht1 & Hcur & _ & Ht2). fold cur in Hcur, Ht2.
  pose proof (tiled_span _ _ _ Ht1).
  destruct (block_at_read h cur s USED Hok Hs4 ltac:(unfold USED; lia) Hcur)
    as (Hvcur & Hvft & Hsz & _ & _ & Hrange).
  pose proof Hcur as (Hbm & Hmin & Hm16 & Hlo & Hhi & Hhd & Hft).
  pose proof Hok as (Hlo0 & _ & _ & Hsmall).
  assert (Hnodes : forall x, x ∈ hs :: mid ++ [hs + 16] ->
            (x - hs) mod 16 = 0 /\ (x + 16 <= cur \/ cur + s <= x)).
  { intros x Hx. split; [apply (heap_inv_nodes h _ mid x Hinv Hx)|].
    apply (heap_inv_outside_used h b1 s b2 mid x Hinv Hx). }
  unfold realloc, bt_payload.
  replace (size =? 0) with false by (symmetry; apply Z.eqb_neq; lia).
  replace (cur + 4 =? NULL) with false
    by (symmetry; apply Z.eqb_neq; unfold NULL, cur; lia).
  cbv zeta. unfold bt_fromptr. replace (cur + 4 - 4) with cur by lia.
  fold asize.
  rewrite (bind_run _ _ _ _ _ (bt_size_run _ _ Hvcur)).
  rewrite Hsz, (to_size_small s) by lia.
  rewrite (bind_run _ _ _ _ _ Hprobe).
  replace (asize =? s) with false by (symmetry; apply Z.eqb_neq; lia).
  replace (asize <? s) with true by (symmetry; apply Z.ltb_lt; lia).
  rewrite (bind_run _ _ _ _ _ (bt_size_run _ _ Hvcur)).
  rewrite Hsz, (to_size_small s), (to_size_small (s - asize)) by lia.
  replace (16 <=? s - asize) with true by (symmetry; apply Z.leb_le; zlia).
  assert (Hcut : 16 <= s - asize) by zlia.
  set (h1 := poke cur (Z.lor asize USED) h).
  set (h2 := poke (cur + asize - 4) (Z.lor asize USED) h1).
  set (h3 := poke (cur + asize) (Z.lor (s - asize) FREE) h2).
  set (h4 := poke (cur + s - 4) (Z.lor (s - asize) FREE) h3).
  assert (Hfl4 : free_list h4 mid (hs + 16)).
  { apply free_list_poke_tag; [right; cbn; fold hs; zlia|].
    apply free_list_poke_tag; [left; cbn; fold hs; zlia|].
    apply free_list_poke_tag; [right; cbn; fold hs; zlia|].
    apply free_list_poke_tag; [left; exact Hbm | exact Hfl]. }
  assert (Hnew : forall h0, same_arena h h0 -> node_ok h0 (cur + asize)).
  { intros h0 (E1 & E2 & _ & _ & E5). unfold node_ok. rewrite E1, E2, E5.
    fold hs. zlia. }
  assert (Hfresh : forall h0, same_arena h h0 ->
            cur + asize ∉ bt_heap_start h0 :: mid ++ [hs + 16]).
  { intros h0 (_ & _ & _ & _ & E5) Hin. rewrite E5 in Hin.
    destruct (Hnodes _ Hin) as (_ & ?). lia. }
  assert (Hvnew : valid_word h (cur + asize) = true)
    by (rewrite valid_word_iff; zlia).
  rewrite ?bind_assoc.
  erewrite bind_run by (apply bt_make_tag; [exact Hvcur | lia]).
  fold h1.
  rewrite ?bind_assoc.
  erewrite bind_run
    by (apply (bt_footer_tag h1 cur asize USED);
        [exact Hvcur | apply peek_poke_same | lia | exact Ham | unfold USED; lia]).
  rewrite ?bind_assoc.
  erewrite bind_run by (apply bt_make_tag; [rewrite valid_word_iff; cbn; zlia | lia]).
  fold h2.
  rewrite ?bind_assoc.
  erewrite bind_run
    by (apply (bt_next_tag h2 cur asize USED);
        [exact Hvcur | unfold h2, h1; peeks; reflexivity
         | lia | exact Ham | unfold USED; lia]).
  rewrite ?bind_assoc.
  erewrite bind_run by (apply bt_make_tag; [exact Hvnew | lia]).
  fold h3.
  rewrite ?bind_assoc.
  erewrite bind_run
    by (apply (bt_footer_tag h3 (cur + asize) (s - asize) FREE);
        [exact Hvnew | apply peek_poke_same | lia | zlia | unfold FREE; lia]).
  replace (cur + asize + (s - asize) - 4) with (cur + s - 4) by lia.
  rewrite ?bind_assoc.
  erewrite bind_run by (apply bt_make_tag; [exact Hvft | lia]).
  fold h4.
  rewrite ?bind_assoc.
  rewrite (bind_run _ _ _ _ _ eq_refl).
  change (bt_heap_last h4) with (bt_heap_last h).
  set (h5 := if cur =? bt_heap_last h
             then set_bt_heap_last (cur + asize) h4 else h4).
  assert (Hsame5 : same_arena h h5).
  { unfold h5. destruct (cur =? bt_heap_last h); repeat split. }
  assert (Hfl5 : free_list h5 mid (hs + 16)).
  { unfold h5. destruct (cur =? bt_heap_last h);
      [apply free_list_set_last|]; exact Hfl4. }
  assert (Hpeek5 : forall a, peek h5 a = peek h4 a).
  { intros a. unfold h5. destruct (cur =? bt_heap_last h); reflexivity. }
  assert (Hhs5 : bt_heap_start h5 = hs).
  { unfold h5. destruct (cur =? bt_heap_last h); reflexivity. }
  assert (Hok5 : arena_ok h5).
  { unfold h5. destruct (cur =? bt_heap_last h); exact Hok. }
  assert (Hfl5' : free_list h5 mid (bt_heap_start h5 + 16))
    by (rewrite Hhs5; exact Hfl5).
  destruct (free_list_add h5 mid (hs + 16) (cur + asize) Hok5 Hfl5
              (Hnew _ Hsame5) (Hfresh _ Hsame5))
    as (n & _ & Hn & Hnin & Hadd & Hfl6).
  rewrite Hhs5 in *.
  assert (Hstep : (if cur =? bt_heap_last h
                   then modify (set_bt_heap_last (cur + asize))
                   else ret tt) h4 = Some (tt, h5)).
  { unfold h5. destruct (cur =? bt_heap_last h); reflexivity. }
  rewrite ?bind_assoc.
  rewrite (bind_run _ _ _ _ _ Hstep).
  rewrite (bind_run _ _ _ _ _ Hadd).
  set (h6 := add_state (cur + asize) n h5) in *.
  exists h6. split; [reflexivity|].
  assert (Hsame6 : same_arena h h6).
  { destruct Hsame5 as (E1 & E2 & E3 & E4 & E5). repeat split; assumption. }
  split; [exact Hsame6|].
  assert (Hnl : n ∈ hs :: mid ++ [hs + 16]) by (right; exact Hnin).
  destruct (Hnodes _ Hnl) as (Hnm & Hnout).
  assert (Hhsout : hs + 16 <= cur) by (unfold cur; lia).
  assert (Hkept : kept_outside h h6 cur (cur + s) (hs :: mid ++ [hs + 16])).
  { intros a Ha Hlinks.
    pose proof (Hlinks _ Hnl) as (_ & Han).
    pose proof (Hlinks hs ltac:(left)) as (Hah & _).
    unfold h6, add_state. rewrite Hhs5. peeks. rewrite Hpeek5.
    unfold h4, h3, h2, h1. peeks. reflexivity. }
  assert (Hb1 : block_at h6 cur asize USED).
  { apply block_at_add_state; [rewrite Hhs5; zlia | rewrite Hhs5; exact Hnm|].
    destruct Hsame5 as (E1 & E2 & _ & _ & E5).
    apply block_at_intro; rewrite ?E1, ?E2, ?E5, ?Hpeek5; fold hs; try zlia;
      unfold h4, h3, h2, h1; peeks; reflexivity. }
  assert (Hb2 : block_at h6 (cur + asize) (s - asize) FREE).
  { apply block_at_add_state; [rewrite Hhs5; zlia | rewrite Hhs5; exact Hnm|].
    destruct Hsame5 as (E1 & E2 & _ & _ & E5).
    apply block_at_intro; rewrite ?E1, ?E2, ?E5, ?Hpeek5; fold hs; try zlia;
      [|replace (cur + asize + (s - asize) - 4) with (cur + s - 4) by lia];
      unfold h4, h3, h2, h1; peeks; reflexivity. }
  split; [split; [|split]|].
  - change ((asize, USED) :: (s - asize, FREE) :: b2)
      with ([(asize, USED); (s - asize, FREE)] ++ b2).
    apply (arena_shape_replace h h6 b1 [(s, USED)] _ b2
             (hs :: mid ++ [hs + 16]) cur (cur + s)).
    + exact Hshape.
    + exact Hsame6.
    + reflexivity.
    + cbn. lia.
    + exact Hkept.
    + intros x Hx. apply (Hnodes x Hx).
    + cbn. lia.
    + cbn [tiled]. split; [exact Hb1|]. split; [right; reflexivity|].
      split; [exact Hb2|]. split; [left; reflexivity | exact I].
    + change (bt_heap_last h6) with (bt_heap_last h5).
      rewrite last_block_app in Hlast. fold cur in Hlast. cbn [last_block] in Hlast.
      cbn [app]. rewrite last_block_app. fold hs cur. cbn [last_block].
      replace (cur + asize + (s - asize)) with (cur + s) by lia.
      unfold h5. destruct (cur =? bt_heap_last h) eqn:E.
      * apply Z.eqb_eq in E. rewrite Hlast in E. symmetry in E.
        apply (last_block_tail h) in E; [|exact Ht2 | lia].
        subst b2. reflexivity.
      * apply Z.eqb_neq in E. change (bt_heap_last h4) with (bt_heap_last h).
        rewrite Hlast.
        destruct b2 as [|[s2 f2] b2]; [cbn in Hlast; lia | reflexivity].
  - destruct Hsame6 as (_ & _ & _ & _ & E5). rewrite E5. fold hs. exact Hfl6.
  - destruct Hsame6 as (_ & _ & _ & _ & E5). rewrite E5. fold hs cur.
    rewrite frees_app in Hperm |- *. cbn in Hperm |- *. fold hs cur in Hperm |- *.
    replace (cur + asize + (s - asize)) with (cur + s) by lia.
    rewrite <- Permutation_middle. constructor. exact Hperm.
  - intros a sz w Hin Hw. apply elem_of_cons in Hin as [Heq | Hin].
    + injection Heq as -> ->.
      pose proof (Hnodes hs ltac:(left)) as _.
      unfold h6, add_state. rewrite Hhs5. peeks. rewrite Hpeek5.
      unfold h4, h3, h2, h1. peeks. reflexivity.
    + revert a sz w Hin Hw.
      apply (place_payloads h h6 b1 s USED b2 mid (hs :: mid ++ [hs + 16]) Hinv).
      * intros y Hy. exact Hy.
      * exact Hkept.
Qed.

(** The shrinking branch of [realloc] on a well-formed heap: the block
    keeps its address and the first part of its payload, its tail becomes
    a free block, the first node of the free list; the other payloads are
    untouched and the heap is well formed. *)
Theorem realloc_shrink_spec (h : heap) (b1 : list (Z * Z)) (s : Z)
    (b2 : list (Z * Z)) (mid : list Z) (fuel : nat) (size : Z) :
  heap_inv h (b1 ++ (s, USED) :: b2) mid ->
  0 < size <= 2 ^ 64 - 24 -> realloc_asize size < s ->
  exists h',
    realloc fuel (bt_payload (bt_heap_start h + 32 + span b1)) size h
    = Some (bt_payload (bt_heap_start h + 32 + span b1), h') /\
    same_arena h h' /\
    heap_inv h' (b1 ++ (realloc_asize size, USED)
                    :: (s - realloc_asize size, FREE) :: b2)
             ((bt_heap_start h + 32 + span b1 + realloc_asize size) :: mid) /\
    payloads_kept h h'
      ((bt_heap_start h + 32 + span b1, realloc_asize size)
         :: useds (bt_heap_start h + 32) b1 ++
            useds (bt_heap_start h + 32 + span b1 + s) b2).
Proof. apply realloc_shrink_inv. Qed.

Lemma not_coalesced_app l1 l2 : ~ coalesced l2 -> ~ coalesced (l1 ++ l2).
Proof.
  intros Hn. induction l1 as [|[c f] l1 IH]; [exact Hn|].
  intros Hc. apply IH. exact (coalesced_tail _ _ Hc).
Qed.

(** The shrinking branch never merges: when the block's successor is
    free, the cut-off tail and the successor are two adjacent free blocks
    of the resulting heap, which is well formed otherwise. *)
Theorem realloc_shrink_no_merge (h : heap) (b1 : list (Z * Z)) (s ns : Z)
    (b2 : list (Z * Z)) (mid : list Z) (fuel : nat) (size : Z) :
  heap_inv h (b1 ++ (s, USED) :: (ns, FREE) :: b2) mid ->
  0 < size <= 2 ^ 64 - 24 -> realloc_asize size < s ->
  exists h' bs' mid',
    realloc fuel (bt_payload (bt_heap_start h + 32 + span b1)) size h
    = Some (bt_payload (bt_heap_start h + 32 + span b1), h') /\
    heap_inv h' bs' mid' /\ ~ coalesced bs'.
Proof.
  intros Hinv Hsize Hlt.
  destruct (realloc_shrink_inv h b1 s ((ns, FREE) :: b2) mid fuel size
              Hinv Hsize Hlt) as (h' & Hrun & _ & Hinv' & _).
  eexists h', _, _. split; [exact Hrun|]. split; [exact Hinv'|].
  apply not_coalesced_app. cbn [coalesced]. intros (_ & Hc & _).
  exact (Hc eq_refl eq_refl).
Qed.

(** A request of size 0 releases the block as [free] does and returns
    [NULL]. *)
Theorem realloc_zero_frees (h : heap) (b1 : list (Z * Z)) (s : Z)
    (b2 : list (Z * Z)) (mid : list Z) (fuel : nat) :
  heap_inv h (b1 ++ (s, USED) :: b2) mid ->
  exists h',
    realloc fuel (bt_payload (bt_heap_start h + 32 + span b1)) 0 h
    = Some (NULL, h') /\
    free (bt_payload (bt_heap_start h + 32 + span b1)) h = Some (tt, h') /\
    heap_inv h' (release b1 s b2)
      (released_list (bt_heap_start h + 32 + span b1) s (absorb_prev b1).2 mid) /\
    payloads_kept h h'
      (useds (bt_heap_start h + 32) b1 ++
       useds (bt_heap_start h + 32 + span b1 + s) b2).
Proof.
  intros Hinv.
  destruct (free_inv h b1 s b2 mid Hinv) as (h' & Hrun & _ & Hinv' & Hpay).
  exists h'. unfold bt_payload.
  split; [|split; [exact Hrun|split; [exact Hinv' | exact Hpay]]].
  unfold realloc. cbn [Z.eqb]. rewrite (bind_run _ _ _ _ _ Hrun). reflexivity.
Qed.

Section GrowPayload.

Variables (h : heap) (old_ptr size old_size nsz : Z).
Variables (m1 m2 : list Z) (tl : Z).

Let cur := bt_fromptr old_ptr.
Let next := cur + old_size.
Let asize := realloc_asize size.
Let new_size := old_size + nsz.

Hypothesis Hok : arena_ok h.
Hypothesis Hfl : free_list h (m1 ++ next :: m2) tl.
Hypothesis Hsize : 0 < size < 2 ^ 64.
Hypothesis Hcur : block_at h cur old_size USED.
Hypothesis Hnext : block_at h next nsz FREE.
Hypothesis Hnl : cur <> bt_heap_last h.
Hypothesis Hgrow : old_size < asize <= new_size.
Hypothesis Hout :
  Forall (fun a => a + 16 <= cur \/ next + nsz <= a)
         (bt_heap_start h :: (m1 ++ m2) ++ [tl]).

(** Growing in place leaves the payload of the block as it was. *)
Lemma realloc_grow_payload (fuel : nat) :
  exists h',
    realloc fuel old_ptr size h = Some (old_ptr, h') /\
    forall w, cur + 4 <= w < cur + old_size - 4 -> peek h' w = peek h w.
Proof.
  pose proof Hfl as (Hs & _).
  destruct (block_at_read h cur old_size USED Hok Hs ltac:(unfold USED; lia) Hcur)
    as (Hvcur & Hvcft & Hcsz & _ & _ & Hcrange).
  destruct (block_at_read h next nsz FREE Hok Hs ltac:(unfold FREE; lia) Hnext)
    as (Hvnx & Hvnft & Hnsz & Hnfl & _ & Hnrange).
  pose proof Hcur as (Hcm & Hcmin & Hcm16 & Hclo & Hchi & Hchd & Hcft).
  pose proof Hnext as (Hnm & Hnmin & Hnm16 & Hnlo & Hnhi & Hnhd & Hnft).
  pose proof Hok as (Hlo0 & _ & _ & Hsmall).
  assert (Ham : asize mod 16 = 0) by (apply realloc_asize_aligned; lia).
  assert (Hptr : old_ptr = cur + 4) by (unfold cur, bt_fromptr; lia).
  assert (Hnn : node_ok h next) by (unfold node_ok; zlia).
  unfold realloc.
  replace (size =? 0) with false by (symmetry; apply Z.eqb_neq; lia).
  replace (old_ptr =? NULL) with false
    by (symmetry; apply Z.eqb_neq; unfold NULL; lia).
  cbv zeta. fold cur. fold asize.
  rewrite (bind_run _ _ _ _ _ (bt_size_run _ _ Hvcur)).
  rewrite Hcsz, (to_size_small old_size) by lia.
  assert (Hprobe : realloc_probe cur old_size h = Some ((next, new_size), h)).
  { unfold realloc_probe. rewrite (bind_run _ _ _ _ _ eq_refl).
    replace (cur =? bt_heap_last h) with false
      by (symmetry; apply Z.eqb_neq; exact Hnl).
    cbn [negb].
    erewrite bind_run
      by (apply (bt_next_tag h cur old_size USED);
          [exact Hvcur | exact Hchd | lia | exact Hcm16 | unfold USED; lia]).
    fold next. rewrite (bind_run _ _ _ _ _ (bt_free_run _ _ Hvnx)).
    unfold blk_free. rewrite Hnfl. cbn [FREE Z.eqb truth negb].
    rewrite (bind_run _ _ _ _ _ (bt_size_run _ _ Hvnx)).
    rewrite Hnsz, to_size_small by lia. reflexivity. }
  rewrite (bind_run _ _ _ _ _ Hprobe). cbn [fst snd].
  replace (asize =? old_size) with false by (symmetry; apply Z.eqb_neq; lia).
  replace (asize <? old_size) with false by (symmetry; apply Z.ltb_ge; lia).
  replace (negb (next =? NULL) && (asize <=? new_size)) with true.
  2:{ symmetry. apply andb_true_iff. split.
      - apply negb_true_iff, Z.eqb_neq. unfold NULL. lia.
      - apply Z.leb_le. lia. }
  rewrite (to_size_small (new_size - asize)) by lia.
  replace (bt_fromptr old_ptr + (old_size + nsz)) with (cur + new_size)
    by reflexivity.
  destruct (16 <=? new_size - asize) eqn:Esplit.
  - (* the combined span is cut *)
    apply Z.leb_le in Esplit.
    set (h1 := poke cur (Z.lor asize USED) h).
    assert (Hfl1 : free_list h1 (m1 ++ next :: m2) tl).
    { apply free_list_poke_tag; [left; exact Hcm | exact Hfl]. }
    assert (Hok1 : arena_ok h1) by exact Hok.
    assert (Hnew : node_ok h1 (cur + asize)).
    { unfold node_ok. cbn. unfold new_size, next in *. zlia. }
    assert (Hfresh : cur + asize ∉ bt_heap_start h1 :: (m1 ++ m2) ++ [tl]).
    { intros Hin. rewrite Forall_forall in Hout.
      specialize (Hout _ Hin). cbn beta in Hout. unfold new_size, next in *. lia. }
    destruct (free_list_replace h1 m1 next (cur + asize) m2 tl Hok1 Hfl1 Hnew Hfresh)
      as (p & n & Hprev & Hlnext & Hp & Hn & Hx & Hpx & Hpin & Hnin & Hfl3).
    destruct (node_valid _ _ Hs Hp) as (_ & Hvp & _).
    destruct (node_valid _ _ Hs Hn) as (_ & _ & Hvn).
    destruct (node_valid _ _ Hs Hnew) as (Hvnew & Hvnew4 & Hvnew8).
    pose proof Hp as (Hpm & _). pose proof Hn as (Hnm' & _).
    cbn in Hpm, Hnm'.
    rewrite ?bind_assoc; erewrite bind_run by (apply bt_make_tag; [exact Hvcur | unfold new_size in *; lia]).
    fold h1.
    rewrite ?bind_assoc; erewrite bind_run
      by (apply (bt_next_tag h1 cur asize USED);
          [exact Hvcur | apply peek_poke_same | unfold new_size in *; lia
           | exact Ham | unfold USED; lia]).
    rewrite ?bind_assoc, (bind_run _ _ _ _ _ Hprev).
    rewrite ?bind_assoc; erewrite bind_run by (apply lifo_connect_run; [exact Hvp | exact Hvnew8]).
    set (h2 := connect_state p (cur + asize) h1).
    rewrite ?bind_assoc; erewrite bind_run
      by (apply (lifo_next_connect h1);
          [unfold next; zlia | unfold next; zlia | congruence | exact Hlnext]).
    rewrite ?bind_assoc; erewrite bind_run by (apply lifo_connect_run; [exact Hvnew4 | exact Hvn]).
    set (h3 := connect_state (cur + asize) n h2).
    rewrite ?bind_assoc; erewrite bind_run
      by (apply (bt_footer_tag h3 cur asize USED);
          [exact Hvcur | unfold h3, h2, h1, connect_state; peeks; reflexivity
           | unfold new_size in *; lia | exact Ham | unfold USED; lia]).
    rewrite ?bind_assoc; erewrite bind_run
      by (apply bt_make_tag;
          [rewrite valid_word_iff; cbn; unfold new_size, next in *; zlia
          | unfold new_size in *; lia]).
    set (h4 := poke (cur + asize - 4) (Z.lor asize USED) h3).
    rewrite ?bind_assoc; erewrite bind_run by (apply bt_make_tag; [exact Hvnew | unfold new_size in *; lia]).
    set (h5 := poke (cur + asize) (Z.lor (new_size - asize) FREE) h4).
    rewrite ?bind_assoc; erewrite bind_run
      by (apply (bt_footer_tag h5 (cur + asize) (new_size - asize) FREE);
          [exact Hvnew | apply peek_poke_same | unfold new_size in *; lia
           | unfold new_size in *; zlia | unfold FREE; lia]).
    replace (cur + asize + (new_size - asize) - 4) with (next + nsz - 4)
      by (unfold new_size, next; lia).
    rewrite ?bind_assoc; erewrite bind_run by (apply bt_make_tag; [exact Hvnft | unfold new_size in *; lia]).
    set (h6 := poke (next + nsz - 4) (Z.lor (new_size - asize) FREE) h5).
    rewrite ?bind_assoc, (bind_run _ _ _ _ _ eq_refl).
    change (bt_heap_last h6) with (bt_heap_last h).
    assert (Hpay : forall w, cur + 4 <= w < cur + old_size - 4 ->
                             peek h6 w = peek h w).
    { intros w Hw.
      assert (Hpo : p + 16 <= cur \/ next + nsz <= p).
      { rewrite Forall_forall in Hout. apply Hout.
        apply elem_of_cons in Hpin as [-> | Hpin]; [left|right].
        rewrite <- app_assoc. apply elem_of_app. left. exact Hpin. }
      assert (Hno : n + 16 <= cur \/ next + nsz <= n).
      { rewrite Forall_forall in Hout. apply Hout.
        right. rewrite <- app_assoc. apply elem_of_app. right. exact Hnin. }
      unfold h6, h5, h4, h3, h2, h1, connect_state, new_size, next in *.
      peeks. reflexivity. }
    destruct (next =? bt_heap_last h) eqn:Elast.
    + eexists. split; [reflexivity | exact Hpay].
    + exists h6. split; [reflexivity | exact Hpay].
  - (* the whole successor is absorbed *)
    apply Z.leb_gt in Esplit.
    destruct (free_list_unlink h m1 next m2 tl Hok Hfl)
      as (p & n & Hprev & Hlnext & Hp & Hn & Hpin & Hnin & Hfl1).
    destruct (node_valid _ _ Hs Hp) as (_ & Hvp & _).
    destruct (node_valid _ _ Hs Hn) as (_ & _ & Hvn).
    pose proof Hp as (Hpm & _). pose proof Hn as (Hnm' & _).
    rewrite ?bind_assoc, (bind_run _ _ _ _ _ Hprev).
    rewrite ?bind_assoc, (bind_run _ _ _ _ _ Hlnext).
    rewrite ?bind_assoc; erewrite bind_run by (apply lifo_connect_run; [exact Hvp | exact Hvn]).
    set (h1 := connect_state p n h).
    rewrite ?bind_assoc; erewrite bind_run by (apply bt_make_tag; [exact Hvcur | unfold new_size in *; lia]).
    set (h2 := poke cur (Z.lor new_size USED) h1).
    rewrite ?bind_assoc; erewrite bind_run
      by (apply (bt_footer_tag h2 cur new_size USED);
          [exact Hvcur | apply peek_poke_same | unfold new_size in *; lia
           | unfold new_size in *; zlia | unfold USED; lia]).
    replace (cur + new_size - 4) with (next + nsz - 4) by (unfold new_size, next; lia).
    rewrite ?bind_assoc; erewrite bind_run by (apply bt_make_tag; [exact Hvnft | unfold new_size in *; lia]).
    set (h3 := poke (next + nsz - 4) (Z.lor new_size USED) h2).
    rewrite ?bind_assoc, (bind_run _ _ _ _ _ eq_refl).
    change (bt_heap_last h3) with (bt_heap_last h).
    assert (Hpay : forall w, cur + 4 <= w < cur + old_size - 4 ->
                             peek h3 w = peek h w).
    { intros w Hw.
      assert (Hpo : p + 16 <= cur \/ next + nsz <= p).
      { rewrite Forall_forall in Hout. apply Hout.
        apply elem_of_cons in Hpin as [-> | Hpin]; [left|right].
        rewrite <- app_assoc. apply elem_of_app. left. exact Hpin. }
      assert (Hno : n + 16 <= cur \/ next + nsz <= n).
      { rewrite Forall_forall in Hout. apply Hout.
        right. rewrite <- app_assoc. apply elem_of_app. right. exact Hnin. }
      unfold h3, h2, h1, connect_state, new_size, next in *.
      peeks. reflexivity. }
    destruct (next =? bt_heap_last h) eqn:Elast.
    + eexists. split; [reflexivity | exact Hpay].
    + exists h3. split; [reflexivity | exact Hpay].
Qed.

End GrowPayload.

(** Growing in place on a well-formed heap: the successor is absorbed,
    whole or in part, as [place] would cut it. *)
Lemma realloc_grow_inv h b1 s ns b2 m1 m2 fuel size :
  heap_inv h (b1 ++ (s, USED) :: (ns, FREE) :: b2)
           (m1 ++ (bt_heap_start h + 32 + span b1 + s) :: m2) ->
  0 < size <= 2 ^ 64 - 24 -> s < realloc_asize size <= s + ns ->
  exists h',
    realloc fuel (bt_payload (bt_heap_start h + 32 + span b1)) size h
    = Some (bt_payload (bt_heap_start h + 32 + span b1), h') /\
    same_arena h h' /\
    heap_inv h' (carve b1 (s + ns) (realloc_asize size) b2)
      (if 16 <=? s + ns - realloc_asize size
       then m1 ++ (bt_heap_start h + 32 + span b1 + realloc_asize size) :: m2
       else m1 ++ m2) /\
    payloads_kept h h'
      ((bt_heap_start h + 32 + span b1, s)
         :: useds (bt_heap_start h + 32) b1 ++
            useds (bt_heap_start h + 32 + span b1 + s + ns) b2).
Proof.
  remember (m1 ++ (bt_heap_start h + 32 + span b1 + s) :: m2) as mid eqn:Emid.
  intros Hinv Hsize Hgrow.
  pose proof (heap_inv_arena _ _ _ Hinv) as Hok.
  pose proof (heap_inv_tiled _ _ _ Hinv) as Htb.
  pose proof Hinv as (Hshape & Hfl & Hperm).
  pose proof Hshape as (_ & _ & _ & _ & _ & _ & _ & Hlast).
  pose proof (malloc_asize_bounds size Hsize) as (Hamin & Ham & Hage & _).
  change (malloc_asize size) with (realloc_asize size) in Hamin, Ham, Hage.
  set (asize := realloc_asize size) in *.
  set (hs := bt_heap_start h) in *. set (cur := hs + 32 + span b1) in *.
  pose proof Htb as Htb'.
  apply tiled_app in Htb' as (Ht1 & Hcur & _ & Hnext & _ & Ht2).
  fold cur in Hcur, Hnext, Ht2.
  pose proof (tiled_span _ _ _ Ht1).
  pose proof Hcur as (Hbm & Hmin & Hm16 & Hlo & Hhi & Hhd & Hft).
  pose proof Hnext as (_ & Hnmin & Hnm16 & _ & Hnhi & _).
  assert (Hinv2 : heap_inv h ((b1 ++ [(s, USED)]) ++ (ns, FREE) :: b2) mid)
    by (rewrite <- app_assoc; exact Hinv).
  assert (Hsp2 : hs + 32 + span (b1 ++ [(s, USED)]) = cur + s)
    by (rewrite span_app; cbn; unfold cur; lia).
  assert (Hnd : cur + s ∉ hs :: (m1 ++ m2) ++ [hs + 16]).
  { destruct Hfl as (_ & (Hnd & _) & _). fold hs in Hnd. rewrite Emid in Hnd.
    rewrite <- app_assoc in Hnd. cbn [app] in Hnd.
    change (hs :: m1 ++ (cur + s) :: m2 ++ [hs + 16])
      with ((hs :: m1) ++ (cur + s) :: m2 ++ [hs + 16]) in Hnd.
    apply NoDup_drop_mid in Hnd as (_ & A & B).
    rewrite <- app_assoc. intros Hin.
    change (hs :: m1 ++ m2 ++ [hs + 16]) with ((hs :: m1) ++ m2 ++ [hs + 16]) in Hin.
    apply elem_of_app in Hin as [Hin | Hin]; tauto. }
  assert (Hnodes : forall x, x ∈ hs :: (m1 ++ m2) ++ [hs + 16] ->
            (x - hs) mod 16 = 0 /\ (x + 16 <= cur \/ cur + s + ns <= x)).
  { intros x Hx.
    assert (Hx' : x ∈ hs :: mid ++ [hs + 16])
      by (rewrite Emid; apply in_full_drop; exact Hx).
    split; [apply (heap_inv_nodes h _ mid x Hinv Hx')|].
    pose proof (heap_inv_outside_used h b1 s _ mid x Hinv Hx').
    pose proof (heap_inv_outside h _ ns FREE b2 mid x Hinv2 Hx') as Ho.
    fold hs in Ho. rewrite Hsp2 in Ho. fold hs cur in H0.
    assert (x <> cur + s) by (intros ->; exact (Hnd Hx)).
    lia. }
  assert (Hnl : cur <> bt_heap_last h).
  { rewrite Hlast, last_block_app. fold hs cur. cbn [last_block].
    pose proof (last_block_le h (cur + s) (cur + s + ns) b2 Ht2 ltac:(lia)). lia. }
  assert (Hptr : bt_fromptr (bt_payload cur) = cur)
    by (unfold bt_fromptr, bt_payload; lia).
  rewrite Emid in Hfl.
  destruct (realloc_grow_run h (bt_payload cur) size s ns m1 m2 (hs + 16))
    with (fuel := fuel) as (h' & Hrun & Hsame & Hkept & Hres);
    rewrite ?Hptr; try assumption; try lia.
  { apply Forall_forall. intros x Hx. destruct (Hnodes x Hx) as (_ & ?). lia. }
  destruct (realloc_grow_payload h (bt_payload cur) size s ns m1 m2 (hs + 16))
    with (fuel := fuel) as (h2 & Hrun2 & Hpay);
    rewrite ?Hptr; try assumption; try lia.
  { apply Forall_forall. intros x Hx. destruct (Hnodes x Hx) as (_ & ?). lia. }
  rewrite Hrun in Hrun2. injection Hrun2 as <-.
  rewrite Hptr in Hkept, Hres, Hpay. fold asize in Hres.
  exists h'. split; [exact Hrun|]. split; [exact Hsame|].
  pose proof Hsame as (Elo & Ebrk & Emax & Estart & Ehs).
  assert (Hperm' : m1 ++ m2 ≡ₚ frees (hs + 32) b1 ++ frees (cur + s + ns) b2).
  { rewrite Emid, frees_app in Hperm. cbn in Hperm. fold hs cur in Hperm.
    exact (Permutation_app_inv _ _ _ _ _ Hperm). }
  assert (Hshape2 : arena_shape h (b1 ++ [(s, USED); (ns, FREE)] ++ b2))
    by exact Hshape.
  rewrite last_block_app in Hlast. fold hs cur in Hlast. cbn [last_block] in Hlast.
  split.
  - unfold carve. destruct (16 <=? s + ns - asize) eqn:Esplit.
    + apply Z.leb_le in Esplit.
      destruct Hres as (Hb1 & Hb2 & Hfl' & Hlast').
      split; [|split].
      * apply (arena_shape_replace h h' b1 [(s, USED); (ns, FREE)] _ b2
                 (hs :: (m1 ++ m2) ++ [hs + 16]) cur (cur + (s + ns))).
        -- exact Hshape2.
        -- exact Hsame.
        -- reflexivity.
        -- cbn. lia.
        -- exact Hkept.
        -- intros x Hx. apply (Hnodes x Hx).
        -- cbn. lia.
        -- cbn [tiled]. split; [exact Hb1|]. split; [right; reflexivity|].
           split; [exact Hb2|]. split; [left; reflexivity | exact I].
        -- rewrite Hlast'. cbn [app]. rewrite last_block_app. fold hs cur.
           cbn [last_block].
           replace (cur + asize + (s + ns - asize)) with (cur + s + ns) by lia.
           destruct (cur + s =? bt_heap_last h) eqn:E.
           ++ apply Z.eqb_eq in E. rewrite Hlast in E. symmetry in E.
              apply (last_block_tail h) in E; [|exact Ht2 | lia].
              subst b2. reflexivity.
           ++ apply Z.eqb_neq in E. rewrite Hlast.
              destruct b2 as [|[s2 f2] b2]; [cbn in Hlast; lia | reflexivity].
      * rewrite Ehs. exact Hfl'.
      * rewrite Ehs. fold hs cur. cbn [app]. rewrite frees_app. cbn. fold hs cur.
        replace (cur + asize + (s + ns - asize)) with (cur + s + ns) by lia.
        rewrite <- !Permutation_middle. constructor. exact Hperm'.
    + apply Z.leb_gt in Esplit.
      destruct Hres as (Hb1 & Hfl' & Hlast').
      split; [|split].
      * apply (arena_shape_replace h h' b1 [(s, USED); (ns, FREE)] _ b2
                 (hs :: (m1 ++ m2) ++ [hs + 16]) cur (cur + (s + ns))).
        -- exact Hshape2.
        -- exact Hsame.
        -- reflexivity.
        -- cbn. lia.
        -- exact Hkept.
        -- intros x Hx. apply (Hnodes x Hx).
        -- cbn. lia.
        -- cbn [tiled]. split; [exact Hb1|]. split; [right; reflexivity | exact I].
        -- rewrite Hlast'. cbn [app]. rewrite last_block_app. fold hs cur.
           replace (cur + (s + ns)) with (cur + s + ns) by lia.
           destruct (cur + s =? bt_heap_last h) eqn:E.
           ++ apply Z.eqb_eq in E. rewrite Hlast in E. symmetry in E.
              apply (last_block_tail h) in E; [|exact Ht2 | lia].
              subst b2. reflexivity.
           ++ apply Z.eqb_neq in E. rewrite Hlast.
              destruct b2 as [|[s2 f2] b2]; [cbn in Hlast; lia | reflexivity].
      * rewrite Ehs. exact Hfl'.
      * rewrite Ehs. fold hs cur. cbn [app]. rewrite frees_app. cbn. fold hs cur.
        replace (cur + (s + ns)) with (cur + s + ns) by lia.
        exact Hperm'.
  - intros a sz w Hin Hw. apply elem_of_cons in Hin as [Heq | Hin].
    + injection Heq as -> ->. apply Hpay. lia.
    + revert a sz w Hin Hw.
      apply (payloads_kept_intro h h' (hs + 32) _ cur (cur + (s + ns))
               (hs :: (m1 ++ m2) ++ [hs + 16])
               (useds (hs + 32) b1 ++ useds (cur + s + ns) b2)
               (heap_inv_tiled _ _ _ Hinv) Hkept).
      * intros y Hy.
        assert (Hy' : y ∈ hs :: mid ++ [hs + 16])
          by (rewrite Emid; apply in_full_drop; exact Hy).
        destruct (heap_inv_nodes h _ mid y Hinv Hy') as (Hym & [? | ?]);
          [left; fold hs in Hym; zlia | right; assumption].
      * intros x sz Hx. split.
        -- rewrite useds_app. cbn. fold hs cur.
           apply elem_of_app in Hx as [Hx | Hx]; apply elem_of_app;
             [left; exact Hx | right; right; exact Hx].
        -- apply elem_of_app in Hx as [Hx | Hx].
           ++ pose proof (useds_bounds _ _ _ _ _ Ht1 Hx). left. unfold cur. lia.
           ++ pose proof (useds_bounds _ _ _ _ _ Ht2 Hx). right. lia.
Qed.

(** ** Relocation on a well-formed heap *)

Lemma payloads_kept_subset h h' U V :
  (forall x, x ∈ V -> x ∈ U) -> payloads_kept h h' U -> payloads_kept h h' V.
Proof. intros Hsub Hk a s w Hin Hw. apply (Hk a s w (Hsub _ Hin) Hw). Qed.

(** The bytes of a payload whose words are kept. *)
Lemma payload_bytes h h' U x sz a :
  payloads_kept h h' U -> (x, sz) ∈ U -> x mod 4 = 0 ->
  x + 4 <= a < x + sz - 4 -> byte_at h' a = byte_at h a.
Proof.
  intros Hk Hin Hx Ha. unfold byte_at.
  rewrite (Hk x sz (a - a mod 4) Hin) by zlia. reflexivity.
Qed.

Lemma inserted_perm {A} (x : A) l l' : inserted x l l' -> l' ≡ₚ x :: l.
Proof.
  intros (l1 & l2 & -> & ->). symmetry. apply Permutation_middle.
Qed.

Lemma inserted_elem {A} (x y : A) l l' : inserted x l l' -> y ∈ l -> y ∈ l'.
Proof.
  intros Hi Hy. rewrite (inserted_perm _ _ _ Hi). right. exact Hy.
Qed.

Lemma useds_aligned h a bs x s :
  bt_heap_start h mod 4 = 0 -> tiled h a bs -> (x, s) ∈ useds a bs ->
  x mod 4 = 0.
Proof.
  intros Hs Ht Hin. pose proof (useds_bounds _ _ _ _ _ Ht Hin). zlia.
Qed.

(** [realloc] when the block can neither stay nor grow in place, with the
    call of [malloc] it makes and the place of the new block relative to
    the old one. *)
Lemma realloc_relocate_full h b1 s b2 mid fuel size :
  heap_inv h (b1 ++ (s, USED) :: b2) mid ->
  0 < size <= 2 ^ 64 - 24 -> (length mid + 1 < fuel)%nat ->
  s < realloc_asize size ->
  (forall ns, head b2 = Some (ns, FREE) -> s + ns < realloc_asize size) ->
  exists r h',
    realloc fuel (bt_payload (bt_heap_start h + 32 + span b1)) size h
    = Some (r, h') /\
    ((r = NULL /\ h' = h /\ malloc fuel size h = Some (NULL, h)) \/
     (r <> NULL /\ (exists h1, malloc fuel size h = Some (r, h1)) /\
      exists bs' mid' s',
        (bt_heap_start h + 32 + span b1 + s <= bt_fromptr r \/
         bt_fromptr r + s' <= bt_heap_start h + 32 + span b1) /\
        heap_inv h' bs' mid' /\ bt_heap_start h' = bt_heap_start h /\
        useds (bt_heap_start h + 32) bs'
        ≡ₚ (bt_fromptr r, s')
             :: (useds (bt_heap_start h + 32) b1 ++
                 useds (bt_heap_start h + 32 + span b1 + s) b2) /\
        size + 8 <= s' /\
        (forall i, 0 <= i < s - 8 ->
           byte_at h' (r + i)
           = byte_at h (bt_payload (bt_heap_start h + 32 + span b1) + i)) /\
        payloads_kept h h'
          (useds (bt_heap_start h + 32) b1 ++
           useds (bt_heap_start h + 32 + span b1 + s) b2))).
Proof.
  intros Hinv Hsize Hfuel Hgt Hnogrow.
  pose proof (realloc_probe_inv h b1 s b2 mid Hinv) as Hprobe.
  pose proof (heap_inv_arena _ _ _ Hinv) as Hok.
  pose proof (heap_inv_tiled _ _ _ Hinv) as Htb.
  pose proof (heap_inv_base _ _ _ Hinv) as Hhs.
  pose proof Hinv as (_ & (Hs4 & _) & _).
  set (asize := realloc_asize size) in *.
  set (hs := bt_heap_start h) in *. set (cur := hs + 32 + span b1) in *.
  set (rest := useds (hs + 32) b1 ++ useds (cur + s) b2).
  pose proof Htb as Htb'.
  apply tiled_app in Htb' as (Ht1 & Hcur & _ & Ht2). fold cur in Hcur, Ht2.
  pose proof (tiled_span _ _ _ Ht1).
  destruct (block_at_read h cur s USED Hok Hs4 ltac:(unfold USED; lia) Hcur)
    as (Hvcur & _ & Hsz & _ & _ & Hrange).
  pose proof Hcur as (Hbm & Hmin & Hm16 & Hlo & Hhi & _).
  assert (Eu : useds (hs + 32) (b1 ++ (s, USED) :: b2)
               = useds (hs + 32) b1 ++ (cur, s) :: useds (cur + s) b2).
  { rewrite useds_app. reflexivity. }
  assert (Hlen : to_size (s - 8) = Z.min (s - 8) size).
  { apply relocate_copy_length; lia. }
  assert (Hrun : realloc fuel (bt_payload cur) size h =
                 (new_ptr <- malloc fuel size ;;
                  if new_ptr =? NULL then ret NULL
                  else memcpy new_ptr (bt_payload cur) (s - 8) ;;
                       free (bt_payload cur) ;; ret new_ptr) h).
  { unfold realloc, bt_payload.
    replace (size =? 0) with false by (symmetry; apply Z.eqb_neq; lia).
    replace (cur + 4 =? NULL) with false
      by (symmetry; apply Z.eqb_neq; unfold NULL, cur; lia).
    cbv zeta. unfold bt_fromptr. replace (cur + 4 - 4) with cur by lia.
    fold asize.
    rewrite (bind_run _ _ _ _ _ (bt_size_run _ _ Hvcur)).
    rewrite Hsz, (to_size_small s) by lia.
    rewrite (bind_run _ _ _ _ _ Hprobe).
    replace (asize =? s) with false by (symmetry; apply Z.eqb_neq; lia).
    replace (asize <? s) with false by (symmetry; apply Z.ltb_ge; lia).
    rewrite (to_size_small (s - 8)) by lia.
    destruct b2 as [|[ns nf] t]; [reflexivity|].
    destruct (nf =? FREE) eqn:Enf; [|reflexivity].
    apply Z.eqb_eq in Enf. subst nf. cbn [fst snd].
    specialize (Hnogrow ns eq_refl).
    replace (asize <=? s + ns) with false by (symmetry; apply Z.leb_gt; lia).
    rewrite andb_false_r. reflexivity. }
  rewrite Hrun.
  destruct (malloc_block h _ mid fuel size Hinv Hsize Hfuel)
    as (r & h1 & Hmal & [(-> & ->)
        | (Hnn & bs1 & mid1 & s1 & Hinv1 & Ehs1 & Hins & Hs1 & Hpay1 & _)]).
  { exists NULL, h.
    split; [|left; split; [reflexivity|split; [reflexivity | exact Hmal]]].
    rewrite (bind_run _ _ _ _ _ Hmal). reflexivity. }
  fold hs in Hins, Hpay1. rewrite Eu in Hins, Hpay1.
  pose proof (heap_inv_tiled _ _ _ Hinv1) as Htb1. rewrite Ehs1 in Htb1. fold hs in Htb1.
  pose proof Hinv1 as (_ & (Hs41 & _) & _).
  pose proof Hins as (u1 & u2 & Eu0 & Eu1).
  assert (Hin_old : (cur, s) ∈ useds (hs + 32) bs1).
  { apply (inserted_elem _ _ _ _ Hins). apply elem_of_app. right. left. }
  assert (Hin_new : (bt_fromptr r, s1) ∈ useds (hs + 32) bs1).
  { rewrite Eu1. apply elem_of_app. right. left. }
  destruct (useds_bounds _ _ _ _ _ Htb1 Hin_old) as (Ho1 & Ho2 & _ & _).
  destruct (useds_bounds _ _ _ _ _ Htb1 Hin_new) as (Hn1 & Hn2 & Hn3 & Hn4).
  destruct (useds_split _ _ _ _ _ Htb1 Hin_new) as (c1 & c2 & Ebs1 & Ea).
  pose proof Htb1 as Htb1'. rewrite Ebs1 in Htb1'.
  destruct (tiled_block _ _ _ _ _ _ Htb1') as ((_ & _ & Hs1m & Hlo1 & Hhi1 & _) & _).
  rewrite <- Ea in Hlo1, Hhi1.
  destruct (useds_split _ _ _ _ _ Htb1 Hin_old) as (d1 & d2 & Ebs1' & Ea').
  pose proof Htb1 as Htb1''. rewrite Ebs1' in Htb1''.
  destruct (tiled_block _ _ _ _ _ _ Htb1'') as ((_ & _ & _ & Hlo1' & Hhi1' & _) & _).
  rewrite <- Ea' in Hlo1', Hhi1'.
  assert (Hdisj : cur + s <= bt_fromptr r \/ bt_fromptr r + s1 <= cur).
  { destruct (useds_sorted _ _ _ _ _ _ _ Htb1 Eu1) as (Hb & Ha2).
    assert (Hin : (cur, s) ∈ u1 ++ u2).
    { rewrite <- Eu0. apply elem_of_app. right. left. }
    apply elem_of_app in Hin as [Hin | Hin].
    - left. exact (Hb _ _ Hin).
    - right. exact (Ha2 _ _ Hin). }
  rewrite Ehs1 in Hs41. fold hs in Hs41.
  unfold bt_fromptr in *. unfold bt_payload.
  assert (Hs1s : s - 8 <= size)
    by (rewrite to_size_small in Hlen by lia; lia).
  destruct (memcpy_loop_spec (Z.to_nat (s - 8)) r (cur + 4) h1)
    as (h2 & Hcp & Hcopy & _ & Hg).
  { intros i Hi. unfold valid_byte. zlia. }
  { intros i Hi. unfold valid_byte. zlia. }
  { lia. }
  pose proof (memcpy_loop_words _ _ _ _ _ Hcp) as Hwords.
  assert (Eu1' : useds (bt_heap_start h1 + 32) bs1 = u1 ++ (r - 4, s1) :: u2)
    by (rewrite Ehs1; exact Eu1).
  destruct (heap_inv_payload_write h1 h2 bs1 mid1 u1 (r - 4) s1 u2
              Hinv1 Eu1' Hg) as (Hinv2 & Hpay2).
  { intros w Hw. apply Hwords. lia. }
  rewrite <- Eu0 in Hpay2.
  pose proof Hg as (_ & _ & _ & _ & _ & Ehs2).
  assert (Hin_old2 : (cur, s) ∈ useds (bt_heap_start h2 + 32) bs1).
  { rewrite Ehs2, Ehs1. exact Hin_old. }
  destruct (free_block h2 bs1 mid1 cur s Hinv2 Hin_old2)
    as (h3 & bs3 & mid3 & Hfree & Hsame3 & Hinv3 & Hins3 & Hpay3 & _).
  rewrite Ehs2, Ehs1 in Hins3, Hpay3. fold hs in Hins3, Hpay3.
  assert (Hperm : useds (hs + 32) bs3 ≡ₚ (r - 4, s1) :: rest).
  { pose proof (inserted_perm _ _ _ Hins3) as P3.
    pose proof (inserted_perm _ _ _ Hins) as P1.
    assert (P0 : useds (hs + 32) b1 ++ (cur, s) :: useds (cur + s) b2
                 ≡ₚ (cur, s) :: rest)
      by (symmetry; apply Permutation_middle).
    rewrite P0 in P1. rewrite P1 in P3.
    apply (Permutation_cons_inv (a := (cur, s))).
    rewrite <- P3. apply Permutation_swap. }
  assert (Hrest3 : forall x, x ∈ rest -> x ∈ useds (hs + 32) bs3).
  { intros x Hx. rewrite Hperm. right. exact Hx. }
  assert (Hrest0 : forall x, x ∈ rest ->
            x ∈ useds (hs + 32) b1 ++ (cur, s) :: useds (cur + s) b2).
  { intros x Hx. apply elem_of_app in Hx as [Hx | Hx]; apply elem_of_app;
      [left; exact Hx | right; right; exact Hx]. }
  exists r, h3. split.
  { rewrite (bind_run _ _ _ _ _ Hmal).
    replace (r =? NULL) with false by (symmetry; apply Z.eqb_neq; exact Hnn).
    unfold memcpy, bt_payload. rewrite (bind_run _ _ _ _ _ Hcp).
    unfold bt_payload in Hfree. rewrite (bind_run _ _ _ _ _ Hfree). reflexivity. }
  right. split; [exact Hnn|]. split; [exists h1; exact Hmal|].
  exists bs3, mid3, s1. split; [exact Hdisj|].
  split; [exact Hinv3|].
  split; [destruct Hsame3 as (_ & _ & _ & _ & ->); rewrite Ehs2; exact Ehs1|].
  split; [exact Hperm|]. split; [exact Hs1|]. split.
  - intros i Hi.
    rewrite (payload_bytes h2 h3 _ (r - 4) s1 (r + i) Hpay3);
      [| rewrite Hperm; left | zlia | lia].
    replace (r + i) with (r + i) by lia. rewrite Hcopy by lia.
    apply (payload_bytes h h1 _ cur s (cur + 4 + i) Hpay1);
      [apply elem_of_app; right; left | zlia | lia].
  - apply (payloads_kept_trans h h1);
      [apply (payloads_kept_subset _ _ _ _ Hrest0 Hpay1)|].
    apply (payloads_kept_trans h1 h2);
      [apply (payloads_kept_subset _ _ _ _ Hrest0 Hpay2)|].
    apply (payloads_kept_subset _ _ _ _ Hrest3 Hpay3).
Qed.

(** [realloc] when the block can neither stay nor grow in place: a new
    block is allocated, the old payload copied and the old block
    released. *)
Lemma realloc_relocate_inv h b1 s b2 mid fuel size :
  heap_inv h (b1 ++ (s, USED) :: b2) mid ->
  0 < size <= 2 ^ 64 - 24 -> (length mid + 1 < fuel)%nat ->
  s < realloc_asize size ->
  (forall ns, head b2 = Some (ns, FREE) -> s + ns < realloc_asize size) ->
  exists r h',
    realloc fuel (bt_payload (bt_heap_start h + 32 + span b1)) size h
    = Some (r, h') /\
    ((r = NULL /\ h' = h) \/
     (r <> NULL /\ exists bs' mid' s',
        heap_inv h' bs' mid' /\ bt_heap_start h' = bt_heap_start h /\
        useds (bt_heap_start h + 32) bs'
        ≡ₚ (bt_fromptr r, s')
             :: (useds (bt_heap_start h + 32) b1 ++
                 useds (bt_heap_start h + 32 + span b1 + s) b2) /\
        size + 8 <= s' /\
        (forall i, 0 <= i < s - 8 ->
           byte_at h' (r + i)
           = byte_at h (bt_payload (bt_heap_start h + 32 + span b1) + i)) /\
        payloads_kept h h'
          (useds (bt_heap_start h + 32) b1 ++
           useds (bt_heap_start h + 32 + span b1 + s) b2))).
Proof.
  intros Hinv Hsize Hfuel Hgt Hnogrow.
  destruct (realloc_relocate_full h b1 s b2 mid fuel size Hinv Hsize Hfuel
              Hgt Hnogrow)
    as (r & h' & Hrun & [(Hr & Hh & _)
        | (Hnn & _ & bs' & mid' & s' & _ & Hres)]).
  - exists r, h'. split; [exact Hrun | left; split; assumption].
  - exists r, h'. split; [exact Hrun | right]. split; [exact Hnn|].
    exists bs', mid', s'. exact Hres.
Qed.

(** Growing in place, for a block whose successor is free and large
    enough: the block keeps its address and its payload, the successor
    is absorbed and what is left over of it, if at least 16 bytes, stays
    a free block in the successor's place in the free list. *)
Theorem realloc_grow_heap (h : heap) (b1 : list (Z * Z)) (s ns : Z)
    (b2 : list (Z * Z)) (m1 m2 : list Z) (fuel : nat) (size : Z) :
  heap_inv h (b1 ++ (s, USED) :: (ns, FREE) :: b2)
           (m1 ++ (bt_heap_start h + 32 + span b1 + s) :: m2) ->
  0 < size <= 2 ^ 64 - 24 -> s < realloc_asize size <= s + ns ->
  exists h',
    realloc fuel (bt_payload (bt_heap_start h + 32 + span b1)) size h
    = Some (bt_payload (bt_heap_start h + 32 + span b1), h') /\
    same_arena h h' /\
    heap_inv h' (carve b1 (s + ns) (realloc_asize size) b2)
      (if 16 <=? s + ns - realloc_asize size
       then m1 ++ (bt_heap_start h + 32 + span b1 + realloc_asize size) :: m2
       else m1 ++ m2) /\
    payloads_kept h h'
      ((bt_heap_start h + 32 + span b1, s)
         :: useds (bt_heap_start h + 32) b1 ++
            useds (bt_heap_start h + 32 + span b1 + s + ns) b2).
Proof. apply realloc_grow_inv. Qed.

(** Relocation, for a block that is too small and whose successor cannot
    make up the difference: [NULL] with the state unchanged when [malloc]
    fails; otherwise the result is a new block that holds the request and
    starts with the old payload, the old block is released, the heap is
    well formed and the other payloads are untouched. *)
Theorem realloc_relocate_heap (h : heap) (b1 : list (Z * Z)) (s : Z)
    (b2 : list (Z * Z)) (mid : list Z) (fuel : nat) (size : Z) :
  heap_inv h (b1 ++ (s, USED) :: b2) mid ->
  0 < size <= 2 ^ 64 - 24 -> (length mid + 1 < fuel)%nat ->
  s < realloc_asize size ->
  (forall ns, head b2 = Some (ns, FREE) -> s + ns < realloc_asize size) ->
  exists r h',
    realloc fuel (bt_payload (bt_heap_start h + 32 + span b1)) size h
    = Some (r, h') /\
    ((r = NULL /\ h' = h) \/
     (r <> NULL /\ exists bs' mid' s',
        heap_inv h' bs' mid' /\ bt_heap_start h' = bt_heap_start h /\
        useds (bt_heap_start h + 32) bs'
        ≡ₚ (bt_fromptr r, s')
             :: (useds (bt_heap_start h + 32) b1 ++
                 useds (bt_heap_start h + 32 + span b1 + s) b2) /\
        size + 8 <= s' /\
        (forall i, 0 <= i < s - 8 ->
           byte_at h' (r + i)
           = byte_at h (bt_payload (bt_heap_start h + 32 + span b1) + i)) /\
        payloads_kept h h'
          (useds (bt_heap_start h + 32) b1 ++
           useds (bt_heap_start h + 32 + span b1 + s) b2))).
Proof. apply realloc_relocate_inv. Qed.

(** What [realloc] does to an in-use block of a well-formed heap, for the
    proofs about its callers. *)
Lemma realloc_block (h : heap) (b1 : list (Z * Z)) (s : Z)
    (b2 : list (Z * Z)) (mid : list Z) (fuel : nat) (size : Z) :
  heap_inv h (b1 ++ (s, USED) :: b2) mid ->
  0 < size <= 2 ^ 64 - 24 -> (length mid + 1 < fuel)%nat ->
  exists r h',
    realloc fuel (bt_payload (bt_heap_start h + 32 + span b1)) size h
    = Some (r, h') /\
    ((r = NULL /\ h' = h) \/
     (r <> NULL /\ exists bs' mid' s',
        heap_inv h' bs' mid' /\ bt_heap_start h' = bt_heap_start h /\
        useds (bt_heap_start h + 32) bs'
        ≡ₚ (bt_fromptr r, s')
             :: (useds (bt_heap_start h + 32) b1 ++
                 useds (bt_heap_start h + 32 + span b1 + s) b2) /\
        size + 8 <= s' /\
        (forall i, 0 <= i < Z.min (s - 8) size ->
           byte_at h' (r + i)
           = byte_at h (bt_payload (bt_heap_start h + 32 + span b1) + i)) /\
        payloads_kept h h'
          (useds (bt_heap_start h + 32) b1 ++
           useds (bt_heap_start h + 32 + span b1 + s) b2))).
Proof.
  intros Hinv Hsize Hfuel.
  pose proof (heap_inv_tiled _ _ _ Hinv) as Htb.
  pose proof (heap_inv_base _ _ _ Hinv) as Hhs.
  pose proof Hinv as (_ & (Hs4 & _) & Hperm).
  pose proof (malloc_asize_bounds size Hsize) as (Hamin & Ham & Hage & _).
  change (malloc_asize size) with (realloc_asize size) in Hamin, Ham, Hage.
  set (asize := realloc_asize size) in *.
  set (hs := bt_heap_start h) in *. set (cur := hs + 32 + span b1) in *.
  set (rest := useds (hs + 32) b1 ++ useds (cur + s) b2).
  pose proof Htb as Htb'.
  apply tiled_app in Htb' as (Ht1 & Hcur & _ & Ht2). fold cur in Hcur, Ht2.
  pose proof (tiled_span _ _ _ Ht1).
  pose proof Hcur as (Hbm & Hmin & Hm16 & Hlo & Hhi & _).
  assert (Hcur4 : cur mod 4 = 0) by zlia.
  assert (Hnn : bt_payload cur <> NULL) by (unfold bt_payload, NULL, cur; lia).
  assert (Hfp : bt_fromptr (bt_payload cur) = cur)
    by (unfold bt_fromptr, bt_payload; lia).
  assert (Hmid : forall s' b2', useds (hs + 32) (b1 ++ (s', USED) :: b2')
                 ≡ₚ (cur, s') :: useds (hs + 32) b1 ++ useds (cur + s') b2').
  { intros s' b2'. rewrite useds_app. symmetry. apply Permutation_middle. }
  destruct (Z.lt_trichotomy asize s) as [Hlt | [Heq | Hgt]].
  - (* the block shrinks *)
    destruct (realloc_shrink_inv h b1 s b2 mid fuel size Hinv Hsize Hlt)
      as (h' & Hrun & Hsame & Hinv' & Hpay).
    fold hs cur asize in Hrun, Hinv', Hpay.
    exists (bt_payload cur), h'. split; [exact Hrun|]. right.
    split; [exact Hnn|]. eexists _, _, asize.
    split; [exact Hinv'|]. split; [apply Hsame|].
    rewrite Hfp. split; [|split; [lia|split]].
    + rewrite Hmid. cbn [useds]. 
      replace (cur + asize + (s - asize)) with (cur + s) by lia. reflexivity.
    + intros i Hi. unfold bt_payload.
      apply (payload_bytes h h' _ cur asize (cur + 4 + i) Hpay);
        [left | exact Hcur4 | lia].
    + apply (payloads_kept_subset _ _ _ _ (fun x Hx => proj2 (elem_of_cons _ _ _) (or_intror Hx)) Hpay).
  - (* the block stays as it is *)
    pose proof (realloc_same_inv h b1 s b2 mid fuel size Hinv ltac:(lia) Heq)
      as Hrun.
    fold hs cur in Hrun.
    exists (bt_payload cur), h. split; [exact Hrun|]. right.
    split; [exact Hnn|]. eexists _, _, s.
    split; [exact Hinv|]. split; [reflexivity|].
    rewrite Hfp. split; [apply Hmid|]. split; [lia|].
    split; [reflexivity|]. intros a sz w _ _. reflexivity.
  - (* the block must grow *)
    assert (Hcase : (exists ns t, b2 = (ns, FREE) :: t /\ asize <= s + ns) \/
                    (forall ns, head b2 = Some (ns, FREE) -> s + ns < asize)).
    { destruct b2 as [|[ns nf] t]; [right; intros ns E; discriminate|].
      destruct Ht2 as (_ & [-> | ->] & _).
      - destruct (Z.le_gt_cases asize (s + ns)) as [Hle | Hg].
        + left. exists ns, t. split; [reflexivity | exact Hle].
        + right. intros ns' E. injection E as <-. lia.
      - right. intros ns' E. discriminate. }
    destruct Hcase as [(ns & t & -> & Hle) | Hno].
    + assert (Hin : cur + s ∈ mid).
      { rewrite Hperm, frees_app. apply elem_of_app. right.
        fold hs cur. cbn. left. }
      apply list_elem_of_split in Hin as (m1 & m2 & Emid). subst mid.
      destruct (realloc_grow_inv h b1 s ns t m1 m2 fuel size Hinv Hsize
                  ltac:(fold asize; lia))
        as (h' & Hrun & Hsame & Hinv' & Hpay).
      fold hs cur asize in Hrun, Hinv', Hpay.
      exists (bt_payload cur), h'. split; [exact Hrun|]. right.
      split; [exact Hnn|].
      eexists _, _, (if 16 <=? s + ns - asize then asize else s + ns).
      split; [exact Hinv'|]. split; [apply Hsame|].
      rewrite Hfp. split; [|split; [|split]].
      * rewrite useds_carve. fold cur. unfold rest. cbn [useds].
        change (FREE =? FREE) with true. cbv iota.
        replace (cur + (s + ns)) with (cur + s + ns) by lia.
        symmetry. apply Permutation_middle.
      * destruct (16 <=? s + ns - asize); lia.
      * intros i Hi. unfold bt_payload.
        apply (payload_bytes h h' _ cur s (cur + 4 + i) Hpay);
          [left | exact Hcur4 | lia].
      * unfold rest. cbn [useds]. change (FREE =? FREE) with true. cbv iota.
        apply (payloads_kept_subset _ _ _ _ (fun x Hx => proj2 (elem_of_cons _ _ _) (or_intror Hx)) Hpay).
    + destruct (realloc_relocate_inv h b1 s b2 mid fuel size Hinv Hsize Hfuel
                  Hgt Hno) as (r & h' & Hrun & Hres).
      exists r, h'. split; [exact Hrun|].
      destruct Hres as [Hnull | (Hr & bs' & mid' & s' & H1 & H2 & H3 & H4 & H5 & H6)];
        [left; exact Hnull | right].
      split; [exact Hr|]. exists bs', mid', s'.
      split; [exact H1|]. split; [exact H2|]. split; [exact H3|].
      split; [exact H4|]. split; [|exact H6].
      intros i Hi. apply H5. lia.
Qed.

(** [realloc] on an in-use block of a well-formed heap, whatever the
    branch taken: [NULL] with the state unchanged, or a block that holds
    the request and starts with the old payload, up to the smaller of the
    old payload size and the request; the in-use blocks are the other
    ones and this block, the heap is well formed and the other payloads
    are untouched. *)
Theorem realloc_heap (h : heap) (b1 : list (Z * Z)) (s : Z)
    (b2 : list (Z * Z)) (mid : list Z) (fuel : nat) (size : Z) :
  heap_inv h (b1 ++ (s, USED) :: b2) mid ->
  0 < size <= 2 ^ 64 - 24 -> (length mid + 1 < fuel)%nat ->
  exists r h',
    realloc fuel (bt_payload (bt_heap_start h + 32 + span b1)) size h
    = Some (r, h') /\
    ((r = NULL /\ h' = h) \/
     (r <> NULL /\ exists bs' mid' s',
        heap_inv h' bs' mid' /\ bt_heap_start h' = bt_heap_start h /\
        useds (bt_heap_start h + 32) bs'
        ≡ₚ (bt_fromptr r, s')
             :: (useds (bt_heap_start h + 32) b1 ++
                 useds (bt_heap_start h + 32 + span b1 + s) b2) /\
        size + 8 <= s' /\
        (forall i, 0 <= i < Z.min (s - 8) size ->
           byte_at h' (r + i)
           = byte_at h (bt_payload (bt_heap_start h + 32 + span b1) + i)) /\
        payloads_kept h h'
          (useds (bt_heap_start h + 32) b1 ++
           useds (bt_heap_start h + 32 + span b1 + s) b2))).
Proof. apply realloc_block. Qed.

Lemma realloc_asize_wrapped size :
  2 ^ 64 - 24 < size < 2 ^ 64 -> realloc_asize size <= 16.
Proof.
  intros H. unfold realloc_asize, to_size, ALIGNMENT.
  destruct (size <=? 8) eqn:E; [lia|]. zlia.
Qed.

(** C8: [realloc] on an in-use block of a well-formed heap, with a
    non-zero size that needs more than the block's size, when the block
    has no free successor or the two together are still too small. The
    call returns. It calls [malloc(size)]: when that returns [NULL] so
    does [realloc], and the state is the initial one, the old block still
    in use; otherwise the result is [malloc]'s pointer, the payload of a
    new block that does not overlap the old one and holds [size] bytes,
    its first [min (old_size - 8) size] bytes are those of the old
    payload, the old block is no longer in use, the heap is well formed
    and the payloads of the other blocks are untouched. *)
Theorem realloc_relocate (h : heap) (b1 : list (Z * Z)) (s : Z)
    (b2 : list (Z * Z)) (mid : list Z) (fuel : nat) (size : Z) :
  heap_inv h (b1 ++ (s, USED) :: b2) mid ->
  0 < size < 2 ^ 64 -> (length mid + 1 < fuel)%nat ->
  s < realloc_asize size ->
  (forall ns, head b2 = Some (ns, FREE) -> s + ns < realloc_asize size) ->
  exists r h',
    realloc fuel (bt_payload (bt_heap_start h + 32 + span b1)) size h
    = Some (r, h') /\
    ((r = NULL /\ h' = h /\ malloc fuel size h = Some (NULL, h)) \/
     (r <> NULL /\ (exists h1, malloc fuel size h = Some (r, h1)) /\
      exists bs' mid' s',
        (bt_heap_start h + 32 + span b1 + s <= bt_fromptr r \/
         bt_fromptr r + s' <= bt_heap_start h + 32 + span b1) /\
        heap_inv h' bs' mid' /\ bt_heap_start h' = bt_heap_start h /\
        useds (bt_heap_start h + 32) bs'
        ≡ₚ (bt_fromptr r, s')
             :: (useds (bt_heap_start h + 32) b1 ++
                 useds (bt_heap_start h + 32 + span b1 + s) b2) /\
        size + 8 <= s' /\
        (forall i, 0 <= i < Z.min (s - 8) size ->
           byte_at h' (r + i)
           = byte_at h (bt_payload (bt_heap_start h + 32 + span b1) + i)) /\
        payloads_kept h h'
          (useds (bt_heap_start h + 32) b1 ++
           useds (bt_heap_start h + 32 + span b1 + s) b2))).
Proof.
  intros Hinv Hsize Hfuel Hgt Hnogrow.
  pose proof (heap_inv_tiled _ _ _ Hinv) as Htb.
  destruct (tiled_block _ _ _ _ _ _ Htb) as ((_ & Hmin & _) & _).
  assert (Hsz : 0 < size <= 2 ^ 64 - 24).
  { destruct (Z.le_gt_cases size (2 ^ 64 - 24)) as [Hle | Hg]; [lia|].
    pose proof (realloc_asize_wrapped size ltac:(lia)). lia. }
  destruct (realloc_relocate_full h b1 s b2 mid fuel size Hinv Hsz Hfuel
              Hgt Hnogrow)
    as (r & h' & Hrun & [Hnull
        | (Hnn & Hmal & bs' & mid' & s' & H0 & H1 & H2 & H3 & H4 & H5 & H6)]).
  - exists r, h'. split; [exact Hrun | left; exact Hnull].
  - exists r, h'. split; [exact Hrun | right]. split; [exact Hnn|].
    split; [exact Hmal|]. exists bs', mid', s'.
    split; [exact H0|]. split; [exact H1|]. split; [exact H2|].
    split; [exact H3|]. split; [exact H4|]. split; [|exact H6].
    intros i Hi. apply H5. lia.
Qed.

(** ** Growing the arena and searching it *)

(** [extend_heap] on a well-formed heap, for a block size that is a
    multiple of 16: when the arena cannot grow that far the result is
    [NULL] and the state is the initial one; otherwise the break moves by
    the block size, the new block is merged with the topmost block when
    that one is free, the result is the payload of the merged block, the
    first node of the free list, and the heap is well formed. *)
Theorem extend_heap_spec (h : heap) (bs : list (Z * Z)) (mid : list Z)
    (asize : Z) :
  heap_inv h bs mid ->
  16 <= asize -> asize mod 16 = 0 -> asize + 15 < 2 ^ 64 ->
  (mem_max h < mem_brk h + asize -> extend_heap asize h = Some (NULL, h)) /\
  (mem_brk h + asize <= mem_max h ->
   exists h',
     extend_heap asize h
     = Some (bt_heap_start h + 32 + span bs - (absorb_prev bs).2 + 4, h') /\
     mem_lo h' = mem_lo h /\ mem_brk h' = mem_brk h + asize /\
     mem_max h' = mem_max h /\ heap_start h' = heap_start h /\
     bt_heap_start h' = bt_heap_start h /\
     heap_inv h' (release bs asize [])
       (released_list (bt_heap_start h + 32 + span bs) asize
                      (absorb_prev bs).2 mid) /\
     payloads_kept h h' (useds (bt_heap_start h + 32) bs)).
Proof. apply extend_inv. Qed.

(** [find_fit] on a well-formed heap, with fuel for the whole list: the
    state is unchanged; the result is [NULL] exactly when no free block of
    the arena has the requested size, and otherwise a free block of the
    arena that has it and is no larger than any other that has it. *)
Theorem find_fit_heap (h : heap) (bs : list (Z * Z)) (mid : list Z)
    (fuel : nat) (reqsz : Z) :
  heap_inv h bs mid -> (length mid + 1 < fuel)%nat ->
  exists r, find_fit fuel reqsz h = Some (r, h) /\
    ((r = NULL /\ forall c, (c, FREE) ∈ bs -> c < reqsz) \/
     (r <> NULL /\ exists b1 c b2,
        bs = b1 ++ (c, FREE) :: b2 /\ r = bt_heap_start h + 32 + span b1 /\
        reqsz <= c /\
        forall c', (c', FREE) ∈ bs -> reqsz <= c' -> c <= c')).
Proof.
  intros Hinv Hfuel.
  pose proof (heap_inv_base _ _ _ Hinv) as Hhs.
  pose proof (heap_inv_tiled _ _ _ Hinv) as Htb.
  destruct (find_fit_inv h bs mid fuel reqsz Hinv Hfuel)
    as (r & Hrun & [Hnull | (b1 & c & b2 & m1 & m2 & Ebs & Er & _ & Hge & Hbest & _)]).
  - exists r. split; [exact Hrun | left; exact Hnull].
  - exists r. split; [exact Hrun | right]. split.
    + rewrite Ebs in Htb. apply tiled_app in Htb as (Ht1 & _).
      pose proof (tiled_span _ _ _ Ht1). unfold NULL. lia.
    + exists b1, c, b2. tauto.
Qed.

(** ** Clients *)

Lemma frees_length h a bs :
  tiled h a bs -> 16 * Z.of_nat (length (frees a bs)) <= span bs.
Proof.
  revert a. induction bs as [|[s f] bs IH]; intros a Ht; [cbn; lia|].
  destruct Ht as ((_ & Hs & _) & _ & Ht). specialize (IH _ Ht).
  cbn [frees span]. destruct (f =? FREE); cbn [length]; lia.
Qed.

Lemma fuel_for_enough h bs mid :
  heap_inv h bs mid -> (length mid + 1 < fuel_for h)%nat.
Proof.
  intros Hinv.
  pose proof (heap_inv_tiled _ _ _ Hinv) as Ht.
  pose proof Hinv as ((_ & _ & _ & _ & _ & Hta & Hend & _) & _ & Hperm).
  destruct Hta as ((_ & _ & _ & Hlo & _) & _).
  pose proof (frees_length _ _ _ Ht) as Hl.
  rewrite <- (Permutation_length Hperm) in Hl.
  unfold fuel_for.
  assert (Z.of_nat (length mid) <= (mem_brk h - mem_lo h) / 16) by zlia.
  lia.
Qed.

Lemma payloads_drop h a bs u1 x s u2 :
  tiled h a bs -> useds a bs = u1 ++ (x, s) :: u2 ->
  filter (fun y => y <> bt_payload x)
         ((fun b => bt_payload b.1) <$> (u1 ++ (x, s) :: u2))
  = (fun b => bt_payload b.1) <$> (u1 ++ u2).
Proof.
  intros Ht Eu.
  destruct (useds_sorted _ _ _ _ _ _ _ Ht Eu) as (H1 & H2).
  rewrite !fmap_app, fmap_cons.
  apply filter_drop.
  - intros y Hy. rewrite <- fmap_app in Hy.
    apply list_elem_of_fmap in Hy as ([x' s'] & -> & Hin).
    assert (Hin' : (x', s') ∈ useds a bs).
    { rewrite Eu. apply elem_of_app in Hin as [Hin | Hin]; apply elem_of_app;
        [left; exact Hin | right; right; exact Hin]. }
    pose proof (useds_bounds _ _ _ _ _ Ht Hin') as (_ & _ & Hs' & _).
    assert (Hx : (x, s) ∈ useds a bs)
      by (rewrite Eu; apply elem_of_app; right; left).
    pose proof (useds_bounds _ _ _ _ _ Ht Hx) as (_ & _ & Hs & _).
    cbn. unfold bt_payload.
    apply elem_of_app in Hin as [Hin | Hin].
    + specialize (H1 _ _ Hin). lia.
    + specialize (H2 _ _ Hin). lia.
  - cbn. intros Hn. apply Hn. reflexivity.
Qed.

Lemma live_block h live bs mid p :
  client_inv h live bs mid -> p ∈ live ->
  exists a s, p = bt_payload a /\ (a, s) ∈ useds (bt_heap_start h + 32) bs.
Proof.
  intros (_ & Hl) Hp. rewrite Hl in Hp. unfold payloads_of in Hp.
  apply list_elem_of_fmap in Hp as ([a s] & -> & Hin).
  exists a, s. split; [reflexivity | exact Hin].
Qed.

Lemma client_inv_insert h h' live bs bs' mid' r s :
  heap_inv h' bs' mid' ->
  live ≡ₚ payloads_of (bt_heap_start h + 32) bs ->
  inserted (bt_fromptr r, s) (useds (bt_heap_start h + 32) bs)
           (useds (bt_heap_start h' + 32) bs') ->
  client_inv h' (r :: live) bs' mid'.
Proof.
  intros Hinv Hl Hins. split; [exact Hinv|].
  unfold payloads_of in *. rewrite (inserted_perm _ _ _ Hins), fmap_cons.
  cbn. unfold bt_payload, bt_fromptr. replace (r - 4 + 4) with r by lia.
  constructor. exact Hl.
Qed.

Lemma client_inv_remove h h' live bs bs' mid mid' a s :
  client_inv h live bs mid ->
  heap_inv h' bs' mid' -> bt_heap_start h' = bt_heap_start h ->
  inserted (a, s) (useds (bt_heap_start h + 32) bs')
           (useds (bt_heap_start h + 32) bs) ->
  client_inv h' (drop_ptr (bt_payload a) live) bs' mid'.
Proof.
  intros (Hinv & Hl) Hinv' Ehs (u1 & u2 & Eu' & Eu). split; [exact Hinv'|].
  unfold payloads_of in *. rewrite Ehs, Eu'.
  unfold drop_ptr. rewrite Hl. rewrite Eu.
  pose proof (heap_inv_tiled _ _ _ Hinv) as Ht.
  rewrite (payloads_drop h _ bs u1 a s u2 Ht Eu). reflexivity.
Qed.

(** One call of a client on a well-formed heap: it returns, the heap is
    well formed and the client holds the payloads of the in-use blocks. *)
Lemma serve_inv c h live bs mid :
  client_inv h live bs mid ->
  exists live' h' bs' mid',
    serve c live h = Some (live', h') /\ client_inv h' live' bs' mid' /\
    (is_realloc c = false -> coalesced bs -> coalesced bs').
Proof.
  intros Hci. pose proof Hci as (Hinv & Hl).
  pose proof (fuel_for_enough _ _ _ Hinv) as Hfuel.
  assert (Hstay : exists live' h' bs' mid',
            Some (live, h) = Some (live', h') /\ client_inv h' live' bs' mid' /\
            (is_realloc c = false -> coalesced bs -> coalesced bs')).
  { exists live, h, bs, mid. split; [reflexivity|]. split; [exact Hci | tauto]. }
  destruct c as [size | nmemb size | p | p size]; cbn [serve is_realloc].
  - (* malloc *)
    destruct (in_range size) eqn:Er; [|exact Hstay].
    apply andb_true_iff in Er as (E1 & E2).
    apply Z.leb_le in E1, E2.
    rewrite (bind_run _ _ _ _ _ eq_refl).
    destruct (Z.eq_dec size 0) as [-> | Hnz].
    { exact Hstay. }
    destruct (malloc_block h bs mid (fuel_for h) size Hinv ltac:(lia) Hfuel)
      as (r & h' & Hrun & [(-> & ->)
          | (Hnn & bs' & mid' & s & Hinv' & Ehs & Hins & _ & _ & Hco)]).
    + rewrite (bind_run _ _ _ _ _ Hrun). exact Hstay.
    + rewrite (bind_run _ _ _ _ _ Hrun).
      replace (r =? NULL) with false by (symmetry; apply Z.eqb_neq; exact Hnn).
      exists (r :: live), h', bs', mid'. split; [reflexivity|].
      split; [|intros _; exact Hco].
      apply (client_inv_insert h h' live bs bs' mid' r s Hinv' Hl).
      rewrite Ehs. exact Hins.
  - (* calloc *)
    destruct (in_range (to_size (nmemb * size))) eqn:Er; [|exact Hstay].
    apply andb_true_iff in Er as (E1 & E2).
    apply Z.leb_le in E1, E2.
    rewrite (bind_run _ _ _ _ _ eq_refl).
    destruct (Z.eq_dec (to_size (nmemb * size)) 0) as [Ez | Hnz].
    { unfold calloc. rewrite Ez. exact Hstay. }
    destruct (calloc_block h bs mid (fuel_for h) nmemb size Hinv ltac:(lia) Hfuel)
      as (r & h' & Hrun & [(-> & ->)
          | (Hnn & bs' & mid' & s & Hinv' & Hins & _ & _ & _ & Hco)]).
    + rewrite (bind_run _ _ _ _ _ Hrun). exact Hstay.
    + rewrite (bind_run _ _ _ _ _ Hrun).
      replace (r =? NULL) with false by (symmetry; apply Z.eqb_neq; exact Hnn).
      exists (r :: live), h', bs', mid'. split; [reflexivity|].
      split; [|intros _; exact Hco].
      exact (client_inv_insert h h' live bs bs' mid' r s Hinv' Hl Hins).
  - (* free *)
    destruct (bool_decide (p ∈ live)) eqn:Ep; [|exact Hstay].
    apply bool_decide_eq_true in Ep.
    destruct (live_block _ _ _ _ _ Hci Ep) as (a & s & -> & Hin).
    destruct (free_block h bs mid a s Hinv Hin)
      as (h' & bs' & mid' & Hrun & Hsame & Hinv' & Hins & _ & Hco & _).
    rewrite (bind_run _ _ _ _ _ Hrun).
    exists (drop_ptr (bt_payload a) live), h', bs', mid'.
    split; [reflexivity|]. split; [|intros _; exact Hco].
    apply (client_inv_remove h h' live bs bs' mid mid' a s Hci Hinv');
      [apply Hsame | exact Hins].
  - (* realloc *)
    destruct (bool_decide (p ∈ live)) eqn:Ep; [|exact Hstay].
    apply bool_decide_eq_true in Ep.
    destruct (in_range size) eqn:Er; [|exact Hstay].
    apply andb_true_iff in Er as (E1 & E2).
    apply Z.leb_le in E1, E2. cbn [andb].
    rewrite (bind_run _ _ _ _ _ eq_refl).
    destruct (live_block _ _ _ _ _ Hci Ep) as (a & s & -> & Hin).
    destruct (Z.eq_dec size 0) as [-> | Hnz].
    { destruct (free_block h bs mid a s Hinv Hin)
        as (h' & bs' & mid' & Hrun & Hsame & Hinv' & Hins & _).
      unfold realloc. cbn [Z.eqb]. rewrite bind_assoc.
      rewrite (bind_run _ _ _ _ _ Hrun).
      exists (drop_ptr (bt_payload a) live), h', bs', mid'.
      split; [reflexivity|]. split; [|intros E; discriminate].
      apply (client_inv_remove h h' live bs bs' mid mid' a s Hci Hinv');
        [apply Hsame | exact Hins]. }
    replace (size =? 0) with false by (symmetry; apply Z.eqb_neq; exact Hnz).
    pose proof (heap_inv_tiled _ _ _ Hinv) as Ht.
    destruct (useds_split _ _ _ _ _ Ht Hin) as (b1 & b2 & Ebs & Ea).
    subst bs a.
    destruct (realloc_block h b1 s b2 mid (fuel_for h) size Hinv ltac:(lia) Hfuel)
      as (r & h' & Hrun & [(-> & ->)
          | (Hnn & bs' & mid' & s' & Hinv' & Ehs & Hperm & _)]).
    + rewrite (bind_run _ _ _ _ _ Hrun).
      exists live, h, (b1 ++ (s, USED) :: b2), mid.
      split; [reflexivity|]. split; [exact Hci | intros E; discriminate].
    + rewrite (bind_run _ _ _ _ _ Hrun).
      replace (r =? NULL) with false by (symmetry; apply Z.eqb_neq; exact Hnn).
      exists (r :: drop_ptr (bt_payload (bt_heap_start h + 32 + span b1)) live),
             h', bs', mid'.
      split; [reflexivity|]. split; [|intros E; discriminate].
      split; [exact Hinv'|].
      unfold payloads_of in *. rewrite Ehs, Hperm, fmap_cons. cbn [fst].
      replace (bt_payload (bt_fromptr r)) with r
        by (unfold bt_payload, bt_fromptr; lia).
      apply perm_skip. unfold drop_ptr. rewrite Hl.
      rewrite useds_app. cbn [useds]. change (USED =? FREE) with false. cbv iota.
      assert (Eu : useds (bt_heap_start h + 32) (b1 ++ (s, USED) :: b2)
                   = useds (bt_heap_start h + 32) b1 ++
                     (bt_heap_start h + 32 + span b1, s)
                       :: useds (bt_heap_start h + 32 + span b1 + s) b2)
        by (rewrite useds_app; reflexivity).
      rewrite (payloads_drop h _ _ _ _ _ _ Ht Eu). reflexivity.
Qed.

Lemma serve_all_inv cs :
  forall h live bs mid,
    client_inv h live bs mid ->
    exists live' h' bs' mid',
      serve_all cs live h = Some (live', h') /\ client_inv h' live' bs' mid' /\
      (forallb (fun c => negb (is_realloc c)) cs = true ->
       coalesced bs -> coalesced bs').
Proof.
  induction cs as [|c cs IH]; intros h live bs mid Hci.
  - exists live, h, bs, mid. split; [reflexivity|]. split; [exact Hci | tauto].
  - destruct (serve_inv c h live bs mid Hci)
      as (live1 & h1 & bs1 & mid1 & Hrun1 & Hci1 & Hco1).
    destruct (IH h1 live1 bs1 mid1 Hci1)
      as (live2 & h2 & bs2 & mid2 & Hrun2 & Hci2 & Hco2).
    exists live2, h2, bs2, mid2. split; [|split; [exact Hci2|]].
    + cbn [serve_all]. rewrite (bind_run _ _ _ _ _ Hrun1). exact Hrun2.
    + cbn [forallb]. intros Hall Hco.
      apply andb_true_iff in Hall as (Hc & Hall).
      apply Hco2; [exact Hall|]. apply Hco1; [|exact Hco].
      destruct (is_realloc c); [discriminate | reflexivity].
Qed.

(** After [mm_init], whatever calls a client makes with the pointers it
    holds, every call returns (no access leaves the arena, no search runs
    out of fuel), the heap stays well formed, and the pointers the client
    holds are exactly the payloads of the in-use blocks. *)
Theorem client_safe (cs : list call) (h : heap) :
  0 < mem_lo h <= mem_brk h -> mem_brk h mod 4 = 0 ->
  mem_brk h + 48 <= mem_max h -> mem_max h < SBRK_FAIL ->
  mem_max h - mem_lo h < 2 ^ 31 ->
  exists live h' bs mid,
    (mm_init ;; serve_all cs []) h = Some (live, h') /\
    heap_inv h' bs mid /\
    live ≡ₚ payloads_of (bt_heap_start h' + 32) bs.
Proof.
  intros Hlo Hal Hroom Hmax Hlen.
  destruct (mm_init_inv h Hlo Hal Hroom Hmax Hlen) as (h0 & Hrun & Hinv & _).
  destruct (serve_all_inv cs h0 [] [] [] (conj Hinv (Permutation_refl _)))
    as (live & h' & bs & mid & Hrun' & (Hinv' & Hl) & _).
  exists live, h', bs, mid. split; [|split; [exact Hinv' | exact Hl]].
  rewrite (bind_run _ _ _ _ _ Hrun). exact Hrun'.
Qed.

(** A client that never calls [realloc] never sees two adjacent free
    blocks: after [mm_init] and any of its calls the heap is well formed
    and no free block is followed by a free block. *)
Theorem client_coalesced (cs : list call) (h : heap) :
  0 < mem_lo h <= mem_brk h -> mem_brk h mod 4 = 0 ->
  mem_brk h + 48 <= mem_max h -> mem_max h < SBRK_FAIL ->
  mem_max h - mem_lo h < 2 ^ 31 ->
  forallb (fun c => negb (is_realloc c)) cs = true ->
  exists live h' bs mid,
    (mm_init ;; serve_all cs []) h = Some (live, h') /\
    heap_inv h' bs mid /\ coalesced bs.
Proof.
  intros Hlo Hal Hroom Hmax Hlen Hall.
  destruct (mm_init_inv h Hlo Hal Hroom Hmax Hlen) as (h0 & Hrun & Hinv & _).
  destruct (serve_all_inv cs h0 [] [] [] (conj Hinv (Permutation_refl _)))
    as (live & h' & bs & mid & Hrun' & (Hinv' & _) & Hco).
  exists live, h', bs, mid. split; [|split; [exact Hinv' | exact (Hco Hall I)]].
  rewrite (bind_run _ _ _ _ _ Hrun). exact Hrun'.
Qed.

(** ** Requests near [2^64] *)

Lemma malloc_asize_top size :
  2 ^ 64 - 7 <= size < 2 ^ 64 -> malloc_asize size = 16.
Proof.
  intros H. unfold malloc_asize, to_size, ALIGNMENT.
  destruct (size <=? 8) eqn:E; [reflexivity|]. zlia.
Qed.

Lemma malloc_asize_zero size :
  2 ^ 64 - 23 <= size <= 2 ^ 64 - 8 -> malloc_asize size = 0.
Proof.
  intros H. unfold malloc_asize, to_size, ALIGNMENT.
  destruct (size <=? 8) eqn:E; [apply Z.leb_le in E; lia|]. zlia.
Qed.

(** For a request of [2^64 - 7] bytes or more the needed block size wraps
    around to 16: [malloc] does not fail (unless there is no free block
    and the arena cannot grow by 16 bytes) and hands out a block of 16
    bytes, 8 of them payload; the heap stays well formed. *)
Theorem malloc_huge_request (h : heap) (bs : list (Z * Z)) (mid : list Z)
    (fuel : nat) (size : Z) :
  heap_inv h bs mid -> 2 ^ 64 - 7 <= size < 2 ^ 64 ->
  (length mid + 1 < fuel)%nat ->
  exists r h',
    malloc fuel size h = Some (r, h') /\
    ((r = NULL /\ h' = h /\
      (forall c, (c, FREE) ∉ bs) /\ mem_max h < mem_brk h + 16) \/
     (r <> NULL /\ exists bs' mid',
        heap_inv h' bs' mid' /\
        inserted (bt_fromptr r, 16) (useds (bt_heap_start h + 32) bs)
                 (useds (bt_heap_start h' + 32) bs'))).
Proof.
  intros Hinv Hsize Hfuel.
  pose proof (malloc_asize_top size Hsize) as Ea.
  pose proof (heap_inv_tiled _ _ _ Hinv) as Htb.
  destruct (malloc_block_gen h bs mid fuel size Hinv ltac:(lia)
              ltac:(rewrite Ea; lia) ltac:(rewrite Ea; reflexivity)
              ltac:(rewrite Ea; lia) Hfuel)
    as (r & h' & Hrun & [(-> & ->)
        | (Hnn & bs' & mid' & s & Hinv' & Ehs & Hins & Hs & _)]).
  - exists NULL, h. split; [exact Hrun|]. left.
    split; [reflexivity|]. split; [reflexivity|].
    destruct (malloc_inv_gen h bs mid fuel size Hinv ltac:(lia)
                ltac:(rewrite Ea; lia) ltac:(rewrite Ea; reflexivity)
                ltac:(rewrite Ea; lia) Hfuel)
      as [(b1 & c & b2 & m1 & m2 & h2 & Ebs & _ & _ & _ & _ & Hrun2 & _)
         | [(_ & _ & h2 & Hrun2 & _)
           | (Hnone & Hfull & _)]].
    + rewrite Ebs in Htb. apply tiled_app in Htb as (Ht1 & _).
      pose proof (tiled_span _ _ _ Ht1) as Hsp.
      pose proof (heap_inv_base _ _ _ Hinv).
      rewrite Hrun in Hrun2. injection Hrun2 as E _. unfold NULL in E. lia.
    + pose proof (span_absorb_prev _ _ _ Htb) as Esp.
      pose proof (heap_inv_base _ _ _ Hinv).
      rewrite Hrun in Hrun2. injection Hrun2 as E _. unfold NULL in E.
      assert (0 <= span bs - (absorb_prev bs).2).
      { rewrite <- Esp.
        destruct (prev_cases h _ bs Htb)
          as [-> | (b1' & p & pf & -> & Hpf & _)]; [cbn; lia|].
        rewrite absorb_prev_snoc. rewrite tiled_app in Htb.
        destruct Htb as (Ht1 & Ht2).
        destruct (pf =? FREE); cbn [fst].
        - exact (tiled_span _ _ _ Ht1).
        - rewrite span_app. pose proof (tiled_span _ _ _ Ht1).
          pose proof (tiled_span _ _ _ Ht2). lia. }
      lia.
    + rewrite Ea in Hnone, Hfull. split; [|exact Hfull].
      intros c Hc. specialize (Hnone c Hc).
      apply list_elem_of_split in Hc as (b1 & b2 & Ebs). rewrite Ebs in Htb.
      destruct (tiled_block _ _ _ _ _ _ Htb) as ((_ & Hmin & _) & _). lia.
  - exists r, h'. split; [exact Hrun|]. right. split; [exact Hnn|].
    exists bs', mid'. split; [exact Hinv'|].
    rewrite Ea in Hs. rewrite Ehs.
    assert (Hin : (bt_fromptr r, s) ∈ useds (bt_heap_start h + 32) bs').
    { destruct Hins as (u1 & u2 & _ & ->). apply elem_of_app. right. left. }
    pose proof (heap_inv_tiled _ _ _ Hinv') as Htb'. rewrite Ehs in Htb'.
    destruct (useds_split _ _ _ _ _ Htb' Hin) as (c1 & c2 & Ebs' & _).
    rewrite Ebs' in Htb'.
    destruct (tiled_block _ _ _ _ _ _ Htb') as ((_ & _ & Hm & _) & _).
    assert (s = 16) as -> by zlia. exact Hins.
Qed.

(** [extend_heap] asked for 0 bytes: the block it writes at the break has
    size 0, [coalesce] takes it for its own predecessor, a free one, and
    reads the links of a block 4 bytes below the break: the second link
    word lies beyond the break. *)
Lemma extend_heap_zero_faults h bs mid :
  heap_inv h bs mid -> extend_heap 0 h = None.
Proof.
  intros Hinv.
  pose proof (heap_inv_tiled _ _ _ Hinv) as Htb.
  pose proof (tiled_span _ _ _ Htb) as Hsp.
  pose proof (tiled_span_mod _ _ _ Htb) as Hsm.
  pose proof Hinv as ((Hlo0 & Hbrk & Hmax & _ & Hstart & ((_ & _ & _ & Hlo & _) & _) & Hend & _)
                      & (Hs4 & _) & _).
  set (hs := bt_heap_start h) in *. set (b := mem_brk h) in *.
  assert (Hb4 : b mod 4 = 0) by zlia.
  unfold extend_heap. cbv zeta.
  change (Z.land (to_size (0 + ALIGNMENT - 1)) (to_size (- ALIGNMENT))) with 0.
  set (h1 := set_brk (b + 0) h).
  assert (Hsbrk : mem_sbrk 0 h = Some (b, h1)).
  { unfold mem_sbrk. fold b.
    replace (b + 0 <=? mem_max h) with true by (symmetry; apply Z.leb_le; lia).
    reflexivity. }
  rewrite (bind_run _ _ _ _ _ Hsbrk).
  replace (b =? SBRK_FAIL) with false by (symmetry; apply Z.eqb_neq; lia).
  unfold bt_fromptr.
  assert (Hv1 : valid_word h1 (b - 4) = true)
    by (rewrite valid_word_iff; cbn; fold b; zlia).
  erewrite bind_run by (apply bt_make_tag; [exact Hv1 | lia]).
  set (h2 := poke (b - 4) (Z.lor 0 FREE) h1).
  erewrite bind_run
    by (apply (bt_footer_tag h2 (b - 4) 0 FREE);
        [exact Hv1 | apply peek_poke_same | lia | reflexivity | unfold FREE; lia]).
  erewrite bind_run
    by (apply bt_make_tag; [rewrite valid_word_iff; cbn; fold b; zlia | lia]).
  set (h3 := poke (b - 4 + 0 - 4) (Z.lor 0 FREE) h2).
  rewrite (bind_run _ _ h3 tt (set_bt_heap_last (b - 4) h3)) by reflexivity.
  set (h4 := set_bt_heap_last (b - 4) h3).
  assert (Hv4 : valid_word h4 (b - 4) = true) by exact Hv1.
  assert (Hv8 : valid_word h4 (b - 4 - 4) = true)
    by (rewrite valid_word_iff; cbn; fold b; zlia).
  assert (Hp4 : peek h4 (b - 4) = 0).
  { unfold h4, h3, h2. rewrite peek_set_last. peeks. reflexivity. }
  assert (Hp8 : peek h4 (b - 4 - 4) = 0).
  { unfold h4, h3, h2. rewrite peek_set_last. peeks. reflexivity. }
  assert (Hsize4 : bt_size (b - 4) h4 = Some (0, h4)).
  { rewrite (bt_size_run _ _ Hv4), Hp4. reflexivity. }
  assert (Hprev : bt_prev (b - 4) h4 = Some (b - 4, h4)).
  { unfold bt_prev. rewrite (bind_run _ _ _ _ _ eq_refl).
    change (heap_start h4) with (heap_start h). rewrite Hstart.
    unfold bt_payload, bt_fromptr. fold hs.
    replace (b - 4 + 4 =? hs + 4 - 4) with false
      by (symmetry; apply Z.eqb_neq; lia).
    rewrite (bind_run _ _ _ _ _ (bt_size_run _ _ Hv8)), Hp8.
    unfold ret. change (Z.land 0 (Z.lnot USED) ÷ 4) with 0.
    f_equal. f_equal. lia. }
  assert (Hnext : bt_next (b - 4) h4 = Some (NULL, h4)).
  { unfold bt_next. rewrite (bind_run _ _ _ _ _ Hsize4). reflexivity. }
  assert (Hused : bt_used (b - 4) h4 = Some (0, h4)).
  { rewrite (bt_used_run _ _ Hv4), Hp4. reflexivity. }
  assert (Hfree : bt_free (b - 4) h4 = Some (1, h4)).
  { rewrite (bt_free_run _ _ Hv4). unfold blk_free. rewrite Hp4. reflexivity. }
  unfold coalesce. cbv zeta. unfold bt_fromptr.
  rewrite (bind_run _ _ _ _ _ Hprev), (bind_run _ _ _ _ _ Hnext).
  rewrite (bind_run _ _ _ _ _ Hsize4).
  rewrite (bind_run _ _ _ _ _ eq_refl).
  rewrite (bind_run _ _ _ _ _ Hused).
  change (truth 0) with false. cbv iota.
  rewrite (bind_run _ _ h4 false h4) by reflexivity. cbv iota.
  rewrite (bind_run _ _ _ _ _ Hused).
  change (truth 0) with false. cbv iota.
  rewrite (bind_run _ _ h4 false h4) by reflexivity. cbv iota.
  rewrite (bind_run _ _ _ _ _ Hfree).
  change (truth 1) with true. cbv iota.
  change (bt_heap_last h4) with (b - 4). rewrite Z.eqb_refl.
  rewrite (bind_run _ _ h4 true h4) by reflexivity. cbv iota.
  rewrite (bind_run _ _ _ _ _ Hsize4).
  apply bind_fault. unfold lifo_prev. apply bind_fault.
  unfold lifo_get_prev, load, valid_word.
  change (mem_brk h4) with (b + 0).
  replace (b - 4 + 8 + 4 <=? b + 0) with false by (symmetry; apply Z.leb_gt; lia).
  rewrite andb_false_r. reflexivity.
Qed.

(** For a request between [2^64 - 23] and [2^64 - 8] bytes the needed
    block size wraps around to 0, and [malloc] does not return. When the
    heap has a free block, [place] tags the block found with size 0, takes
    [NULL] for the block that follows it and links [NULL] into the free
    list: the store through [NULL] is an access outside the arena. When
    it has none, [extend_heap] is asked for 0 bytes and [coalesce] reads
    beyond the break. *)
Theorem malloc_wrapped_request_faults (h : heap) (bs : list (Z * Z))
    (mid : list Z) (fuel : nat) (size : Z) :
  heap_inv h bs mid -> 8 < mem_lo h ->
  2 ^ 64 - 23 <= size <= 2 ^ 64 - 8 ->
  (length mid + 1 < fuel)%nat ->
  malloc fuel size h = None.
Proof.
  intros Hinv Hlo8 Hsize Hfuel.
  pose proof (malloc_asize_zero size Hsize) as Ea.
  pose proof (heap_inv_arena _ _ _ Hinv) as Hok.
  pose proof (heap_inv_tiled _ _ _ Hinv) as Htb.
  pose proof (heap_inv_base _ _ _ Hinv) as Hhs.
  pose proof Hinv as ((_ & _ & _ & _ & _ & ((_ & _ & _ & Hlo & _) & _) & _) & Hfl & _).
  pose proof Hfl as (Hs4 & _).
  destruct (find_fit_inv h bs mid fuel 0 Hinv Hfuel)
    as (r & Hfind & [(-> & _)
        | (b1 & c' & b2 & m1 & m2 & Ebs & Er & Emid & _)]).
  { unfold malloc.
    replace (size =? 0) with false by (symmetry; apply Z.eqb_neq; lia).
    cbv zeta. rewrite Ea. rewrite (bind_run _ _ _ _ _ Hfind).
    cbn [Z.eqb NULL negb]. apply bind_fault.
    exact (extend_heap_zero_faults h bs mid Hinv). }
  rewrite Ebs in Htb. pose proof Htb as Htb'.
  apply tiled_app in Htb' as (Ht1 & Hblk & _). rewrite <- Er in Hblk.
  pose proof (tiled_span _ _ _ Ht1).
  destruct (block_at_read h r c' FREE Hok Hs4 ltac:(unfold FREE; lia) Hblk)
    as (Hvr & _ & Hsz & _ & _ & Hrange).
  pose proof Hblk as (Hbm & Hcmin & _ & Hrlo & Hrhi & _).
  rewrite Emid in Hfl.
  destruct (free_list_unlink h m1 r m2 (bt_heap_start h + 16) Hok Hfl)
    as (p & _ & Hprev & _ & Hp & _).
  destruct (node_valid _ _ Hs4 Hp) as (_ & Hvp & _).
  pose proof Hp as (Hpm & _).
  unfold malloc.
  replace (size =? 0) with false by (symmetry; apply Z.eqb_neq; lia).
  cbv zeta. rewrite Ea. rewrite (bind_run _ _ _ _ _ Hfind).
  replace (r =? NULL) with false
    by (symmetry; apply Z.eqb_neq; unfold NULL; lia).
  cbn [negb]. apply bind_fault.
  unfold place.
  rewrite (bind_run _ _ _ _ _ (bt_size_run _ _ Hvr)).
  cbv zeta. rewrite Hsz, (to_size_small c'), Z.sub_0_r, (to_size_small c') by lia.
  replace (16 <=? c') with true by (symmetry; apply Z.leb_le; lia).
  erewrite bind_run by (apply bt_make_tag; [exact Hvr | lia]).
  set (h1 := poke r (Z.lor 0 USED) h).
  erewrite bind_run
    by (apply (bt_footer_tag h1 r 0 USED);
        [exact Hvr | apply peek_poke_same | lia | reflexivity | unfold USED; lia]).
  erewrite bind_run
    by (apply bt_make_tag; [rewrite valid_word_iff; cbn; zlia | lia]).
  set (h2 := poke (r + 0 - 4) (Z.lor 0 USED) h1).
  assert (Hnext : bt_next r h2 = Some (NULL, h2)).
  { unfold bt_next.
    rewrite (bind_run _ _ _ _ _ (bt_size_run h2 r Hvr)).
    unfold h2, h1. peeks. reflexivity. }
  rewrite (bind_run _ _ _ _ _ Hnext).
  assert (Hprev2 : lifo_prev r h2 = Some (p, h2)).
  { apply lifo_prev_iff. apply lifo_prev_iff in Hprev as (Hv & Hl).
    split; [exact Hv|]. unfold h2, h1. peeks. exact Hl. }
  rewrite (bind_run _ _ _ _ _ Hprev2).
  apply bind_fault.
  unfold lifo_connect, lifo_create_next, lifo_create_prev,
    lifo_put_next, lifo_put_prev.
  erewrite bind_run by (apply store_run; exact Hvp).
  unfold store, valid_word, NULL.
  change (mem_lo (poke (p + 4) (to_word ((0 - p) ÷ 4)) h2)) with (mem_lo h).
  replace (mem_lo h <=? 0 + 8) with false by (symmetry; apply Z.leb_gt; lia).
  reflexivity.
Qed.

(** ** Boundary tags and links *)

(** A tag written by [bt_make] reads back: the size, the in-use bit and
    its negation. *)
Theorem bt_make_read_back (h : heap) (a s f : Z) :
  valid_word h a = true -> 0 <= s < 2 ^ 31 -> s mod 2 = 0 ->
  f = FREE \/ f = USED ->
  (bt_make a s f ;;
   sz <- bt_size a ;; u <- bt_used a ;; fr <- bt_free a ;;
   ret (sz, u, fr)) h
  = Some ((s, f, 1 - f), poke a (Z.lor s f) h).
Proof.
  intros Hv Hs Hm Hf.
  assert (Hf01 : 0 <= f <= 1) by (unfold FREE, USED in Hf; lia).
  erewrite bind_run by (apply bt_make_tag; [exact Hv | lia]).
  set (h1 := poke a (Z.lor s f) h).
  assert (Hv1 : valid_word h1 a = true) by exact Hv.
  rewrite (bind_run _ _ _ _ _ (bt_size_run _ _ Hv1)).
  rewrite (bind_run _ _ _ _ _ (bt_used_run _ _ Hv1)).
  rewrite (bind_run _ _ _ _ _ (bt_free_run _ _ Hv1)).
  unfold blk_free, h1. rewrite peek_poke_same.
  rewrite tag_size, tag_flag by assumption.
  destruct Hf as [-> | ->]; reflexivity.
Qed.

(** In a well-formed heap the tags lead from a block to its neighbours
    and back: the footer is the last word of the block, [bt_next] is the
    block that follows, and [bt_prev] of that block is the block itself.
    [bt_prev] reads the footer below the tag; it does not return [NULL]. *)
Theorem bt_next_prev (h : heap) (b1 : list (Z * Z)) (s f : Z)
    (b2 : list (Z * Z)) (mid : list Z) :
  heap_inv h (b1 ++ (s, f) :: b2) mid ->
  bt_footer (bt_heap_start h + 32 + span b1) h
  = Some (bt_heap_start h + 32 + span b1 + s - 4, h) /\
  bt_next (bt_heap_start h + 32 + span b1) h
  = Some (bt_heap_start h + 32 + span b1 + s, h) /\
  bt_prev (bt_heap_start h + 32 + span b1 + s) h
  = Some (bt_heap_start h + 32 + span b1, h).
Proof.
  intros Hinv.
  pose proof (heap_inv_arena _ _ _ Hinv) as Hok.
  pose proof (heap_inv_tiled _ _ _ Hinv) as Htb.
  pose proof Hinv as ((_ & _ & _ & _ & Hstart & _) & (Hs4 & _) & _).
  set (hs := bt_heap_start h) in *. set (cur := hs + 32 + span b1) in *.
  apply tiled_app in Htb as (Ht1 & Hcur & Hf & _). fold cur in Hcur.
  pose proof (tiled_span _ _ _ Ht1).
  assert (Hf01 : 0 <= f <= 1) by (unfold FREE, USED in Hf; lia).
  destruct (block_at_read h cur s f Hok Hs4 Hf01 Hcur)
    as (Hvcur & Hvft & Hsz & _ & Hfsz & Hrange).
  pose proof Hcur as (_ & Hmin & Hm16 & _ & _ & Hhd & _).
  split; [|split].
  - apply (bt_footer_tag h cur s f); [exact Hvcur | exact Hhd | lia | exact Hm16 | exact Hf01].
  - apply (bt_next_tag h cur s f); [exact Hvcur | exact Hhd | lia | exact Hm16 | exact Hf01].
  - unfold bt_prev. rewrite (bind_run _ _ _ _ _ eq_refl).
    unfold bt_payload, bt_fromptr. rewrite Hstart. fold hs.
    replace (cur + s + 4 =? hs + 4 - 4) with false
      by (symmetry; apply Z.eqb_neq; unfold cur; lia).
    rewrite (bind_run _ _ _ _ _ (bt_size_run _ _ Hvft)).
    rewrite Hfsz. unfold ret. f_equal. f_equal. zlia.
Qed.

(** [lifo_connect] links two nodes in both directions: afterwards the
    successor of the first is the second and the predecessor of the
    second is the first. *)
Theorem lifo_connect_linked (h : heap) (a b : Z) :
  valid_word h (a + 4) = true -> valid_word h (b + 8) = true ->
  (b - a) mod 16 = 0 -> a <> b -> - 2 ^ 31 <= b - a < 2 ^ 31 ->
  exists h',
    lifo_connect a b h = Some (tt, h') /\
    lifo_next a h' = Some (b, h') /\ lifo_prev b h' = Some (a, h') /\
    forall w, w <> a + 4 -> w <> b + 8 -> peek h' w = peek h w.
Proof.
  intros Hva Hvb Hm Hne Hr.
  exists (connect_state a b h).
  split; [apply lifo_connect_run; assumption|].
  unfold connect_state. split; [|split].
  - apply lifo_next_iff. split; [exact Hva|]. peeks.
    rewrite to_word_small by zlia. unfold link_ptr.
    replace ((b - a) ÷ 4 =? 0) with false by (symmetry; apply Z.eqb_neq; zlia).
    zlia.
  - apply lifo_prev_iff. split; [exact Hvb|]. peeks.
    rewrite to_word_small by zlia. unfold link_ptr.
    replace ((a - b) ÷ 4 =? 0) with false by (symmetry; apply Z.eqb_neq; zlia).
    zlia.
  - intros w H1 H2. peeks. reflexivity.
Qed.

(** [lifo_add] puts a node at the head of the free list: it becomes the
    anchor's successor, ahead of the nodes that were there. *)
Theorem lifo_add_front (h : heap) (mid : list Z) (tl y : Z) :
  arena_ok h -> free_list h mid tl ->
  node_ok h y -> y ∉ bt_heap_start h :: mid ++ [tl] ->
  exists h',
    lifo_add y h = Some (tt, h') /\ same_arena h h' /\
    free_list h' (y :: mid) tl /\
    lifo_next (bt_heap_start h) h' = Some (y, h') /\
    lifo_prev y h' = Some (bt_heap_start h, h').
Proof.
  intros Hok Hfl Hy Hfresh.
  destruct (free_list_add h mid tl y Hok Hfl Hy Hfresh)
    as (n & _ & _ & _ & Hrun & Hfl').
  exists (add_state y n h). split; [exact Hrun|].
  split; [repeat split|]. split; [exact Hfl'|].
  destruct Hfl' as (_ & (_ & _ & Hc) & _).
  change (bt_heap_start (add_state y n h)) with (bt_heap_start h) in Hc.
  cbn [app chain] in Hc. destruct Hc as (Hl & _). exact Hl.
Qed.

(** ** Well-formed heaps at concrete arenas *)

Ltac conc_tiled :=
  cbn [tiled];
  repeat first
    [ exact I
    | split; [conc_block|]
    | split; [first [left; reflexivity | right; reflexivity]|] ].

Ltac conc_inv :=
  unfold heap_inv, arena_shape;
  split; [|split; [conc_free_list|]];
  [ split; [conc|]; split; [conc|]; split; [conc|]; split; [conc|];
    split; [conc|]; split; [conc_tiled|]; split; conc
  | ].

Lemma init_heap_inv : heap_inv init_heap [] [].
Proof. conc_inv. reflexivity. Qed.

Lemma boxed_heap_inv : heap_inv boxed_heap [(32, USED); (16, USED)] [].
Proof. conc_inv. reflexivity. Qed.

Lemma shrink_heap_inv : heap_inv shrink_heap [(64, USED); (16, FREE)] [4204].
Proof. conc_inv. vm_compute. reflexivity. Qed.

Lemma grow_heap_inv :
  heap_inv grow_heap [(32, USED); (64, FREE); (16, USED)] [4172].
Proof. conc_inv. vm_compute. reflexivity. Qed.

Lemma three_free_heap_inv :
  heap_inv three_free_heap
    [(32, FREE); (16, USED); (64, FREE); (16, USED); (48, FREE); (16, USED)]
    [4268; 4188; 4140].
Proof.
  conc_inv. vm_compute.
  exact (Permutation_rev [4268; 4188; 4140]).
Qed.

Lemma mm_init_spec_witness :
  exists h',
    mm_init fresh_arena = Some (0, h') /\ heap_inv h' [] [] /\
    mem_brk h' = 4096 + 48 /\ bt_heap_start h' = 4096 + 12.
Proof.
  destruct (mm_init_spec fresh_arena)
    as (h' & Hrun & Hinv & _ & Hbrk & _ & Hhs & _).
  - cbn. lia.
  - reflexivity.
  - cbn. lia.
  - conc.
  - cbn. lia.
  - exists h'. split; [exact Hrun|]. split; [exact Hinv|].
    split; [exact Hbrk | exact Hhs].
Defined.

Lemma mm_init_no_room_witness :
  mm_init (mkHeap ∅ 4096 4096 4100 0 0 0)
  = Some (-1, set_heap_start SBRK_FAIL (mkHeap ∅ 4096 4096 4100 0 0 0)).
Proof. apply mm_init_no_room. cbn. lia. Defined.

Lemma extend_heap_spec_witness :
  exists h',
    extend_heap 32 init_heap = Some (4144, h') /\
    mem_brk h' = mem_brk init_heap + 32 /\
    heap_inv h' [(32, FREE)] [4140].
Proof.
  destruct (extend_heap_spec init_heap [] [] 32 init_heap_inv
              ltac:(lia) eq_refl ltac:(lia)) as (_ & Hgrow).
  destruct Hgrow as (h' & Hrun & _ & Hbrk & _ & _ & _ & Hinv & _); [conc|].
  exists h'. split; [exact Hrun|]. split; [exact Hbrk | exact Hinv].
Defined.

Lemma find_fit_heap_witness :
  exists r, find_fit 5 40 three_free_heap = Some (r, three_free_heap) /\
    ((r = NULL /\
      forall c, (c, FREE) ∈ [(32, FREE); (16, USED); (64, FREE); (16, USED);
                             (48, FREE); (16, USED)] -> c < 40) \/
     (r <> NULL /\ exists b1 c b2,
        [(32, FREE); (16, USED); (64, FREE); (16, USED); (48, FREE); (16, USED)]
        = b1 ++ (c, FREE) :: b2 /\
        r = bt_heap_start three_free_heap + 32 + span b1 /\
        40 <= c /\
        forall c', (c', FREE) ∈ [(32, FREE); (16, USED); (64, FREE);
                                 (16, USED); (48, FREE); (16, USED)] ->
                   40 <= c' -> c <= c')).
Proof.
  apply (find_fit_heap three_free_heap _ _ 5 40 three_free_heap_inv).
  cbn. lia.
Defined.

Lemma malloc_spec_witness :
  exists r h',
    malloc 5 50 three_free_heap = Some (r, h') /\
    ((r = NULL /\ h' = three_free_heap) \/
     (r <> NULL /\ exists bs' mid' s,
        heap_inv h' bs' mid' /\
        inserted (bt_fromptr r, s)
          (useds (bt_heap_start three_free_heap + 32)
             [(32, FREE); (16, USED); (64, FREE); (16, USED); (48, FREE);
              (16, USED)])
          (useds (bt_heap_start h' + 32) bs') /\
        50 + 8 <= s /\
        payloads_kept three_free_heap h'
          (useds (bt_heap_start three_free_heap + 32)
             [(32, FREE); (16, USED); (64, FREE); (16, USED); (48, FREE);
              (16, USED)]))).
Proof.
  apply (malloc_spec three_free_heap _ _ 5 50 three_free_heap_inv).
  - lia.
  - cbn. lia.
Defined.

Lemma three_free_coalesced :
  coalesced [(32, FREE); (16, USED); (64, FREE); (16, USED); (48, FREE);
             (16, USED)].
Proof. cbn. repeat split; intros; discriminate. Qed.

Lemma malloc_keeps_coalesced_witness :
  exists r h' bs' mid',
    malloc 5 50 three_free_heap = Some (r, h') /\ heap_inv h' bs' mid' /\
    coalesced bs'.
Proof.
  apply (malloc_keeps_coalesced three_free_heap _ _ 5 50 three_free_heap_inv).
  - exact three_free_coalesced.
  - lia.
  - cbn. lia.
Defined.

Lemma malloc_null_iff_witness :
  (exists h', malloc 5 50 three_free_heap = Some (NULL, h')) <->
  ((forall c, (c, FREE) ∈ [(32, FREE); (16, USED); (64, FREE); (16, USED);
                           (48, FREE); (16, USED)] -> c < malloc_asize 50) /\
   mem_max three_free_heap < mem_brk three_free_heap + malloc_asize 50).
Proof.
  apply (malloc_null_iff three_free_heap _ _ 5 50 three_free_heap_inv).
  - lia.
  - cbn. lia.
Defined.

Lemma malloc_aligned_witness : (4192 - heap_start three_free_heap) mod 16 = 0.
Proof.
  apply (malloc_aligned three_free_heap _ _ 5 50 4192
           (exec (malloc 5 50) three_free_heap) three_free_heap_inv).
  - lia.
  - cbn. lia.
  - vm_compute. reflexivity.
  - discriminate.
Defined.

Lemma malloc_arena_witness :
  mem_brk (exec (malloc 5 50) three_free_heap) = mem_brk three_free_heap.
Proof.
  destruct (malloc_arena three_free_heap _ _ 5 50 4192
              (exec (malloc 5 50) three_free_heap) three_free_heap_inv)
    as (Hfit & _).
  - lia.
  - cbn. lia.
  - vm_compute. reflexivity.
  - discriminate.
  - apply Hfit. exists 64. split; [|vm_compute; discriminate].
    right. right. left.
Defined.

Lemma malloc_fresh_witness : 4192 + 50 <= 4172 \/ 4172 + 16 <= bt_fromptr 4192.
Proof.
  apply (malloc_fresh three_free_heap _ _ 5 50 4192
           (exec (malloc 5 50) three_free_heap) three_free_heap_inv).
  - lia.
  - cbn. lia.
  - vm_compute. reflexivity.
  - discriminate.
  - conc_dec.
Defined.

Lemma free_spec_witness :
  exists h' bs' mid',
    free (bt_payload 4172) three_free_heap = Some (tt, h') /\
    heap_inv h' bs' mid' /\
    exists b1' sm b2' rest,
      bs' = b1' ++ (sm, FREE) :: b2' /\
      mid' = (bt_heap_start three_free_heap + 32 + span b1') :: rest /\
      bt_heap_start three_free_heap + 32 + span b1' <= 4172 /\
      4172 + 16 <= bt_heap_start three_free_heap + 32 + span b1' + sm.
Proof.
  destruct (free_spec three_free_heap _ _ 4172 16 three_free_heap_inv)
    as (h' & bs' & mid' & Hrun & _ & Hinv & _ & _ & Hfront).
  - conc_dec.
  - exists h', bs', mid'. split; [exact Hrun|]. split; [exact Hinv | exact Hfront].
Defined.

Lemma free_keeps_coalesced_witness :
  exists h',
    free (bt_payload (bt_heap_start three_free_heap + 32 + span [(32, FREE)]))
         three_free_heap = Some (tt, h') /\
    heap_inv h'
      (release [(32, FREE)] 16 [(64, FREE); (16, USED); (48, FREE); (16, USED)])
      (released_list (bt_heap_start three_free_heap + 32 + span [(32, FREE)])
         16 (absorb_prev [(32, FREE)]).2 [4268; 4188; 4140]) /\
    (forall ps, last [(32, FREE)] = Some (ps, FREE) ->
                absorb_prev [(32, FREE)] = (removelast [(32, FREE)], ps)) /\
    (forall ns t,
       [(64, FREE); (16, USED); (48, FREE); (16, USED)] = (ns, FREE) :: t ->
       absorb_next [(64, FREE); (16, USED); (48, FREE); (16, USED)] = (ns, t)) /\
    coalesced
      (release [(32, FREE)] 16 [(64, FREE); (16, USED); (48, FREE); (16, USED)]).
Proof.
  apply (free_keeps_coalesced three_free_heap [(32, FREE)] 16
           [(64, FREE); (16, USED); (48, FREE); (16, USED)]
           [4268; 4188; 4140] three_free_heap_inv).
  exact three_free_coalesced.
Defined.

Lemma free_malloc_same_witness :
  exists h1 h2,
    free (bt_payload (bt_heap_start boxed_heap + 32 + span [])) boxed_heap
    = Some (tt, h1) /\
    malloc 5 24 h1
    = Some (bt_payload (bt_heap_start boxed_heap + 32 + span []), h2) /\
    heap_inv h2 ([] ++ (32, USED) :: [(16, USED)]) [] /\
    payloads_kept boxed_heap h2
      (useds (bt_heap_start boxed_heap + 32) [] ++
       useds (bt_heap_start boxed_heap + 32 + span [] + 32) [(16, USED)]).
Proof.
  apply (free_malloc_same boxed_heap [] 32 [(16, USED)] [] 5 24 boxed_heap_inv).
  - intros ps E. discriminate.
  - intros ns E. discriminate.
  - lia.
  - reflexivity.
  - cbn. lia.
Defined.

Lemma calloc_heap_witness :
  exists r h',
    calloc 5 5 10 three_free_heap = Some (r, h') /\
    ((r = NULL /\ h' = three_free_heap) \/
     (r <> NULL /\ exists bs' mid' s,
        heap_inv h' bs' mid' /\
        inserted (bt_fromptr r, s)
          (useds (bt_heap_start three_free_heap + 32)
             [(32, FREE); (16, USED); (64, FREE); (16, USED); (48, FREE);
              (16, USED)])
          (useds (bt_heap_start h' + 32) bs') /\
        to_size (5 * 10) + 8 <= s /\
        (forall i, 0 <= i < to_size (5 * 10) -> byte_at h' (r + i) = 0) /\
        payloads_kept three_free_heap h'
          (useds (bt_heap_start three_free_heap + 32)
             [(32, FREE); (16, USED); (64, FREE); (16, USED); (48, FREE);
              (16, USED)]))).
Proof.
  apply (calloc_heap three_free_heap _ _ 5 5 10 three_free_heap_inv).
  - change (to_size (5 * 10)) with 50. lia.
  - cbn. lia.
Defined.

Lemma realloc_same_size_witness :
  realloc 0 (bt_payload (bt_heap_start boxed_heap + 32 + span [])) 24 boxed_heap
  = Some (bt_payload (bt_heap_start boxed_heap + 32 + span []), boxed_heap).
Proof.
  apply (realloc_same_size boxed_heap [] 32 [(16, USED)] [] 0 24 boxed_heap_inv).
  - lia.
  - reflexivity.
Defined.

Lemma realloc_shrink_spec_witness :
  exists h',
    realloc 0 (bt_payload (bt_heap_start shrink_heap + 32 + span [])) 8
            shrink_heap
    = Some (bt_payload (bt_heap_start shrink_heap + 32 + span []), h') /\
    heap_inv h' [(16, USED); (48, FREE); (16, FREE)] [4156; 4204].
Proof.
  destruct (realloc_shrink_spec shrink_heap [] 64 [(16, FREE)] [4204] 0 8
              shrink_heap_inv) as (h' & Hrun & _ & Hinv & _).
  - lia.
  - vm_compute. reflexivity.
  - exists h'. split; [exact Hrun | exact Hinv].
Defined.

Lemma realloc_shrink_no_merge_witness :
  exists h' bs' mid',
    realloc 0 (bt_payload (bt_heap_start shrink_heap + 32 + span [])) 8
            shrink_heap
    = Some (bt_payload (bt_heap_start shrink_heap + 32 + span []), h') /\
    heap_inv h' bs' mid' /\ ~ coalesced bs'.
Proof.
  apply (realloc_shrink_no_merge shrink_heap [] 64 16 [] [4204] 0 8
           shrink_heap_inv).
  - lia.
  - vm_compute. reflexivity.
Defined.

Lemma realloc_zero_frees_witness :
  exists h',
    realloc 0 (bt_payload (bt_heap_start boxed_heap + 32 + span [])) 0
            boxed_heap = Some (NULL, h') /\
    heap_inv h' [(32, FREE); (16, USED)] [4140].
Proof.
  destruct (realloc_zero_frees boxed_heap [] 32 [(16, USED)] [] 0
              boxed_heap_inv) as (h' & Hrun & _ & Hinv & _).
  exists h'. split; [exact Hrun | exact Hinv].
Defined.

Lemma realloc_grow_heap_witness :
  exists h',
    realloc 0 (bt_payload (bt_heap_start grow_heap + 32 + span [])) 40 grow_heap
    = Some (bt_payload (bt_heap_start grow_heap + 32 + span []), h') /\
    heap_inv h' [(48, USED); (48, FREE); (16, USED)] [4188].
Proof.
  destruct (realloc_grow_heap grow_heap [] 32 64 [(16, USED)] [] [] 0 40
              grow_heap_inv) as (h' & Hrun & _ & Hinv & _).
  - lia.
  - change (realloc_asize 40) with 48. lia.
  - exists h'. split; [exact Hrun | exact Hinv].
Defined.

Lemma realloc_relocate_heap_witness :
  exists r h',
    realloc 5 (bt_payload (bt_heap_start boxed_heap + 32 + span [])) 100
            boxed_heap = Some (r, h') /\
    ((r = NULL /\ h' = boxed_heap) \/
     (r <> NULL /\ exists bs' mid' s',
        heap_inv h' bs' mid' /\
        bt_heap_start h' = bt_heap_start boxed_heap /\
        useds (bt_heap_start boxed_heap + 32) bs'
        ≡ₚ (bt_fromptr r, s')
             :: (useds (bt_heap_start boxed_heap + 32) [] ++
                 useds (bt_heap_start boxed_heap + 32 + span [] + 32)
                       [(16, USED)]) /\
        100 + 8 <= s' /\
        (forall i, 0 <= i < 32 - 8 ->
           byte_at h' (r + i)
           = byte_at boxed_heap
               (bt_payload (bt_heap_start boxed_heap + 32 + span []) + i)) /\
        payloads_kept boxed_heap h'
          (useds (bt_heap_start boxed_heap + 32) [] ++
           useds (bt_heap_start boxed_heap + 32 + span [] + 32) [(16, USED)]))).
Proof.
  apply (realloc_relocate_heap boxed_heap [] 32 [(16, USED)] [] 5 100
           boxed_heap_inv).
  - lia.
  - cbn. lia.
  - vm_compute. reflexivity.
  - intros ns E. discriminate.
Defined.

Lemma realloc_heap_witness :
  exists r h',
    realloc 5 (bt_payload (bt_heap_start grow_heap + 32 + span [])) 40 grow_heap
    = Some (r, h') /\
    ((r = NULL /\ h' = grow_heap) \/
     (r <> NULL /\ exists bs' mid' s',
        heap_inv h' bs' mid' /\
        bt_heap_start h' = bt_heap_start grow_heap /\
        useds (bt_heap_start grow_heap + 32) bs'
        ≡ₚ (bt_fromptr r, s')
             :: (useds (bt_heap_start grow_heap + 32) [] ++
                 useds (bt_heap_start grow_heap + 32 + span [] + 32)
                       [(64, FREE); (16, USED)]) /\
        40 + 8 <= s' /\
        (forall i, 0 <= i < Z.min (32 - 8) 40 ->
           byte_at h' (r + i)
           = byte_at grow_heap
               (bt_payload (bt_heap_start grow_heap + 32 + span []) + i)) /\
        payloads_kept grow_heap h'
          (useds (bt_heap_start grow_heap + 32) [] ++
           useds (bt_heap_start grow_heap + 32 + span [] + 32)
                 [(64, FREE); (16, USED)]))).
Proof.
  apply (realloc_heap grow_heap [] 32 [(64, FREE); (16, USED)] [4172] 5 40
           grow_heap_inv).
  - lia.
  - cbn. lia.
Defined.

Lemma bt_make_read_back_witness :
  (bt_make 4140 32 USED ;;
   sz <- bt_size 4140 ;; u <- bt_used 4140 ;; fr <- bt_free 4140 ;;
   ret (sz, u, fr)) boxed_heap
  = Some ((32, USED, 1 - USED), poke 4140 (Z.lor 32 USED) boxed_heap).
Proof.
  apply (bt_make_read_back boxed_heap 4140 32 USED).
  - conc.
  - lia.
  - reflexivity.
  - right. reflexivity.
Defined.

Lemma bt_next_prev_witness :
  bt_footer (bt_heap_start three_free_heap + 32 + span [(32, FREE)])
            three_free_heap
  = Some (bt_heap_start three_free_heap + 32 + span [(32, FREE)] + 16 - 4,
          three_free_heap) /\
  bt_next (bt_heap_start three_free_heap + 32 + span [(32, FREE)])
          three_free_heap
  = Some (bt_heap_start three_free_heap + 32 + span [(32, FREE)] + 16,
          three_free_heap) /\
  bt_prev (bt_heap_start three_free_heap + 32 + span [(32, FREE)] + 16)
          three_free_heap
  = Some (bt_heap_start three_free_heap + 32 + span [(32, FREE)],
          three_free_heap).
Proof.
  exact (bt_next_prev three_free_heap [(32, FREE)] 16 USED
           [(64, FREE); (16, USED); (48, FREE); (16, USED)]
           [4268; 4188; 4140] three_free_heap_inv).
Defined.

Lemma lifo_connect_linked_witness :
  exists h',
    lifo_connect 4140 4188 three_free_heap = Some (tt, h') /\
    lifo_next 4140 h' = Some (4188, h') /\
    lifo_prev 4188 h' = Some (4140, h') /\
    forall w, w <> 4140 + 4 -> w <> 4188 + 8 ->
              peek h' w = peek three_free_heap w.
Proof.
  apply (lifo_connect_linked three_free_heap 4140 4188).
  - conc.
  - conc.
  - reflexivity.
  - discriminate.
  - lia.
Defined.

Lemma lifo_add_front_witness :
  exists h',
    lifo_add 4140 boxed_heap = Some (tt, h') /\ same_arena boxed_heap h' /\
    free_list h' [4140] 4124 /\
    lifo_next (bt_heap_start boxed_heap) h' = Some (4140, h') /\
    lifo_prev 4140 h' = Some (bt_heap_start boxed_heap, h').
Proof.
  apply (lifo_add_front boxed_heap [] 4124 4140).
  - conc_arena.
  - conc_free_list.
  - unfold node_ok. repeat split; conc.
  - conc_dec.
Defined.

Lemma client_safe_witness :
  exists live h' bs mid,
    (mm_init ;;
     serve_all [Malloc 24; Malloc 100; Free 4144; Realloc 4176 200;
                Calloc 3 8; Free 4144; Malloc 0] []) fresh_arena
    = Some (live, h') /\
    heap_inv h' bs mid /\
    live ≡ₚ payloads_of (bt_heap_start h' + 32) bs.
Proof.
  apply (client_safe _ fresh_arena).
  - cbn. lia.
  - reflexivity.
  - cbn. lia.
  - conc.
  - cbn. lia.
Defined.

Lemma client_coalesced_witness :
  exists live h' bs mid,
    (mm_init ;;
     serve_all [Malloc 24; Malloc 100; Free 4144; Calloc 3 8; Free 4176] [])
      fresh_arena
    = Some (live, h') /\
    heap_inv h' bs mid /\ coalesced bs.
Proof.
  apply (client_coalesced _ fresh_arena).
  - cbn. lia.
  - reflexivity.
  - cbn. lia.
  - conc.
  - cbn. lia.
  - reflexivity.
Defined.

Lemma malloc_huge_request_witness :
  exists r h',
    malloc 5 (2 ^ 64 - 1) three_free_heap = Some (r, h') /\
    ((r = NULL /\ h' = three_free_heap /\
      (forall c, (c, FREE) ∉ [(32, FREE); (16, USED); (64, FREE); (16, USED);
                              (48, FREE); (16, USED)]) /\
      mem_max three_free_heap < mem_brk three_free_heap + 16) \/
     (r <> NULL /\ exists bs' mid',
        heap_inv h' bs' mid' /\
        inserted (bt_fromptr r, 16)
          (useds (bt_heap_start three_free_heap + 32)
             [(32, FREE); (16, USED); (64, FREE); (16, USED); (48, FREE);
              (16, USED)])
          (useds (bt_heap_start h' + 32) bs'))).
Proof.
  apply (malloc_huge_request three_free_heap _ _ 5 (2 ^ 64 - 1)
           three_free_heap_inv).
  - lia.
  - cbn. lia.
Defined.

Lemma malloc_wrapped_request_faults_witness :
  malloc 5 (2 ^ 64 - 8) three_free_heap = None.
Proof.
  apply (malloc_wrapped_request_faults three_free_heap _ _ 5 (2 ^ 64 - 8)
           three_free_heap_inv).
  - conc.
  - lia.
  - cbn. lia.
Defined.

(** ** [calloc] and [realloc] at concrete arenas *)

Lemma calloc_spec_witness :
  exists r h',
    calloc 5 5 10 three_free_heap = Some (r, h') /\
    ((r = NULL /\ h' = three_free_heap /\
      malloc 5 (to_size (5 * 10)) three_free_heap
      = Some (NULL, three_free_heap)) \/
     (r <> NULL /\
      (exists h1,
         malloc 5 (to_size (5 * 10)) three_free_heap = Some (r, h1) /\
         forall w, w + 4 <= r \/ r + to_size (5 * 10) <= w ->
                   peek h' w = peek h1 w) /\
      exists bs' mid' s,
        heap_inv h' bs' mid' /\
        inserted (bt_fromptr r, s)
          (useds (bt_heap_start three_free_heap + 32)
             [(32, FREE); (16, USED); (64, FREE); (16, USED); (48, FREE);
              (16, USED)])
          (useds (bt_heap_start h' + 32) bs') /\
        to_size (5 * 10) + 8 <= s /\
        (forall i, 0 <= i < to_size (5 * 10) -> byte_at h' (r + i) = 0) /\
        payloads_kept three_free_heap h'
          (useds (bt_heap_start three_free_heap + 32)
             [(32, FREE); (16, USED); (64, FREE); (16, USED); (48, FREE);
              (16, USED)]))).
Proof.
  apply (calloc_spec three_free_heap _ _ 5 5 10 three_free_heap_inv).
  - change (to_size (5 * 10)) with 50. lia.
  - cbn. lia.
Defined.

Lemma realloc_relocate_witness :
  exists r h',
    realloc 5 (bt_payload (bt_heap_start boxed_heap + 32 + span [])) 100
            boxed_heap = Some (r, h') /\
    ((r = NULL /\ h' = boxed_heap /\
      malloc 5 100 boxed_heap = Some (NULL, boxed_heap)) \/
     (r <> NULL /\ (exists h1, malloc 5 100 boxed_heap = Some (r, h1)) /\
      exists bs' mid' s',
        (bt_heap_start boxed_heap + 32 + span [] + 32 <= bt_fromptr r \/
         bt_fromptr r + s' <= bt_heap_start boxed_heap + 32 + span []) /\
        heap_inv h' bs' mid' /\
        bt_heap_start h' = bt_heap_start boxed_heap /\
        useds (bt_heap_start boxed_heap + 32) bs'
        ≡ₚ (bt_fromptr r, s')
             :: (useds (bt_heap_start boxed_heap + 32) [] ++
                 useds (bt_heap_start boxed_heap + 32 + span [] + 32)
                       [(16, USED)]) /\
        100 + 8 <= s' /\
        (forall i, 0 <= i < Z.min (32 - 8) 100 ->
           byte_at h' (r + i)
           = byte_at boxed_heap
               (bt_payload (bt_heap_start boxed_heap + 32 + span []) + i)) /\
        payloads_kept boxed_heap h'
          (useds (bt_heap_start boxed_heap + 32) [] ++
           useds (bt_heap_start boxed_heap + 32 + span [] + 32) [(16, USED)]))).
Proof.
  apply (realloc_relocate boxed_heap [] 32 [(16, USED)] [] 5 100
           boxed_heap_inv).
  - lia.
  - cbn. lia.
  - vm_compute. reflexivity.
  - intros ns E. discriminate.
Defined.

(** ** A byte count larger than the block it gets *)

Lemma store_byte_fault h a b : ~ valid_byte h a -> store_byte a b h = None.
Proof.
  intros H. unfold store_byte. apply bind_fault. unfold load.
  destruct (valid_word h (a - a mod 4)) eqn:E; [|reflexivity].
  exfalso. apply H. unfold valid_word in E. unfold valid_byte.
  apply andb_prop in E as [E _]. apply andb_prop in E as [E1 E2]. lia.
Qed.

(** [memset] faults when its range leaves the arena: the bytes up to the
    [k]-th are inside, the [k]-th is not, and more than [k] bytes are to
    be written. *)
Lemma memset_loop_overrun c (k : nat) :
  forall (n : nat) dst h,
    (k < n)%nat ->
    (forall i, 0 <= i < Z.of_nat k -> valid_byte h (dst + i)) ->
    ~ valid_byte h (dst + Z.of_nat k) ->
    memset_loop n dst c h = None.
Proof.
  induction k as [|k IH]; intros n dst h Hk Hin Hout;
    (destruct n as [|n]; [lia|]); cbn [memset_loop].
  - apply bind_fault, store_byte_fault.
    replace dst with (dst + Z.of_nat 0) by lia. exact Hout.
  - assert (Hv : valid_byte h dst).
    { replace dst with (dst + 0) by lia. apply Hin. lia. }
    rewrite (bind_run _ _ _ _ _ (store_byte_run _ _ c Hv)).
    apply (IH n); [lia| |].
    + intros i Hi. replace (dst + 1 + i) with (dst + (i + 1)) by lia.
      pose proof (Hin (i + 1) ltac:(lia)) as Hb.
      unfold valid_byte in *. exact Hb.
    + intros Hb. apply Hout.
      replace (dst + Z.of_nat (S k)) with (dst + 1 + Z.of_nat k) by lia.
      unfold valid_byte in *. exact Hb.
Qed.

Lemma memset_overrun dst c n h k :
  0 <= k < n ->
  (forall i, 0 <= i < k -> valid_byte h (dst + i)) ->
  ~ valid_byte h (dst + k) ->
  memset dst c n h = None.
Proof.
  intros Hk Hin Hout. unfold memset.
  apply (memset_loop_overrun c (Z.to_nat k)); [lia| |].
  - intros i Hi. apply Hin. lia.
  - rewrite Z2Nat.id by lia. exact Hout.
Qed.

(** C9 fails for a byte count close to 2^64: [calloc(1, 2^64 - 1)] on
    the initialised arena. [malloc] rounds the byte count up with the same
    unchecked arithmetic, so it succeeds with a block of 16 bytes, the new
    topmost block, with 8 bytes of payload at 4144 in an arena that ends
    at 4160; [memset] overwrites the block's footer and then writes past
    the end of the arena, and the call faults instead of returning a
    zeroed region. *)
Lemma calloc_wrapped_count_overruns :
  exists h1,
    malloc 5 (to_size (1 * (2 ^ 64 - 1))) init_heap = Some (4144, h1) /\
    blk_size h1 (bt_fromptr 4144) = 16 /\
    mem_brk h1 = 4160 /\
    calloc 5 1 (2 ^ 64 - 1) init_heap = None.
Proof.
  exists (exec (malloc 5 (2 ^ 64 - 1)) init_heap).
  assert (Hmal : malloc 5 (to_size (1 * (2 ^ 64 - 1))) init_heap
                 = Some (4144, exec (malloc 5 (2 ^ 64 - 1)) init_heap)).
  { vm_compute. reflexivity. }
  assert (Hlo : mem_lo (exec (malloc 5 (2 ^ 64 - 1)) init_heap) = 4096).
  { vm_compute. reflexivity. }
  assert (Hbrk : mem_brk (exec (malloc 5 (2 ^ 64 - 1)) init_heap) = 4160).
  { vm_compute. reflexivity. }
  split; [exact Hmal|]. split; [vm_compute; reflexivity|].
  split; [exact Hbrk|].
  unfold calloc. rewrite (bind_run _ _ _ _ _ Hmal).
  change (negb (4144 =? NULL)) with true. cbv iota.
  apply bind_fault.
  apply (memset_overrun _ _ _ _ 16).
  - change (to_size (1 * (2 ^ 64 - 1))) with (2 ^ 64 - 1). lia.
  - intros i Hi. unfold valid_byte. rewrite Hlo, Hbrk. zlia.
  - unfold valid_byte. rewrite Hlo, Hbrk. zlia.
Qed.
